(* ===== verification/_CoqProject ===== *)
-Q . S2P
Prelude.v
GoStrings.v
Sha256.v
FileSystem.v
Grpc.v
Snapshot.v
Task.v
TaskConcurrency.v
Float64.v
KueueTypes.v
Scheduler.v
Controller.v
GoSlice.v
GoThreads.v
KueueThreads.v
KueueAlone.v
KueueLost.v
KueueRaces.v
ContentStore.v
ContentService.v
Reference.v
World.v
RegistryRef.v
DockerRegistry.v
ContainerdImage.v
ImageThreads.v
NerdctlImage.v
Services.v
Daemon.v
DaemonSafety.v
DaemonEffects.v
EndToEnd.v
DockerEndToEnd.v
NerdctlContainer.v
Cli.v
Dockerfile.v
Builder.v
DockerApi.v
Dockerd.v
