(* ===== verification/Prelude.v ===== *)
(** * A verification library for mini-container-ecosystem

    The repository holds four Go programs.  mini-containerd is a daemon with
    gRPC services over a content store, a snapshotter, a task manager, an image
    store and metadata stores.  mini-nerdctl and mini-docker are clients of such
    a daemon: a command line, and a REST API with a Dockerfile builder; both pull
    images from registries and upload the blobs to the daemon.  mini-kueue is a
    scheduler of batch workloads with quotas.  This library translates their
    core into Rocq functions and proves what they promise, and, where they do
    something else than they mean to, what they do instead.

    ** Files and sources

    Shared parts.
    - [Prelude]: outcomes of Go calls ([res]: a value, an error or a panic), the
      monad [GoM] of code that changes a state and may fail, machine integers,
      loops over Go maps, tactics.
    - [GoStrings]: the functions of [strings], [path/filepath] and [hex] the
      programs call.  [Sha256]: SHA-256 and [digest_of], "sha256:" with the hash.
    - [FileSystem]: names, directories, file contents and file positions, with
      a [faults] parameter that decides which system calls fail, and after how
      many bytes a write stops.
    - [Grpc]: status codes, errors and server streams.
    - [GoThreads]: goroutines as programs of accesses to shared memory ([prog]),
      their interleavings ([sys_step]), and a logic of rely and guarantee
      ([safe]) that carries over to systems of threads ([apart_steps_ok]).
      [GoSlice]: slices over arrays that other slices may share.

    mini-containerd/internal.
    - [ContentStore], [ContentService]: content/store.go, service.go.  The record
      [Store] has the maps [blobs] and [uploads] and the file system.
    - [Snapshot]: snapshot/snapshot.go, service.go.  The record [Snapshotter] is
      the map of snapshot records and the file system.
    - [Task]: task/task.go, service.go.  Tasks live in a heap, since a
      goroutine and the map of the manager share them; the goroutine that waits
      for a process is a step of its own.  [TaskConcurrency]: the calls of
      task.go as threads that take the sections of the two locks one at a time.
    - [ContainerdImage]: image/image.go, service.go, over the content store and
      the snapshotter.  [ImageThreads]: the requests of service.go as threads.
    - [Services]: containers/store.go, services/services.go.
    - [Daemon]: cmd/containerd/main.go.  The state [Server] has the stores of all
      services and the write streams in flight, [Rpc] has one request per method
      of the API, [handle] answers it with the component's handler, and
      [process_step] interleaves requests, stream messages, goroutines and the
      ends of the process.  [DaemonSafety]: what holds of every run with
      well-behaved clients.  [DaemonEffects]: which records a request acts on,
      and what its answer promises.

    mini-kueue.
    - [Float64]: IEEE binary64 quantities, exact on whole numbers below 2^53.
    - [KueueTypes]: pkg/types/types.go.  [Scheduler]: pkg/scheduler/scheduler.go.
      [Controller]: cmd/controller/main.go.  Workloads are shared between queues
      by pointer, so they live in a heap ([wheap]) and queues hold locations.
      [KueueThreads]: the four handlers as threads that share the queues without
      a lock, the sort of a queue and its comparison included.  [KueueAlone]: requests that do not overlap; [KueueLost] and
      [KueueRaces]: requests that do.

    Clients.
    - [World]: the outside world.  A [World] answers each call from the history
      of the calls before it, and the history is the state of the client's
      monad.  [wp] is the program logic the clients are proved in: a
      postcondition speaks of the events a run adds and of its outcome, for
      every world.
    - [Reference]: mini-nerdctl/pkg/reference.  [RegistryRef]: the reference and
      challenge parsers of the three packages that pull, one [Module] each.
    - [DockerRegistry]: mini-docker/pkg/registry.  [Dockerfile], [Builder]:
      mini-docker/internal/builder.  [DockerApi]: mini-docker/internal/api.
    - [NerdctlImage], [NerdctlContainer]: mini-nerdctl/pkg/image, pkg/container,
      pkg/runtime, pkg/config and the helpers of cmd/root.go.
    - [Cli]: mini-nerdctl/cmd: the commands, their flags, the shared connection
      and the exit status, over the class [Cobra], which states what the library
      documents.  [Dockerd]: mini-docker/cmd/dockerd and the routes of the API.
    - [EndToEnd]: mini-nerdctl against mini-containerd.  A [Link] turns the calls
      of a history into requests of [Daemon]; a world is [wired] when the client
      receives what that daemon answers.  [DockerEndToEnd]: the same for
      mini-docker, which receives nothing.

    An operation keeps its name in the source; a handler of a service is
    [svc_<name>] where an operation of the store has the same name.  A part of a
    long function that has a definition of its own is named after what it does.

    ** What is shown

    - The two programs together: what a successful pull of mini-nerdctl leaves in
      mini-containerd, which then serves the blobs, and that it cannot be
      repeated ([nerdctl_pull_stores], [nerdctl_pull_once]); what one of
      mini-docker leaves when nothing is lost and nothing fails, and that it
      goes the same way when everything is lost ([docker_pull_stores],
      [docker_Pull_blind]).
    - The daemon: every record is filed under its own name ([daemon_well_filed]);
      which requests make a handler panic ([daemon_crashes_iff]); a request
      changes no record but those it names, and an answer without an error means
      what the API says ([daemon_acts_on_what_is_named]); with well-behaved
      clients the invariants below hold of the daemon, whatever interleaves
      ([daemon_invariant]).
    - Quotas: the recorded use of a flavor is what its admitted workloads request
      and never exceeds the quota; a pass terminates, leaves nothing that fits,
      and follows the priorities ([quota_safety], [Schedule_terminates],
      [Schedule_saturates], [Schedule_priority]); a submission keeps the order of
      equals ([Submit_position], [Enqueue_sorted]); the first flavor that fits is
      taken ([AssignFlavor_first_fit]).  This is for requests that are not negative
      and for finishes of workloads that are still admitted: finishing twice
      breaks the quota ([double_finish_overcommits]).
    - Requests to the scheduler that overlap: one after the other, access by
      access through shared arrays, they are the sequential controller
      ([requests_one_at_a_time], [pass_alone]); no request panics unless two
      submissions or passes overlap, and then any of them can
      ([overlaps_on_queues_panic]); overlapping passes break the quota ([overlapping_passes_overcommit]), a submission that was accepted can
      be lost for good ([accepted_submission_lost]), and one can bring back a
      workload that was admitted ([workload_admitted_twice]).
    - Image requests that overlap: one after the other they are the handlers
      ([image_requests_one_at_a_time]); a label update that overlaps with another
      request for the image can end the daemon
      ([overlapping_label_update_is_fatal]).
    - Content: every blob of a reachable store is a file with exactly the hash
      the store files it under ([store_integrity], [CommitUpload_verifies]);
      what is uploaded is what is read ([write_then_read], [Read_spec]); a
      restart loses the blobs ([restart_forgets]), and a retry after a partial
      write commits a blob that does not hash to its digest
      ([retry_after_partial_write_corrupts]).
    - Snapshots: parents exist and are committed, the chain of parents ends
      ([snapshot_tree_safe], [parentChain_correct]), what the mounts, [Remove] and
      [Commit] do, and how a client can make [Prepare] run for ever.
    - Tasks: the life cycle as a step relation, exits are recorded and reported
      ([exit_is_reported]).  With the calls split into the sections of their
      locks: without [Delete] the manager is linearizable
      ([task_manager_linearizable], a forward simulation of traces), with it the
      life cycle still holds ([task_lifecycle_concurrent]), but [Delete] and [Start] can both succeed
      ([Delete_races_Start]).
    - Images and pulls: what a successful pull has fetched, checked, sent and
      registered, for the two clients and the daemon ([docker_Pull_verified],
      [nerdctl_Pull_spec], [containerd_Pull_spec]); the upload of a client ends as
      a readable blob of the daemon ([pulled_blob_readable]); how the reference
      parsers agree; that a blob can be pulled once, that a created image loses
      its target, and that removing an image removes whichever one the daemon
      lists first ([Remove_ignores_reference]).
    - Dockerfiles: parsing inverts printing, what [Parse] makes of every line and
      which error it gives, and what a build runs on the host ([Dockerfile_Parse_render],
      [Dockerfile_Parse_spec], [Build_spec]).
    - Commands: which containers [Run] leaves, the signals of [Stop], and that
      [Exec] starts nothing ([Run_leaves], [Stop_signals],
      [Exec_never_starts]); the exit status of a process, its connection, and
      what it reports ([cli_exit_status], [cli_connection], [cli_reports]); every
      request of the REST API is answered ([api_answers]), and the API creates one
      container.
    - Metadata services: both refine one abstract map service, through the class
      [Crud].

    ** Conventions and bounds

    - Strings are byte strings.  A range over a string is over its runes
      ([str_runes]), where a byte that is not UTF-8 is read as U+FFFD; the
      white-space and case functions follow Go on ASCII text.
    - [now] arguments are the values of [time.Now()]; a time is a [Z].
    - The order in which Go ranges over a map is unspecified.  [Schedule] and the
      image service's [List], on which results depend, take the order as an
      argument ([go_order]); elsewhere a list over a map is [map_to_list], and
      results that depend on its order are not claimed.
    - A failed system call has no effect, but for a write: it may stop after any
      number of its bytes, and the file and the position are then as after these
      bytes.
    - Loops without a structural measure take fuel and answer [None] when it runs
      out; [parentChain] needs one unit more than there are snapshots, a
      scheduling pass one more than the longest queue has workloads, [Read] one
      more than the blob has bytes, and theorems state that these are enough.
    - mini-containerd's stores run each operation under their lock, so an
      operation is one step.  The task manager does not: [Task] and [Daemon] take
      its calls as single steps, and [TaskConcurrency] relates these to the
      sections of the locks.  The label updates of the content and image services
      change a record outside of the lock: [Daemon] takes its calls one after the
      other, and [ImageThreads] takes those of the image service apart; the
      content service's update has the same shape and is not taken apart.
      mini-kueue's scheduler has no lock: [Scheduler] and [Controller] take its
      calls one after the other, [KueueThreads] takes them apart.
    - A handler of [Daemon] that waits, or whose loop has not ended with the fuel
      it has, is [Blocked]: it has no answer.
    - The accesses of threads take effect in the order of their interleaving.  A
      slice header, a map of quantities and a range over a map are one access
      each; the language promises less, so what the threads reach, the code
      reaches, and what they are shown never to do is shown for this order of
      accesses.  [sort.SliceStable] is its insertion sort, comparison by
      comparison and swap by swap, which is all it does up to twenty elements.  How much room [append] leaves in a new
      array is a parameter, [grow]; executions use the runtime's doubling.
    - A run of [TaskConcurrency] shows calls, answers and ends of processes; the
      order of the signals sent by different calls is not part of the comparison.
    - An error keeps the constructor or the context text its source gives it; the
      text of a library's error is not modelled.
    - JSON decoding, HTTP, the containerd client library, go-digest's [Encoded],
      cobra, the shell and [cp] are parameters.  Assumptions about them are
      records: [daemon_ok] (identifiers that are taken are refused),
      [image_daemon] (the library passes image calls on to the service), [wired]
      (the transport delivers what the daemon answers), and the laws of [Cobra].
    - The content store and the snapshotter keep their files in different
      directories, and each has the file system it sees in its own record.
    - [EndToEnd] has one client and, at a time, one stream of it in use; every
      call finds the daemon's machine in a state of its own, so clocks and
      failures are arbitrary; a call can fail because it never reached the daemon
      or because the answer was lost after the daemon acted ([Moment], [cut]).  A
      cancelled context shows as a call that fails.  A message that arrives is
      handled before the client's next call: mini-nerdctl waits for each answer,
      mini-docker does not.  [DockerEndToEnd] therefore assumes this, and, where
      it says so, machines that do not fail ([calm]), messages that arrive, a
      store without uncommitted uploads of the image's digests, in whose directory
      no directory stands where a file goes ([clear], kept by every step of the
      store), and sends that succeed.

    ** What is not modelled

    The transport of gRPC and HTTP, and the delivery of signals, whose effect is
    a step; how [tabwriter] aligns the columns it is given; the empty packages of
    planned subsystems; the protocol definitions, whose messages are records
    where a service fills them; the deployment scripts of mini-kubepray. *)

From stdpp Require Export base tactics numbers list gmap strings sorting functions.
From Stdlib Require Export ZArith Lia.
From Stdlib Require Import FunctionalExtensionality.
From stdpp Require Export list.
Open Scope Z_scope.
Open Scope string_scope.
Open Scope list_scope.
Open Scope nat_scope.

(** ** Outcomes of a Go call

    A Go function that returns [(T, error)] either returns a value, returns a
    non-nil error, or panics (a run-time error such as an out-of-range index
    or a nil dereference, which unwinds the calling goroutine). *)

Inductive res (E A : Type) : Type :=
| Ok (a : A)
| Err (e : E)
| Panic.
Arguments Ok {E A} a.
Arguments Err {E A} e.
Arguments Panic {E A}.

Definition res_bind {E A B : Type} (m : res E A) (k : A -> res E B) : res E B :=
  match m with
  | Ok a => k a
  | Err e => Err e
  | Panic => Panic
  end.

(** [fmt.Errorf("...: %w", err)]: the error is wrapped, a panic is not. *)
Definition res_wrap {E F A : Type} (f : E -> F) (m : res E A) : res F A :=
  match m with
  | Ok a => Ok a
  | Err e => Err (f e)
  | Panic => Panic
  end.

Definition res_is_ok {E A : Type} (m : res E A) : bool :=
  match m with Ok _ => true | _ => false end.

(** ** Go code that mutates a state and may fail

    The state changes made before an error stay in place, so the new state is
    returned next to the outcome. *)

Definition GoM (S E A : Type) : Type := S -> S * res E A.

Definition go_ret {S E A : Type} (a : A) : GoM S E A := fun s => (s, Ok a).
Definition go_err {S E A : Type} (e : E) : GoM S E A := fun s => (s, Err e).
Definition go_panic {S E A : Type} : GoM S E A := fun s => (s, Panic).

Definition go_bind {S E A B : Type} (m : GoM S E A) (k : A -> GoM S E B) : GoM S E B :=
  fun s =>
    match m s with
    | (s', Ok a) => k a s'
    | (s', Err e) => (s', Err e)
    | (s', Panic) => (s', Panic)
    end.

(** [if err := m(); err != nil { return wrap(err) }]. *)
Definition go_wrap {S E F A : Type} (f : E -> F) (m : GoM S E A) : GoM S F A :=
  fun s => match m s with (s', r) => (s', res_wrap f r) end.

(** An outcome that does not touch the state. *)
Definition go_lift {S E A : Type} (r : res E A) : GoM S E A := fun s => (s, r).

Declare Scope go_scope.
Delimit Scope go_scope with go.
Notation "x <-! m ; k" := (go_bind m (fun x => k))
  (at level 100, m at next level, k at level 200, right associativity) : go_scope.
Notation "m ;;! k" := (go_bind m (fun _ => k))
  (at level 100, k at level 200, right associativity) : go_scope.

(** ** State invariants of Go code

    [preserves I m]: whatever [m] answers, it keeps [I].  The rules go through a
    handler down to its operations. *)

Definition preserves {S E A : Type} (I : S -> Prop) (m : GoM S E A) : Prop := forall s, I s -> I (m s).1.

Section preserves.
Context {S E : Type} (I : S -> Prop).

Lemma preserves_lift {A : Type} (r : res E A) : preserves I (go_lift r).
Proof. by intros s. Qed.

Lemma preserves_read {A : Type} (f : S -> res E A) : preserves I (fun s => (s, f s)).
Proof. by intros s. Qed.

Lemma preserves_bind {A B : Type} (m : GoM S E A) (k : A -> GoM S E B) :
  preserves I m -> (forall a, preserves I (k a)) -> preserves I (go_bind m k).
Proof.
  intros Hm Hk s Hs. unfold go_bind. specialize (Hm s Hs). destruct (m s) as [s' [a|e|]]; [by apply Hk|done..].
Qed.

Lemma preserves_wrap {F A : Type} (f : E -> F) (m : GoM S E A) : preserves I m -> preserves I (go_wrap f m).
Proof. intros Hm s Hs. unfold go_wrap. specialize (Hm s Hs). by destruct (m s). Qed.

End preserves.

Create HintDb preserves.
#[export] Hint Resolve preserves_lift preserves_read preserves_bind preserves_wrap : preserves.

(** Goes through a handler; what is left are the operations it calls. *)
Ltac preserves_step :=
  match goal with
  | |- preserves _ (go_lift _) => apply preserves_lift
  | |- preserves _ (go_ret ?a) => apply (preserves_lift _ (Ok a))
  | |- preserves _ (go_err ?e) => apply (preserves_lift _ (Err e))
  | |- preserves _ go_panic => apply (preserves_lift _ Panic)
  | |- preserves _ (go_bind _ _) => apply preserves_bind; [|intros ?]
  | |- preserves _ (go_wrap _ _) => apply preserves_wrap
  | |- preserves _ (fun s => (s, _)) => apply preserves_read
  | |- preserves _ (match ?x with _ => _ end) => destruct x
  end.
Ltac preserves := repeat preserves_step; eauto with preserves.

(** ** Machine integers *)

(** [int] and [int64] arithmetic wraps. *)
Definition wrap64 (z : Z) : Z := ((z + 2 ^ 63) mod 2 ^ 64 - 2 ^ 63)%Z.

(** The conversions [uint32(x)]. *)
Definition to_uint32 (z : Z) : Z := (z mod 2 ^ 32)%Z.

Definition in_int64 (z : Z) : Prop := (- 2 ^ 63 <= z < 2 ^ 63)%Z.

(** ** Ranging over a Go map

    The iteration order of [for k, v := range m] is unspecified, so a loop is
    modelled by a fold over [map_to_list], and the lemmas below say what such
    a loop computes independently of the order. *)

(** A loop that returns false at the first entry failing [f]. *)
Definition gmap_all {V : Type} (f : string -> V -> bool) (m : gmap string V) : bool :=
  forallb (fun kv => f kv.1 kv.2) (map_to_list m).

Definition gmap_any {V : Type} (f : string -> V -> bool) (m : gmap string V) : bool :=
  existsb (fun kv => f kv.1 kv.2) (map_to_list m).

(** [for k, v := range src { dst[k] = v }]. *)
Definition gmap_copy {V : Type} (src dst : gmap string V) : gmap string V :=
  map_fold (fun k v acc => <[k := v]> acc) dst src.

(** ** Shared tactics *)

(** Case analysis on the scrutinee of a [match] or [if] in the goal or in a
    hypothesis, keeping the equation. *)
Ltac case_step :=
  match goal with
  | |- context [match ?x with _ => _ end] => destruct x eqn:?
  | H : context [match ?x with _ => _ end] |- _ => destruct x eqn:?
  end.

Ltac go_cases := repeat (case_step; simplify_eq/=).

Ltac bool_simp :=
  repeat match goal with
  | H : (_ && _) = true |- _ => apply andb_true_iff in H as [? ?]
  | H : (_ || _) = false |- _ => apply orb_false_iff in H as [? ?]
  | H : negb _ = true |- _ => apply negb_true_iff in H
  | H : negb _ = false |- _ => apply negb_false_iff in H
  | H : bool_decide _ = true |- _ => apply bool_decide_eq_true in H
  | H : bool_decide _ = false |- _ => apply bool_decide_eq_false in H
  end.

(** An equation between closed terms, decided by the virtual machine. *)
Ltac vm_eq := match goal with |- @eq ?T ?a ?b => vm_cast_no_check (@eq_refl T b) end.

(** ** Lemmas *)

Lemma gmap_all_spec {V : Type} (f : string -> V -> bool) (m : gmap string V) :
  gmap_all f m = true <-> (forall k v, m !! k = Some v -> f k v = true).
Proof.
  unfold gmap_all. rewrite forallb_forall. split.
  - intros H k v Hk. apply (H (k, v)). apply list_elem_of_In.
    by apply elem_of_map_to_list.
  - intros H [k v] Hin. apply list_elem_of_In, elem_of_map_to_list in Hin. eauto.
Qed.

Lemma gmap_any_spec {V : Type} (f : string -> V -> bool) (m : gmap string V) :
  gmap_any f m = true <-> (exists k v, m !! k = Some v /\ f k v = true).
Proof.
  unfold gmap_any. rewrite existsb_exists. split.
  - intros ([k v] & Hin & Hf). apply list_elem_of_In, elem_of_map_to_list in Hin. eauto.
  - intros (k & v & Hk & Hf). exists (k, v). split; [|done].
    apply list_elem_of_In. by apply elem_of_map_to_list.
Qed.

Lemma gmap_any_false {V : Type} (f : string -> V -> bool) (m : gmap string V) :
  gmap_any f m = false <-> (forall k v, m !! k = Some v -> f k v = false).
Proof.
  split.
  - intros H k v Hk. destruct (f k v) eqn:E; [|done].
    rewrite <- H. symmetry. apply gmap_any_spec. eauto.
  - intros H. destruct (gmap_any f m) eqn:E; [|done].
    apply gmap_any_spec in E as (k & v & Hk & Hf). by rewrite (H k v Hk) in Hf.
Qed.

(** Copying the entries of one map over another is the left-biased union. *)
Lemma gmap_copy_union {V : Type} (src dst : gmap string V) :
  gmap_copy src dst = src ∪ dst.
Proof.
  unfold gmap_copy.
  apply (map_fold_weak_ind (fun r m => r = m ∪ dst)).
  - by rewrite (left_id_L ∅ (∪)).
  - intros k v m r Hk ->. by rewrite insert_union_l.
Qed.

Lemma gmap_copy_empty {V : Type} (src : gmap string V) : gmap_copy src ∅ = src.
Proof. rewrite gmap_copy_union. apply (right_id_L ∅ (∪)). Qed.

Lemma wrap64_id (z : Z) : in_int64 z -> wrap64 z = z.
Proof. unfold in_int64, wrap64. intros H. rewrite Z.mod_small; lia. Qed.

Lemma to_uint32_id (z : Z) : (0 <= z < 2 ^ 32)%Z -> to_uint32 z = z.
Proof. apply Z.mod_small. Qed.

Lemma forallb_ext_in {A : Type} (f g : A -> bool) (l : list A) :
  (forall x, x ∈ l -> f x = g x) -> forallb f l = forallb g l.
Proof.
  intros H. induction l as [|x l IH]; [done|]. cbn.
  rewrite (H x) by set_solver. rewrite IH; [done|]. set_solver.
Qed.

(** A fold of a Go map whose body only writes the visited key: the value at
    each key is computed from the initial value at that key. *)
Lemma map_fold_pointwise {V : Type} (f : option V -> V -> V) (src dst : gmap string V) (k : string) :
  map_fold (fun k v acc => <[k := f (acc !! k) v]> acc) dst src !! k =
  match src !! k with
  | Some v => Some (f (dst !! k) v)
  | None => dst !! k
  end.
Proof.
  revert k.
  apply (map_fold_weak_ind (fun r (m : gmap string V) =>
    forall k, r !! k = match m !! k with Some v => Some (f (dst !! k) v) | None => dst !! k end)).
  - intros k. by rewrite lookup_empty.
  - intros i x m r Hi IH k. destruct (decide (i = k)) as [->|Hne].
    + by rewrite !lookup_insert_eq, IH, Hi.
    + by rewrite !lookup_insert_ne by done.
Qed.

(** Functions as stores. *)
Lemma fn_insert_twice {A B : Type} `{EqDecision A} (h : A -> B) (a : A) (x y : B) : <[a := x]> (<[a := y]> h) = <[a := x]> h.
Proof.
  apply functional_extensionality. intros b. destruct (decide (a = b)) as [->|Hne].
  - by rewrite !fn_lookup_insert.
  - by rewrite !fn_lookup_insert_ne.
Qed.

Lemma fn_insert_same {A B : Type} `{EqDecision A} (h : A -> B) (a : A) (x : B) : h a = x -> <[a := x]> h = h.
Proof.
  intros <-. apply functional_extensionality. intros b. destruct (decide (a = b)) as [->|Hne].
  - by rewrite fn_lookup_insert.
  - by rewrite fn_lookup_insert_ne.
Qed.

(** The order in which a [range] over a Go map visits the keys: Go chooses one
    anew for every loop, so a definition that depends on it takes it as an
    argument. *)
Definition go_order : Type := list string -> list string.

Class GoOrder (ord : go_order) : Prop := go_order_perm : forall ks, ord ks ≡ₚ ks.

#[export] Instance go_order_any : GoOrder (fun ks => ks).
Proof. by intros ks. Qed.

Definition map_keys {V : Type} (m : gmap string V) : list string := map fst (map_to_list m).

Definition go_range {V : Type} (ord : go_order) (m : gmap string V) : list V := omap (fun k => m !! k) (ord (map_keys m)).

Lemma elem_of_map_keys {V : Type} (m : gmap string V) (k : string) : k ∈ map_keys m <-> is_Some (m !! k).
Proof.
  unfold map_keys. rewrite list_elem_of_fmap. split.
  - intros ([k' v] & -> & Hv%elem_of_map_to_list). by exists v.
  - intros [v Hv]. exists (k, v). split; [done|]. by apply elem_of_map_to_list.
Qed.

Lemma elem_of_go_range {V : Type} (ord : go_order) `{!GoOrder ord} (m : gmap string V) (v : V) :
  v ∈ go_range ord m <-> exists k, m !! k = Some v.
Proof.
  unfold go_range. rewrite list_elem_of_omap. split; [intros (k & _ & Hk); eauto|].
  intros [k Hk]. exists k. split; [|done]. rewrite (go_order_perm (map_keys m)). apply elem_of_map_keys. by eexists.
Qed.

(** The first record a loop sees is that of the first key of its order. *)
Lemma go_range_head {V : Type} (ord : go_order) `{!GoOrder ord} (m : gmap string V) :
  m <> ∅ -> exists k v vs, head (ord (map_keys m)) = Some k /\ m !! k = Some v /\ go_range ord m = v :: vs.
Proof.
  intros Hm. unfold go_range. destruct (ord (map_keys m)) as [|k ks] eqn:Ho.
  - destruct Hm. pose proof (go_order_perm (map_keys m)) as Hp. rewrite Ho in Hp.
    apply Permutation_nil_l in Hp. unfold map_keys in Hp. apply map_to_list_empty_iff. by apply symmetry, fmap_nil_inv in Hp.
  - assert (Hk : is_Some (m !! k)).
    { apply elem_of_map_keys. rewrite <- (go_order_perm (map_keys m)), Ho. by left. }
    destruct Hk as [v Hv]. exists k, v. cbn. rewrite Hv. by eexists.
Qed.

(** Any key can come first. *)
Lemma go_order_first (k : string) : exists ord, GoOrder ord /\ forall ks, k ∈ ks -> head (ord ks) = Some k.
Proof.
  exists (fun ks => filter (eq k) ks ++ filter (fun x => k <> x) ks). split.
  - intros ks. induction ks as [|x ks IH]; [done|]. rewrite !filter_cons. destruct (decide (k = x)) as [->|Hne].
    + rewrite decide_False by (by intros H). cbn. by rewrite IH.
    + rewrite decide_True by done. by rewrite <- Permutation_middle, IH.
  - intros ks Hk. induction ks as [|x ks IH]; [by apply not_elem_of_nil in Hk|]. rewrite filter_cons.
    destruct (decide (k = x)) as [->|Hne]; [done|]. apply elem_of_cons in Hk as [?|Hk]; [done|]. specialize (IH Hk).
    rewrite filter_cons. rewrite decide_True by done.
    destruct (filter (eq k) ks) eqn:Hf; [|done]. exfalso.
    assert (Hin : k ∈ filter (eq k) ks) by by apply list_elem_of_filter. rewrite Hf in Hin. by apply not_elem_of_nil in Hin.
Qed.

(** Assigning the entries of a Go map one after the other, in any order. *)
Definition assign_all {V : Type} (kvs : list (string * V)) (m : gmap string V) : gmap string V :=
  fold_left (fun acc kv => <[kv.1 := kv.2]> acc) kvs m.

Lemma assign_all_copy {V : Type} (src dst : gmap string V) : assign_all (map_to_list src) dst = gmap_copy src dst.
Proof.
  rewrite gmap_copy_union. unfold assign_all. rewrite <- fold_left_rev_right.
  pose proof (foldr_insert_union dst (rev (map_to_list src))) as Hf.
  assert (Hp : list_to_map (rev (map_to_list src)) = src).
  { etrans; [|apply list_to_map_to_list]. apply list_to_map_proper.
    - rewrite map_rev, <- Permutation_rev. apply NoDup_fst_map_to_list.
    - by rewrite <- Permutation_rev. }
  rewrite Hp in Hf. exact Hf.
Qed.

Create Rewrite HintDb gomap.
#[export] Hint Rewrite @gmap_copy_union @gmap_copy_empty @lookup_insert_eq : gomap.
