(* ===== verification/GoStrings.v ===== *)
(** * The part of Go's [strings] and [path/filepath] packages the program uses

    A Go string is a byte string ([String.string]).  Separators in the program
    are always one byte, so the splitting functions take an [ascii].  Indexes
    are [option nat]: [None] is Go's [-1].  The case and white-space functions
    follow Go on ASCII text. *)

From S2P Require Import Prelude.
From stdpp Require Export pretty.
From Stdlib Require Export Ascii.
Open Scope string_scope.
Open Scope list_scope.
Open Scope nat_scope.

#[global] Arguments String.append !_ _ : simpl nomatch.

(** ** Bytes *)

Definition ch_slash : ascii := "/"%char.
Definition ch_colon : ascii := ":"%char.
Definition ch_at : ascii := "@"%char.
Definition ch_dot : ascii := "."%char.
Definition ch_comma : ascii := ","%char.
Definition ch_space : ascii := " "%char.
Definition ch_dquote : ascii := ascii_of_nat 34.
Definition ch_squote : ascii := ascii_of_nat 39.
Definition ch_backslash : ascii := ascii_of_nat 92.
Definition ch_newline : ascii := ascii_of_nat 10.

(** The one-byte string, Go's [string(c)]. *)
Definition str1 (c : ascii) : string := String c EmptyString.

Definition dq : string := str1 ch_dquote.
Definition nl : string := str1 ch_newline.

(** [unicode.IsSpace] on ASCII: tab, newline, vertical tab, form feed,
    carriage return and space. *)
Definition is_space (c : ascii) : bool :=
  let n := nat_of_ascii c in ((9 <=? n) && (n <=? 13)) || (n =? 32).

Definition is_digit (c : ascii) : bool :=
  let n := nat_of_ascii c in (48 <=? n) && (n <=? 57).

Definition ascii_upper (c : ascii) : ascii :=
  let n := nat_of_ascii c in
  if (97 <=? n) && (n <=? 122) then ascii_of_nat (n - 32) else c.

(** ** Runes

    [for _, c := range s] takes the UTF-8 encodings one by one; a byte that
    starts none is the replacement character.  A rune is its encoding here. *)

Definition byte_in (lo hi : nat) (c : ascii) : bool := let n := nat_of_ascii c in (lo <=? n) && (n <=? hi).
Definition is_ascii (c : ascii) : bool := nat_of_ascii c <? 128.

(** The bytes of the encoding at the front. *)
Definition rune_width (s : string) : option nat :=
  match s with
  | EmptyString => None
  | String a s =>
      if is_ascii a then Some 1
      else
        match s with
        | EmptyString => None
        | String b s =>
            if byte_in 194 223 a then if byte_in 128 191 b then Some 2 else None
            else if byte_in 224 239 a then
              let lo := if nat_of_ascii a =? 224 then 160 else 128 in
              let hi := if nat_of_ascii a =? 237 then 159 else 191 in
              match s with
              | String c _ => if byte_in lo hi b && byte_in 128 191 c then Some 3 else None
              | EmptyString => None
              end
            else if byte_in 240 244 a then
              let lo := if nat_of_ascii a =? 240 then 144 else 128 in
              let hi := if nat_of_ascii a =? 244 then 143 else 191 in
              match s with
              | String c (String d _) => if byte_in lo hi b && byte_in 128 191 c && byte_in 128 191 d then Some 4 else None
              | _ => None
              end
            else None
        end
  end.

(** U+FFFD. *)
Definition rune_error : string :=
  String (ascii_of_nat 239) (String (ascii_of_nat 191) (String (ascii_of_nat 189) EmptyString)).

(** ** Searching *)

(** [strings.Contains(s, string(c))]. *)
Fixpoint str_has (c : ascii) (s : string) : bool :=
  match s with
  | EmptyString => false
  | String a s' => Ascii.eqb a c || str_has c s'
  end.

(** [strings.Index(s, string(c))]. *)
Fixpoint str_index (c : ascii) (s : string) : option nat :=
  match s with
  | EmptyString => None
  | String a s' =>
      if Ascii.eqb a c then Some 0 else option_map S (str_index c s')
  end.

(** [strings.LastIndex(s, string(c))]. *)
Fixpoint str_last_index (c : ascii) (s : string) : option nat :=
  match s with
  | EmptyString => None
  | String a s' =>
      match str_last_index c s' with
      | Some i => Some (S i)
      | None => if Ascii.eqb a c then Some 0 else None
      end
  end.

(** Every byte satisfies [f]. *)
Fixpoint str_all (f : ascii -> bool) (s : string) : bool :=
  match s with
  | EmptyString => true
  | String a s' => f a && str_all f s'
  end.

(** ** Slicing: [s[:n]] and [s[n:]] for [n <= len(s)]. *)

Fixpoint str_take (n : nat) (s : string) : string :=
  match n, s with
  | S n', String a s' => String a (str_take n' s')
  | _, _ => EmptyString
  end.

Fixpoint str_drop (n : nat) (s : string) : string :=
  match n, s with
  | S n', String _ s' => str_drop n' s'
  | 0, _ => s
  | S _, EmptyString => EmptyString
  end.

(** The runes of [s], which has at most [n] bytes. *)
Fixpoint runes_from (n : nat) (s : string) : list string :=
  match n, s with
  | S n, String _ _ =>
      match rune_width s with
      | Some k => str_take k s :: runes_from n (str_drop k s)
      | None => rune_error :: runes_from n (str_drop 1 s)
      end
  | _, _ => []
  end.

Definition str_runes (s : string) : list string := runes_from (String.length s) s.

(** [strings.ToValidUTF8(s, U+FFFD)], byte by byte: what writing the runes of
    [s] gives. *)
Definition str_valid (s : string) : string := String.concat "" (str_runes s).

(** [s[:n]] with Go's bounds check: out of range panics. *)
Definition str_slice_to {E : Type} (n : nat) (s : string) : res E string :=
  if n <=? String.length s then Ok (str_take n s) else Panic.

Definition has_prefix (s p : string) : bool :=
  (String.length p <=? String.length s) && String.eqb (str_take (String.length p) s) p.

Definition has_suffix (s p : string) : bool :=
  (String.length p <=? String.length s) &&
  String.eqb (str_drop (String.length s - String.length p) s) p.

Definition trim_prefix (s p : string) : string :=
  if has_prefix s p then str_drop (String.length p) s else s.

(** ** Splitting and joining *)

(** [strings.Split(s, string(c))]. *)
Fixpoint str_split (c : ascii) (s : string) : list string :=
  match s with
  | EmptyString => [EmptyString]
  | String a s' =>
      if Ascii.eqb a c then EmptyString :: str_split c s'
      else match str_split c s' with
           | w :: ws => String a w :: ws
           | [] => [str1 a]
           end
  end.

(** [strings.SplitN(s, string(c), n)] for [n >= 0]. *)
Fixpoint str_splitN (n : nat) (c : ascii) (s : string) : list string :=
  match n with
  | 0 => []
  | 1 => [s]
  | S n' =>
      match str_index c s with
      | None => [s]
      | Some i => str_take i s :: str_splitN n' c (str_drop (S i) s)
      end
  end.

(** [strings.Join(l, sep)]. *)
Fixpoint str_join (sep : string) (l : list string) : string :=
  match l with
  | [] => EmptyString
  | [w] => w
  | w :: ws => w +:+ sep +:+ str_join sep ws
  end.

(** [parts[0]]: the splitting functions never return an empty list. *)
Definition str_hd (l : list string) : string :=
  match l with w :: _ => w | [] => EmptyString end.

(** ** Trimming *)

Fixpoint trim_left (f : ascii -> bool) (s : string) : string :=
  match s with
  | EmptyString => EmptyString
  | String a s' => if f a then trim_left f s' else s
  end.

Fixpoint trim_right (f : ascii -> bool) (s : string) : string :=
  match s with
  | EmptyString => EmptyString
  | String a s' =>
      match trim_right f s' with
      | EmptyString => if f a then EmptyString else str1 a
      | r => String a r
      end
  end.

Definition trim_space (s : string) : string := trim_right is_space (trim_left is_space s).

(** [strings.Trim(s, string(c))]. *)
Definition trim_byte (s : string) (c : ascii) : string :=
  trim_right (Ascii.eqb c) (trim_left (Ascii.eqb c) s).

(** [strings.Fields]: the maximal runs of non-space bytes. *)
Fixpoint fields_from (s cur : string) : list string :=
  match s with
  | EmptyString => if String.eqb cur "" then [] else [cur]
  | String a s' =>
      if is_space a
      then (if String.eqb cur "" then fields_from s' "" else cur :: fields_from s' "")
      else fields_from s' (cur +:+ str1 a)
  end.

Definition str_fields (s : string) : list string := fields_from s "".

Fixpoint to_upper (s : string) : string :=
  match s with
  | EmptyString => EmptyString
  | String a s' => String (ascii_upper a) (to_upper s')
  end.

(** ** [filepath.Clean] and [filepath.Join] on Unix paths *)

(** The element stack [Clean] keeps, top first: "." and empty elements are
    dropped, ".." pops an element, stays at the front of a relative path and
    disappears at the root. *)
Fixpoint clean_elems (rooted : bool) (elems stack : list string) : list string :=
  match elems with
  | [] => stack
  | e :: es =>
      if String.eqb e "" || String.eqb e "." then clean_elems rooted es stack
      else if String.eqb e ".." then
        match stack with
        | top :: rest =>
            if String.eqb top ".." then clean_elems rooted es (".." :: stack)
            else clean_elems rooted es rest
        | [] => clean_elems rooted es (if rooted then [] else [".."])
        end
      else clean_elems rooted es (e :: stack)
  end.

Definition is_rooted (p : string) : bool := has_prefix p "/".

(** The cleaned elements of a path, in path order. *)
Definition path_elems (p : string) : list string :=
  rev (clean_elems (is_rooted p) (str_split ch_slash p) []).

Definition path_of_elems (rooted : bool) (es : list string) : string :=
  if rooted then "/" +:+ str_join "/" es
  else match es with [] => "." | _ => str_join "/" es end.

Definition path_clean (p : string) : string :=
  path_of_elems (is_rooted p) (path_elems p).

(** [filepath.Join]: empty elements are ignored; all empty gives "". *)
Definition path_join (ps : list string) : string :=
  match List.filter (fun p => negb (String.eqb p "")) ps with
  | [] => ""
  | ps' => path_clean (str_join "/" ps')
  end.

(** [filepath.Dir] of a cleaned rooted path. *)
Definition path_dir (p : string) : string :=
  path_of_elems (is_rooted p) (removelast (path_elems p)).

#[global] Arguments path_elems : simpl never.
#[global] Arguments path_join : simpl never.
#[global] Arguments path_clean : simpl never.
#[global] Arguments path_dir : simpl never.

(** ** Hexadecimal encoding *)

Definition hex_digit (n : N) : ascii :=
  if (n <? 10)%N then ascii_of_N (48 + n) else ascii_of_N (87 + n).

(** [hex.EncodeToString]. *)
Fixpoint hex_encode (bs : list Byte.byte) : string :=
  match bs with
  | [] => ""
  | b :: bs' =>
      let n := Byte.to_N b in
      String (hex_digit (n / 16)%N) (String (hex_digit (n mod 16)%N) (hex_encode bs'))
  end.

(** [fmt.Sprintf("%x", n)]: at most 16 digits for a 64-bit integer. *)
Fixpoint hex_nat (fuel : nat) (n : N) : string :=
  match fuel with
  | 0 => ""
  | S fuel' =>
      if (n <? 16)%N then str1 (hex_digit n)
      else hex_nat fuel' (n / 16)%N +:+ str1 (hex_digit (n mod 16)%N)
  end.

Definition hex_int64 (z : Z) : string :=
  if (z <? 0)%Z then "-" +:+ hex_nat 16 (Z.to_N (- z)) else hex_nat 16 (Z.to_N z).

(** ** Lemmas: append and slicing *)

Lemma str_app_nil_r (s : string) : s +:+ "" = s.
Proof. induction s as [|a s IH]; [done|]. cbn. by rewrite IH. Qed.

Lemma str_app_assoc (s t u : string) : (s +:+ t) +:+ u = s +:+ (t +:+ u).
Proof. induction s as [|a s IH]; [done|]. cbn. by rewrite IH. Qed.

Lemma str_app_length (s t : string) :
  String.length (s +:+ t) = String.length s + String.length t.
Proof. induction s as [|a s IH]; [done|]. cbn. by rewrite IH. Qed.

Lemma str_take_app (s t : string) : str_take (String.length s) (s +:+ t) = s.
Proof. induction s as [|a s IH]; [by destruct t|]. cbn. by rewrite IH. Qed.

Lemma str_drop_app (s t : string) : str_drop (String.length s) (s +:+ t) = t.
Proof. induction s as [|a s IH]; [done|]. cbn. by rewrite IH. Qed.

Lemma str_drop_app_cons (s t : string) (c : ascii) :
  str_drop (S (String.length s)) (s +:+ String c t) = t.
Proof. induction s as [|a s IH]; [done|exact IH]. Qed.

Lemma str_take_all (s : string) : str_take (String.length s) s = s.
Proof. induction s as [|a s IH]; [done|]. cbn. by rewrite IH. Qed.

Lemma str_take_drop (n : nat) (s : string) : str_take n s +:+ str_drop n s = s.
Proof. revert s. induction n as [|n IH]; intros [|a s]; try done. cbn. by rewrite IH. Qed.

Lemma str_app_inv_head (s t u : string) : s +:+ t = s +:+ u -> t = u.
Proof. induction s as [|a s IH]; cbn; [done|]. intros [= H]. auto. Qed.

Lemma has_prefix_app (p s : string) : has_prefix (p +:+ s) p = true.
Proof.
  unfold has_prefix. rewrite str_app_length, str_take_app, String.eqb_refl.
  rewrite andb_true_r. apply Nat.leb_le. lia.
Qed.

Lemma trim_prefix_app (p s : string) : trim_prefix (p +:+ s) p = s.
Proof. unfold trim_prefix. by rewrite has_prefix_app, str_drop_app. Qed.

(** ** Lemmas: searching *)

Lemma ascii_eqb_refl (c : ascii) : Ascii.eqb c c = true.
Proof. by apply Ascii.eqb_eq. Qed.

Lemma str_has_app (c : ascii) (s t : string) :
  str_has c (s +:+ t) = str_has c s || str_has c t.
Proof. induction s as [|a s IH]; [done|]. cbn. by rewrite IH, orb_assoc. Qed.

Lemma str_has_cons_eq (c : ascii) (s : string) : str_has c (String c s) = true.
Proof. cbn. by rewrite ascii_eqb_refl. Qed.

Lemma str_index_None (c : ascii) (s : string) :
  str_has c s = false <-> str_index c s = None.
Proof.
  induction s as [|a s IH]; [done|]. cbn. destruct (Ascii.eqb a c); [done|]. cbn.
  rewrite IH. by destruct (str_index c s).
Qed.

Lemma str_last_index_None (c : ascii) (s : string) :
  str_has c s = false <-> str_last_index c s = None.
Proof.
  induction s as [|a s IH]; [done|]. cbn.
  destruct (str_last_index c s) as [i|].
  - split; [|done]. intros H. apply orb_false_iff in H as [_ H]. by apply IH in H.
  - rewrite (proj2 IH eq_refl), orb_false_r. by destruct (Ascii.eqb a c).
Qed.

Lemma str_index_app (c : ascii) (s t : string) :
  str_has c s = false -> str_index c (s +:+ String c t) = Some (String.length s).
Proof.
  induction s as [|a s IH]; cbn; intros H.
  - by rewrite ascii_eqb_refl.
  - apply orb_false_iff in H as [-> H]. by rewrite IH.
Qed.

Lemma str_index_app_notin (c : ascii) (s t : string) :
  str_has c s = false -> str_index c (s +:+ t) = option_map (Nat.add (String.length s)) (str_index c t).
Proof.
  induction s as [|a s IH]; cbn; intros H.
  - by destruct (str_index c t).
  - apply orb_false_iff in H as [-> H]. rewrite IH by done. by destruct (str_index c t).
Qed.

Lemma str_last_index_app (c : ascii) (s t : string) :
  str_has c t = false -> str_last_index c (s +:+ String c t) = Some (String.length s).
Proof.
  intros H. induction s as [|a s IH]; cbn.
  - by apply str_last_index_None in H as ->; rewrite ascii_eqb_refl.
  - by rewrite IH.
Qed.

Lemma str_last_index_app_notin (c : ascii) (s t : string) :
  str_has c t = false -> str_last_index c (s +:+ t) = str_last_index c s.
Proof.
  intros H. induction s as [|a s IH]; cbn.
  - by apply str_last_index_None.
  - by rewrite IH.
Qed.

(** Where the search finds [c], the string splits there. *)
Lemma str_index_Some (c : ascii) (s : string) (i : nat) :
  str_index c s = Some i ->
  s = str_take i s +:+ String c (str_drop (S i) s) /\ str_has c (str_take i s) = false
  /\ String.length (str_take i s) = i.
Proof.
  revert i. induction s as [|a s IH]; cbn; intros i H; [done|].
  destruct (Ascii.eqb a c) eqn:E.
  - injection H as <-. apply Ascii.eqb_eq in E as ->. done.
  - destruct (str_index c s) as [j|] eqn:Hj; [|done]. injection H as <-.
    destruct (IH j eq_refl) as (H1 & H2 & H3). cbn. rewrite E, H2, H3.
    split_and!; [|done|done]. f_equal. exact H1.
Qed.

Lemma str_last_index_Some (c : ascii) (s : string) (i : nat) :
  str_last_index c s = Some i ->
  s = str_take i s +:+ String c (str_drop (S i) s) /\ str_has c (str_drop (S i) s) = false
  /\ String.length (str_take i s) = i.
Proof.
  revert i. induction s as [|a s IH]; cbn; intros i H; [done|].
  destruct (str_last_index c s) as [j|] eqn:Hj.
  - injection H as <-. destruct (IH j eq_refl) as (H1 & H2 & H3). cbn.
    rewrite H3. split_and!; [|done|done]. f_equal. exact H1.
  - destruct (Ascii.eqb a c) eqn:E; [|done]. injection H as <-.
    apply Ascii.eqb_eq in E as ->. cbn. split_and!; [done|by apply str_last_index_None|done].
Qed.

Lemma str_has_true_split (c : ascii) (s : string) :
  str_has c s = true -> exists s1 s2, s = s1 +:+ String c s2 /\ str_has c s1 = false.
Proof.
  intros H. destruct (str_index c s) as [i|] eqn:Hi.
  - apply str_index_Some in Hi as (H1 & H2 & _). eauto.
  - apply str_index_None in Hi. congruence.
Qed.

(** ** Lemmas: runes *)

(** An ASCII byte ends what comes before it. *)
Lemma rune_width_app (a c : ascii) (s t : string) :
  is_ascii c = true -> rune_width (String a s +:+ String c t) = rune_width (String a s).
Proof.
  intros Hc. assert (Hno : forall lo hi, 128 <= lo -> byte_in lo hi c = false).
  { unfold is_ascii in Hc. apply Nat.ltb_lt in Hc. intros lo hi Hl. unfold byte_in. apply andb_false_iff. left. apply Nat.leb_gt. lia. }
  assert (H1 : forall x y, byte_in (if x : bool then 160 else 128) y c = false) by (intros [] y; apply Hno; lia).
  assert (H2 : forall x y, byte_in (if x : bool then 144 else 128) y c = false) by (intros [] y; apply Hno; lia).
  destruct s as [|b [|b2 [|b3 s]]]; cbn; rewrite ?(Hno 128), ?H1, ?H2, ?andb_false_r by lia; try done;
    repeat case_match; try done.
Qed.

Lemma rune_width_length (s : string) (k : nat) : rune_width s = Some k -> 0 < k <= String.length s.
Proof. unfold rune_width. intros H. repeat case_match; simplify_eq; cbn; lia. Qed.

Lemma str_take_app_le (n : nat) (s t : string) : n <= String.length s -> str_take n (s +:+ t) = str_take n s.
Proof. revert n. induction s as [|a s IH]; intros [|n] Hn; cbn in *; try done; [lia|]. f_equal. apply IH. lia. Qed.

Lemma str_drop_app_le (n : nat) (s t : string) : n <= String.length s -> str_drop n (s +:+ t) = str_drop n s +:+ t.
Proof. revert n. induction s as [|a s IH]; intros [|n] Hn; cbn in *; try done; [lia|]. apply IH. lia. Qed.

Lemma str_drop_length (n : nat) (s : string) : String.length (str_drop n s) = String.length s - n.
Proof. revert s. induction n as [|n IH]; intros [|a s]; cbn; try lia. by rewrite IH. Qed.

Lemma runes_from_le (n m : nat) (s : string) : String.length s <= n -> String.length s <= m -> runes_from n s = runes_from m s.
Proof.
  revert m s. induction n as [|n IH]; intros [|m] [|a s] Hn Hm; cbn [String.length] in *; try done; [lia..|].
  cbn [runes_from]. destruct (rune_width (String a s)) as [k|] eqn:Hk.
  - apply rune_width_length in Hk. cbn [String.length] in Hk. f_equal. apply IH; rewrite str_drop_length; cbn [String.length]; lia.
  - f_equal. apply IH; rewrite str_drop_length; cbn [String.length]; lia.
Qed.

Lemma str_runes_ascii (c : ascii) (s : string) : is_ascii c = true -> str_runes (String c s) = str1 c :: str_runes s.
Proof. intros Hc. unfold str_runes. cbn [String.length runes_from rune_width]. rewrite Hc. cbn. by destruct s. Qed.

Lemma str_runes_app (s t : string) (c : ascii) :
  is_ascii c = true -> str_runes (s +:+ String c t) = str_runes s ++ str1 c :: str_runes t.
Proof.
  intros Hc. remember (String.length s) as n eqn:Hn. assert (Hle : String.length s <= n) by lia. clear Hn.
  revert s Hle. induction n as [|n IH]; intros [|a s] Hle; cbn [String.length] in Hle; try lia; try by apply str_runes_ascii.
  assert (Hstep : forall k, 0 < k <= String.length (String a s) ->
    runes_from (String.length (s +:+ String c t)) (str_drop k (String a s +:+ String c t)) =
    runes_from (String.length s) (str_drop k (String a s)) ++ str1 c :: str_runes t).
  { intros k Hk. rewrite str_drop_app_le by lia.
    rewrite (runes_from_le _ (String.length (str_drop k (String a s) +:+ String c t)));
      [|rewrite !str_app_length, str_drop_length; cbn [String.length] in *; lia|done].
    fold (str_runes (str_drop k (String a s) +:+ String c t)). rewrite IH by (rewrite str_drop_length; cbn [String.length] in *; lia).
    f_equal. apply runes_from_le; [done|]. rewrite str_drop_length. cbn [String.length] in *. lia. }
  unfold str_runes. change (String a s +:+ String c t) with (String a (s +:+ String c t)) at 2.
  cbn [String.length String.append runes_from]. change (String a (s +:+ String c t)) with (String a s +:+ String c t).
  rewrite rune_width_app by done. destruct (rune_width (String a s)) as [k|] eqn:Hk.
  - apply rune_width_length in Hk. rewrite Hstep, str_take_app_le by lia. done.
  - rewrite Hstep by (cbn; lia). done.
Qed.

Lemma str_runes_all_ascii (s : string) : str_all is_ascii s = true -> str_valid s = s.
Proof.
  induction s as [|c s IH]; [done|]. cbn [str_all]. intros [Hc Hs]%andb_true_iff. unfold str_valid in *.
  rewrite str_runes_ascii by done. rewrite <- (IH Hs) at 2. cbn. by destruct (str_runes s).
Qed.

(** ** Lemmas: splitting and joining *)

Lemma str_splitN_notin (n : nat) (c : ascii) (s : string) :
  str_has c s = false -> str_splitN (S n) c s = [s].
Proof. intros H. apply str_index_None in H. destruct n; [done|]. cbn [str_splitN]. by rewrite H. Qed.

Lemma str_splitN_app (n : nat) (c : ascii) (s t : string) :
  str_has c s = false ->
  str_splitN (S (S n)) c (s +:+ String c t) = s :: str_splitN (S n) c t.
Proof.
  intros H. cbn [str_splitN]. rewrite str_index_app by done.
  by rewrite str_take_app, str_drop_app_cons.
Qed.

Lemma str_join_cons (sep w : string) (ws : list string) :
  ws <> [] -> str_join sep (w :: ws) = w +:+ sep +:+ str_join sep ws.
Proof. by destruct ws. Qed.

Lemma str_splitN_SS (n : nat) (c : ascii) (s : string) :
  str_splitN (S (S n)) c s =
  match str_index c s with
  | None => [s]
  | Some i => str_take i s :: str_splitN (S n) c (str_drop (S i) s)
  end.
Proof. done. Qed.

Lemma str_splitN_nonempty (n : nat) (c : ascii) (s : string) : str_splitN (S n) c s <> [].
Proof. destruct n; [done|]. cbn [str_splitN]. by destruct (str_index c s). Qed.

(** Joining the parts of a bounded split gives the string back. *)
Lemma str_join_splitN (n : nat) (c : ascii) (s : string) :
  str_join (str1 c) (str_splitN (S n) c s) = s.
Proof.
  revert s. induction n as [|n IH]; intros s; [done|].
  rewrite str_splitN_SS. destruct (str_index c s) as [i|] eqn:Hi; [|done].
  apply str_index_Some in Hi as (H1 & _ & _).
  rewrite str_join_cons by apply str_splitN_nonempty.
  rewrite IH. symmetry. exact H1.
Qed.

Lemma str_split_notin (c : ascii) (s : string) :
  str_has c s = false -> str_split c s = [s].
Proof.
  induction s as [|a s IH]; [done|]. cbn. intros H.
  apply orb_false_iff in H as [-> H]. by rewrite IH.
Qed.

Lemma str_split_app (c : ascii) (s t : string) :
  str_has c s = false -> str_split c (s +:+ String c t) = s :: str_split c t.
Proof.
  induction s as [|a s IH]; cbn; intros H.
  - by rewrite ascii_eqb_refl.
  - apply orb_false_iff in H as [-> H]. by rewrite IH.
Qed.

Lemma str_split_nonempty (c : ascii) (s : string) : str_split c s <> [].
Proof. destruct s as [|a s]; cbn; [done|]. destruct (Ascii.eqb a c); [done|]. by destruct (str_split c s). Qed.

(** [strings.Split] undoes [strings.Join] on separator-free parts. *)
Lemma str_split_join (c : ascii) (ws : list string) :
  ws <> [] -> Forall (fun w => str_has c w = false) ws ->
  str_split c (str_join (str1 c) ws) = ws.
Proof.
  intros Hne HF. induction HF as [|w ws Hw HF IH]; [done|].
  destruct ws as [|w' ws]; [by apply str_split_notin|].
  rewrite str_join_cons by done. change (str1 c +:+ ?t) with (String c t).
  rewrite str_split_app by done. by rewrite IH.
Qed.

(** ** Lemmas: trimming *)

Lemma trim_left_id (f : ascii -> bool) (a : ascii) (s : string) :
  f a = false -> trim_left f (String a s) = String a s.
Proof. cbn. by intros ->. Qed.

Lemma trim_right_id (f : ascii -> bool) (s : string) (a : ascii) :
  f a = false -> trim_right f (s +:+ str1 a) = s +:+ str1 a.
Proof.
  intros H. induction s as [|b s IH]; cbn.
  - by rewrite H.
  - rewrite IH. by destruct s.
Qed.

Lemma trim_space_id (a b : ascii) (s : string) :
  is_space a = false -> is_space b = false ->
  trim_space (String a s +:+ str1 b) = String a s +:+ str1 b.
Proof. intros Ha Hb. unfold trim_space. cbn [String.append]. rewrite trim_left_id by done.
  by apply (trim_right_id is_space (String a s)). Qed.

Lemma str_all_notin (c : ascii) (f : ascii -> bool) (s : string) :
  f c = false -> str_all f s = true -> str_has c s = false.
Proof.
  intros Hf. induction s as [|a s IH]; [done|]. cbn. intros H.
  apply andb_true_iff in H as [H1 H2]. rewrite (IH H2), orb_false_r.
  destruct (Ascii.eqb a c) eqn:E; [|done]. apply Ascii.eqb_eq in E as ->. congruence.
Qed.

Create Rewrite HintDb gostr.
#[export] Hint Rewrite str_app_nil_r str_app_assoc str_app_length str_take_app str_drop_app
  str_drop_app_cons str_take_all str_has_app ascii_eqb_refl : gostr.
#[export] Hint Rewrite str_index_app str_last_index_app str_splitN_notin str_splitN_app
  str_split_notin str_split_app using done : gostr.
