(* ===== verification/Sha256.v ===== *)
(** * SHA-256 (FIPS 180-4), Go's [crypto/sha256]

    Blobs are addressed by the SHA-256 of their content.  The hash is defined
    here as the standard specifies it, on 32-bit words kept in [N], so that the
    content-store results can be evaluated on concrete data; the test vectors
    of the standard are checked below.  No theorem depends on any property of
    the hash beyond the length of its result. *)

From S2P Require Import Prelude.
From S2P Require Import GoStrings.

Abbreviation bytes := (list Byte.byte).

Definition mask32 : N := 4294967295.
Definition add32 (a b : N) : N := N.land (a + b) mask32.
Definition rotr (n : N) (x : N) : N :=
  N.lor (N.shiftr x n) (N.land (N.shiftl x (32 - n)) mask32).

Definition sha_ch (x y z : N) : N := N.lxor (N.land x y) (N.land (N.lxor x mask32) z).
Definition sha_maj (x y z : N) : N := N.lxor (N.land x y) (N.lxor (N.land x z) (N.land y z)).
Definition big_sigma0 (x : N) : N := N.lxor (rotr 2 x) (N.lxor (rotr 13 x) (rotr 22 x)).
Definition big_sigma1 (x : N) : N := N.lxor (rotr 6 x) (N.lxor (rotr 11 x) (rotr 25 x)).
Definition small_sigma0 (x : N) : N := N.lxor (rotr 7 x) (N.lxor (rotr 18 x) (N.shiftr x 3)).
Definition small_sigma1 (x : N) : N := N.lxor (rotr 17 x) (N.lxor (rotr 19 x) (N.shiftr x 10)).

(** The constants: the first 32 bits of the fractional parts of the cube roots
    of the first 64 primes, and of the square roots of the first eight. *)
Fixpoint is_prime_upto (d : nat) (n : N) : bool :=
  match d with
  | 0 | 1 => true
  | S d' => negb (n mod N.of_nat d =? 0)%N && is_prime_upto d' n
  end.

Definition sha_primes : list N :=
  List.filter (fun n => is_prime_upto (N.to_nat n - 1) n) (map N.of_nat (seq 2 310)).

(** The largest [r < 2 ^ bits] with [r ^ k <= n], one bit at a time. *)
Fixpoint root_bits (bits : nat) (k n r : N) : N :=
  match bits with
  | 0 => r
  | S b =>
      let r' := (r + N.shiftl 1 (N.of_nat b))%N in
      root_bits b k n (if (r' ^ k <=? n)%N then r' else r)
  end.

Definition root_fraction (k p : N) : N :=
  N.land (root_bits 36 k (N.shiftl p (32 * k)) 0) mask32.

Definition sha_k : list N := Eval vm_compute in map (root_fraction 3) sha_primes.

Definition sha_h0 : list N := Eval vm_compute in map (root_fraction 2) (firstn 8 sha_primes).

Record sha_state : Type := mkSha {
  sa : N; sb : N; sc : N; sd : N; se : N; sf : N; sg : N; sh : N
}.

Definition sha_of_words (ws : list N) : sha_state :=
  mkSha (nth 0 ws 0%N) (nth 1 ws 0%N) (nth 2 ws 0%N) (nth 3 ws 0%N)
        (nth 4 ws 0%N) (nth 5 ws 0%N) (nth 6 ws 0%N) (nth 7 ws 0%N).

Definition sha_init : sha_state := Eval vm_compute in sha_of_words sha_h0.

(** The message schedule, newest word first. *)
Fixpoint sha_expand (n : nat) (ws : list N) : list N :=
  match n with
  | 0 => ws
  | S n' =>
      let w := add32 (add32 (small_sigma1 (nth 1 ws 0%N)) (nth 6 ws 0%N))
                     (add32 (small_sigma0 (nth 14 ws 0%N)) (nth 15 ws 0%N)) in
      sha_expand n' (w :: ws)
  end.

Definition sha_round (s : sha_state) (kw : N * N) : sha_state :=
  let t1 := add32 (add32 (sh s) (big_sigma1 (se s)))
                  (add32 (sha_ch (se s) (sf s) (sg s)) (add32 kw.1 kw.2)) in
  let t2 := add32 (big_sigma0 (sa s)) (sha_maj (sa s) (sb s) (sc s)) in
  mkSha (add32 t1 t2) (sa s) (sb s) (sc s) (add32 (sd s) t1) (se s) (sf s) (sg s).

Definition sha_block (s : sha_state) (block : list N) : sha_state :=
  let r := fold_left sha_round (combine sha_k (rev (sha_expand 48 (rev block)))) s in
  mkSha (add32 (sa s) (sa r)) (add32 (sb s) (sb r)) (add32 (sc s) (sc r)) (add32 (sd s) (sd r))
        (add32 (se s) (se r)) (add32 (sf s) (sf r)) (add32 (sg s) (sg r)) (add32 (sh s) (sh r)).

Definition byte_of_N (n : N) : Byte.byte :=
  match Byte.of_N (N.land n 255) with Some b => b | None => Byte.x00 end.

Definition word_bytes (w : N) : bytes :=
  map (fun k => byte_of_N (N.shiftr w k)) [24; 16; 8; 0]%N.

Definition sha_pad (msg : bytes) : bytes :=
  let len := Z.of_nat (length msg) in
  let bits := Z.to_N (8 * len) in
  msg ++ [Byte.x80] ++ repeat Byte.x00 (Z.to_nat ((55 - len) mod 64))
      ++ map (fun k => byte_of_N (N.shiftr bits k)) [56; 48; 40; 32; 24; 16; 8; 0]%N.

Fixpoint sha_words (bs : bytes) : list N :=
  match bs with
  | a :: b :: c :: d :: bs' =>
      N.lor (N.shiftl (Byte.to_N a) 24) (N.lor (N.shiftl (Byte.to_N b) 16)
        (N.lor (N.shiftl (Byte.to_N c) 8) (Byte.to_N d))) :: sha_words bs'
  | _ => []
  end.

Fixpoint sha_blocks (n : nat) (ws : list N) (s : sha_state) : sha_state :=
  match n with
  | 0 => s
  | S n' => sha_blocks n' (skipn 16 ws) (sha_block s (firstn 16 ws))
  end.

(** [sha256.Sum256]. *)
Definition sha256 (msg : bytes) : bytes :=
  let ws := sha_words (sha_pad msg) in
  let s := sha_blocks (length ws / 16) ws sha_init in
  flat_map word_bytes [sa s; sb s; sc s; sd s; se s; sf s; sg s; sh s].

(** [fmt.Sprintf("sha256:%x", sha256.Sum256(data))]. *)
Definition digest_of (data : bytes) : string := "sha256:" +:+ hex_encode (sha256 data).

#[global] Arguments sha256 : simpl never.
#[global] Arguments digest_of : simpl never.

(** The bytes of a string. *)
Definition bytes_of_string (s : string) : bytes := String.list_byte_of_string s.

(** ** Test vectors and the length of a digest *)

Example sha256_empty :
  hex_encode (sha256 []) = "e3b0c44298fc1c149afbf4c8996fb92427ae41e4649b934ca495991b7852b855".
Proof. vm_compute. reflexivity. Qed.

Example sha256_abc :
  hex_encode (sha256 (bytes_of_string "abc"))
  = "ba7816bf8f01cfea414140de5dae2223b00361a396177a9cb410ff61f20015ad".
Proof. vm_compute. reflexivity. Qed.

Example sha256_two_blocks :
  hex_encode (sha256 (bytes_of_string "abcdbcdecdefdefgefghfghighijhijkijkljklmklmnlmnomnopnopq"))
  = "248d6a61d20638b8e5c026930c3e6039a33ce45964ff2167f6ecedd419db06c1".
Proof. vm_compute. reflexivity. Qed.

Lemma sha256_length (msg : bytes) : length (sha256 msg) = 32.
Proof. done. Qed.

Lemma hex_encode_length (bs : bytes) : String.length (hex_encode bs) = 2 * length bs.
Proof. induction bs as [|b bs IH]; [done|]. cbn -[Nat.mul]. rewrite IH. lia. Qed.

Lemma digest_of_length (data : bytes) : String.length (digest_of data) = 71.
Proof. unfold digest_of. rewrite str_app_length, hex_encode_length, sha256_length. done. Qed.

Lemma digest_of_slice (n : nat) (data : bytes) :
  n <= 71 -> (n <=? String.length (digest_of data)) = true.
Proof. intros H. rewrite digest_of_length. by apply Nat.leb_le. Qed.

Lemma digest_of_split (data : bytes) :
  digest_of data = "sha256" +:+ String ch_colon (hex_encode (sha256 data)).
Proof. unfold digest_of. generalize (hex_encode (sha256 data)). done. Qed.

#[global] Opaque sha256.
