(* ===== verification/FileSystem.v ===== *)
(** * The operating system's file system, as the program uses it

    Paths are lists of elements below the root.  Regular files are names that
    point to inodes, so that a file can be renamed or unlinked while a handle
    is open on it, as the content store does with its temporary files.  The
    operations follow Go's [os] package: [os.Rename] refuses an existing
    directory as its target, [os.Create] truncates, a write past the end of a
    file fills the gap with zeros.  Each call can also fail for a reason the
    model does not track (permissions, a full disk): [faults] says which calls
    do.  A write can stop after any number of bytes, which stay in the file and
    move its offset; a [Close] that fails closes the file all the same; any
    other call that fails has no effect. *)

From S2P Require Import Prelude.
From S2P Require Import GoStrings.
From S2P Require Import Sha256.

Abbreviation path := (list string).

Record fs : Type := mkFs {
  fs_dirs : gset path;
  fs_names : gmap path nat;
  fs_data : gmap nat bytes;
  fs_next : nat
}.

Inductive syscall : Type :=
| SysMkdirAll (p : path)
| SysCreate (p : path)
| SysSeek (p : path) (off : Z)
| SysWrite (p : path) (written : nat)
| SysClose (p : path)
| SysRename (src dst : path)
| SysRemove (p : path)
| SysRemoveAll (p : path)
| SysOpen (p : path)
| SysRead (p : path)
| SysReadDir (p : path)
| SysStat (p : path).

Definition faults : Type := syscall -> bool.
Definition no_faults : faults := fun _ => false.

(** The file system with only the root directory. *)
Definition fs_empty : fs := mkFs {[ [] ]} ∅ ∅ 0.

(** ** Paths *)

Fixpoint path_prefix (p q : path) : bool :=
  match p, q with
  | [], _ => true
  | a :: p', b :: q' => String.eqb a b && path_prefix p' q'
  | _ :: _, [] => false
  end.

(** [p] and the directories above it. *)
Fixpoint path_prefixes (p : path) : list path :=
  match p with
  | [] => [ [] ]
  | a :: p' => [] :: map (cons a) (path_prefixes p')
  end.

Definition path_parent (p : path) : path := removelast p.

(** ** Directories *)

Definition fs_is_dir (f : fs) (p : path) : bool := bool_decide (p ∈ fs_dirs f).
Definition fs_is_file (f : fs) (p : path) : bool :=
  match fs_names f !! p with Some _ => true | None => false end.

(** [os.MkdirAll]: fails when an element of the path is a file. *)
Definition os_mkdir_all (io : faults) (p : path) (f : fs) : option fs :=
  if io (SysMkdirAll p) then None
  else if existsb (fs_is_file f) (path_prefixes p) then None
  else Some (mkFs (list_to_set (path_prefixes p) ∪ fs_dirs f) (fs_names f) (fs_data f) (fs_next f)).

(** The entries of a directory: name and whether it is a directory. *)
Definition fs_read_dir (io : faults) (f : fs) (p : path) : option (list (string * bool)) :=
  if io (SysReadDir p) then None
  else if fs_is_dir f p then
    Some (omap (fun q => if bool_decide (path_parent q = p /\ q <> [])
                         then Some (List.last q "", true) else None) (elements (fs_dirs f))
          ++ omap (fun kv => if bool_decide (path_parent kv.1 = p /\ kv.1 <> [])
                             then Some (List.last kv.1 "", false) else None)
                  (map_to_list (fs_names f)))
  else None.

(** Moving the names below [src] to the same place below [dst]. *)
Definition rebase (src dst p : path) : path :=
  if path_prefix src p then dst ++ skipn (length src) p else p.

(** [os.Rename] of a file or directory. *)
Definition os_rename (io : faults) (src dst : path) (f : fs) : option fs :=
  if io (SysRename src dst) then None
  else if fs_is_dir f dst then None
  else if negb (fs_is_dir f (path_parent dst)) then None
  else match fs_names f !! src with
  | Some ino =>
      Some (mkFs (fs_dirs f) (<[dst := ino]> (delete src (fs_names f))) (fs_data f) (fs_next f))
  | None =>
      if fs_is_dir f src && negb (path_prefix src dst) && negb (fs_is_file f dst) then
        Some (mkFs (set_map (rebase src dst) (fs_dirs f))
                   (kmap (rebase src dst) (fs_names f)) (fs_data f) (fs_next f))
      else None
  end.

(** [os.RemoveAll]: a missing path is not an error. *)
Definition os_remove_all (io : faults) (p : path) (f : fs) : option fs :=
  if io (SysRemoveAll p) then None
  else Some (mkFs (filter (fun q => path_prefix p q = false) (fs_dirs f))
                  (filter (fun kv => path_prefix p kv.1 = false) (fs_names f))
                  (fs_data f) (fs_next f)).

(** ** Files and handles *)

Record File : Type := mkFile {
  f_name : string;
  f_ino : nat;
  f_pos : nat;
  f_closed : bool
}.

(** [os.Create]. *)
Definition os_create (io : faults) (name : string) (f : fs) : option (File * fs) :=
  let p := path_elems name in
  if io (SysCreate p) then None
  else if fs_is_dir f p || negb (fs_is_dir f (path_parent p)) then None
  else match fs_names f !! p with
  | Some ino =>
      Some (mkFile name ino 0 false, mkFs (fs_dirs f) (fs_names f) (<[ino := []]> (fs_data f)) (fs_next f))
  | None =>
      let ino := fs_next f in
      Some (mkFile name ino 0 false,
            mkFs (fs_dirs f) (<[p := ino]> (fs_names f)) (<[ino := []]> (fs_data f)) (S ino))
  end.

(** [File.Seek(off, io.SeekStart)]. *)
Definition os_seek (io : faults) (off : Z) (h : File) : option File :=
  if f_closed h || io (SysSeek (path_elems (f_name h)) off) || (off <? 0)%Z then None
  else Some (mkFile (f_name h) (f_ino h) (Z.to_nat off) (f_closed h)).

(** The content after writing [data] at [pos]; writing nothing does not extend
    the file. *)
Definition splice (old : bytes) (pos : nat) (data : bytes) : bytes :=
  match data with
  | [] => old
  | _ => firstn pos old ++ repeat Byte.x00 (pos - length old) ++ data ++ skipn (pos + length data) old
  end.

Definition fs_content (f : fs) (ino : nat) : bytes := default [] (fs_data f !! ino).

(** [data] is in the file and the offset behind it. *)
Definition file_put (data : bytes) (h : File) (f : fs) : File * fs :=
  (mkFile (f_name h) (f_ino h) (f_pos h + length data) (f_closed h),
   mkFs (fs_dirs f) (fs_names f)
        (<[f_ino h := splice (fs_content f (f_ino h)) (f_pos h) data]> (fs_data f)) (fs_next f)).

(** After how many of [len] bytes a write to [p] stops with an error, if it
    does.  All bytes written is no error, unless there were none to write. *)
Definition write_stops (io : faults) (p : path) (len : nat) : option nat :=
  List.find (fun n => io (SysWrite p n)) (seq 0 (Nat.max 1 len)).

(** [File.Write], and whether it returned no error. *)
Definition os_write (io : faults) (data : bytes) (h : File) (f : fs) : File * fs * bool :=
  if f_closed h then (h, f, false)
  else
    match write_stops io (path_elems (f_name h)) (length data) with
    | Some n => (file_put (firstn n data) h f, false)
    | None => (file_put data h f, true)
    end.

(** [File.Close], and whether it returned no error: closing twice is one, and
    the file is closed in any case. *)
Definition os_close (io : faults) (h : File) : File * bool :=
  (mkFile (f_name h) (f_ino h) (f_pos h) true,
   negb (f_closed h || io (SysClose (path_elems (f_name h))))).

Inductive remove_result : Type :=
| Removed (f : fs)
| RemoveNotExist
| RemoveFailed.

(** No directory and no file is below [p]. *)
Definition fs_dir_empty (f : fs) (p : path) : bool :=
  forallb (fun q => negb (path_prefix p q) || bool_decide (q = p)) (elements (fs_dirs f))
  && forallb (fun kv => negb (path_prefix p kv.1)) (map_to_list (fs_names f)).

(** [os.Remove] of a file or an empty directory. *)
Definition os_remove (io : faults) (p : path) (f : fs) : remove_result :=
  if io (SysRemove p) then RemoveFailed
  else if fs_is_dir f p then
    if fs_dir_empty f p && negb (bool_decide (p = []))
    then Removed (mkFs (fs_dirs f ∖ {[p]}) (fs_names f) (fs_data f) (fs_next f))
    else RemoveFailed
  else match fs_names f !! p with
  | Some _ => Removed (mkFs (fs_dirs f) (delete p (fs_names f)) (fs_data f) (fs_next f))
  | None => RemoveNotExist
  end.

(** [os.Open] of a file, and the content it reads. *)
Definition os_open (io : faults) (name : string) (f : fs) : option File :=
  let p := path_elems name in
  if io (SysOpen p) then None
  else match fs_names f !! p with
  | Some ino => Some (mkFile name ino 0 false)
  | None => None
  end.

(** [os.Stat] of a file. *)
Definition os_stat (io : faults) (p : path) (f : fs) : option nat :=
  if io (SysStat p) then None else fs_names f !! p.

(** ** Lemmas: paths *)

(** An element [Clean] keeps. *)
Definition plain_elem (e : string) : bool :=
  negb (String.eqb e "") && negb (String.eqb e ".") && negb (String.eqb e "..")
  && negb (str_has ch_slash e).

Lemma plain_elem_spec (e : string) :
  plain_elem e = true <->
  String.eqb e "" = false /\ String.eqb e "." = false /\ String.eqb e ".." = false /\
  str_has ch_slash e = false.
Proof. unfold plain_elem. rewrite !andb_true_iff, !negb_true_iff. tauto. Qed.

Lemma clean_elems_app (r : bool) (l1 l2 st : list string) :
  clean_elems r (l1 ++ l2) st = clean_elems r l2 (clean_elems r l1 st).
Proof.
  revert st. induction l1 as [|e l1 IH]; intros st; [done|]. cbn.
  repeat case_match; apply IH.
Qed.

Lemma clean_elems_plain (r : bool) (es st : list string) :
  Forall (fun e => plain_elem e = true) es -> clean_elems r es st = rev es ++ st.
Proof.
  intros H. revert st. induction H as [|e es He H IH]; intros st; [done|].
  apply plain_elem_spec in He as (H1 & H2 & H3 & H4). cbn. rewrite H1, H2, H3. cbn.
  rewrite IH, <- app_assoc. done.
Qed.

(** Below the root the stack only ever holds plain elements. *)
Lemma clean_elems_rooted_plain (es st : list string) :
  Forall (fun e => str_has ch_slash e = false) es ->
  Forall (fun e => plain_elem e = true) st ->
  Forall (fun e => plain_elem e = true) (clean_elems true es st).
Proof.
  intros H. revert st. induction H as [|e es He H IH]; intros st Hst; [done|]. cbn.
  destruct (String.eqb e "" || String.eqb e ".") eqn:E1; [by apply IH|].
  apply orb_false_iff in E1 as [E1 E2].
  destruct (String.eqb e "..") eqn:E3.
  - destruct Hst as [|top st Ht Hst]; [by apply IH|].
    apply plain_elem_spec in Ht as (_ & _ & -> & _). by apply IH.
  - apply IH. constructor; [|done]. apply plain_elem_spec. by split_and!.
Qed.

Lemma str_split_noslash (c : ascii) (s : string) :
  Forall (fun e => str_has c e = false) (str_split c s).
Proof.
  induction s as [|a s IH]; cbn; [by repeat constructor|].
  destruct (Ascii.eqb a c) eqn:E; [by constructor|].
  destruct (str_split c s) as [|w ws]; [constructor; [|done]; cbn; by rewrite E|].
  inversion IH; subst. constructor; [|done]. cbn. rewrite E. done.
Qed.

Lemma path_elems_plain (p : string) :
  is_rooted p = true -> Forall (fun e => plain_elem e = true) (path_elems p).
Proof.
  intros H. unfold path_elems. rewrite H. apply Forall_rev, clean_elems_rooted_plain; [|done].
  apply str_split_noslash.
Qed.

Lemma is_rooted_cons (p : string) :
  is_rooted p = true <-> exists q, p = String ch_slash q.
Proof.
  unfold is_rooted, has_prefix. split.
  - destruct p as [|a p]; [done|]. intros H. apply andb_true_iff in H as [_ H].
    apply String.eqb_eq in H. cbn in H. exists p. by injection H as ->.
  - intros [q ->]. by destruct q.
Qed.

Lemma str_split_app_gen (c : ascii) (s t : string) :
  str_split c (s +:+ String c t) = str_split c s ++ str_split c t.
Proof.
  induction s as [|a s IH]; cbn.
  - by rewrite ascii_eqb_refl.
  - destruct (Ascii.eqb a c); [by rewrite IH|]. rewrite IH.
    destruct (str_split c s) as [|w ws] eqn:E; [|done].
    by apply str_split_nonempty in E.
Qed.

Lemma path_elems_of_elems (es : list string) :
  Forall (fun e => plain_elem e = true) es -> path_elems (path_of_elems true es) = es.
Proof.
  intros H. unfold path_of_elems, path_elems. cbn [String.append].
  replace (is_rooted (String "/" (str_join "/" es))) with true by done.
  destruct es as [|e es]; [done|]. set (l := e :: es) in *.
  assert (Hs : str_split ch_slash (String "/" (str_join "/" l)) = "" :: l).
  { change (String "/" ?x) with ("" +:+ String ch_slash x).
    rewrite str_split_app by done. change "/" with (str1 ch_slash).
    rewrite str_split_join; [done|done|].
    eapply Forall_impl; [exact H|]. intros x Hx. by apply plain_elem_spec in Hx as (_ & _ & _ & ?). }
  rewrite Hs. cbn [clean_elems String.eqb orb].
  rewrite clean_elems_plain, app_nil_r by done. apply rev_involutive.
Qed.

Lemma path_elems_clean (p : string) :
  is_rooted p = true -> path_elems (path_clean p) = path_elems p.
Proof.
  intros H. unfold path_clean. rewrite H. by apply path_elems_of_elems, path_elems_plain.
Qed.

(** Joining plain elements below a rooted path appends them to it. *)
Lemma path_elems_join (root : string) (es : list string) :
  is_rooted root = true -> Forall (fun e => plain_elem e = true) es -> es <> [] ->
  path_elems (path_join (root :: es)) = path_elems root ++ es.
Proof.
  intros Hr Hes Hne. apply is_rooted_cons in Hr as [q ->].
  assert (Hf : List.filter (fun p => negb (String.eqb p "")) (String ch_slash q :: es)
               = String ch_slash q :: es).
  { cbn [List.filter String.eqb negb]. f_equal. clear Hne.
    induction Hes as [|e es He Hes IH]; [done|]. cbn.
    apply plain_elem_spec in He as (-> & _). cbn. by rewrite IH. }
  unfold path_join. rewrite Hf, str_join_cons by done.
  assert (Hroot : forall x, is_rooted (String ch_slash q +:+ x) = true).
  { intros x. apply is_rooted_cons. by eexists. }
  rewrite path_elems_clean by apply Hroot.
  unfold path_elems at 1. rewrite Hroot. change ("/" +:+ ?x) with (String ch_slash x).
  rewrite str_split_app_gen, clean_elems_app. change "/" with (str1 ch_slash).
  rewrite str_split_join; [|done|].
  2: { eapply Forall_impl; [exact Hes|]. intros x Hx. by apply plain_elem_spec in Hx as (_ & _ & _ & ?). }
  rewrite clean_elems_plain by done. rewrite rev_app_distr, rev_involutive. done.
Qed.

Lemma path_prefix_refl (p : path) : path_prefix p p = true.
Proof. induction p as [|a p IH]; [done|]. cbn. by rewrite String.eqb_refl. Qed.

Lemma path_prefix_app (p q : path) : path_prefix p (p ++ q) = true.
Proof. induction p as [|a p IH]; [done|]. cbn. by rewrite String.eqb_refl. Qed.

Lemma path_prefix_spec (p q : path) : path_prefix p q = true <-> exists r, q = p ++ r.
Proof.
  split; [|intros [r ->]; apply path_prefix_app].
  revert q. induction p as [|a p IH]; intros [|b q]; cbn; intros H; try done; [by exists []|by eexists|].
  apply andb_true_iff in H as [->%String.eqb_eq H]. destruct (IH q H) as [r ->]. by exists r.
Qed.

Lemma path_prefixes_self (p : path) : p ∈ path_prefixes p.
Proof. induction p as [|a p IH]; cbn; [set_solver|]. apply list_elem_of_further. set_solver. Qed.

Lemma path_prefixes_spec (p q : path) : q ∈ path_prefixes p <-> path_prefix q p = true.
Proof.
  revert q. induction p as [|a p IH]; intros q; cbn.
  - rewrite list_elem_of_singleton. destruct q; split; done.
  - rewrite elem_of_cons, list_elem_of_fmap. split.
    + intros [->|(y & -> & Hy)]; [done|]. cbn. rewrite String.eqb_refl. by apply IH.
    + destruct q as [|b q]; [by left|]. cbn. intros [->%String.eqb_eq H]%andb_true_iff.
      right. exists q. split; [done|]. by apply IH.
Qed.

(** ** Lemmas: files *)

Lemma splice_end (old data : bytes) : splice old (length old) data = old ++ data.
Proof.
  unfold splice. destruct data as [|b data]; [by rewrite app_nil_r|].
  rewrite firstn_all, Nat.sub_diag, skipn_all2 by (cbn; lia). cbn. by rewrite app_nil_r.
Qed.

(** What a write can change, whether it fails or not. *)
Lemma os_write_frame (io : faults) (data : bytes) (h h' : File) (f f' : fs) (ok : bool) :
  os_write io data h f = (h', f', ok) ->
  fs_names f' = fs_names f /\ fs_dirs f' = fs_dirs f /\ fs_next f' = fs_next f /\
  (forall i, i <> f_ino h \/ f_closed h = true -> fs_content f' i = fs_content f i) /\
  f_name h' = f_name h /\ f_ino h' = f_ino h /\ f_closed h' = f_closed h /\
  (ok = true -> f_closed h = false) /\ (f_pos h <= f_pos h' <= f_pos h + length data).
Proof.
  unfold os_write. destruct (f_closed h) eqn:Hc.
  { intros [= <- <- <-]. split_and!; auto; lia. }
  assert (Hput : forall d, d = firstn (length d) data -> file_put d h f = (h', f') ->
    fs_names f' = fs_names f /\ fs_dirs f' = fs_dirs f /\ fs_next f' = fs_next f /\
    (forall i, i <> f_ino h \/ false = true -> fs_content f' i = fs_content f i) /\
    f_name h' = f_name h /\ f_ino h' = f_ino h /\ f_closed h' = false /\
    (f_pos h <= f_pos h' <= f_pos h + length data)).
  { intros d Hd [= <- <-]. cbn.
    assert (length d <= length data) by (rewrite Hd, length_firstn; lia). split_and!; try done; try lia.
    intros i [Hi|Hi]; [|done]. unfold fs_content. cbn. by rewrite lookup_insert_ne. }
  destruct (write_stops _ _ _) as [n|]; intros [Hp <-]%pair_eq.
  - destruct (Hput (firstn n data)) as (H1 & H2 & H3 & H4 & H5 & H6 & H7 & H8 & H9); [|done|by split_and!].
    by rewrite length_firstn, <- firstn_firstn, firstn_all.
  - destruct (Hput data) as (H1 & H2 & H3 & H4 & H5 & H6 & H7 & H8 & H9); [by rewrite firstn_all|done|by split_and!].
Qed.

Lemma os_write_ok (io : faults) (data : bytes) (h h' : File) (f f' : fs) :
  os_write io data h f = (h', f', true) -> (h', f') = file_put data h f.
Proof.
  unfold os_write. destruct (f_closed h); [done|]. destruct (write_stops _ _ _) as [n|]; [done|].
  by intros [-> _]%pair_eq.
Qed.

Lemma file_put_end (data : bytes) (h : File) (f : fs) :
  f_pos h = length (fs_content f (f_ino h)) ->
  fs_content (file_put data h f).2 (f_ino h) = fs_content f (f_ino h) ++ data.
Proof. intros Hp. unfold fs_content at 1. cbn. by rewrite lookup_insert_eq, Hp, splice_end. Qed.

(** A write at the end of the file: as much of the data is there as the offset
    says. *)
Lemma os_write_append (io : faults) (data : bytes) (h h' : File) (f f' : fs) (ok : bool) :
  f_pos h = length (fs_content f (f_ino h)) -> os_write io data h f = (h', f', ok) ->
  fs_content f' (f_ino h) = fs_content f (f_ino h) ++ firstn (f_pos h' - f_pos h) data.
Proof.
  intros Hp. unfold os_write. destruct (f_closed h).
  { intros [= <- <- <-]. by rewrite Nat.sub_diag, app_nil_r. }
  assert (Hput : forall d, file_put d h f = (h', f') ->
    fs_content f' (f_ino h) = fs_content f (f_ino h) ++ d /\ f_pos h' = f_pos h + length d).
  { intros d Hf. pose proof (file_put_end d h f Hp) as He. rewrite Hf in He. split; [exact He|]. by injection Hf as <- _. }
  destruct (write_stops _ _ _) as [n|]; intros [[-> ->]%Hput _]%pair_eq; f_equal;
    rewrite Nat.add_comm, Nat.add_sub; [|by rewrite firstn_all].
  by rewrite length_firstn, <- firstn_firstn, firstn_all.
Qed.

Lemma write_stops_never (p : path) (len : nat) : write_stops no_faults p len = None.
Proof. unfold write_stops. induction (seq _ _) as [|n l IH]; [done|exact IH]. Qed.

(** ** Lemmas: joined and parent paths *)

Lemma is_rooted_join (root : string) (es : list string) :
  is_rooted root = true -> is_rooted (path_join (root :: es)) = true.
Proof.
  intros Hr. apply is_rooted_cons in Hr as [q ->]. unfold path_join. cbn [List.filter String.eqb negb].
  set (l := List.filter _ es).
  assert (H : is_rooted (str_join "/" (String ch_slash q :: l)) = true).
  { apply is_rooted_cons. destruct l; [by eexists|]. rewrite str_join_cons by done. by eexists. }
  unfold path_clean. rewrite H. apply is_rooted_cons. by eexists.
Qed.

Lemma path_elems_dir (p : string) :
  is_rooted p = true -> path_elems (path_dir p) = removelast (path_elems p).
Proof.
  intros H. unfold path_dir. rewrite H. apply path_elems_of_elems.
  pose proof (path_elems_plain p H) as HF. clear H. induction HF as [|e es He HF IH]; [done|].
  destruct es; [done|]. by constructor.
Qed.

Lemma plain_elem_intro (e : string) :
  e <> "" -> str_has ch_dot e = false -> str_has ch_slash e = false -> plain_elem e = true.
Proof.
  intros H1 H2 H3. apply plain_elem_spec. split_and!; [by apply String.eqb_neq| | |done].
  - apply String.eqb_neq. by intros ->.
  - apply String.eqb_neq. by intros ->.
Qed.

Definition is_hexdigit (c : ascii) : bool :=
  is_digit c || ((97 <=? nat_of_ascii c) && (nat_of_ascii c <=? 102)).

Lemma hex_digit_ok (n : N) : (n < 16)%N -> is_hexdigit (hex_digit n) = true.
Proof.
  intros H. destruct n as [|p]; [done|].
  do 4 (try destruct p as [p|p|]); try done; lia.
Qed.

Lemma hex_encode_all (bs : bytes) : str_all is_hexdigit (hex_encode bs) = true.
Proof.
  induction bs as [|b bs IH]; [done|]. cbn [hex_encode str_all].
  pose proof (Byte.to_N_bounded b) as Hb.
  rewrite !hex_digit_ok; [done| |].
  - apply N.mod_lt. done.
  - apply N.Div0.div_lt_upper_bound. lia.
Qed.

Lemma str_all_take (f : ascii -> bool) (n : nat) (s : string) :
  str_all f s = true -> str_all f (str_take n s) = true.
Proof.
  revert s. induction n as [|n IH]; intros [|a s]; cbn; try done.
  intros [H1 H2]%andb_true_iff. by rewrite H1, IH.
Qed.

Lemma plain_elem_hex (s : string) : s <> "" -> str_all is_hexdigit s = true -> plain_elem s = true.
Proof.
  intros H Hs. apply plain_elem_intro; [done| |]; by apply (str_all_notin _ is_hexdigit).
Qed.

(** ** Lemmas: what an operation changes *)

Lemma os_mkdir_all_frame (io : faults) (p : path) (f f' : fs) :
  os_mkdir_all io p f = Some f' ->
  fs_names f' = fs_names f /\ fs_data f' = fs_data f /\ fs_next f' = fs_next f /\
  (forall q, q ∈ fs_dirs f' <-> path_prefix q p = true \/ q ∈ fs_dirs f).
Proof.
  unfold os_mkdir_all. repeat case_step; try done. intros [= <-]. cbn. split_and!; try done.
  intros q. by rewrite elem_of_union, elem_of_list_to_set, path_prefixes_spec.
Qed.

Lemma os_rename_file (io : faults) (src dst : path) (f f' : fs) (ino : nat) :
  fs_names f !! src = Some ino -> os_rename io src dst f = Some f' ->
  fs_names f' = <[dst := ino]> (delete src (fs_names f)) /\ fs_data f' = fs_data f /\
  fs_next f' = fs_next f /\ fs_dirs f' = fs_dirs f.
Proof. intros H. unfold os_rename. rewrite H. repeat case_step; by intros [= <-]. Qed.

Lemma os_rename_missing (io : faults) (src dst : path) (f : fs) :
  fs_names f !! src = None -> fs_is_dir f src = false -> os_rename io src dst f = None.
Proof. intros H1 H2. unfold os_rename. rewrite H1, H2. by repeat (case_step; try done). Qed.

Lemma os_create_spec (io : faults) (name : string) (f f' : fs) (h : File) :
  os_create io name f = Some (h, f') ->
  f_name h = name /\ f_pos h = 0 /\ f_closed h = false /\
  (path_elems name ∉ fs_dirs f) /\ fs_dirs f' = fs_dirs f /\
  fs_names f' = <[path_elems name := f_ino h]> (fs_names f) /\
  fs_data f' = <[f_ino h := []]> (fs_data f) /\
  ((fs_names f !! path_elems name = Some (f_ino h) /\ fs_next f' = fs_next f) \/
   (fs_names f !! path_elems name = None /\ f_ino h = fs_next f /\ fs_next f' = S (fs_next f))).
Proof.
  unfold os_create, fs_is_dir. destruct (io _); [done|].
  destruct (bool_decide _ || _) eqn:Hd; [done|]. bool_simp.
  destruct (fs_names f !! path_elems name) as [ino|] eqn:Hn; intros [= <- <-]; cbn; split_and!; auto.
  by rewrite insert_id.
Qed.

Lemma os_stat_some (io : faults) (p : path) (f : fs) (ino : nat) :
  os_stat io p f = Some ino -> fs_names f !! p = Some ino.
Proof. unfold os_stat. by case_match. Qed.

Lemma os_remove_removed (io : faults) (p : path) (f f' : fs) :
  os_remove io p f = Removed f' ->
  exists dirs, dirs ⊆ fs_dirs f /\ f' = mkFs dirs (delete p (fs_names f)) (fs_data f) (fs_next f).
Proof.
  unfold os_remove. destruct (io _); [done|]. destruct (fs_is_dir f p) eqn:Hd.
  - destruct (fs_dir_empty f p) eqn:He; [|done]. cbn [andb]. destruct (negb _); [|done]. intros [= <-].
    exists (fs_dirs f ∖ {[p]}). split; [by intros q [? _]%elem_of_difference|]. f_equal. rewrite delete_id; [done|].
    apply andb_true_iff in He as [_ He]. destruct (fs_names f !! p) as [ino|] eqn:Hp; [|done].
    apply elem_of_map_to_list in Hp. rewrite forallb_forall in He.
    specialize (He (p, ino)). cbn in He. rewrite path_prefix_refl in He. discriminate He. by apply list_elem_of_In.
  - destruct (fs_names f !! p); [|done]. intros [= <-]. by exists (fs_dirs f).
Qed.
