(* ===== verification/Grpc.v ===== *)
(** * gRPC services

    What the service layers share: status codes, an error that carries the
    status and the error it was made from, and server streams.  The messages
    of the generated API are modelled field by field where a service fills
    them. *)

From S2P Require Import Prelude.

Inductive code : Type :=
| InvalidArgument | NotFound | AlreadyExists | Internal | Unimplemented | Unavailable.

#[global] Instance code_eq_dec : EqDecision code.
Proof. solve_decision. Defined.

(** [status.Errorf(code, "...: %v", err)], or an error of the stream passed on
    as it is. *)
Inductive rpc_error (E : Type) : Type :=
| RpcStatus (c : code) (cause : option E)
| RpcStream.
Arguments RpcStatus {E} c cause.
Arguments RpcStream {E}.

Definition rpc_of {E A : Type} (c : code) (r : res E A) : res (rpc_error E) A :=
  res_wrap (fun e => RpcStatus c (Some e)) r.

Definition rpc_fail {E A : Type} (c : code) : res (rpc_error E) A := Err (RpcStatus c None).

(** A loop of [stream.Send]: [ok i] says whether the [i]-th send succeeds; the
    messages sent so far stay sent. *)
Fixpoint send_all {E A : Type} (ok : nat -> bool) (i : nat) (xs : list A) :
    list A * res (rpc_error E) unit :=
  match xs with
  | [] => ([], Ok tt)
  | x :: xs' =>
      if ok i then let '(sent, r) := send_all ok (S i) xs' in (x :: sent, r)
      else ([], Err RpcStream)
  end.

(** ** Lemmas *)

Lemma send_all_ok {E A : Type} (i : nat) (xs : list A) :
  send_all (E := E) (fun _ => true) i xs = (xs, Ok tt).
Proof. revert i. induction xs as [|x xs IH]; intros i; [done|]. cbn. by rewrite IH. Qed.

Lemma send_all_prefix {E A : Type} (ok : nat -> bool) (i : nat) (xs : list A) :
  (send_all (E := E) ok i xs).1 `prefix_of` xs.
Proof.
  revert i. induction xs as [|x xs IH]; intros i; [done|]. cbn.
  destruct (ok i); [|apply prefix_nil]. specialize (IH (S i)).
  destruct (send_all ok (S i) xs) as [sent r]. by apply prefix_cons.
Qed.

Lemma rpc_of_ok {E A : Type} (c : code) (r : res E A) (a : A) :
  rpc_of c r = Ok a <-> r = Ok a.
Proof. split; [|by intros ->]. destruct r; cbn; congruence. Qed.
