(* ===== verification/Snapshot.v ===== *)
(** * The snapshotter: mini-containerd/internal/snapshot

    [snapshot.go] keeps a tree of layers: a Go map from keys to snapshot
    records and one directory per writable layer.  [service.go] puts gRPC
    status codes on its errors.  [parentChain] follows parent links in an
    unbounded loop, modelled with fuel; [OutOfFuel] marks a loop that has not
    finished. *)

From S2P Require Import Prelude.
From S2P Require Import GoStrings.
From S2P Require Import Sha256.
From S2P Require Import FileSystem.
From S2P Require Import Grpc.
Open Scope go_scope.

(** ** State *)

Inductive Kind : Type := KindUnknown | KindView | KindActive | KindCommitted.

#[global] Instance Kind_eq_dec : EqDecision Kind.
Proof. solve_decision. Defined.

Record SnapshotInfo : Type := mkInfo {
  si_Name : string;
  si_Parent : string;
  si_Kind : Kind;
  si_Labels : gmap string string;
  si_CreatedAt : Z;
  si_UpdatedAt : Z
}.

Record Snapshotter : Type := mkSnapshotter {
  sn_root : string;
  sn_snapshots : gmap string SnapshotInfo;
  sn_mounts : gmap string string;
  sn_fs : fs
}.

Inductive SnapErr : Type :=
| SnapIO
| ParentNotFound (parent : string)
| ParentNotCommitted (parent : string) (k : Kind)
| SnapExists (key : string)
| ViewNeedsParent
| SnapNotFound (key : string)
| NotActive (key : string) (k : Kind)
| HasChild (key child : string)
| OutOfFuel.

Definition sn_set_fs (f : fs) (s : Snapshotter) : Snapshotter :=
  mkSnapshotter (sn_root s) (sn_snapshots s) (sn_mounts s) f.
Definition sn_set (m : gmap string SnapshotInfo) (s : Snapshotter) : Snapshotter :=
  mkSnapshotter (sn_root s) m (sn_mounts s) (sn_fs s).

Definition NewSnapshotter (io : faults) (root : string) (f : fs) : res SnapErr Snapshotter :=
  match os_mkdir_all io (path_elems root) f with
  | None => Err SnapIO
  | Some f' => Ok (mkSnapshotter root ∅ ∅ f')
  end.

Definition getSnapDir (s : Snapshotter) (key : string) : string := path_join [sn_root s; key].
Definition getSnapFSPath (s : Snapshotter) (key : string) : string := path_join [sn_root s; key; "fs"].

(** ** The chain of parents *)

Fixpoint parentChain (fuel : nat) (s : Snapshotter) (key : string) : option (list string) :=
  match fuel with
  | 0 => None
  | S fuel' =>
      match sn_snapshots s !! key with
      | None => Some []
      | Some info =>
          if String.eqb (si_Parent info) "" then Some []
          else cons (si_Parent info) <$> parentChain fuel' s (si_Parent info)
      end
  end.

(** ** Mounts *)

Record Mount : Type := mkMount {
  m_Type : string;
  m_Source : string;
  m_Options : list string
}.

Definition bind_mount (source : string) : Mount := mkMount "bind" source ["rbind"; "rprivate"].

Definition mountsWithoutLock (fuel : nat) (s : Snapshotter) (key : string) : res SnapErr (list Mount) :=
  match sn_snapshots s !! key with
  | None => Err (SnapNotFound key)
  | Some info =>
      if decide (si_Kind info = KindCommitted) then Ok [bind_mount (getSnapFSPath s key)]
      else
        match parentChain fuel s key with
        | None => Err OutOfFuel
        | Some parents =>
            let lowerDirs := map (getSnapFSPath s) parents in
            if length lowerDirs =? 0 then Ok [bind_mount (getSnapFSPath s key)]
            else if decide (si_Kind info = KindView) then
              Ok [mkMount "overlay" "overlay"
                    ["lowerdir=" +:+ str_join ":" lowerDirs; "index=off"]]
            else
              Ok [mkMount "overlay" "overlay"
                    ["lowerdir=" +:+ str_join ":" lowerDirs;
                     "upperdir=" +:+ getSnapFSPath s key;
                     "workdir=" +:+ path_join [getSnapDir s key; "work"];
                     "index=off"]]
        end
  end.

Definition Mounts (fuel : nat) (s : Snapshotter) (key : string) : res SnapErr (list Mount) :=
  mountsWithoutLock fuel s key.

(** ** Creating snapshots *)

(** The check on the parent, shared by [Prepare] (for a parent other than "")
    and [View]. *)
Definition check_parent (s : Snapshotter) (parent : string) : res SnapErr unit :=
  match sn_snapshots s !! parent with
  | None => Err (ParentNotFound parent)
  | Some info =>
      if decide (si_Kind info = KindCommitted) then Ok tt
      else Err (ParentNotCommitted parent (si_Kind info))
  end.

Definition check_absent (s : Snapshotter) (key : string) : res SnapErr unit :=
  match sn_snapshots s !! key with Some _ => Err (SnapExists key) | None => Ok tt end.

(** [for _, dir := range []string{fsDir, workDir} { os.MkdirAll(dir) }]. *)
Fixpoint make_dirs (io : faults) (dirs : list string) : GoM Snapshotter SnapErr unit := fun s =>
  match dirs with
  | [] => (s, Ok tt)
  | d :: dirs' =>
      match os_mkdir_all io (path_elems d) (sn_fs s) with
      | None => (s, Err SnapIO)
      | Some f => make_dirs io dirs' (sn_set_fs f s)
      end
  end.

Definition record_snapshot (now : Z) (key parent : string) (k : Kind) : GoM Snapshotter SnapErr unit :=
  fun s => (sn_set (<[key := mkInfo key parent k ∅ now now]> (sn_snapshots s)) s, Ok tt).

Definition with_state {S E A : Type} (f : S -> res E A) : GoM S E A := fun s => (s, f s).

Definition Prepare (io : faults) (fuel : nat) (now : Z) (key parent : string) :
    GoM Snapshotter SnapErr (list Mount) :=
  (if String.eqb parent "" then go_ret tt else with_state (fun s => check_parent s parent)) ;;!
  with_state (fun s => check_absent s key) ;;!
  (fun s => make_dirs io [getSnapFSPath s key; path_join [getSnapDir s key; "work"]] s) ;;!
  record_snapshot now key parent KindActive ;;!
  with_state (fun s => mountsWithoutLock fuel s key).

Definition View (fuel : nat) (now : Z) (key parent : string) : GoM Snapshotter SnapErr (list Mount) :=
  if String.eqb parent "" then go_err ViewNeedsParent
  else
    with_state (fun s => check_parent s parent) ;;!
    with_state (fun s => check_absent s key) ;;!
    record_snapshot now key parent KindView ;;!
    with_state (fun s => mountsWithoutLock fuel s key).

(** ** Committing and removing *)

(** The record is moved when the name differs, and changed in place when it
    does not. *)
Definition Commit (io : faults) (now : Z) (key name : string) : GoM Snapshotter SnapErr unit := fun s =>
  match sn_snapshots s !! key with
  | None => (s, Err (SnapNotFound key))
  | Some info =>
      if decide (si_Kind info = KindActive) then
        let info' := mkInfo name (si_Parent info) KindCommitted (si_Labels info) (si_CreatedAt info) now in
        if String.eqb name key then (sn_set (<[key := info']> (sn_snapshots s)) s, Ok tt)
        else
          match os_rename io (path_elems (getSnapDir s key)) (path_elems (getSnapDir s name)) (sn_fs s) with
          | None => (s, Err SnapIO)
          | Some f => (sn_set (<[name := info']> (delete key (sn_snapshots s))) (sn_set_fs f s), Ok tt)
          end
      else (s, Err (NotActive key (si_Kind info)))
  end.

(** The first snapshot the range over the map meets that has [key] as parent. *)
Definition find_child (s : Snapshotter) (key : string) : option SnapshotInfo :=
  snd <$> find (fun kv => String.eqb (si_Parent kv.2) key) (map_to_list (sn_snapshots s)).

Definition Remove (io : faults) (key : string) : GoM Snapshotter SnapErr unit := fun s =>
  match sn_snapshots s !! key with
  | None => (s, Err (SnapNotFound key))
  | Some _ =>
      match find_child s key with
      | Some other => (s, Err (HasChild key (si_Name other)))
      | None =>
          match os_remove_all io (path_elems (getSnapDir s key)) (sn_fs s) with
          | None => (s, Err SnapIO)
          | Some f => (sn_set (delete key (sn_snapshots s)) (sn_set_fs f s), Ok tt)
          end
      end
  end.

(** ** Metadata *)

Definition Stat (s : Snapshotter) (key : string) : res SnapErr SnapshotInfo :=
  match sn_snapshots s !! key with
  | None => Err (SnapNotFound key)
  | Some info => Ok info
  end.

Definition Update (now : Z) (key : string) (labels : gmap string string) :
    GoM Snapshotter SnapErr SnapshotInfo := fun s =>
  match sn_snapshots s !! key with
  | None => (s, Err (SnapNotFound key))
  | Some info =>
      let info' := mkInfo (si_Name info) (si_Parent info) (si_Kind info)
                     (gmap_copy labels (si_Labels info)) (si_CreatedAt info) now in
      (sn_set (<[key := info']> (sn_snapshots s)) s, Ok info')
  end.

(** The argument is not used. *)
Definition ListSnapshots (s : Snapshotter) (snapshotter : string) : list SnapshotInfo :=
  map snd (map_to_list (sn_snapshots s)).

(** [filepath.Walk] over the files at or below a directory; the sum of their
    sizes is returned twice. *)
Definition tree_size (f : fs) (p : path) : Z :=
  map_fold (fun q ino acc =>
    if path_prefix p q then (acc + Z.of_nat (length (fs_content f ino)))%Z else acc) 0%Z (fs_names f).

Definition Usage (s : Snapshotter) (key : string) : res SnapErr (Z * Z) :=
  match sn_snapshots s !! key with
  | None => Err (SnapNotFound key)
  | Some _ =>
      let totalSize := wrap64 (tree_size (sn_fs s) (path_elems (getSnapDir s key))) in
      Ok (totalSize, totalSize)
  end.

Definition Cleanup : GoM Snapshotter SnapErr unit := go_ret tt.

(** ** The gRPC service *)

Record InfoPb : Type := mkInfoPb {
  pb_Name : string; pb_Parent : string; pb_Kind : Kind;
  pb_Labels : gmap string string; pb_CreatedAt : Z; pb_UpdatedAt : Z
}.

Definition ToProto (i : SnapshotInfo) : InfoPb :=
  mkInfoPb (si_Name i) (si_Parent i) (si_Kind i) (si_Labels i) (si_CreatedAt i) (si_UpdatedAt i).

Definition rpc {E A : Type} (c : code) (m : GoM Snapshotter E A) : GoM Snapshotter (rpc_error E) A :=
  go_wrap (fun e => RpcStatus c (Some e)) m.

Definition svc_Prepare (io : faults) (fuel : nat) (now : Z) (key parent : string) :=
  rpc Internal (Prepare io fuel now key parent).
Definition svc_View (fuel : nat) (now : Z) (key parent : string) :=
  rpc Internal (View fuel now key parent).
Definition svc_Mounts (fuel : nat) (key : string) :=
  rpc NotFound (with_state (fun s => Mounts fuel s key)).
Definition svc_Commit (io : faults) (now : Z) (key name : string) :=
  rpc Internal (Commit io now key name).
Definition svc_Remove (io : faults) (key : string) := rpc Internal (Remove io key).
Definition svc_Stat (key : string) :=
  rpc NotFound (with_state (fun s => Stat s key)).
Definition svc_Update (now : Z) (req : option InfoPb) : GoM Snapshotter (rpc_error SnapErr) InfoPb :=
  match req with
  | None => go_err (RpcStatus InvalidArgument None)
  | Some i => info <-! rpc NotFound (Update now (pb_Name i) (pb_Labels i)); go_ret (ToProto info)
  end.
Definition svc_List (ok : nat -> bool) (snapshotter : string) (s : Snapshotter) :
    list InfoPb * res (rpc_error SnapErr) unit :=
  send_all ok 0 (map ToProto (ListSnapshots s snapshotter)).
Definition svc_Usage (key : string) := rpc NotFound (with_state (fun s => Usage s key)).
Definition svc_Cleanup := rpc Internal Cleanup.

(** ** The tree invariant

    [tree_ok] is about the map alone: parents exist and are committed, and
    parent links go down in some rank.  [snap_inv] adds that every snapshot
    but a view has its directory, which is what makes [Commit] refuse the name
    of an existing layer. *)

Definition snap_elems (root key : string) : path := path_elems root ++ [key].

#[global] Arguments snap_elems : simpl never.

Record tree_ok (m : gmap string SnapshotInfo) : Prop := {
  t_name : forall k i, m !! k = Some i -> si_Name i = k /\ plain_elem k = true;
  t_parent : forall k i, m !! k = Some i -> si_Parent i <> "" ->
    exists p, m !! si_Parent i = Some p /\ si_Kind p = KindCommitted;
  t_rank : exists rank : string -> nat, forall k i, m !! k = Some i -> si_Parent i <> "" ->
    rank (si_Parent i) < rank k
}.

Record snap_inv (s : Snapshotter) : Prop := {
  sv_root : is_rooted (sn_root s) = true;
  sv_tree : tree_ok (sn_snapshots s);
  sv_dir : forall k i, sn_snapshots s !! k = Some i -> si_Kind i <> KindView ->
    snap_elems (sn_root s) k ∈ fs_dirs (sn_fs s);
  sv_nofile : forall k, fs_names (sn_fs s) !! snap_elems (sn_root s) k = None
}.

(** What clients and containers do: calls with keys that are plain file
    names, and any change of the files below the layer directories. *)
Inductive snap_step (s : Snapshotter) : Snapshotter -> Prop :=
| sstep_prepare io fuel now key parent :
    plain_elem key = true -> snap_step s (Prepare io fuel now key parent s).1
| sstep_view fuel now key parent :
    plain_elem key = true -> snap_step s (View fuel now key parent s).1
| sstep_commit io now key name :
    plain_elem name = true -> snap_step s (Commit io now key name s).1
| sstep_remove io key : snap_step s (Remove io key s).1
| sstep_update now key labels : snap_step s (Update now key labels s).1
| sstep_files f :
    (forall k, snap_elems (sn_root s) k ∈ fs_dirs f <-> snap_elems (sn_root s) k ∈ fs_dirs (sn_fs s)) ->
    (forall k, fs_names f !! snap_elems (sn_root s) k = None) ->
    snap_step s (sn_set_fs f s).

(** The ancestors of a snapshot, nearest first. *)
Inductive ancestors (m : gmap string SnapshotInfo) : string -> list string -> Prop :=
| anc_base k i : m !! k = Some i -> si_Parent i = "" -> ancestors m k []
| anc_step k i l : m !! k = Some i -> si_Parent i <> "" -> ancestors m (si_Parent i) l ->
    ancestors m k (si_Parent i :: l).

(** ** Lemmas: the map *)

Lemma tree_empty : tree_ok ∅.
Proof. constructor; [done|done|]. by exists (fun _ => 0). Qed.

(** A committed or missing parent link never points to a key without children. *)
Lemma tree_parent_ne (m : gmap string SnapshotInfo) (key k : string) (i : SnapshotInfo) :
  tree_ok m -> (forall p, m !! key = Some p -> si_Kind p <> KindCommitted) ->
  m !! k = Some i -> si_Parent i <> "" -> si_Parent i <> key.
Proof.
  intros Ht Hk Hi Hp He. destruct (t_parent _ Ht _ _ Hi Hp) as (p & Hp1 & Hp2).
  rewrite He in Hp1. by apply (Hk p).
Qed.

(** Adding a snapshot whose parent is committed, at a key that is no
    committed snapshot's. *)
Lemma tree_insert (m : gmap string SnapshotInfo) (key : string) (info : SnapshotInfo) :
  tree_ok m -> plain_elem key = true -> si_Name info = key ->
  (forall p, m !! key = Some p -> si_Kind p <> KindCommitted) ->
  (si_Parent info <> "" ->
     exists p, m !! si_Parent info = Some p /\ si_Kind p = KindCommitted) ->
  tree_ok (<[key := info]> m).
Proof.
  intros Ht Hpl Hnm Hk Hpar. pose proof (t_rank _ Ht) as [rank Hrank]. constructor.
  - intros k i [[<- <-]|[Hne Hi]]%lookup_insert_Some; [done|]. by apply (t_name _ Ht).
  - intros k i Hi Hp.
    assert (H : exists p, m !! si_Parent i = Some p /\ si_Kind p = KindCommitted).
    { apply lookup_insert_Some in Hi as [[<- <-]|[Hne Hi]]; [auto|]. by apply (t_parent _ Ht k). }
    destruct H as (p & H1 & H2). exists p. rewrite lookup_insert_ne; [done|].
    intros ->. by apply (Hk p).
  - exists (fun k => if decide (k = key) then S (rank (si_Parent info)) else rank k).
    intros k i [[<- <-]|[Hne Hi]]%lookup_insert_Some Hp.
    + rewrite (decide_True _ _ eq_refl). rewrite decide_False; [lia|].
      intros He. destruct (Hpar Hp) as (p & H1 & H2). rewrite He in H1. by apply (Hk p).
    + rewrite (decide_False (P := k = key)) by done.
      rewrite decide_False by by eapply tree_parent_ne. by apply Hrank.
Qed.

(** Removing a snapshot without children. *)
Lemma tree_delete (m : gmap string SnapshotInfo) (key : string) :
  tree_ok m -> (forall k i, m !! k = Some i -> si_Parent i <> key) -> tree_ok (delete key m).
Proof.
  intros Ht Hc. pose proof (t_rank _ Ht) as [rank Hrank]. constructor.
  - intros k i [_ Hi]%lookup_delete_Some. by apply (t_name _ Ht).
  - intros k i [_ Hi]%lookup_delete_Some Hp. destruct (t_parent _ Ht _ _ Hi Hp) as (p & H1 & H2).
    exists p. rewrite lookup_delete_ne; [done|]. intros He. by apply (Hc _ _ Hi).
  - exists rank. intros k i [_ Hi]%lookup_delete_Some. by apply Hrank.
Qed.

(** Changing a record without touching its links. *)
Lemma tree_update (m : gmap string SnapshotInfo) (key : string) (i0 i1 : SnapshotInfo) :
  tree_ok m -> m !! key = Some i0 -> si_Name i1 = si_Name i0 -> si_Parent i1 = si_Parent i0 ->
  (si_Kind i0 = KindCommitted -> si_Kind i1 = KindCommitted) -> tree_ok (<[key := i1]> m).
Proof.
  intros Ht Hk Hn Hp Hc. pose proof (t_rank _ Ht) as [rank Hrank]. constructor.
  - intros k i [[<- <-]|[_ Hi]]%lookup_insert_Some; [rewrite Hn|]; by apply (t_name _ Ht).
  - intros k i Hi Hpi.
    assert (H : exists p, m !! si_Parent i = Some p /\ si_Kind p = KindCommitted).
    { apply lookup_insert_Some in Hi as [[<- <-]|[Hne Hi]]; [rewrite Hp in *|];
        by eapply (t_parent _ Ht). }
    destruct H as (p & H1 & H2). destruct (decide (key = si_Parent i)) as [He|He].
    + exists i1. rewrite <- He, lookup_insert_eq in *. split; [done|]. apply Hc. congruence.
    + exists p. by rewrite lookup_insert_ne.
  - exists rank. intros k i [[<- <-]|[_ Hi]]%lookup_insert_Some; [rewrite Hp|]; by apply Hrank.
Qed.

Lemma find_child_None (s : Snapshotter) (key : string) :
  find_child s key = None <-> forall k i, sn_snapshots s !! k = Some i -> si_Parent i <> key.
Proof.
  unfold find_child. split.
  - intros H k i Hi. apply fmap_None in H.
    apply elem_of_map_to_list, list_elem_of_In in Hi.
    apply (find_none _ _ H (k, i)) in Hi. by apply String.eqb_neq.
  - intros H. apply fmap_None. destruct (find _ _) as [[k i]|] eqn:Hf; [|done].
    apply find_some in Hf as [Hin He]. apply list_elem_of_In, elem_of_map_to_list in Hin.
    apply String.eqb_eq in He. by apply H in Hin.
Qed.

(** ** Lemmas: the directories *)

Lemma snap_dir_elems (s : Snapshotter) (key : string) :
  is_rooted (sn_root s) = true -> plain_elem key = true ->
  path_elems (getSnapDir s key) = snap_elems (sn_root s) key.
Proof. intros Hr Hk. apply path_elems_join; [done|by constructor|done]. Qed.

Lemma snap_elems_inj (root k1 k2 : string) : snap_elems root k1 = snap_elems root k2 -> k1 = k2.
Proof. intros H%app_inv_head. by injection H. Qed.

Lemma snap_elems_prefix (root k1 k2 : string) :
  path_prefix (snap_elems root k1) (snap_elems root k2) = true <-> k1 = k2.
Proof.
  rewrite path_prefix_spec. split.
  - intros [r H]. unfold snap_elems in H. rewrite <- app_assoc in H. apply app_inv_head in H.
    by injection H.
  - intros ->. exists []. by rewrite app_nil_r.
Qed.

Lemma make_dirs_frame (io : faults) (dirs : list string) (s : Snapshotter) :
  let '(s', r) := make_dirs io dirs s in
  exists f, s' = sn_set_fs f s /\ fs_names f = fs_names (sn_fs s) /\
    fs_dirs (sn_fs s) ⊆ fs_dirs f /\
    (r = Ok tt -> forall d, d ∈ dirs -> forall q, path_prefix q (path_elems d) = true -> q ∈ fs_dirs f).
Proof.
  revert s. induction dirs as [|d dirs IH]; intros s; cbn.
  - exists (sn_fs s). destruct s. split_and!; try done. intros _ d Hd. by apply not_elem_of_nil in Hd.
  - destruct (os_mkdir_all _ _ _) as [f1|] eqn:Hmk.
    + apply os_mkdir_all_frame in Hmk as (Hn & _ & _ & Hd).
      specialize (IH (sn_set_fs f1 s)). destruct (make_dirs _ _ _) as [s' r].
      destruct IH as (f & -> & Hf & Hsub & Hok). cbn in *. exists f. split_and!.
      * done.
      * congruence.
      * intros q Hq. apply Hsub, Hd. by right.
      * intros Hr d' [->|Hd']%elem_of_cons q Hq; [|by eapply Hok]. apply Hsub, Hd. by left.
    + exists (sn_fs s). destruct s. by split_and!.
Qed.

(** Growing the set of directories keeps the invariant. *)
Lemma inv_grow (s : Snapshotter) (f : fs) :
  snap_inv s -> fs_names f = fs_names (sn_fs s) -> fs_dirs (sn_fs s) ⊆ fs_dirs f ->
  snap_inv (sn_set_fs f s).
Proof.
  intros [Hr Ht Hd Hf] Hn Hsub. constructor; cbn; try done.
  - intros k i Hi Hk. apply Hsub. by eapply Hd.
  - intros k. by rewrite Hn.
Qed.

Lemma inv_record (s : Snapshotter) (key : string) (info : SnapshotInfo) :
  snap_inv s -> plain_elem key = true -> si_Name info = key ->
  (forall p, sn_snapshots s !! key = Some p -> si_Kind p <> KindCommitted) ->
  (si_Parent info <> "" -> check_parent s (si_Parent info) = Ok tt) ->
  (si_Kind info <> KindView -> snap_elems (sn_root s) key ∈ fs_dirs (sn_fs s)) ->
  snap_inv (sn_set (<[key := info]> (sn_snapshots s)) s).
Proof.
  intros [Hr Ht Hd Hf] Hpl Hn Hk Hpar Hdir. constructor; cbn; try done.
  - apply tree_insert; [done..|]. intros Hp. specialize (Hpar Hp). unfold check_parent in Hpar.
    destruct (sn_snapshots s !! si_Parent info) as [p|]; [|done]. exists p. by case_decide.
  - intros k i [[<- <-]|[_ Hi]]%lookup_insert_Some Hkd; [auto|]. by eapply Hd.
Qed.

Lemma check_absent_ok (s : Snapshotter) (key : string) :
  check_absent s key = Ok tt <-> sn_snapshots s !! key = None.
Proof. unfold check_absent. by destruct (_ !! _). Qed.

(** A command that only inspects the state leaves it alone. *)
Lemma with_state_bind {A B : Type} (f : Snapshotter -> res SnapErr A) (k : A -> GoM Snapshotter SnapErr B)
    (s : Snapshotter) :
  go_bind (with_state f) k s =
  match f s with Ok a => k a s | Err e => (s, Err e) | Panic => (s, Panic) end.
Proof. unfold go_bind, with_state. by destruct (f s). Qed.

(** [Prepare], by cases. *)
Lemma Prepare_eq (io : faults) (fuel : nat) (now : Z) (key parent : string) (s : Snapshotter) :
  Prepare io fuel now key parent s =
  match (if String.eqb parent "" then Ok tt else check_parent s parent) with
  | Ok _ =>
      match check_absent s key with
      | Ok _ =>
          match make_dirs io [getSnapFSPath s key; path_join [getSnapDir s key; "work"]] s with
          | (s1, Ok _) =>
              let s2 := sn_set (<[key := mkInfo key parent KindActive ∅ now now]> (sn_snapshots s1)) s1 in
              (s2, mountsWithoutLock fuel s2 key)
          | (s1, Err e) => (s1, Err e)
          | (s1, Panic) => (s1, Panic)
          end
      | Err e => (s, Err e)
      | Panic => (s, Panic)
      end
  | Err e => (s, Err e)
  | Panic => (s, Panic)
  end.
Proof.
  unfold Prepare. destruct (String.eqb parent ""); unfold go_bind, with_state, record_snapshot, go_ret;
    cbn; repeat case_match; simplify_eq; done.
Qed.

Lemma Prepare_inv (io : faults) (fuel : nat) (now : Z) (key parent : string) (s : Snapshotter) :
  plain_elem key = true -> snap_inv s -> snap_inv (Prepare io fuel now key parent s).1.
Proof.
  intros Hpl Hinv. rewrite Prepare_eq.
  destruct (if String.eqb parent "" then _ else _) as [[]|e|] eqn:Hpar; [|done|done].
  destruct (check_absent s key) as [[]|e|] eqn:Habs; [|done|done]. apply check_absent_ok in Habs.
  pose proof (make_dirs_frame io [getSnapFSPath s key; path_join [getSnapDir s key; "work"]] s) as Hmk.
  destruct (make_dirs _ _ _) as [s1 r]. destruct Hmk as (f & -> & Hn & Hsub & Hok).
  pose proof (inv_grow _ _ Hinv Hn Hsub) as Hinv1.
  destruct r as [[]|e|]; [|done|done]. apply inv_record; cbn; try done.
  - intros p. by rewrite Habs.
  - intros Hp. apply String.eqb_neq in Hp. by rewrite Hp in Hpar.
  - intros _. apply (Hok eq_refl (getSnapFSPath s key)); [set_solver|].
    unfold getSnapFSPath. rewrite path_elems_join by (try done; try apply Hinv; by repeat constructor).
    apply path_prefix_spec. exists ["fs"]. unfold snap_elems. by rewrite <- app_assoc.
Qed.

Lemma View_inv (fuel : nat) (now : Z) (key parent : string) (s : Snapshotter) :
  plain_elem key = true -> snap_inv s -> snap_inv (View fuel now key parent s).1.
Proof.
  intros Hpl Hinv. unfold View. destruct (String.eqb parent ""); [done|].
  rewrite !with_state_bind. destruct (check_parent s parent) as [[]|e|] eqn:Hpar; [|done|done].
  destruct (check_absent s key) as [[]|e|] eqn:Habs; [|done|done].
  apply check_absent_ok in Habs. apply inv_record; cbn; try done. intros p. by rewrite Habs.
Qed.

(** Moving a layer directory: the other layers keep theirs. *)
Lemma rename_layer (io : faults) (root key name : string) (f f' : fs) :
  snap_elems root key ∈ fs_dirs f -> (forall k, fs_names f !! snap_elems root k = None) ->
  os_rename io (snap_elems root key) (snap_elems root name) f = Some f' ->
  (snap_elems root name ∉ fs_dirs f) /\
  (forall k, k <> key -> snap_elems root k ∈ fs_dirs f -> snap_elems root k ∈ fs_dirs f') /\
  snap_elems root name ∈ fs_dirs f' /\ (forall k, fs_names f' !! snap_elems root k = None).
Proof.
  intros Hdir Hno. unfold os_rename. rewrite Hno.
  destruct (io _); [done|]. destruct (fs_is_dir f (snap_elems root name)) eqn:Hd; [done|].
  destruct (negb _); [done|]. destruct (_ && _); [|done]. intros [= <-]. cbn.
  assert (Hreb : forall k, k <> key ->
    rebase (snap_elems root key) (snap_elems root name) (snap_elems root k) = snap_elems root k).
  { intros k Hk. unfold rebase. destruct (path_prefix _ _) eqn:Hp; [|done].
    by apply snap_elems_prefix in Hp as ->. }
  unfold fs_is_dir in Hd. apply bool_decide_eq_false in Hd. split_and!.
  - done.
  - intros k Hk Hin. apply elem_of_map. exists (snap_elems root k). by rewrite Hreb.
  - apply elem_of_map. exists (snap_elems root key). split; [|done]. unfold rebase.
    rewrite (proj2 (snap_elems_prefix root key key) eq_refl), drop_all. by rewrite app_nil_r.
  - intros k. destruct (kmap _ _ !! _) as [ino|] eqn:Hl; [|done]. exfalso.
    unfold kmap in Hl. apply elem_of_list_to_map_2, list_elem_of_fmap in Hl as ([q i] & He & Hq).
    apply elem_of_map_to_list in Hq. cbn in He. injection He as He ->.
    unfold rebase in He. destruct (path_prefix _ q) eqn:Hp; [|by rewrite <- He, Hno in Hq].
    apply path_prefix_spec in Hp as [r ->]. rewrite skipn_app, skipn_all, Nat.sub_diag in He. cbn in He.
    destruct r as [|x r]; [by rewrite app_nil_r, Hno in Hq|].
    apply (f_equal length) in He. unfold snap_elems in He. rewrite !length_app in He. cbn in He. lia.
Qed.

Lemma Commit_inv (io : faults) (now : Z) (key name : string) (s : Snapshotter) :
  plain_elem name = true -> snap_inv s -> snap_inv (Commit io now key name s).1.
Proof.
  intros Hpl Hinv. unfold Commit. destruct (sn_snapshots s !! key) as [info|] eqn:Hk; [|done].
  case_decide as Hact; [|done].
  pose proof (t_name _ (sv_tree _ Hinv) _ _ Hk) as [Hnm Hpk].
  destruct (String.eqb name key) eqn:He.
  - apply String.eqb_eq in He as ->. cbn. destruct Hinv as [Hr Ht Hd Hf]. constructor; cbn; try done.
    + eapply tree_update; eauto.
    + intros k i [[<- <-]|[_ Hi]]%lookup_insert_Some Hkd; [|by eapply Hd].
      eapply Hd; [done|]. by rewrite Hact.
  - apply String.eqb_neq in He. rewrite !snap_dir_elems by (try done; apply Hinv).
    destruct (os_rename _ _ _ _) as [f|] eqn:Hren; [|done]. cbn.
    apply rename_layer in Hren as (Hnd & Hoth & Hnew & Hno);
      [|eapply Hinv; [done|by rewrite Hact]|apply Hinv].
    destruct Hinv as [Hr Ht Hd Hf].
    assert (Hnoch : forall k i, sn_snapshots s !! k = Some i -> si_Parent i <> key).
    { intros k i Hi Hp. assert (si_Parent i <> "") by (rewrite Hp; by intros ->).
      eapply tree_parent_ne; [done| |exact Hi|done|done]. intros p. rewrite Hk. by intros [= <-]; rewrite Hact. }
    constructor; cbn; try done.
    + apply tree_insert; cbn; [by apply tree_delete|done|done| |].
      * intros p [_ Hp]%lookup_delete_Some Hc. apply Hnd. eapply Hd; [done|]. by rewrite Hc.
      * intros Hp. destruct (t_parent _ Ht _ _ Hk Hp) as (p & H1 & H2). exists p.
        rewrite lookup_delete_ne; [done|]. intros Hq. by apply (Hnoch _ _ Hk).
    + intros k i [[<- <-]|[Hne [Hne' Hi]%lookup_delete_Some]]%lookup_insert_Some Hkd; [done|].
      apply Hoth; [done|]. by eapply Hd.
Qed.

Lemma Remove_inv (io : faults) (key : string) (s : Snapshotter) :
  snap_inv s -> snap_inv (Remove io key s).1.
Proof.
  intros Hinv. unfold Remove. destruct (sn_snapshots s !! key) as [info|] eqn:Hk; [|done].
  destruct (find_child s key) as [c|] eqn:Hch; [done|].
  pose proof (t_name _ (sv_tree _ Hinv) _ _ Hk) as [Hnm Hpk].
  rewrite snap_dir_elems by (try done; apply Hinv).
  unfold os_remove_all. destruct (io _); [done|]. cbn. destruct Hinv as [Hr Ht Hd Hf].
  constructor; cbn; try done.
  - apply tree_delete; [done|]. by apply find_child_None.
  - intros k i [Hne Hi]%lookup_delete_Some Hkd. apply elem_of_filter. split; [|by eapply Hd].
    destruct (path_prefix _ _) eqn:Hp; [|done]. by apply snap_elems_prefix in Hp.
  - intros k. apply map_lookup_filter_None. by left.
Qed.

Lemma snap_step_inv (s s' : Snapshotter) : snap_inv s -> snap_step s s' -> snap_inv s'.
Proof.
  intros Hinv [].
  - by apply Prepare_inv.
  - by apply View_inv.
  - by apply Commit_inv.
  - by apply Remove_inv.
  - unfold Update. destruct (sn_snapshots s !! key) as [info|] eqn:Hk; [|done]. cbn.
    destruct Hinv as [Hr Ht Hd Hf]. constructor; cbn; try done.
    + by eapply tree_update.
    + intros k i [[<- <-]|[_ Hi]]%lookup_insert_Some Hkd; [by eapply Hd|by eapply Hd].
  - destruct Hinv as [Hr Ht Hd Hf]. constructor; cbn; try done.
    intros k i Hi Hk. apply H. by eapply Hd.
Qed.

Lemma snap_steps_inv (s s' : Snapshotter) : rtc snap_step s s' -> snap_inv s -> snap_inv s'.
Proof. induction 1; eauto using snap_step_inv. Qed.

Lemma NewSnapshotter_fresh (io : faults) (root : string) (f : fs) (s : Snapshotter) :
  is_rooted root = true -> fs_names f = ∅ -> NewSnapshotter io root f = Ok s -> snap_inv s.
Proof.
  intros Hr Hf. unfold NewSnapshotter. destruct (os_mkdir_all _ _ _) as [f1|] eqn:Hmk; [|done].
  intros [= <-]. apply os_mkdir_all_frame in Hmk as (Hn & _ & _ & _). rewrite Hf in Hn.
  constructor; cbn; [done|apply tree_empty|done|]. intros k. by rewrite Hn.
Qed.

Lemma NewSnapshotter_inv (io : faults) (root : string) (s : Snapshotter) :
  is_rooted root = true -> NewSnapshotter io root fs_empty = Ok s -> snap_inv s.
Proof. intros Hr. by apply NewSnapshotter_fresh. Qed.

(** ** Lemmas: the loop over parents *)

Section chain.
  Context (s : Snapshotter) (rank : string -> nat).
  Context (Hpar : forall k i, sn_snapshots s !! k = Some i -> si_Parent i <> "" ->
    exists p, sn_snapshots s !! si_Parent i = Some p /\ si_Kind p = KindCommitted).
  Context (Hrank : forall k i, sn_snapshots s !! k = Some i -> si_Parent i <> "" ->
    rank (si_Parent i) < rank k).

(** The number of snapshots ranked below a key bounds the loop. *)
Definition below (k : string) : nat :=
  size (filter (fun kv : string * SnapshotInfo => rank kv.1 < rank k) (sn_snapshots s)).

Lemma below_lt (p k : string) (i : SnapshotInfo) :
  sn_snapshots s !! p = Some i -> rank p < rank k -> below p < below k.
Proof.
  intros Hp Hlt. unfold below. apply map_subset_size. split.
  - apply map_subseteq_spec. intros q j [Hq Hr]%map_lookup_filter_Some.
    apply map_lookup_filter_Some. split; [done|]. cbn in *. lia.
  - intros Hsub. rewrite map_subseteq_spec in Hsub.
    assert (H : filter (fun kv : string * SnapshotInfo => rank kv.1 < rank p) (sn_snapshots s) !! p = Some i).
    { apply Hsub, map_lookup_filter_Some. done. }
    apply map_lookup_filter_Some in H as [_ H]. cbn in H. lia.
Qed.

Lemma parentChain_enough (fuel : nat) (k : string) :
  below k < fuel -> is_Some (parentChain fuel s k).
Proof.
  revert k. induction fuel as [|fuel IH]; intros k Hb; [lia|]. cbn.
  destruct (sn_snapshots s !! k) as [i|] eqn:Hk; [|done].
  destruct (String.eqb (si_Parent i) "") eqn:He; [done|]. apply String.eqb_neq in He.
  apply fmap_is_Some, IH. destruct (Hpar _ _ Hk He) as (p & Hp & _).
  pose proof (below_lt _ _ _ Hp (Hrank _ _ Hk He)). lia.
Qed.

Lemma parentChain_ancestors (fuel : nat) (k : string) (i : SnapshotInfo) (l : list string) :
  sn_snapshots s !! k = Some i -> parentChain fuel s k = Some l -> ancestors (sn_snapshots s) k l.
Proof.
  revert k i l. induction fuel as [|fuel IH]; intros k i l Hk; [done|]. cbn. rewrite Hk.
  destruct (String.eqb (si_Parent i) "") eqn:He.
  - intros [= <-]. apply String.eqb_eq in He. by eapply anc_base.
  - intros (l' & Hl & ->)%fmap_Some. apply String.eqb_neq in He.
    destruct (Hpar _ _ Hk He) as (p & Hp & _). eapply anc_step; [done|done|]. by eapply IH.
Qed.

(** Ancestors are committed and ranked below the snapshot, each once. *)
Lemma ancestors_ok (k : string) (l : list string) :
  ancestors (sn_snapshots s) k l ->
  NoDup l /\ Forall (fun a => rank a < rank k /\
    exists p, sn_snapshots s !! a = Some p /\ si_Kind p = KindCommitted) l.
Proof.
  induction 1 as [k i Hk He|k i l Hk He Hanc [Hnd Hall]]; [by repeat constructor|].
  pose proof (Hrank _ _ Hk He) as Hlt. split.
  - constructor; [|done]. intros Hin. rewrite Forall_forall in Hall.
    destruct (Hall _ Hin) as [? _]. lia.
  - constructor; [split; [done|by eapply Hpar]|]. eapply Forall_impl; [exact Hall|]. cbn. intros a [? ?]. split; [lia|done].
Qed.

End chain.

Lemma parentChain_inv (s : Snapshotter) (key : string) (i : SnapshotInfo) (fuel : nat) :
  snap_inv s -> sn_snapshots s !! key = Some i -> size (sn_snapshots s) < fuel ->
  exists l, parentChain fuel s key = Some l /\ ancestors (sn_snapshots s) key l.
Proof.
  intros Hinv Hk Hf. destruct (sv_tree _ Hinv) as [Hn Hp [rank Hr]].
  destruct (parentChain_enough s rank Hp Hr fuel key) as [l Hl].
  - eapply Nat.le_lt_trans; [|done]. unfold below. apply map_subseteq_size, map_filter_subseteq.
  - exists l. split; [done|]. by eapply parentChain_ancestors.
Qed.

Lemma self_parent_diverges (s : Snapshotter) (k : string) (i : SnapshotInfo) (fuel : nat) :
  sn_snapshots s !! k = Some i -> si_Parent i = k -> k <> "" -> parentChain fuel s k = None.
Proof.
  intros Hk Hp Hne. induction fuel as [|fuel IH]; [done|]. cbn. rewrite Hk, Hp.
  apply String.eqb_neq in Hne. by rewrite Hne, IH.
Qed.

Lemma make_dirs_ok (dirs : list string) (s : Snapshotter) :
  fs_names (sn_fs s) = ∅ ->
  exists s', make_dirs no_faults dirs s = (s', Ok tt) /\ sn_snapshots s' = sn_snapshots s.
Proof.
  revert s. induction dirs as [|d dirs IH]; intros s Hs; [by exists s|]. cbn. unfold os_mkdir_all.
  destruct (existsb _ _) eqn:He.
  - apply existsb_exists in He as (p & _ & He). unfold fs_is_file in He. by rewrite Hs, lookup_empty in He.
  - cbn [no_faults]. by apply (IH (sn_set_fs _ s)).
Qed.

Lemma Prepare_on_loop (fuel : nat) (now : Z) (key k : string) (s : Snapshotter) (i : SnapshotInfo) :
  sn_snapshots s !! k = Some i -> si_Parent i = k -> k <> "" -> si_Kind i = KindCommitted ->
  sn_snapshots s !! key = None -> fs_names (sn_fs s) = ∅ ->
  (Prepare no_faults fuel now key k s).2 = Err OutOfFuel.
Proof.
  intros Hi Hp Hne Hc Hk Hfiles. rewrite Prepare_eq. apply String.eqb_neq in Hne as Hne'.
  unfold check_parent, check_absent. rewrite Hne', Hi, Hk, Hc, decide_True by done.
  destruct (make_dirs_ok [getSnapFSPath s key; path_join [getSnapDir s key; "work"]] s Hfiles)
    as (s1 & -> & Hsn).
  cbn [snd]. unfold mountsWithoutLock. cbn [sn_snapshots sn_set].
  rewrite lookup_insert_eq. cbn [si_Kind]. rewrite decide_False by done.
  destruct fuel as [|fuel]; [done|]. cbn [parentChain sn_snapshots sn_set].
  rewrite lookup_insert_eq. cbn [si_Parent]. rewrite Hne'.
  erewrite self_parent_diverges; [done| |exact Hp|done].
  cbn [sn_snapshots sn_set]. rewrite lookup_insert_ne, Hsn; [done|]. congruence.
Qed.

(** What the mounts of a snapshot are, given its ancestors. *)
Definition mounts_of (s : Snapshotter) (key : string) (i : SnapshotInfo) (anc : list string) : list Mount :=
  match si_Kind i, anc with
  | KindCommitted, _ | _, [] => [bind_mount (getSnapFSPath s key)]
  | KindView, _ =>
      [mkMount "overlay" "overlay" ["lowerdir=" +:+ str_join ":" (map (getSnapFSPath s) anc); "index=off"]]
  | _, _ =>
      [mkMount "overlay" "overlay"
         ["lowerdir=" +:+ str_join ":" (map (getSnapFSPath s) anc);
          "upperdir=" +:+ getSnapFSPath s key;
          "workdir=" +:+ path_join [getSnapDir s key; "work"]; "index=off"]]
  end.

Lemma mountsWithoutLock_of (fuel : nat) (s : Snapshotter) (key : string) (i : SnapshotInfo)
    (anc : list string) :
  sn_snapshots s !! key = Some i -> parentChain fuel s key = Some anc ->
  mountsWithoutLock fuel s key = Ok (mounts_of s key i anc).
Proof.
  intros Hk Hc. unfold mountsWithoutLock, mounts_of. rewrite Hk, Hc.
  destruct anc as [|a anc], (si_Kind i); done.
Qed.

(** What [reachable] means below: the states a client can bring a fresh
    snapshotter into. *)
Definition snap_reachable (s : Snapshotter) : Prop :=
  exists io root s0, is_rooted root = true /\ NewSnapshotter io root fs_empty = Ok s0 /\
    rtc snap_step s0 s.

Lemma snap_reachable_inv (s : Snapshotter) : snap_reachable s -> snap_inv s.
Proof. intros (io & root & s0 & Hr & Hn & Hs). eapply snap_steps_inv; [done|by eapply NewSnapshotter_inv]. Qed.

(** ** A sample run *)

Definition demo_snap0 : Snapshotter :=
  match NewSnapshotter no_faults "/s" fs_empty with
  | Ok s => s
  | _ => mkSnapshotter "" ∅ ∅ fs_empty
  end.

(** base <- mid <- top, with [top] active. *)
Definition demo_calls : GoM Snapshotter SnapErr unit :=
  _ <-! Prepare no_faults 9 1 "base" "" ;
  _ <-! Commit no_faults 2 "base" "base" ;
  _ <-! Prepare no_faults 9 3 "tmp" "base" ;
  _ <-! Commit no_faults 4 "tmp" "mid" ;
  _ <-! Prepare no_faults 9 5 "top" "mid" ;
  go_ret tt.

Definition demo_snap : Snapshotter := (demo_calls demo_snap0).1.

(** Keys with a slash: the directory of "a/b" lies below that of "a". *)
Definition slash_calls : GoM Snapshotter SnapErr unit :=
  _ <-! Prepare no_faults 9 1 "a/b" "" ;
  _ <-! Commit no_faults 2 "a/b" "a/b" ;
  _ <-! Prepare no_faults 9 3 "a" "" ;
  _ <-! Remove no_faults "a" ;
  _ <-! Prepare no_faults 9 4 "c" "a/b" ;
  _ <-! Prepare no_faults 9 5 "a" "" ;
  Commit no_faults 6 "c" "a/b".

Lemma demo_snap_reachable : snap_reachable demo_snap.
Proof.
  exists no_faults, "/s", demo_snap0. split_and!; [done|vm_eq|].
  eapply rtc_l; [apply (sstep_prepare _ no_faults 9 1 "base" ""); done|].
  eapply rtc_l; [apply (sstep_commit _ no_faults 2 "base" "base"); done|].
  eapply rtc_l; [apply (sstep_prepare _ no_faults 9 3 "tmp" "base"); done|].
  eapply rtc_l; [apply (sstep_commit _ no_faults 4 "tmp" "mid"); done|].
  eapply rtc_l; [apply (sstep_prepare _ no_faults 9 5 "top" "mid"); done|].
  match goal with |- rtc _ ?a ?b => replace b with a by vm_eq end. apply rtc_refl.
Qed.

(** ** Properties *)

(** C29: The layer tree stays well formed.  Whatever calls with plain keys were
    made, and whatever failed on the way, the parent of every snapshot exists
    and is committed, and every active or committed snapshot still has its
    directory: no [Remove] orphans a child and no [Commit] overwrites a layer. *)
Theorem snapshot_tree_safe (s : Snapshotter) (key : string) (i : SnapshotInfo) :
  snap_reachable s -> Stat s key = Ok i ->
  si_Name i = key /\
  (si_Parent i <> "" -> exists p, Stat s (si_Parent i) = Ok p /\ si_Kind p = KindCommitted) /\
  (si_Kind i <> KindView -> path_elems (getSnapDir s key) ∈ fs_dirs (sn_fs s)).
Proof.
  intros Hinv%snap_reachable_inv. unfold Stat. destruct (sn_snapshots s !! key) as [i'|] eqn:Hk; [|done].
  intros [= ->]. destruct (t_name _ (sv_tree _ Hinv) _ _ Hk) as [Hn Hpl]. split_and!; [done| |].
  - intros Hp. destruct (t_parent _ (sv_tree _ Hinv) _ _ Hk Hp) as (p & -> & Hc). eauto.
  - intros Hv. rewrite snap_dir_elems by (try done; apply Hinv). by eapply (sv_dir _ Hinv).
Qed.

Lemma snapshot_tree_safe_witness :
  exists i, Stat demo_snap "top" = Ok i /\ si_Parent i = "mid" /\
  exists p, Stat demo_snap "mid" = Ok p /\ si_Kind p = KindCommitted.
Proof.
  eexists. split; [vm_compute; reflexivity|]. split; [reflexivity|].
  apply (snapshot_tree_safe demo_snap "top" (mkInfo "top" "mid" KindActive ∅ 5 5)
    demo_snap_reachable); [vm_compute; reflexivity|discriminate].
Defined.

(** C35: The walk to the root terminates.  In every state reached by calls with plain
    keys the loop of [parentChain] ends within one iteration more than there are snapshots and
    returns the ancestors of the snapshot, nearest first, each committed and
    none twice. *)
Theorem parentChain_correct (s : Snapshotter) (key : string) (i : SnapshotInfo) :
  snap_reachable s -> Stat s key = Ok i ->
  exists l, parentChain (S (size (sn_snapshots s))) s key = Some l /\
    ancestors (sn_snapshots s) key l /\ NoDup (key :: l) /\
    Forall (fun a => exists p, Stat s a = Ok p /\ si_Kind p = KindCommitted) l.
Proof.
  intros Hinv%snap_reachable_inv Hk.
  assert (Hk' : sn_snapshots s !! key = Some i).
  { unfold Stat in Hk. by destruct (sn_snapshots s !! key); simplify_eq. }
  destruct (parentChain_inv s key i (S (size (sn_snapshots s))) Hinv Hk') as (l & Hl & Hanc); [lia|].
  destruct (sv_tree _ Hinv) as [_ Hp [rank Hr]].
  destruct (ancestors_ok s rank Hp Hr _ _ Hanc) as [Hnd Hall]. exists l. split_and!; try done.
  - constructor; [|done]. intros Hin. rewrite Forall_forall in Hall. destruct (Hall _ Hin). lia.
  - eapply Forall_impl; [exact Hall|]. intros a (_ & p & Hp1 & Hp2). exists p.
    unfold Stat. by rewrite Hp1.
Qed.

Lemma parentChain_correct_witness :
  exists l, parentChain 4 demo_snap "top" = Some l /\ NoDup ("top" :: l).
Proof.
  destruct (parentChain_correct demo_snap "top" (mkInfo "top" "mid" KindActive ∅ 5 5)
    demo_snap_reachable) as (l & Hl & _ & Hnd & _); [vm_compute; reflexivity|].
  exists l. split; [exact Hl|exact Hnd].
Defined.

(** C36: Keys that hold a slash break the tree.  A client that uses "a/b" and
    "a" as keys can remove the directory of a committed layer through the other
    key, commit a child of the layer under the layer's own name, and so make a
    snapshot its own parent: from then on preparing a snapshot on it never
    returns, however long it runs, and it holds the snapshotter's lock. *)
Theorem Prepare_diverges :
  (slash_calls demo_snap0).2 = Ok tt /\
  forall fuel now key,
    key <> "a/b" -> key <> "a" ->
    (Prepare no_faults fuel now key "a/b" (slash_calls demo_snap0).1).2 = Err OutOfFuel.
Proof.
  split; [vm_eq|]. intros fuel now key H1 H2.
  assert (Hi : sn_snapshots (slash_calls demo_snap0).1 !! "a/b" =
    Some (mkInfo "a/b" "a/b" KindCommitted ∅ 4 6)) by vm_eq.
  assert (Hd : dom (sn_snapshots (slash_calls demo_snap0).1) = {["a/b"; "a"]}) by vm_eq.
  assert (Hf : fs_names (sn_fs (slash_calls demo_snap0).1) = ∅) by vm_eq.
  revert Hi Hd Hf. generalize (slash_calls demo_snap0).1. intros s Hi Hd Hf.
  eapply Prepare_on_loop; [exact Hi|done|done|done| |exact Hf].
  apply not_elem_of_dom. by rewrite Hd, not_elem_of_union, !not_elem_of_singleton.
Qed.

(** The mounts of a writable snapshot stack its ancestors.  For an active
    snapshot with a parent, enough fuel gives one overlay mount whose [lowerdir]
    option, split at colons as the kernel does, lists the layer directories of
    the ancestors, nearest first, provided no layer path holds a colon; the
    upper and work directories are the snapshot's own. *)
Theorem Mounts_overlay (fuel : nat) (s : Snapshotter) (key : string) (i : SnapshotInfo) :
  snap_reachable s -> Stat s key = Ok i -> si_Kind i = KindActive -> si_Parent i <> "" ->
  size (sn_snapshots s) < fuel ->
  (forall a, is_Some (sn_snapshots s !! a) -> str_has ch_colon (getSnapFSPath s a) = false) ->
  exists anc lower,
    parentChain fuel s key = Some anc /\ ancestors (sn_snapshots s) key anc /\
    str_split ch_colon lower = map (getSnapFSPath s) anc /\
    Mounts fuel s key = Ok [mkMount "overlay" "overlay"
      ["lowerdir=" +:+ lower; "upperdir=" +:+ getSnapFSPath s key;
       "workdir=" +:+ path_join [getSnapDir s key; "work"]; "index=off"]].
Proof.
  intros Hinv%snap_reachable_inv Hst Hact Hp Hf Hcol.
  assert (Hk : sn_snapshots s !! key = Some i).
  { unfold Stat in Hst. by destruct (sn_snapshots s !! key); simplify_eq. }
  destruct (parentChain_inv s key i fuel Hinv Hk Hf) as (anc & Hc & Hanc).
  exists anc, (str_join ":" (map (getSnapFSPath s) anc)). split; [done|]. split; [done|].
  destruct (sv_tree _ Hinv) as [_ Hpar [rank Hr]].
  destruct (ancestors_ok s rank Hpar Hr _ _ Hanc) as [_ Hall].
  assert (Hne : anc <> []) by (by inversion Hanc; simplify_eq). split.
  - apply (str_split_join ch_colon); [by destruct anc|]. apply Forall_map. eapply Forall_impl; [exact Hall|].
    intros a (_ & p & Hp1 & _). by apply Hcol; rewrite Hp1.
  - unfold Mounts. rewrite (mountsWithoutLock_of fuel s key i anc Hk Hc).
    unfold mounts_of. rewrite Hact. by destruct anc.
Qed.

Lemma Mounts_overlay_witness :
  exists lower, str_split ch_colon lower = ["/s/mid/fs"; "/s/base/fs"] /\
  Mounts 4 demo_snap "top" = Ok [mkMount "overlay" "overlay"
    ["lowerdir=" +:+ lower; "upperdir=/s/top/fs"; "workdir=/s/top/work"; "index=off"]].
Proof.
  destruct (Mounts_overlay 4 demo_snap "top" (mkInfo "top" "mid" KindActive ∅ 5 5) demo_snap_reachable)
    as (anc & lower & Hc & _ & Hl & Hm); [vm_compute; reflexivity|reflexivity|discriminate|vm_compute; lia| |].
  - assert (H : forallb (fun kv : string * SnapshotInfo => negb (str_has ch_colon (getSnapFSPath demo_snap kv.1)))
      (map_to_list (sn_snapshots demo_snap)) = true) by vm_eq.
    intros a [j Ha]. rewrite forallb_forall in H. apply elem_of_map_to_list, list_elem_of_In in Ha.
    apply H in Ha. by apply negb_true_iff in Ha.
  - exists lower. split; [|exact Hm]. rewrite Hl.
    assert (Hc' : parentChain 4 demo_snap "top" = Some ["mid"; "base"]) by vm_eq.
    rewrite Hc' in Hc. apply (inj Some) in Hc as <-. vm_eq.
Defined.

(** [Remove] deletes exactly one snapshot, and only a leaf.  On success the
    key was known, no snapshot has it as parent, its record is gone, the others
    are untouched, and nothing is left at or below its directory; a snapshot
    with a child is refused naming a child, and every failure leaves the
    snapshotter as it was. *)
Theorem Remove_spec (io : faults) (key : string) (s : Snapshotter) :
  match Remove io key s with
  | (s', Ok _) =>
      is_Some (sn_snapshots s !! key) /\
      (forall k i, sn_snapshots s !! k = Some i -> si_Parent i <> key) /\
      sn_snapshots s' = delete key (sn_snapshots s) /\
      forall p, path_prefix (path_elems (getSnapDir s key)) p = true ->
        (p ∉ fs_dirs (sn_fs s')) /\ fs_names (sn_fs s') !! p = None
  | (s', Err e) =>
      s' = s /\
      match e with
      | HasChild k c => k = key /\ exists k' i, sn_snapshots s !! k' = Some i /\ si_Parent i = key /\ si_Name i = c
      | SnapNotFound k => k = key /\ sn_snapshots s !! key = None
      | _ => io (SysRemoveAll (path_elems (getSnapDir s key))) = true
      end
  | (_, Panic) => False
  end.
Proof.
  unfold Remove. destruct (sn_snapshots s !! key) as [info|] eqn:Hk; [|done].
  destruct (find_child s key) as [c|] eqn:Hch.
  - split; [done|]. split; [done|]. unfold find_child in Hch.
    apply fmap_Some in Hch as ([k i] & Hf & ->). apply find_some in Hf as [Hin He].
    apply list_elem_of_In, elem_of_map_to_list in Hin. apply String.eqb_eq in He. by exists k, i.
  - unfold os_remove_all. destruct (io _) eqn:Hio; [done|]. split_and!; [done|by apply find_child_None|done|].
    intros p Hp. cbn. split.
    + intros [Hf _]%elem_of_filter. congruence.
    + apply map_lookup_filter_None. right. intros ino _. cbn. congruence.
Qed.

(** [Commit] freezes an active snapshot under a new name and overwrites no
    layer.  In a reachable state a successful commit to another name finds no
    active or committed snapshot there; the new record keeps the parent and the
    labels, is committed, and replaces the key. *)
Theorem Commit_spec (io : faults) (now : Z) (key name : string) (s s' : Snapshotter) :
  snap_reachable s -> plain_elem name = true -> name <> key ->
  Commit io now key name s = (s', Ok tt) ->
  exists i, Stat s key = Ok i /\ si_Kind i = KindActive /\
    (forall j, Stat s name = Ok j -> si_Kind j = KindView) /\
    sn_snapshots s' = <[name := mkInfo name (si_Parent i) KindCommitted (si_Labels i) (si_CreatedAt i) now]>
                        (delete key (sn_snapshots s)) /\
    path_elems (getSnapDir s name) ∈ fs_dirs (sn_fs s').
Proof.
  intros Hinv%snap_reachable_inv Hpl Hne. unfold Commit, Stat.
  destruct (sn_snapshots s !! key) as [i|] eqn:Hk; [|done]. case_decide as Hact; [|done].
  apply String.eqb_neq in Hne as He. rewrite He.
  pose proof (t_name _ (sv_tree _ Hinv) _ _ Hk) as [_ Hpk].
  rewrite !snap_dir_elems by (try done; apply Hinv).
  destruct (os_rename _ _ _ _) as [f|] eqn:Hren; [|done]. intros [= <-].
  apply rename_layer in Hren as (Hnd & _ & Hnew & _);
    [|eapply Hinv; [done|by rewrite Hact]|apply Hinv].
  exists i. split_and!; try done. intros j Hj. destruct (sn_snapshots s !! name) as [j'|] eqn:Hn; simplify_eq.
  destruct (decide (si_Kind j = KindView)) as [|Hv]; [done|]. exfalso. by eapply Hnd, Hinv.
Qed.

Lemma Commit_spec_witness :
  exists i, Stat demo_snap "top" = Ok i /\ si_Kind i = KindActive /\
    Stat (Commit no_faults 7 "top" "sealed" demo_snap).1 "sealed" =
      Ok (mkInfo "sealed" (si_Parent i) KindCommitted (si_Labels i) (si_CreatedAt i) 7).
Proof.
  destruct (Commit_spec no_faults 7 "top" "sealed" demo_snap (Commit no_faults 7 "top" "sealed" demo_snap).1)
    as (i & H1 & H2 & _ & H3 & _).
  - exact demo_snap_reachable.
  - reflexivity.
  - discriminate.
  - vm_eq.
  - exists i. split; [exact H1|]. split; [exact H2|]. unfold Stat. rewrite H3. by rewrite lookup_insert_eq.
Defined.

(** A view has no directory, so a commit can take its name, and the view is
    gone. *)
Example Commit_replaces_view :
  let calls :=
    _ <-! View 9 7 "v" "mid" ;
    Commit no_faults 8 "top" "v" in
  (calls demo_snap).2 = Ok tt /\
  (si_Kind <$> sn_snapshots (calls demo_snap).1 !! "v") = Some KindCommitted.
Proof. split; vm_eq. Qed.

(** A layer named by a digest: the kernel splits its path at the colon. *)
Example lowerdir_colon :
  let calls :=
    _ <-! Prepare no_faults 9 1 "t" "" ;
    _ <-! Commit no_faults 2 "t" "sha256:aa" ;
    Prepare no_faults 9 3 "c" "sha256:aa" in
  exists rest, (calls demo_snap0).2 =
    Ok [mkMount "overlay" "overlay" (("lowerdir=/s/sha256:aa/fs") :: rest)] /\
  str_split ch_colon "/s/sha256:aa/fs" = ["/s/sha256"; "aa/fs"].
Proof. eexists. split; [vm_compute; reflexivity|reflexivity]. Qed.

(** The key ".." names the directory above the root. *)
Example Remove_escapes_root :
  let calls :=
    _ <-! Prepare no_faults 9 1 "base" "" ;
    _ <-! Prepare no_faults 9 2 ".." "" ;
    Remove no_faults ".." in
  (calls demo_snap0).2 = Ok tt /\
  elements (fs_dirs (sn_fs (calls demo_snap0).1)) = [].
Proof. split; vm_eq. Qed.
