(* ===== verification/Task.v ===== *)
(** * Container tasks: mini-containerd/internal/task

    [task.go] runs one operating-system process per task and a goroutine that
    waits for its exit; [service.go] is the gRPC front.  Task records are Go
    objects shared between the manager's map, the goroutine and callers of
    [Get] and [List], so they live in a heap.  Here a call is one
    step, and the goroutine takes three: the process exits, the record is
    updated, the result is sent on the task's channel.  [TaskConcurrency] splits
    the calls into the sections of their locks. *)

From S2P Require Import Prelude.
From S2P Require Import GoStrings.
From S2P Require Import Grpc.
From stdpp Require Import pretty.

(** ** State *)

Abbreviation Status := string.
Definition StatusCreated : Status := "CREATED".
Definition StatusRunning : Status := "RUNNING".
Definition StatusStopped : Status := "STOPPED".
Definition StatusPaused : Status := "PAUSED".

(** The part of the OCI runtime spec the code reads. *)
Record Process : Type := mkProcess {
  p_Args : list string;
  p_Env : list string;
  p_Cwd : string
}.
Record Spec : Type := mkSpec {
  sp_Process : option Process;
  sp_RootPath : option string
}.

(** What [cmd.Wait] returns: nil, an [*exec.ExitError] with its exit status, or
    another error. *)
Inductive exit_result : Type :=
| ExitNil
| ExitError (status : Z)
| ExitOther.

(** Where the goroutine of a task is. *)
Inductive monitor : Type :=
| MonWaiting
| MonExited (err : exit_result)
| MonUpdated (err : exit_result)
| MonDone.

(** The command line, environment and directory of an [exec.Cmd]. *)
Record Cmd : Type := mkCmd {
  c_Args : list string;
  c_Env : list string;
  c_Dir : string
}.

Record Task : Type := mkTask {
  t_ID : string;
  t_Pid : Z;
  t_Status : Status;
  t_ExitCode : Z;
  t_Bundle : string;
  t_RootFS : string;
  t_Spec : Spec;
  t_CreatedAt : Z;
  t_StartedAt : option Z;
  t_cmd : Cmd;
  t_waitCh : list exit_result;
  t_mon : monitor
}.

Definition loc : Type := nat.

(** [m_signals] is the log of signals sent, newest first. *)
Record Manager : Type := mkManager {
  m_tasks : gmap string loc;
  m_heap : gmap loc Task;
  m_next : loc;
  m_signals : list (Z * Z)
}.

Definition NewManager : Manager := mkManager ∅ ∅ 0 [].

Inductive TaskErr : Type :=
| TaskExists (id : string)
| StartProcess
| TaskNotFound (id : string)
| NotInState (id : string) (current : Status)
| NoProcess (id : string)
| SignalFailed
| StillRunning (id : string)
| RunFailed.

Definition set_task (l : loc) (t : Task) (m : Manager) : Manager :=
  mkManager (m_tasks m) (<[l := t]> (m_heap m)) (m_next m) (m_signals m).
Definition log_signal (pid sig : Z) (m : Manager) : Manager :=
  mkManager (m_tasks m) (m_heap m) (m_next m) ((pid, sig) :: m_signals m).

Definition with_Status (st : Status) (t : Task) : Task :=
  mkTask (t_ID t) (t_Pid t) st (t_ExitCode t) (t_Bundle t) (t_RootFS t) (t_Spec t)
    (t_CreatedAt t) (t_StartedAt t) (t_cmd t) (t_waitCh t) (t_mon t).
Definition with_StartedAt (now : Z) (t : Task) : Task :=
  mkTask (t_ID t) (t_Pid t) (t_Status t) (t_ExitCode t) (t_Bundle t) (t_RootFS t) (t_Spec t)
    (t_CreatedAt t) (Some now) (t_cmd t) (t_waitCh t) (t_mon t).
Definition with_ExitCode (code : Z) (t : Task) : Task :=
  mkTask (t_ID t) (t_Pid t) (t_Status t) code (t_Bundle t) (t_RootFS t) (t_Spec t)
    (t_CreatedAt t) (t_StartedAt t) (t_cmd t) (t_waitCh t) (t_mon t).
Definition with_Pid (pid : Z) (t : Task) : Task :=
  mkTask (t_ID t) pid (t_Status t) (t_ExitCode t) (t_Bundle t) (t_RootFS t) (t_Spec t)
    (t_CreatedAt t) (t_StartedAt t) (t_cmd t) (t_waitCh t) (t_mon t).
Definition with_waitCh (ch : list exit_result) (t : Task) : Task :=
  mkTask (t_ID t) (t_Pid t) (t_Status t) (t_ExitCode t) (t_Bundle t) (t_RootFS t) (t_Spec t)
    (t_CreatedAt t) (t_StartedAt t) (t_cmd t) ch (t_mon t).
Definition with_mon (mon : monitor) (t : Task) : Task :=
  mkTask (t_ID t) (t_Pid t) (t_Status t) (t_ExitCode t) (t_Bundle t) (t_RootFS t) (t_Spec t)
    (t_CreatedAt t) (t_StartedAt t) (t_cmd t) (t_waitCh t) mon.

(** The record an id names. *)
Definition lookup_task (m : Manager) (id : string) : option (loc * Task) :=
  l ← m_tasks m !! id; t ← m_heap m !! l; Some (l, t).

(** ** Creating *)

Definition buildArgs (spec : Spec) : list string :=
  match sp_Process spec with
  | None => ["sh"]
  | Some p => match p_Args p with [] => ["sh"] | args => args end
  end.

(** [start cmd] is the pid the system gives the new process, [None] when
    [cmd.Start] fails.  A nil [spec.Root] or [spec.Process] is dereferenced. *)
Definition Create (start : Cmd -> option Z) (environ : list string) (now : Z) (id bundle : string)
    (spec : Spec) : GoM Manager TaskErr loc := fun m =>
  match m_tasks m !! id with
  | Some _ => (m, Err (TaskExists id))
  | None =>
      match sp_RootPath spec with
      | None => (m, Panic)
      | Some rootPath =>
          let rootfs := if String.eqb rootPath "" then path_join [bundle; "rootfs"] else rootPath in
          let args := buildArgs spec in
          match sp_Process spec with
          | None => (m, Panic)
          | Some p =>
              let cmd := mkCmd args (environ ++ p_Env p)
                           (if String.eqb (p_Cwd p) "" then "/" else p_Cwd p) in
              match start cmd with
              | None => (m, Err StartProcess)
              | Some pid =>
                  let t := mkTask id pid StatusCreated 0 bundle rootfs spec now None cmd [] MonWaiting in
                  let l := m_next m in
                  (mkManager (<[id := l]> (m_tasks m)) (<[l := t]> (m_heap m)) (S l) (m_signals m), Ok l)
              end
          end
      end
  end.

(** The goroutine: [cmd.Wait] returns, the record is updated under its lock,
    the error is sent on the channel (which has room for one). *)
Definition process_exit (l : loc) (err : exit_result) (m : Manager) : Manager :=
  match m_heap m !! l with
  | Some t =>
      match t_mon t with MonWaiting => set_task l (with_mon (MonExited err) t) m | _ => m end
  | None => m
  end.

Definition record_exit (err : exit_result) (t : Task) : Task :=
  let t1 :=
    if String.eqb (t_Status t) StatusRunning then
      let t' := with_Status StatusStopped t in
      match err with ExitError st => with_ExitCode st t' | _ => t' end
    else t in
  with_Pid 0 t1.

Definition monitor_update (l : loc) (m : Manager) : Manager :=
  match m_heap m !! l with
  | Some t =>
      match t_mon t with
      | MonExited err => set_task l (with_mon (MonUpdated err) (record_exit err t)) m
      | _ => m
      end
  | None => m
  end.

Definition monitor_send (l : loc) (m : Manager) : Manager :=
  match m_heap m !! l with
  | Some t =>
      match t_mon t with
      | MonUpdated err =>
          if length (t_waitCh t) <? 1 then
            set_task l (with_mon MonDone (with_waitCh (t_waitCh t ++ [err]) t)) m
          else m
      | _ => m
      end
  | None => m
  end.

(** ** Operations on a task *)

Definition Start (now : Z) (id : string) : GoM Manager TaskErr unit := fun m =>
  match lookup_task m id with
  | None => (m, Err (TaskNotFound id))
  | Some (l, t) =>
      if negb (String.eqb (t_Status t) StatusCreated) then (m, Err (NotInState id (t_Status t)))
      else (set_task l (with_StartedAt now (with_Status StatusRunning t)) m, Ok tt)
  end.

(** [os.FindProcess] never fails on Unix; [deliver] says whether
    [process.Signal] succeeds. *)
Definition Kill (deliver : Z -> Z -> bool) (id : string) (signal : Z) : GoM Manager TaskErr unit := fun m =>
  match lookup_task m id with
  | None => (m, Err (TaskNotFound id))
  | Some (l, t) =>
      if (t_Pid t <=? 0)%Z then (m, Err (NoProcess id))
      else if deliver (t_Pid t) signal then (log_signal (t_Pid t) signal m, Ok tt)
      else (m, Err SignalFailed)
  end.

(** [Wait] blocks on an empty channel. *)
Inductive waited : Type :=
| Blocks
| Returned (code : Z)
| WaitFailed (e : TaskErr).

Definition Wait (id : string) (m : Manager) : Manager * waited :=
  match lookup_task m id with
  | None => (m, WaitFailed (TaskNotFound id))
  | Some (l, t) =>
      match t_waitCh t with
      | [] => (m, Blocks)
      | _ :: ch => (set_task l (with_waitCh ch t) m, Returned (t_ExitCode t))
      end
  end.

Definition Delete (id : string) : GoM Manager TaskErr unit := fun m =>
  match lookup_task m id with
  | None => (m, Err (TaskNotFound id))
  | Some (l, t) =>
      if String.eqb (t_Status t) StatusRunning then (m, Err (StillRunning id))
      else (mkManager (delete id (m_tasks m)) (m_heap m) (m_next m) (m_signals m), Ok tt)
  end.

(** [run cmd] is the outcome of [cmd.Run], for the command that enters the
    namespaces of the process [pid]. *)
Definition exec_in (run : Cmd -> exit_result) (environ : list string) (pid : Z) (spec : Process) :
    Z * option TaskErr :=
  let ns (flag name : string) := "--" +:+ flag +:+ "=/proc/" +:+ pretty pid +:+ "/ns/" +:+ name in
  let args := ["nsenter"; ns "pid" "pid"; ns "mount" "mnt"; ns "uts" "uts"; ns "ipc" "ipc";
               ns "net" "net"; "--"] ++ buildArgs (mkSpec (Some spec) None) in
  match run (mkCmd args (environ ++ p_Env spec) (p_Cwd spec)) with
  | ExitNil => (0%Z, None)
  | ExitError st => (st, None)
  | ExitOther => ((-1)%Z, Some RunFailed)
  end.

Definition Exec (run : Cmd -> exit_result) (environ : list string) (id : string) (spec : Process)
    (m : Manager) : Z * option TaskErr :=
  match lookup_task m id with
  | None => ((-1)%Z, Some (TaskNotFound id))
  | Some (l, t) =>
      if (t_Pid t <=? 0)%Z then ((-1)%Z, Some (NoProcess id)) else exec_in run environ (t_Pid t) spec
  end.

Definition Get (id : string) (m : Manager) : res TaskErr loc :=
  match m_tasks m !! id with Some l => Ok l | None => Err (TaskNotFound id) end.

Definition ListTasks (m : Manager) : list loc := map snd (map_to_list (m_tasks m)).

Definition SIGSTOP : Z := 19.
Definition SIGCONT : Z := 18.

(** The result of the signal is ignored. *)
Definition Pause (id : string) : GoM Manager TaskErr unit := fun m =>
  match lookup_task m id with
  | None => (m, Err (TaskNotFound id))
  | Some (l, t) =>
      if negb (String.eqb (t_Status t) StatusRunning) then (m, Err (NotInState id (t_Status t)))
      else
        let m' := set_task l (with_Status StatusPaused t) m in
        (if (0 <? t_Pid t)%Z then log_signal (t_Pid t) SIGSTOP m' else m', Ok tt)
  end.

Definition Resume (id : string) : GoM Manager TaskErr unit := fun m =>
  match lookup_task m id with
  | None => (m, Err (TaskNotFound id))
  | Some (l, t) =>
      if negb (String.eqb (t_Status t) StatusPaused) then (m, Err (NotInState id (t_Status t)))
      else
        let m' := set_task l (with_Status StatusRunning t) m in
        (if (0 <? t_Pid t)%Z then log_signal (t_Pid t) SIGCONT m' else m', Ok tt)
  end.

(** ** The gRPC service *)

Inductive StatusPb : Type := Status_UNKNOWN | Status_CREATED | Status_RUNNING | Status_STOPPED | Status_PAUSED.

Record ProcessPb : Type := mkProcessPb {
  pp_ContainerID : string;
  pp_ID : string;
  pp_Pid : Z;
  pp_Status : StatusPb;
  pp_ExitStatus : Z;
  pp_ExitedAt : Z
}.

Definition taskStatusToProto (s : Status) : StatusPb :=
  if String.eqb s StatusCreated then Status_CREATED
  else if String.eqb s StatusRunning then Status_RUNNING
  else if String.eqb s StatusStopped then Status_STOPPED
  else if String.eqb s StatusPaused then Status_PAUSED
  else Status_UNKNOWN.

Definition taskToProto (now : Z) (t : Task) : ProcessPb :=
  mkProcessPb (t_ID t) (t_ID t) (to_uint32 (t_Pid t)) (taskStatusToProto (t_Status t))
    (to_uint32 (t_ExitCode t)) now.

Definition rpc {A : Type} (c : code) (m : GoM Manager TaskErr A) : GoM Manager (rpc_error TaskErr) A :=
  go_wrap (fun e => RpcStatus c (Some e)) m.

(** The process of a task created by request: its only argument is the
    request's [Stdin] field. *)
Definition service_spec (stdin : string) : Spec :=
  mkSpec (Some (mkProcess [stdin] [] "/")) (Some "/").

Definition svc_Create (start : Cmd -> option Z) (environ : list string) (now : Z)
    (ContainerID Stdin : string) : GoM Manager (rpc_error TaskErr) (string * Z) := fun m =>
  let bundle := "/tmp/mini-containerd/bundles/" +:+ ContainerID in
  match rpc Internal (Create start environ now ContainerID bundle (service_spec Stdin)) m with
  | (m', Ok l) =>
      (m', match m_heap m' !! l with
           | Some task => Ok (ContainerID, to_uint32 (t_Pid task))
           | None => Panic
           end)
  | (m', Err e) => (m', Err e)
  | (m', Panic) => (m', Panic)
  end.

Definition svc_Start (now : Z) (ContainerID ExecID : string) : GoM Manager (rpc_error TaskErr) Z := fun m =>
  if negb (String.eqb ExecID "") then (m, rpc_fail Unimplemented)
  else match rpc Internal (Start now ContainerID) m with
       | (m', Ok _) => (m', Ok 0%Z)
       | (m', Err e) => (m', Err e)
       | (m', Panic) => (m', Panic)
       end.

Definition svc_Delete (ContainerID : string) := rpc Internal (Delete ContainerID).
Definition svc_DeleteProcess : GoM Manager (rpc_error TaskErr) unit := fun m => (m, rpc_fail Unimplemented).

(** The record is read through the pointer [Get] returns. *)
Definition svc_Get (now : Z) (ContainerID : string) (m : Manager) : res (rpc_error TaskErr) ProcessPb :=
  res_bind (rpc_of NotFound (Get ContainerID m)) (fun l =>
    match m_heap m !! l with Some t => Ok (taskToProto now t) | None => Panic end).

Definition svc_List (now : Z) (m : Manager) : list ProcessPb :=
  omap (fun l => taskToProto now <$> m_heap m !! l) (ListTasks m).

(** [syscall.Signal(req.Signal)] of a uint32. *)
Definition svc_Kill (deliver : Z -> Z -> bool) (ContainerID : string) (Signal : Z) :=
  rpc Internal (Kill deliver ContainerID Signal).
Definition svc_Exec : GoM Manager (rpc_error TaskErr) unit := go_ret tt.
Definition svc_Pause (ContainerID : string) := rpc Internal (Pause ContainerID).
Definition svc_Resume (ContainerID : string) := rpc Internal (Resume ContainerID).

Inductive svc_waited : Type :=
| SvcBlocks
| SvcReturned (ExitStatus ExitedAt : Z)
| SvcFailed (e : rpc_error TaskErr).

Definition svc_Wait (now : Z) (ContainerID : string) (m : Manager) : Manager * svc_waited :=
  match Wait ContainerID m with
  | (m', Blocks) => (m', SvcBlocks)
  | (m', Returned code) => (m', SvcReturned (to_uint32 code) now)
  | (m', WaitFailed e) => (m', SvcFailed (RpcStatus NotFound (Some e)))
  end.

Definition svc_ListPids (ContainerID : string) (m : Manager) : res (rpc_error TaskErr) (list Z) :=
  res_bind (rpc_of NotFound (Get ContainerID m)) (fun l =>
    match m_heap m !! l with Some t => Ok [to_uint32 (t_Pid t)] | None => Panic end).

Definition svc_Checkpoint : GoM Manager (rpc_error TaskErr) unit := fun m => (m, rpc_fail Unimplemented).
Definition svc_noop : GoM Manager (rpc_error TaskErr) unit := go_ret tt.
Definition svc_Update : GoM Manager (rpc_error TaskErr) unit := go_ret tt.
(** The response has no metrics. *)
Definition svc_Metrics : GoM Manager (rpc_error TaskErr) unit := go_ret tt.

(** ** Steps

    One step is one call, or one of the three steps of a goroutine. *)

Inductive task_step (m : Manager) : Manager -> Prop :=
| tstep_create start environ now id bundle spec :
    (forall cmd pid, start cmd = Some pid -> (0 < pid)%Z) ->
    task_step m (Create start environ now id bundle spec m).1
| tstep_start now id : task_step m (Start now id m).1
| tstep_kill deliver id sig : task_step m (Kill deliver id sig m).1
| tstep_wait id : task_step m (Wait id m).1
| tstep_delete id : task_step m (Delete id m).1
| tstep_pause id : task_step m (Pause id m).1
| tstep_resume id : task_step m (Resume id m).1
| tstep_exit l err : task_step m (process_exit l err m)
| tstep_update l : task_step m (monitor_update l m)
| tstep_send l : task_step m (monitor_send l m).

(** The arrows of the state machine the code allows. *)
Inductive status_edge : Status -> Status -> Prop :=
| edge_start : status_edge StatusCreated StatusRunning
| edge_pause : status_edge StatusRunning StatusPaused
| edge_resume : status_edge StatusPaused StatusRunning
| edge_exit : status_edge StatusRunning StatusStopped.

(** A record and its goroutine: the pid is that of a live process until the
    goroutine has updated the record, the channel holds the result of a
    process that has ended, at most once. *)
Record task_ok (t : Task) : Prop := {
  tk_status : t_Status t ∈ [StatusCreated; StatusRunning; StatusStopped; StatusPaused];
  tk_pid : (0 < t_Pid t)%Z <-> match t_mon t with MonWaiting | MonExited _ => True | _ => False end;
  tk_pid_nonneg : (0 <= t_Pid t)%Z;
  tk_chan : length (t_waitCh t) <= match t_mon t with MonDone => 1 | _ => 0 end;
  tk_stopped : t_Status t = StatusStopped -> t_Pid t = 0%Z;
  tk_code : t_ExitCode t <> 0%Z -> t_Status t = StatusStopped
}.

Record mgr_inv (m : Manager) : Prop := {
  mi_ids : forall id l, m_tasks m !! id = Some l -> exists t, m_heap m !! l = Some t /\ t_ID t = id;
  mi_heap : forall l t, m_heap m !! l = Some t -> l < m_next m /\ task_ok t
}.

(** How one record may change in a step: its id stays, its status follows an
    edge or stays, a goroutine never goes back, and a stopped record keeps its
    exit code.  The last two clauses are about records whose goroutine has
    finished. *)
Definition mon_rank (mon : monitor) : nat :=
  match mon with MonWaiting => 0 | MonExited _ => 1 | MonUpdated _ => 2 | MonDone => 3 end.

Record evolves (t t' : Task) : Prop := {
  ev_id : t_ID t' = t_ID t;
  ev_status : t_Status t' = t_Status t \/ status_edge (t_Status t) (t_Status t');
  ev_mon : mon_rank (t_mon t) <= mon_rank (t_mon t');
  ev_code : t_Status t = StatusStopped -> t_ExitCode t' = t_ExitCode t;
  ev_updated : 2 <= mon_rank (t_mon t) -> t_Status t <> StatusStopped -> t_Status t' <> StatusStopped;
  ev_chan : t_mon t = MonDone -> length (t_waitCh t') <= length (t_waitCh t)
}.

(** ** Lemmas *)

Lemma lookup_task_Some (m : Manager) (id : string) (l : loc) (t : Task) :
  lookup_task m id = Some (l, t) <-> m_tasks m !! id = Some l /\ m_heap m !! l = Some t.
Proof.
  unfold lookup_task. destruct (m_tasks m !! id) as [l'|]; cbn; [|split; [done|by intros [? _]]].
  destruct (m_heap m !! l') as [t'|] eqn:Ht; cbn.
  - split; [by intros [= <- <-]|]. intros [[= <-] H]. congruence.
  - split; [done|]. intros [[= <-] H]. congruence.
Qed.

Lemma evolves_refl (t : Task) : evolves t t.
Proof. constructor; auto. Qed.

(** The status constants are pairwise distinct. *)
Ltac status_neq := unfold StatusCreated, StatusRunning, StatusStopped, StatusPaused in *; congruence.

Lemma status_edge_eq (s s' : Status) :
  status_edge s s' -> s <> StatusStopped /\ (s' = StatusStopped -> s = StatusRunning).
Proof. intros []; split; status_neq. Qed.

(** Replacing one record by one it may become. *)
Lemma set_task_inv (m : Manager) (l : loc) (t t' : Task) :
  mgr_inv m -> m_heap m !! l = Some t -> evolves t t' -> task_ok t' -> mgr_inv (set_task l t' m).
Proof.
  intros [Hi Hh] Hl He Hok. constructor; cbn.
  - intros id l' Hid. destruct (Hi _ _ Hid) as (t0 & Ht0 & Hn).
    destruct (decide (l = l')) as [<-|Hne].
    + exists t'. rewrite lookup_insert_eq. split; [done|]. rewrite (ev_id _ _ He). congruence.
    + exists t0. by rewrite lookup_insert_ne.
  - intros l' t0 [[<- <-]|[_ Ht0]]%lookup_insert_Some; [|by apply Hh].
    split; [|done]. by eapply Hh.
Qed.

Lemma set_task_heap (m : Manager) (l l' : loc) (t t' t0 : Task) :
  m_heap m !! l = Some t -> evolves t t' -> m_heap m !! l' = Some t0 ->
  exists t1, m_heap (set_task l t' m) !! l' = Some t1 /\ evolves t0 t1.
Proof.
  intros Hl He Hl'. cbn. destruct (decide (l = l')) as [<-|Hne].
  - exists t'. rewrite lookup_insert_eq. split; [done|]. congruence.
  - exists t0. rewrite lookup_insert_ne by done. split; [done|apply evolves_refl].
Qed.

Lemma log_signal_inv (m : Manager) (pid sig : Z) : mgr_inv m -> mgr_inv (log_signal pid sig m).
Proof. intros [Hi Hh]. by constructor. Qed.

(** What an operation may do to the manager: leave it, change one record, drop
    an id, or add a fresh record. *)
Inductive effect (m : Manager) : Manager -> Prop :=
| eff_none : effect m m
| eff_set l t t' : m_heap m !! l = Some t -> evolves t t' -> task_ok t' -> effect m (set_task l t' m)
| eff_set_signal l t t' pid sig : m_heap m !! l = Some t -> evolves t t' -> task_ok t' ->
    effect m (log_signal pid sig (set_task l t' m))
| eff_signal pid sig : effect m (log_signal pid sig m)
| eff_delete id : effect m (mkManager (delete id (m_tasks m)) (m_heap m) (m_next m) (m_signals m))
| eff_create id t : m_tasks m !! id = None -> t_ID t = id -> task_ok t ->
    effect m (mkManager (<[id := m_next m]> (m_tasks m)) (<[m_next m := t]> (m_heap m))
                        (S (m_next m)) (m_signals m)).

Lemma effect_inv (m m' : Manager) : mgr_inv m -> effect m m' -> mgr_inv m'.
Proof.
  intros Hinv []; [done|by eapply set_task_inv|by eapply log_signal_inv, set_task_inv|
    by apply log_signal_inv| |]; destruct Hinv as [Hi Hh]; constructor; cbn; try done.
  - intros id' l [_ Hid]%lookup_delete_Some. by apply Hi.
  - assert (Hfr : forall l t0, m_heap m !! l = Some t0 -> m_next m <> l).
    { intros l t0 Hl. destruct (Hh _ _ Hl). lia. }
    intros id' l [[<- <-]|[_ Hid]]%lookup_insert_Some.
    + exists t. by rewrite lookup_insert_eq.
    + destruct (Hi _ _ Hid) as (t0 & Ht0 & Hn). exists t0. rewrite lookup_insert_ne; [done|by eapply Hfr].
  - intros l t0 [[<- <-]|[_ Hl]]%lookup_insert_Some; [split; [lia|done]|].
    destruct (Hh _ _ Hl). split; [lia|done].
Qed.

Lemma effect_evolves (m m' : Manager) (l : loc) (t : Task) :
  mgr_inv m -> effect m m' -> m_heap m !! l = Some t ->
  exists t', m_heap m' !! l = Some t' /\ evolves t t'.
Proof.
  intros Hinv He Hl. destruct He as [|l' t0 t' Hl' Hev _|l' t0 t' pid sig Hl' Hev _| | |id t0].
  - eauto using evolves_refl.
  - by eapply set_task_heap.
  - cbn. by eapply set_task_heap.
  - eauto using evolves_refl.
  - eauto using evolves_refl.
  - exists t. cbn. rewrite lookup_insert_ne; [eauto using evolves_refl|].
    destruct (mi_heap _ Hinv _ _ Hl). lia.
Qed.

Lemma edge_target (s s' : Status) :
  status_edge s s' -> s' ∈ [StatusCreated; StatusRunning; StatusStopped; StatusPaused].
Proof. intros []; repeat (apply list_elem_of_here || apply list_elem_of_further). Qed.

Lemma status_ok (t : Task) (st : Status) :
  task_ok t -> status_edge (t_Status t) st -> st <> StatusStopped ->
  evolves t (with_Status st t) /\ task_ok (with_Status st t).
Proof.
  intros Hok He Hst. pose proof (status_edge_eq _ _ He) as [Hns _].
  split; [constructor; cbn; auto; done|]. destruct Hok as [Hin Hp Hp0 Hch Hstop Hcode].
  constructor; cbn; try done.
  - by eapply edge_target.
  - intros Hc. by apply Hcode in Hc.
Qed.

Lemma with_StartedAt_ok (t t' : Task) (now : Z) :
  evolves t t' /\ task_ok t' -> evolves t (with_StartedAt now t') /\ task_ok (with_StartedAt now t').
Proof. intros [[] []]. by split; constructor. Qed.

Lemma exit_ok (t : Task) (err : exit_result) :
  task_ok t -> t_mon t = MonWaiting ->
  evolves t (with_mon (MonExited err) t) /\ task_ok (with_mon (MonExited err) t).
Proof.
  intros [Hin Hp Hp0 Hch Hst Hc] Hm. rewrite Hm in *. split.
  - constructor; cbn; rewrite ?Hm; cbn; try done; auto.
  - constructor; cbn; done.
Qed.

Lemma update_ok (t : Task) (err : exit_result) :
  task_ok t -> t_mon t = MonExited err ->
  evolves t (with_mon (MonUpdated err) (record_exit err t)) /\
  task_ok (with_mon (MonUpdated err) (record_exit err t)).
Proof.
  intros [Hin Hp Hp0 Hch Hst Hc] Hm. rewrite Hm in *. unfold record_exit.
  destruct (String.eqb (t_Status t) StatusRunning) eqn:He.
  - apply String.eqb_eq in He. rewrite He in *.
    assert (Hstop : forall t', t_Status t' = StatusStopped -> status_edge StatusRunning (t_Status t')).
    { intros t' ->. constructor. }
    split; destruct err; constructor; cbn; rewrite ?Hm; cbn; rewrite ?He; try lia; try done; auto;
      try (right; constructor); try (eapply edge_target; constructor); try apply list_elem_of_here; try (intros; status_neq).
  - split; constructor; cbn; rewrite ?Hm; cbn; try lia; try done; auto.
Qed.

Lemma send_ok (t : Task) (err : exit_result) :
  task_ok t -> t_mon t = MonUpdated err ->
  let t' := with_mon MonDone (with_waitCh (t_waitCh t ++ [err]) t) in evolves t t' /\ task_ok t'.
Proof.
  intros [Hin Hp Hp0 Hch Hst Hc] Hm. rewrite Hm in *. cbn. split.
  - constructor; cbn; rewrite ?Hm; cbn; try done; auto.
  - constructor; cbn; try done. rewrite length_app. cbn. lia.
Qed.

Lemma recv_ok (t : Task) (err : exit_result) (ch : list exit_result) :
  task_ok t -> t_waitCh t = err :: ch -> evolves t (with_waitCh ch t) /\ task_ok (with_waitCh ch t).
Proof.
  intros [Hin Hp Hp0 Hch Hst Hc] Hw. rewrite Hw in Hch. cbn in Hch. split.
  - constructor; cbn; try done; auto. rewrite Hw. cbn. lia.
  - constructor; cbn; try done. destruct (t_mon t); lia.
Qed.

Lemma Create_effect (start : Cmd -> option Z) (environ : list string) (now : Z) (id bundle : string)
    (spec : Spec) (m : Manager) :
  (forall cmd pid, start cmd = Some pid -> (0 < pid)%Z) ->
  effect m (Create start environ now id bundle spec m).1.
Proof.
  intros Hpid. unfold Create. destruct (m_tasks m !! id) eqn:Hid; [apply eff_none|].
  destruct (sp_RootPath spec); [|apply eff_none]. destruct (sp_Process spec); [|apply eff_none].
  destruct (start _) as [pid|] eqn:Hs; [|apply eff_none]. apply Hpid in Hs.
  apply eff_create; [done|done|]. constructor; cbn; try done; try lia. by eapply list_elem_of_here.
Qed.

(** Every operation has one of these effects. *)
Lemma task_step_effect (m m' : Manager) : mgr_inv m -> task_step m m' -> effect m m'.
Proof.
  intros Hinv Hstep.
  assert (Hok : forall l t, m_heap m !! l = Some t -> task_ok t) by (intros l t Hl; by eapply Hinv).
  destruct Hstep; [by apply Create_effect|..].
  all: unfold Start, Kill, Wait, Delete, Pause, Resume, process_exit, monitor_update, monitor_send.
  all: try (destruct (lookup_task m id) as [[l t]|] eqn:Hl; [|apply eff_none];
    apply lookup_task_Some in Hl as [Hid Hl]).
  - destruct (String.eqb (t_Status t) StatusCreated) eqn:E; [|apply eff_none]. apply String.eqb_eq in E.
    destruct (with_StartedAt_ok t (with_Status StatusRunning t) now) as [Hev Hk];
      [apply status_ok; [by eauto|rewrite E; constructor|done]|]. by eapply eff_set.
  - repeat case_match; constructor.
  - destruct (t_waitCh t) as [|e ch] eqn:E; [apply eff_none|].
    destruct (recv_ok t e ch) as [Hev Hk]; eauto. by eapply eff_set.
  - destruct (String.eqb _ _); constructor.
  - destruct (String.eqb (t_Status t) StatusRunning) eqn:E; [|apply eff_none]. apply String.eqb_eq in E.
    destruct (status_ok t StatusPaused) as [Hev Hk]; [by eauto|rewrite E; constructor|done|].
    cbn. destruct (0 <? t_Pid t)%Z; [by eapply eff_set_signal|by eapply eff_set].
  - destruct (String.eqb (t_Status t) StatusPaused) eqn:E; [|apply eff_none]. apply String.eqb_eq in E.
    destruct (status_ok t StatusRunning) as [Hev Hk]; [by eauto|rewrite E; constructor|done|].
    cbn. destruct (0 <? t_Pid t)%Z; [by eapply eff_set_signal|by eapply eff_set].
  - destruct (m_heap m !! l) as [t|] eqn:Hl; [|apply eff_none].
    destruct (t_mon t) eqn:Hm; try apply eff_none.
    destruct (exit_ok t err) as [Hev Hk]; eauto. by eapply eff_set.
  - destruct (m_heap m !! l) as [t|] eqn:Hl; [|apply eff_none].
    destruct (t_mon t) eqn:Hm; try apply eff_none.
    destruct (update_ok t err) as [Hev Hk]; eauto. by eapply eff_set.
  - destruct (m_heap m !! l) as [t|] eqn:Hl; [|apply eff_none].
    destruct (t_mon t) eqn:Hm; try apply eff_none.
    destruct (_ <? _); [|apply eff_none]. destruct (send_ok t err) as [Hev Hk]; eauto. by eapply eff_set.
Qed.

Lemma NewManager_inv : mgr_inv NewManager.
Proof. by constructor. Qed.

Lemma task_step_inv (m m' : Manager) : mgr_inv m -> task_step m m' -> mgr_inv m'.
Proof. intros Hinv Hs. by eapply effect_inv, task_step_effect. Qed.

Lemma task_steps_inv (m m' : Manager) : rtc task_step m m' -> mgr_inv m -> mgr_inv m'.
Proof. induction 1; eauto using task_step_inv. Qed.

(** A property of a record that every evolution keeps holds in all later states. *)
Lemma task_steps_keep (P : Task -> Prop) (m m' : Manager) (l : loc) (t : Task) :
  (forall t1 t2, task_ok t1 -> evolves t1 t2 -> P t1 -> P t2) ->
  rtc task_step m m' -> mgr_inv m -> m_heap m !! l = Some t -> P t ->
  exists t', m_heap m' !! l = Some t' /\ P t'.
Proof.
  intros HP Hs. revert t. induction Hs as [m|m m1 m2 Hs1 Hs2 IH]; intros t Hinv Hl Ht; [eauto|].
  destruct (effect_evolves m m1 l t Hinv) as (t1 & Hl1 & Hev); [by apply task_step_effect|done|].
  eapply IH; [by eapply task_step_inv|done|]. eapply HP; [|done|done]. by eapply Hinv.
Qed.

Definition task_reachable (m : Manager) : Prop := rtc task_step NewManager m.

Lemma task_reachable_inv (m : Manager) : task_reachable m -> mgr_inv m.
Proof. intros H. eapply task_steps_inv; [done|apply NewManager_inv]. Qed.

Definition exit_code (err : exit_result) : Z := match err with ExitError st => st | _ => 0%Z end.

(** ** A sample run *)

Definition demo_spec : Spec := mkSpec (Some (mkProcess ["/bin/true"] [] "")) (Some "").
Definition demo_start : Cmd -> option Z := fun _ => Some 100%Z.
Definition demo_created : Manager := (Create demo_start [] 1 "c" "/b" demo_spec NewManager).1.
Definition demo_running : Manager := (Start 2 "c" demo_created).1.
Definition demo_exited : Manager := process_exit 0 (ExitError 3) demo_running.
Definition demo_stopped : Manager := monitor_send 0 (monitor_update 0 demo_exited).
Definition demo_waited : Manager := (Wait "c" demo_stopped).1.

(** The process ends before [Start] is called. *)
Definition demo_early : Manager := monitor_update 0 (process_exit 0 (ExitError 3) demo_created).

Definition demo_task (pid : Z) (st : Status) (code : Z) (started : option Z) (ch : list exit_result)
    (mon : monitor) : Task :=
  mkTask "c" pid st code "/b" "/b/rootfs" demo_spec 1 started (mkCmd ["/bin/true"] [] "/") ch mon.

Lemma demo_created_reachable : task_reachable demo_created.
Proof. eapply rtc_l; [apply (tstep_create _ demo_start [] 1 "c" "/b" demo_spec)|apply rtc_refl]. by intros cmd pid [= <-]. Qed.
Lemma demo_running_reachable : task_reachable demo_running.
Proof. eapply rtc_r; [apply demo_created_reachable|apply (tstep_start _ 2 "c")]. Qed.
Lemma demo_exited_reachable : task_reachable demo_exited.
Proof. eapply rtc_r; [apply demo_running_reachable|apply (tstep_exit _ 0 (ExitError 3))]. Qed.
Lemma demo_stopped_reachable : task_reachable demo_stopped.
Proof.
  eapply rtc_r; [|apply (tstep_send _ 0)].
  eapply rtc_r; [apply demo_exited_reachable|apply (tstep_update _ 0)].
Qed.
Lemma demo_waited_reachable : task_reachable demo_waited.
Proof. eapply rtc_r; [apply demo_stopped_reachable|apply (tstep_wait _ "c")]. Qed.
Lemma demo_early_reachable : task_reachable demo_early.
Proof.
  eapply rtc_r; [|apply (tstep_update _ 0)].
  eapply rtc_r; [apply demo_created_reachable|apply (tstep_exit _ 0 (ExitError 3))].
Qed.

(** ** Properties *)

(** Tasks follow their state machine.  In every reachable state, under any
    interleaving of calls and process exits, a record has one of the four
    states, a pid exactly while its process has not been reaped, and a non-zero
    exit code only when stopped; and one step moves its state along one of
    CREATED to RUNNING, RUNNING to PAUSED and back, RUNNING to STOPPED, or not
    at all. *)
Theorem task_lifecycle (m m' : Manager) (l : loc) (t : Task) :
  task_reachable m -> task_step m m' -> m_heap m !! l = Some t ->
  task_ok t /\
  exists t', m_heap m' !! l = Some t' /\ task_ok t' /\ t_ID t' = t_ID t /\
    (t_Status t' = t_Status t \/ status_edge (t_Status t) (t_Status t')).
Proof.
  intros Hinv%task_reachable_inv Hstep Hl. split; [by eapply Hinv|].
  destruct (effect_evolves m m' l t Hinv) as (t' & Hl' & Hev); [by apply task_step_effect|done|].
  pose proof (task_step_inv _ _ Hinv Hstep) as Hinv'.
  exists t'. split_and!; [done|by eapply Hinv'|apply Hev|apply Hev].
Qed.

Lemma task_lifecycle_witness :
  exists t', m_heap demo_running !! 0 = Some t' /\
    (t_Status t' = StatusCreated \/ status_edge StatusCreated (t_Status t')).
Proof.
  destruct (task_lifecycle demo_created demo_running 0 (demo_task 100 StatusCreated 0 None [] MonWaiting)
    demo_created_reachable (tstep_start _ 2 "c")) as (_ & t' & H1 & _ & _ & H2);
    [vm_compute; reflexivity|]. exists t'. split; [exact H1|exact H2].
Defined.

(** STOPPED is final.  A stopped record stays stopped, without a pid and
    with the exit code it was given, in every later state. *)
Theorem stopped_is_final (m m' : Manager) (l : loc) (t : Task) :
  task_reachable m -> m_heap m !! l = Some t -> t_Status t = StatusStopped -> rtc task_step m m' ->
  exists t', m_heap m' !! l = Some t' /\ t_Status t' = StatusStopped /\ t_Pid t' = 0%Z /\
    t_ExitCode t' = t_ExitCode t.
Proof.
  intros Hinv%task_reachable_inv Hl Hst Hs.
  destruct (task_steps_keep (fun t' => t_Status t' = StatusStopped /\ t_ExitCode t' = t_ExitCode t)
    m m' l t) as (t' & Hl' & Hst' & Hc); try done.
  - intros t1 t2 _ Hev [H1 H2]. rewrite (ev_code _ _ Hev H1). split; [|done].
    destruct (ev_status _ _ Hev) as [->|He]; [done|]. apply status_edge_eq in He as [He _]. done.
  - exists t'. split_and!; try done. pose proof (task_steps_inv _ _ Hs Hinv) as Hinv'.
    by eapply tk_stopped; [eapply Hinv'|].
Qed.

Lemma stopped_is_final_witness :
  exists t', m_heap demo_waited !! 0 = Some t' /\ t_Status t' = StatusStopped /\ t_ExitCode t' = 3%Z.
Proof.
  destruct (stopped_is_final demo_stopped demo_waited 0
    (demo_task 0 StatusStopped 3 (Some 2%Z) [ExitError 3] MonDone) demo_stopped_reachable)
    as (t' & H1 & H2 & _ & H3); [vm_compute; reflexivity|reflexivity| |].
  - eapply rtc_l; [apply (tstep_wait _ "c")|apply rtc_refl].
  - exists t'. split; [exact H1|split; [exact H2|exact H3]].
Defined.

(** The exit of a running task is recorded and reported.  Once its process
    has exited, the two remaining steps of the goroutine stop the task with the
    process's exit code, and [Wait] then returns that code. *)
Theorem exit_is_reported (m : Manager) (id : string) (l : loc) (t : Task) (err : exit_result) :
  task_reachable m -> lookup_task m id = Some (l, t) ->
  t_Status t = StatusRunning -> t_mon t = MonExited err ->
  exists t' m', lookup_task (monitor_send l (monitor_update l m)) id = Some (l, t') /\
    t_Status t' = StatusStopped /\ t_Pid t' = 0%Z /\ t_ExitCode t' = exit_code err /\
    Wait id (monitor_send l (monitor_update l m)) = (m', Returned (exit_code err)).
Proof.
  intros Hinv%task_reachable_inv Hlk Hst Hm. pose proof Hlk as [Hid Hl]%lookup_task_Some.
  destruct (mi_heap _ Hinv _ _ Hl) as [_ [_ _ _ Hch _ Hcode]]. rewrite Hm in Hch.
  assert (Hw : t_waitCh t = []) by (destruct (t_waitCh t); cbn in Hch; [done|lia]).
  assert (Hz : t_ExitCode t = 0%Z).
  { destruct (decide (t_ExitCode t = 0%Z)) as [|Hnz]; [done|]. apply Hcode in Hnz. status_neq. }
  unfold monitor_update. rewrite Hl, Hm. unfold monitor_send. cbn [m_heap set_task].
  rewrite lookup_insert_eq. cbn [t_mon with_mon].
  assert (Hch1 : t_waitCh (with_mon (MonUpdated err) (record_exit err t)) = []).
  { unfold record_exit. rewrite Hst. by destruct err. }
  rewrite Hch1. cbn [length Nat.ltb Nat.leb app].
  set (t1 := with_mon MonDone _).
  set (m1 := set_task l t1 _).
  assert (Hlk1 : lookup_task m1 id = Some (l, t1)).
  { apply lookup_task_Some. cbn. by rewrite lookup_insert_eq. }
  exists t1, (set_task l (with_waitCh [] t1) m1). unfold Wait. rewrite Hlk1.
  split; [done|]. unfold t1, record_exit. rewrite Hst. cbn.
  by destruct err; cbn; rewrite ?Hz.
Qed.

Lemma exit_is_reported_witness :
  exists m', Wait "c" demo_stopped = (m', Returned 3%Z).
Proof.
  destruct (exit_is_reported demo_exited "c" 0
    (demo_task 100 StatusRunning 0 (Some 2%Z) [] (MonExited (ExitError 3))) (ExitError 3)
    demo_exited_reachable) as (t' & m' & _ & _ & _ & _ & H); [vm_compute; reflexivity|reflexivity|reflexivity|].
  exists m'. exact H.
Defined.

(** The exit of a task can be waited for once.  When the goroutine has
    finished and its result has been received, every later [Wait] for the task
    blocks for ever: the channel is never closed and nothing is sent again. *)
Theorem Wait_only_once (m m' : Manager) (id : string) (l : loc) (t t' : Task) :
  task_reachable m -> m_heap m !! l = Some t -> t_mon t = MonDone -> t_waitCh t = [] ->
  rtc task_step m m' -> lookup_task m' id = Some (l, t') ->
  Wait id m' = (m', Blocks).
Proof.
  intros Hinv%task_reachable_inv Hl Hm Hch Hs Hlk.
  destruct (task_steps_keep (fun t => t_mon t = MonDone /\ length (t_waitCh t) = 0) m m' l t)
    as (t1 & Hl1 & _ & Hch1); try done.
  - intros ta tb _ Hev [H1 H2]. pose proof (ev_chan _ _ Hev H1). pose proof (ev_mon _ _ Hev) as Hr.
    rewrite H1 in Hr. split; [|lia]. destruct (t_mon tb); cbn in Hr; (done || lia).
  - split; [done|]. by rewrite Hch.
  - unfold Wait. rewrite Hlk. apply lookup_task_Some in Hlk as [_ Hl'].
    assert (t1 = t') as -> by congruence. by destruct (t_waitCh t').
Qed.

Lemma Wait_only_once_witness : Wait "c" demo_waited = (demo_waited, Blocks).
Proof.
  apply (Wait_only_once demo_waited demo_waited "c" 0
    (demo_task 0 StatusStopped 3 (Some 2%Z) [] MonDone) (demo_task 0 StatusStopped 3 (Some 2%Z) [] MonDone)
    demo_waited_reachable); vm_compute; reflexivity.
Defined.

(** A task whose process ended before [Start] is never reported as stopped.
    Its exit code is lost; [Start] still succeeds, and whenever the task is
    RUNNING afterwards, [Kill] fails because there is no process and [Delete]
    fails because the task is running. *)
Theorem exited_task_stuck (m m' : Manager) (id : string) (l : loc) (t t' : Task) (now : Z) :
  task_reachable m -> lookup_task m id = Some (l, t) -> t_Status t = StatusCreated -> t_Pid t = 0%Z ->
  rtc task_step (Start now id m).1 m' -> lookup_task m' id = Some (l, t') ->
  (Start now id m).2 = Ok tt /\ t_Status t' <> StatusStopped /\ t_ExitCode t' = 0%Z /\
  (t_Status t' = StatusRunning -> forall deliver sig,
     Kill deliver id sig m' = (m', Err (NoProcess id)) /\
     Delete id m' = (m', Err (StillRunning id))).
Proof.
  intros Hinv%task_reachable_inv Hlk Hst Hpid Hs Hlk'. pose proof Hlk as [Hid Hl]%lookup_task_Some.
  assert (Hsteps : rtc task_step m m').
  { eapply rtc_l; [|exact Hs]. apply tstep_start. }
  pose proof (mi_heap _ Hinv _ _ Hl) as [_ [_ Hp _ _ _ _]].
  destruct (task_steps_keep (fun t => 2 <= mon_rank (t_mon t) /\ t_Status t <> StatusStopped) m m' l t)
    as (t1 & Hl1 & Hm1 & Hns); try done.
  - intros ta tb _ Hev [H1 H2]. pose proof (ev_mon _ _ Hev). split; [lia|by eapply ev_updated].
  - rewrite Hpid in Hp. rewrite Hst. split; [destruct (t_mon t); cbn; lia|done].
  - pose proof (task_steps_inv _ _ Hsteps Hinv) as Hinv'.
    pose proof Hlk' as [_ Hl']%lookup_task_Some. assert (t1 = t') as -> by congruence.
    destruct (mi_heap _ Hinv' _ _ Hl') as [_ [_ Hp' Hp0 _ _ Hc]].
    assert (Hz : t_Pid t' = 0%Z) by (destruct (t_mon t'); cbn in Hm1; lia).
    split_and!; [unfold Start; by rewrite Hlk, Hst|done| |].
    + destruct (decide (t_ExitCode t' = 0%Z)) as [|Hnz]; [done|]. by apply Hc in Hnz.
    + intros Hr deliver sig. unfold Kill, Delete. by rewrite Hlk', Hz, Hr.
Qed.

Lemma exited_task_stuck_witness :
  let m := (Start 5 "c" demo_early).1 in
  (Start 5 "c" demo_early).2 = Ok tt /\
  Kill (fun _ _ => true) "c" 9 m = (m, Err (NoProcess "c")) /\
  Delete "c" m = (m, Err (StillRunning "c")).
Proof.
  destruct (exited_task_stuck demo_early (Start 5 "c" demo_early).1 "c" 0
    (demo_task 0 StatusCreated 0 None [] (MonUpdated (ExitError 3)))
    (demo_task 0 StatusRunning 0 (Some 5%Z) [] (MonUpdated (ExitError 3))) 5 demo_early_reachable)
    as (H1 & _ & _ & H2); try (vm_compute; reflexivity).
  split; [exact H1|]. apply H2. reflexivity.
Defined.

(** [Delete] looks at the recorded state, not at the process.  A task that
    is CREATED or PAUSED is deleted while its process lives: no signal is sent,
    and afterwards [Kill], [Resume] and [Wait] do not know the id, so nothing
    can end the process. *)
Theorem Delete_leaks_process (m : Manager) (id : string) (l : loc) (t : Task) :
  task_reachable m -> lookup_task m id = Some (l, t) -> t_mon t = MonWaiting ->
  t_Status t = StatusCreated \/ t_Status t = StatusPaused ->
  exists m', Delete id m = (m', Ok tt) /\ m_signals m' = m_signals m /\
    m_heap m' !! l = Some t /\ (0 < t_Pid t)%Z /\
    (forall deliver sig, Kill deliver id sig m' = (m', Err (TaskNotFound id))) /\
    Resume id m' = (m', Err (TaskNotFound id)) /\ Wait id m' = (m', WaitFailed (TaskNotFound id)).
Proof.
  intros Hinv%task_reachable_inv Hlk Hm Hst. pose proof Hlk as [Hid Hl]%lookup_task_Some.
  destruct (mi_heap _ Hinv _ _ Hl) as [_ [_ Hp _ _ _ _]]. rewrite Hm in Hp.
  assert (Hr : String.eqb (t_Status t) StatusRunning = false).
  { apply String.eqb_neq. destruct Hst; status_neq. }
  unfold Delete. rewrite Hlk, Hr. eexists. split; [done|]. cbn.
  assert (Hlk' : forall h n g, lookup_task (mkManager (delete id (m_tasks m)) h n g) id = None).
  { intros h n g. unfold lookup_task. cbn. by rewrite lookup_delete_eq. }
  unfold Kill, Resume, Wait. rewrite Hlk'. split_and!; try done. by apply Hp.
Qed.

Lemma Delete_leaks_process_witness :
  exists m', Delete "c" demo_created = (m', Ok tt) /\
    (t_Pid <$> m_heap m' !! 0) = Some 100%Z /\
    Kill (fun _ _ => true) "c" 9 m' = (m', Err (TaskNotFound "c")).
Proof.
  destruct (Delete_leaks_process demo_created "c" 0 (demo_task 100 StatusCreated 0 None [] MonWaiting)
    demo_created_reachable) as (m' & H1 & _ & H2 & _ & H3 & _);
    [vm_compute; reflexivity|reflexivity|by left|].
  exists m'. split; [exact H1|]. split; [|apply H3].
  apply (f_equal (fmap t_Pid)) in H2. exact H2.
Defined.

(** What [Create] does on every branch.  A known id is refused; a spec
    without root or without process panics, although [buildArgs] has a default
    for the latter; a failed start leaves the manager as it was; otherwise a
    fresh record in state CREATED is stored under the id, and no other record
    or id changes. *)
Theorem Create_spec (start : Cmd -> option Z) (environ : list string) (now : Z) (id bundle : string)
    (spec : Spec) (m : Manager) :
  match Create start environ now id bundle spec m with
  | (m', Ok l) =>
      exists p root pid, sp_Process spec = Some p /\ sp_RootPath spec = Some root /\
        m_tasks m !! id = None /\ l = m_next m /\
        start (mkCmd (buildArgs spec) (environ ++ p_Env p)
                 (if String.eqb (p_Cwd p) "" then "/" else p_Cwd p)) = Some pid /\
        m_tasks m' = <[id := l]> (m_tasks m) /\
        exists t, m_heap m' = <[l := t]> (m_heap m) /\
          t_ID t = id /\ t_Pid t = pid /\ t_Status t = StatusCreated /\ t_mon t = MonWaiting /\
          t_RootFS t = (if String.eqb root "" then path_join [bundle; "rootfs"] else root)
  | (m', Err (TaskExists i)) => m' = m /\ i = id /\ is_Some (m_tasks m !! id)
  | (m', Err e) => m' = m /\ e = StartProcess
  | (m', Panic) => m' = m /\ (sp_RootPath spec = None \/ sp_Process spec = None)
  end.
Proof.
  unfold Create. destruct (m_tasks m !! id) as [l|] eqn:Hid; [done|].
  destruct (sp_RootPath spec) as [root|]; [|auto]. destruct (sp_Process spec) as [p|] eqn:Hp; [|auto].
  destruct (start _) as [pid|] eqn:Hs; [|done]. exists p, root, pid. split_and!; try done.
  eexists. split_and!; done.
Qed.

(** A spec without a process: the default of [buildArgs] is not reached. *)
Example Create_nil_process (start : Cmd -> option Z) :
  buildArgs (mkSpec None (Some "/")) = ["sh"] /\
  (Create start [] 1 "c" "/b" (mkSpec None (Some "/")) NewManager).2 = Panic.
Proof. done. Qed.

(** A process killed by a signal has exit status -1 in Go, and the service
    reports it modulo 2^32. *)
Example svc_Wait_signal :
  let m := monitor_send 0 (monitor_update 0 (process_exit 0 (ExitError (-1)) demo_running)) in
  (svc_Wait 9 "c" m).2 = SvcReturned 4294967295 9.
Proof. vm_compute. reflexivity. Qed.
