(* ===== verification/TaskConcurrency.v ===== *)
(** * Concurrent calls of the task manager: mini-containerd/internal/task/task.go

    [Task] takes every call of the manager as one step.  The code takes more:
    most calls look the id up under the manager's lock, release it, and go on
    with the record they found under the record's own lock; [Kill], [Exec] and
    [Wait] then use what they read with no lock at all; [Delete] holds the
    manager's lock but reads the state of the record without the record's.  Here
    a call is a thread that takes these sections one at a time, and the threads,
    the processes and the goroutines interleave.  Without [Delete] the manager is
    still linearizable: no caller can tell it from one whose calls are single
    steps.  With [Delete] it is not. *)

From S2P Require Import Prelude.
From S2P Require Import GoStrings.
From S2P Require Import Grpc.
From S2P Require Import Task.

(** ** Calls *)

Inductive call : Type :=
| CCreate (start : Cmd -> option Z) (environ : list string) (now : Z) (id bundle : string) (spec : Spec)
| CStart (now : Z) (id : string)
| CKill (deliver : Z -> Z -> bool) (id : string) (sig : Z)
| CWait (id : string)
| CDelete (id : string)
| CExec (run : Cmd -> exit_result) (environ : list string) (id : string) (spec : Process)
| CGet (id : string)
| CList
| CPause (id : string)
| CResume (id : string).

Inductive answer : Type :=
| AnsLoc (r : res TaskErr loc)
| AnsUnit (r : res TaskErr unit)
| AnsCode (r : res TaskErr Z)
| AnsExec (r : Z * option TaskErr)
| AnsList (ls : list loc).

(** The call as one step; [None] while it blocks. *)
Definition atomic (c : call) (m : Manager) : option (Manager * answer) :=
  let loc_call (mm : GoM Manager TaskErr loc) := let '(m', r) := mm m in Some (m', AnsLoc r) in
  let unit_call (mm : GoM Manager TaskErr unit) := let '(m', r) := mm m in Some (m', AnsUnit r) in
  match c with
  | CCreate start environ now id bundle spec => loc_call (Create start environ now id bundle spec)
  | CStart now id => unit_call (Start now id)
  | CKill deliver id sig => unit_call (Kill deliver id sig)
  | CWait id =>
      match Wait id m with
      | (_, Blocks) => None
      | (m', Returned code) => Some (m', AnsCode (Ok code))
      | (m', WaitFailed e) => Some (m', AnsCode (Err e))
      end
  | CDelete id => unit_call (Delete id)
  | CExec run environ id spec => Some (m, AnsExec (Exec run environ id spec m))
  | CGet id => Some (m, AnsLoc (Get id m))
  | CList => Some (m, AnsList (ListTasks m))
  | CPause id => unit_call (Pause id)
  | CResume id => unit_call (Resume id)
  end.

(** ** Threads *)

(** Where a call is: called; the record found; the pid read; the exit received;
    about to delete, with the manager's lock held; the answer known; returned. *)
Inductive thread : Type :=
| Invoked (c : call)
| Found (c : call) (l : loc)
| HasPid (c : call) (pid : Z)
| Received (l : loc)
| Deleting (id : string)
| Returning (a : answer)
| Finished (a : answer).

(** [y_writer] is the thread that holds the manager's lock between two steps;
    every other section of that lock is one step. *)
Record Sys : Type := mkSys {
  y_mgr : Manager;
  y_writer : option nat;
  y_threads : gmap nat thread
}.

(** The id a call looks up, and its answer when there is none. *)
Definition looks_up (c : call) : option (string * (TaskErr -> answer)) :=
  let unit_err e := AnsUnit (Err e) in
  match c with
  | CStart _ id | CKill _ id _ | CPause id | CResume id => Some (id, unit_err)
  | CWait id => Some (id, fun e => AnsCode (Err e))
  | CExec _ _ id _ => Some (id, fun e => AnsExec ((-1)%Z, Some e))
  | _ => None
  end.

(** The section of the manager's lock. *)
Definition enter (c : call) (m : Manager) : Manager * thread :=
  match c with
  | CCreate start environ now id bundle spec =>
      let '(m', r) := Create start environ now id bundle spec m in (m', Returning (AnsLoc r))
  | CGet id => (m, Returning (AnsLoc (Get id m)))
  | CList => (m, Returning (AnsList (ListTasks m)))
  | CDelete id =>
      match lookup_task m id with
      | None => (m, Returning (AnsUnit (Err (TaskNotFound id))))
      | Some (_, t) =>
          if String.eqb (t_Status t) StatusRunning then (m, Returning (AnsUnit (Err (StillRunning id))))
          else (m, Deleting id)
      end
  | _ =>
      match looks_up c with
      | None => (m, Invoked c)
      | Some (id, fail) =>
          match m_tasks m !! id with
          | Some l => (m, Found c l)
          | None => (m, Returning (fail (TaskNotFound id)))
          end
      end
  end.

(** The section of the record's lock; a [Wait] receives from the channel there,
    and waits while it is empty. *)
Definition start_locked (now : Z) (id : string) (l : loc) (t : Task) (m : Manager) : Manager * res TaskErr unit :=
  if negb (String.eqb (t_Status t) StatusCreated) then (m, Err (NotInState id (t_Status t)))
  else (set_task l (with_StartedAt now (with_Status StatusRunning t)) m, Ok tt).

Definition pause_locked (id : string) (l : loc) (t : Task) (m : Manager) : Manager * res TaskErr unit :=
  if negb (String.eqb (t_Status t) StatusRunning) then (m, Err (NotInState id (t_Status t)))
  else
    let m' := set_task l (with_Status StatusPaused t) m in
    (if (0 <? t_Pid t)%Z then log_signal (t_Pid t) SIGSTOP m' else m', Ok tt).

Definition resume_locked (id : string) (l : loc) (t : Task) (m : Manager) : Manager * res TaskErr unit :=
  if negb (String.eqb (t_Status t) StatusPaused) then (m, Err (NotInState id (t_Status t)))
  else
    let m' := set_task l (with_Status StatusRunning t) m in
    (if (0 <? t_Pid t)%Z then log_signal (t_Pid t) SIGCONT m' else m', Ok tt).

Definition locked (c : call) (l : loc) (m : Manager) : option (Manager * thread) :=
  t ← m_heap m !! l;
  let unit_call (x : Manager * res TaskErr unit) := Some (x.1, Returning (AnsUnit x.2)) in
  match c with
  | CStart now id => unit_call (start_locked now id l t m)
  | CPause id => unit_call (pause_locked id l t m)
  | CResume id => unit_call (resume_locked id l t m)
  | CKill _ id _ =>
      Some (m, if (t_Pid t <=? 0)%Z then Returning (AnsUnit (Err (NoProcess id))) else HasPid c (t_Pid t))
  | CExec _ _ id _ =>
      Some (m, if (t_Pid t <=? 0)%Z then Returning (AnsExec ((-1)%Z, Some (NoProcess id))) else HasPid c (t_Pid t))
  | CWait _ =>
      match t_waitCh t with
      | [] => None
      | _ :: ch => Some (set_task l (with_waitCh ch t) m, Received l)
      end
  | _ => None
  end.

(** What follows without a lock of the record. *)
Definition use_pid (c : call) (pid : Z) (m : Manager) : option (Manager * answer) :=
  match c with
  | CKill deliver _ sig =>
      Some (if deliver pid sig then (log_signal pid sig m, AnsUnit (Ok tt)) else (m, AnsUnit (Err SignalFailed)))
  | CExec run environ _ spec => Some (m, AnsExec (exec_in run environ pid spec))
  | _ => None
  end.

Definition read_code (l : loc) (m : Manager) : option answer := AnsCode ∘ Ok ∘ t_ExitCode <$> m_heap m !! l.

Definition set_thread (tid : nat) (th : thread) (s : Sys) : Sys :=
  mkSys (y_mgr s) (y_writer s) (<[tid := th]> (y_threads s)).

Definition set_mgr (m : Manager) (s : Sys) : Sys := mkSys m (y_writer s) (y_threads s).

(** One step of a thread; [None] when it cannot take one. *)
Definition advance (tid : nat) (s : Sys) : option Sys :=
  let m := y_mgr s in
  th ← y_threads s !! tid;
  match th with
  | Invoked c =>
      match y_writer s with
      | Some _ => None
      | None =>
          let '(m', th') := enter c m in
          Some (mkSys m' (match th' with Deleting _ => Some tid | _ => None end) (<[tid := th']> (y_threads s)))
      end
  | Found c l => '(m', th') ← locked c l m; Some (set_thread tid th' (set_mgr m' s))
  | HasPid c pid => '(m', a) ← use_pid c pid m; Some (set_thread tid (Returning a) (set_mgr m' s))
  | Received l => a ← read_code l m; Some (set_thread tid (Returning a) s)
  | Deleting id =>
      Some (mkSys (mkManager (delete id (m_tasks m)) (m_heap m) (m_next m) (m_signals m)) None
              (<[tid := Returning (AnsUnit (Ok tt))]> (y_threads s)))
  | Returning _ | Finished _ => None
  end.

(** ** Runs

    A caller sees its calls and their answers, and the processes end when they
    like; everything else is silent. *)

Inductive event : Type :=
| Call (tid : nat) (c : call)
| Ret (tid : nat) (a : answer)
| Exit (l : loc) (err : exit_result).

(** The system gives new processes positive pids. *)
Definition call_ok (c : call) : Prop :=
  match c with
  | CCreate start _ _ _ _ _ => forall cmd pid, start cmd = Some pid -> (0 < pid)%Z
  | _ => True
  end.

Inductive sys_step (s : Sys) : option event -> Sys -> Prop :=
| sy_call tid c : y_threads s !! tid = None -> call_ok c -> sys_step s (Some (Call tid c)) (set_thread tid (Invoked c) s)
| sy_run tid s' : advance tid s = Some s' -> sys_step s None s'
| sy_ret tid a : y_threads s !! tid = Some (Returning a) -> sys_step s (Some (Ret tid a)) (set_thread tid (Finished a) s)
| sy_exit l err : sys_step s (Some (Exit l err)) (set_mgr (process_exit l err (y_mgr s)) s)
| sy_update l : sys_step s None (set_mgr (monitor_update l (y_mgr s)) s)
| sy_send l : sys_step s None (set_mgr (monitor_send l (y_mgr s)) s).

(** The specification: a call takes effect in one step between its call and its
    return. *)
Inductive athread : Type :=
| AInvoked (c : call)
| ACommitted (a : answer)
| AFinished (a : answer).

Record Abs : Type := mkAbs {
  a_mgr : Manager;
  a_threads : gmap nat athread
}.

Inductive abs_step (s : Abs) : option event -> Abs -> Prop :=
| ab_call tid c : a_threads s !! tid = None -> call_ok c ->
    abs_step s (Some (Call tid c)) (mkAbs (a_mgr s) (<[tid := AInvoked c]> (a_threads s)))
| ab_commit tid c m' a : a_threads s !! tid = Some (AInvoked c) -> atomic c (a_mgr s) = Some (m', a) ->
    abs_step s None (mkAbs m' (<[tid := ACommitted a]> (a_threads s)))
| ab_ret tid a : a_threads s !! tid = Some (ACommitted a) ->
    abs_step s (Some (Ret tid a)) (mkAbs (a_mgr s) (<[tid := AFinished a]> (a_threads s)))
| ab_exit l err : abs_step s (Some (Exit l err)) (mkAbs (process_exit l err (a_mgr s)) (a_threads s))
| ab_update l : abs_step s None (mkAbs (monitor_update l (a_mgr s)) (a_threads s))
| ab_send l : abs_step s None (mkAbs (monitor_send l (a_mgr s)) (a_threads s)).

Definition sys_init : Sys := mkSys NewManager None ∅.
Definition abs_init : Abs := mkAbs NewManager ∅.

(** [run step s tr s']: the steps from [s] to [s'] show the events [tr]. *)
Inductive run {S : Type} (step : S -> option event -> S -> Prop) : S -> list event -> S -> Prop :=
| run_nil s : run step s [] s
| run_silent s s1 tr s' : step s None s1 -> run step s1 tr s' -> run step s tr s'
| run_event s e s1 tr s' : step s (Some e) s1 -> run step s1 tr s' -> run step s (e :: tr) s'.

Definition event_of (o : option event) : list event := match o with Some e => [e] | None => [] end.

(** ** Forward simulation *)

Section simulation.
Context {S A : Type} (step : S -> option event -> S -> Prop) (astep : A -> option event -> A -> Prop).

Lemma run_step (s s1 s' : S) (o : option event) (tr : list event) :
  step s o s1 -> run step s1 tr s' -> run step s (event_of o ++ tr) s'.
Proof. destruct o; cbn; intros; [by eapply run_event|by eapply run_silent]. Qed.

Lemma run_app (s s1 s' : S) (t1 t2 : list event) : run step s t1 s1 -> run step s1 t2 s' -> run step s (t1 ++ t2) s'.
Proof. induction 1; intros Hr; cbn; [done|eapply run_silent; eauto|eapply run_event; eauto]. Qed.

Lemma run_invariant (I : S -> Prop) (s s' : S) (tr : list event) :
  (forall s o s', I s -> step s o s' -> I s') -> run step s tr s' -> I s -> I s'.
Proof. intros HI. induction 1; eauto. Qed.

(** Steps whose events satisfy [ok] are matched, so their traces are. *)
Lemma simulation_trace (ok : event -> Prop) (R : S -> A -> Prop) (s s' : S) (tr : list event) (a : A) :
  (forall s o s' a, R s a -> Forall ok (event_of o) -> step s o s' ->
     exists a', (a' = a /\ o = None \/ astep a o a') /\ R s' a') ->
  run step s tr s' -> Forall ok tr -> R s a -> exists a', run astep a tr a' /\ R s' a'.
Proof.
  intros Hsim Hr. revert a. induction Hr as [s|s s1 tr s' Hs _ IH|s e s1 tr s' Hs _ IH]; intros a Hok HR.
  - exists a. split; [apply run_nil|done].
  - destruct (Hsim _ None _ _ HR (Forall_nil_2 _) Hs) as (a1 & Ha & HR1). destruct (IH a1 Hok HR1) as (a' & Hr & HR').
    exists a'. split; [|done]. destruct Ha as [[-> _]|Ha]; [done|by eapply run_silent].
  - apply Forall_cons in Hok as [He Hok].
    destruct (Hsim _ (Some e) _ _ HR ltac:(by constructor) Hs) as (a1 & [[_ ?]|Ha] & HR1); [done|].
    destruct (IH a1 Hok HR1) as (a' & Hr & HR'). exists a'. split; [by eapply run_event|done].
Qed.

End simulation.

(** ** Lemmas *)

(** A whole call is its sections one after the other. *)
Lemma Start_sections (now : Z) (id : string) (m : Manager) :
  Start now id m = match lookup_task m id with
                   | None => (m, Err (TaskNotFound id))
                   | Some (l, t) => start_locked now id l t m
                   end.
Proof. done. Qed.

Lemma Pause_sections (id : string) (m : Manager) :
  Pause id m = match lookup_task m id with
               | None => (m, Err (TaskNotFound id))
               | Some (l, t) => pause_locked id l t m
               end.
Proof. done. Qed.

Lemma Resume_sections (id : string) (m : Manager) :
  Resume id m = match lookup_task m id with
                | None => (m, Err (TaskNotFound id))
                | Some (l, t) => resume_locked id l t m
                end.
Proof. done. Qed.

(** What a section does to the manager. *)
Lemma locked_effect (c : call) (l : loc) (m m' : Manager) (th : thread) :
  mgr_inv m -> locked c l m = Some (m', th) -> effect m m'.
Proof.
  intros Hinv. unfold locked. destruct (m_heap m !! l) as [t|] eqn:Hl; [|done]. cbn.
  pose proof (proj2 (mi_heap _ Hinv _ _ Hl)) as Hok.
  destruct c; try done; cbn; unfold start_locked, pause_locked, resume_locked.
  - intros [= <- _]. destruct (String.eqb _ _) eqn:E; [|apply eff_none]. apply String.eqb_eq in E. cbn.
    destruct (with_StartedAt_ok t (with_Status StatusRunning t) now) as [Hev Hk];
      [apply status_ok; [done|rewrite E; constructor|done]|]. by eapply eff_set.
  - intros [= <- _]. apply eff_none.
  - destruct (t_waitCh t) as [|e ch] eqn:E; [done|]. intros [= <- _].
    destruct (recv_ok t e ch) as [Hev Hk]; [done..|]. by eapply eff_set.
  - intros [= <- _]. apply eff_none.
  - intros [= <- _]. destruct (String.eqb _ _) eqn:E; [|apply eff_none]. apply String.eqb_eq in E. cbn.
    destruct (status_ok t StatusPaused) as [Hev Hk]; [done|rewrite E; constructor|done|].
    destruct (0 <? t_Pid t)%Z; [by eapply eff_set_signal|by eapply eff_set].
  - intros [= <- _]. destruct (String.eqb _ _) eqn:E; [|apply eff_none]. apply String.eqb_eq in E. cbn.
    destruct (status_ok t StatusRunning) as [Hev Hk]; [done|rewrite E; constructor|done|].
    destruct (0 <? t_Pid t)%Z; [by eapply eff_set_signal|by eapply eff_set].
Qed.

Lemma enter_effect (c : call) (m m' : Manager) (th : thread) :
  call_ok c -> enter c m = (m', th) -> effect m m'.
Proof.
  intros Hc. destruct c; unfold enter; cbn [looks_up]; try (destruct (m_tasks m !! id); intros [= <- _]; apply eff_none);
    try (intros [= <- _]; apply eff_none).
  - pose proof (Create_effect start environ now id bundle spec m Hc) as He.
    destruct (Create _ _ _ _ _ _ m). by intros [= <- _].
  - destruct (lookup_task m id) as [[l t]|]; [|intros [= <- _]; apply eff_none].
    destruct (String.eqb _ _); intros [= <- _]; apply eff_none.
Qed.

Lemma use_pid_effect (c : call) (pid : Z) (m m' : Manager) (a : answer) :
  use_pid c pid m = Some (m', a) -> effect m m'.
Proof.
  destruct c; try done; cbn; [|intros [= <- _]; apply eff_none].
  destruct (deliver pid sig); intros [= <- _]; constructor.
Qed.

(** ** The invariant of the threads *)

Definition thread_ok (m : Manager) (th : thread) : Prop :=
  match th with
  | Invoked c => call_ok c
  | Found c l => is_Some (looks_up c) /\ is_Some (m_heap m !! l)
  | HasPid c pid => (0 < pid)%Z /\ match c with CKill _ _ _ | CExec _ _ _ _ => True | _ => False end
  | Received l => exists t, m_heap m !! l = Some t /\ t_mon t = MonDone
  | _ => True
  end.

Record sys_inv (s : Sys) : Prop := {
  yi_mgr : mgr_inv (y_mgr s);
  yi_threads : forall tid th, y_threads s !! tid = Some th -> thread_ok (y_mgr s) th;
  yi_writer : forall tid, y_writer s = Some tid <-> exists id, y_threads s !! tid = Some (Deleting id)
}.

Lemma done_rank (t t' : Task) : evolves t t' -> t_mon t = MonDone -> t_mon t' = MonDone.
Proof. intros Hev Ht. pose proof (ev_mon _ _ Hev) as Hr. rewrite Ht in Hr. by destruct (t_mon t'); cbn in Hr; try lia. Qed.

Lemma thread_ok_mono (m m' : Manager) (th : thread) : mgr_inv m -> effect m m' -> thread_ok m th -> thread_ok m' th.
Proof.
  intros Hinv He. destruct th; cbn; try done.
  - intros [Hc [t Ht]]. destruct (effect_evolves _ _ _ _ Hinv He Ht) as (t' & Ht' & _). split; [done|by eexists].
  - intros (t & Ht & Hd). destruct (effect_evolves _ _ _ _ Hinv He Ht) as (t' & Ht' & Hev). exists t'.
    split; [done|by eapply done_rank].
Qed.

Lemma enter_ok (c : call) (m m' : Manager) (th : thread) :
  mgr_inv m -> call_ok c -> enter c m = (m', th) -> thread_ok m' th.
Proof.
  intros Hinv Hc. destruct c; unfold enter; cbn [looks_up].
  all: try (destruct (m_tasks m !! id) as [l|] eqn:Hid; intros [= <- <-]; [|done];
    destruct (mi_ids _ Hinv _ _ Hid) as (t & Ht & _); split; by eexists).
  all: try by intros [= <- <-].
  - destruct (Create _ _ _ _ _ _ m). by intros [= <- <-].
  - destruct (lookup_task m id) as [[l t]|]; [destruct (String.eqb _ _)|]; by intros [= <- <-].
Qed.

Lemma locked_ok (c : call) (l : loc) (m m' : Manager) (th : thread) :
  mgr_inv m -> locked c l m = Some (m', th) ->
  thread_ok m' th /\ match th with Invoked _ | Deleting _ | Finished _ => False | _ => True end.
Proof.
  intros Hinv. unfold locked. destruct (m_heap m !! l) as [t|] eqn:Hl; [|done]. cbn.
  pose proof (proj2 (mi_heap _ Hinv _ _ Hl)) as Hok.
  destruct c; try done; cbn; try (by intros [= <- <-]).
  - intros [= <- <-]. destruct (t_Pid t <=? 0)%Z eqn:Hp; [done|]. apply Z.leb_gt in Hp. by cbn.
  - destruct (t_waitCh t) as [|e ch] eqn:Hch; [done|]. intros [= <- <-]. cbn. split; [|done].
    rewrite lookup_insert_eq. eexists. split; [done|]. pose proof (tk_chan _ Hok) as Hc. rewrite Hch in Hc. cbn in *.
    destruct (t_mon t); cbn in Hc; [lia..|done].
  - intros [= <- <-]. destruct (t_Pid t <=? 0)%Z eqn:Hp; [done|]. apply Z.leb_gt in Hp. by cbn.
Qed.

(** Every step changes the manager like a call does. *)
Lemma advance_effect (tid : nat) (s s' : Sys) : sys_inv s -> advance tid s = Some s' -> effect (y_mgr s) (y_mgr s').
Proof.
  intros [Hm Ht Hw]. unfold advance. destruct (y_threads s !! tid) as [th|] eqn:Hth; [|done]. cbn.
  specialize (Ht _ _ Hth). destruct th; try done.
  - destruct (y_writer s); [done|]. destruct (enter c (y_mgr s)) as [m1 th1] eqn:He. intros [= <-]. by eapply enter_effect.
  - destruct (locked c l (y_mgr s)) as [[m1 th1]|] eqn:He; [|done]. intros [= <-]. by eapply locked_effect.
  - destruct (use_pid c pid (y_mgr s)) as [[m1 a1]|] eqn:He; [|done]. intros [= <-]. by eapply use_pid_effect.
  - destruct (read_code l (y_mgr s)); [|done]. intros [= <-]. apply eff_none.
  - intros [= <-]. apply eff_delete.
Qed.

Lemma sys_step_effect (s s' : Sys) (o : option event) : sys_inv s -> sys_step s o s' -> effect (y_mgr s) (y_mgr s').
Proof.
  intros Hinv [tid c _ _|tid s1 Ha|tid a _|l err|l|l]; cbn; try apply eff_none; [by eapply advance_effect|..].
  all: apply task_step_effect; [apply Hinv|constructor].
Qed.

Definition is_deleting (th : thread) : Prop := match th with Deleting _ => True | _ => False end.

(** A thread moves on; [w] is the new holder of the lock. *)
Lemma set_thread_inv (s : Sys) (m' : Manager) (w : option nat) (tid : nat) (th : thread) :
  sys_inv s -> effect (y_mgr s) m' -> thread_ok m' th ->
  (forall tid0, w = Some tid0 <-> if decide (tid0 = tid) then is_deleting th else y_writer s = Some tid0) ->
  sys_inv (mkSys m' w (<[tid := th]> (y_threads s))).
Proof.
  intros [Hm Ht Hw] He Hok Hn. constructor; cbn.
  - by eapply effect_inv.
  - intros tid0 th0 [[<- <-]|[_ Hl]]%lookup_insert_Some; [done|]. eapply thread_ok_mono; [done..|by eapply Ht].
  - intros tid0. rewrite Hn. destruct (decide (tid0 = tid)) as [->|Hne].
    + rewrite lookup_insert_eq. destruct th; cbn; split; try done; try (by intros [? [=]]). by eexists.
    + by rewrite lookup_insert_ne.
Qed.

(** A thread that does not hold the lock and does not take it. *)
Lemma move_thread_inv (s : Sys) (m' : Manager) (tid : nat) (th : thread) :
  sys_inv s -> effect (y_mgr s) m' -> thread_ok m' th -> ~ is_deleting th ->
  (forall id, y_threads s !! tid <> Some (Deleting id)) ->
  sys_inv (mkSys m' (y_writer s) (<[tid := th]> (y_threads s))).
Proof.
  intros Hinv He Hok Hn Hold. apply set_thread_inv; [done..|]. intros tid0.
  destruct (decide (tid0 = tid)) as [->|]; [|done]. split; [|done].
  intros [id Hid]%(yi_writer _ Hinv). by apply Hold in Hid.
Qed.

Lemma advance_inv (tid : nat) (s s' : Sys) : sys_inv s -> advance tid s = Some s' -> sys_inv s'.
Proof.
  intros Hinv Ha. pose proof (advance_effect _ _ _ Hinv Ha) as He. revert Ha. unfold advance.
  destruct (y_threads s !! tid) as [th|] eqn:Hth; [|done]. cbn.
  pose proof (yi_threads _ Hinv _ _ Hth) as Ht. pose proof (yi_mgr _ Hinv) as Hm.
  destruct th; try done.
  - destruct (y_writer s) as [|] eqn:Hw; [done|]. destruct (enter c (y_mgr s)) as [m1 th1] eqn:Hn. intros [= <-].
    apply (set_thread_inv s); [done|done|by eapply enter_ok|]. intros tid0. rewrite Hw.
    destruct (decide (tid0 = tid)) as [->|]; destruct th1; cbn; split; intros; congruence || done.
  - destruct (locked c l (y_mgr s)) as [[m1 th1]|] eqn:Hl; [|done]. intros [= <-].
    destruct (locked_ok _ _ _ _ _ Hm Hl) as [Hok Hn]. apply (move_thread_inv s); [done|done|done| |].
    + destruct th1; by try intros [].
    + intros id. by rewrite Hth.
  - destruct (use_pid c pid (y_mgr s)) as [[m1 a1]|]; [|done]. intros [= <-].
    apply (move_thread_inv s); [done|done|done|by intros []|]. intros id. by rewrite Hth.
  - destruct (read_code l (y_mgr s)) as [a|]; [|done]. intros [= <-].
    apply (move_thread_inv s); [done|done|done|by intros []|]. intros id. by rewrite Hth.
  - intros [= <-]. assert (Hw : y_writer s = Some tid) by (apply (yi_writer _ Hinv); by eexists).
    apply (set_thread_inv s); [done|done|done|]. intros tid0. rewrite Hw.
    destruct (decide (tid0 = tid)) as [->|]; cbn; split; intros; congruence || done.
Qed.

Lemma set_mgr_inv (m' : Manager) (s : Sys) : sys_inv s -> effect (y_mgr s) m' -> sys_inv (set_mgr m' s).
Proof.
  intros [Hm Ht Hw] He. constructor; cbn; [by eapply effect_inv| |done].
  intros tid th Hth. eapply thread_ok_mono; [done..|by eapply Ht].
Qed.

Lemma sys_step_inv (s s' : Sys) (o : option event) : sys_inv s -> sys_step s o s' -> sys_inv s'.
Proof.
  intros Hinv Hs. pose proof (sys_step_effect _ _ _ Hinv Hs) as He.
  destruct Hs as [tid c Hn Hc|tid s1 Ha|tid a Hr|l err|l|l]; try (by apply set_mgr_inv).
  - apply (move_thread_inv s); [done|done|done|by intros []|]. intros id. by rewrite Hn.
  - by eapply advance_inv.
  - apply (move_thread_inv s); [done|done|done|by intros []|]. intros id. by rewrite Hr.
Qed.

Lemma sys_init_inv : sys_inv sys_init.
Proof. constructor; [apply NewManager_inv|done|]. intros tid. split; [done|]. by intros [id [=]]. Qed.

(** What a run of the system reaches. *)
Definition sys_reachable (s : Sys) : Prop := exists tr, run sys_step sys_init tr s.

Lemma sys_reachable_inv (s : Sys) : sys_reachable s -> sys_inv s.
Proof. intros [tr Hr]. eapply run_invariant; [|exact Hr|apply sys_init_inv]. intros; by eapply sys_step_inv. Qed.

(** ** Managers with the same records

    The order in which the signals of different calls are sent is not part of
    the specification. *)

Definition same_records (m n : Manager) : Prop :=
  m_tasks m = m_tasks n /\ m_heap m = m_heap n /\ m_next m = m_next n.

#[global] Instance same_records_equiv : Equivalence same_records.
Proof.
  split; [done|by intros m n (H1 & H2 & H3)|]. intros m1 m2 m3 (H1 & H2 & H3) (H4 & H5 & H6).
  split_and!; congruence.
Qed.

Lemma same_records_log (m : Manager) (pid sig : Z) : same_records (log_signal pid sig m) m.
Proof. done. Qed.

Ltac same_records_auto :=
  intros [ts h n sg] [ts' h' n' sg'] (H1 & H2 & H3); cbn in H1, H2, H3; subst ts' h' n';
  repeat first [done | by split_and! | progress cbn | case_match].

#[global] Instance lookup_task_proper : Proper (same_records ==> eq ==> eq) lookup_task.
Proof. intros m n (H1 & H2 & H3) id ? <-. unfold lookup_task. by rewrite H1, H2. Qed.

#[global] Instance process_exit_proper (l : loc) (err : exit_result) : Proper (same_records ==> same_records) (process_exit l err).
Proof. unfold process_exit. same_records_auto. Qed.

#[global] Instance monitor_update_proper (l : loc) : Proper (same_records ==> same_records) (monitor_update l).
Proof. unfold monitor_update. same_records_auto. Qed.

#[global] Instance monitor_send_proper (l : loc) : Proper (same_records ==> same_records) (monitor_send l).
Proof. unfold monitor_send. same_records_auto. Qed.

Definition same_outcome : relation (option (Manager * answer)) := option_Forall2 (prod_relation same_records eq).

(** A call does not look at the log of signals. *)
#[global] Instance atomic_proper (c : call) : Proper (same_records ==> same_outcome) (atomic c).
Proof.
  intros [ts h n sg] [ts' h' n' sg'] (H1 & H2 & H3); cbn in H1, H2, H3; subst ts' h' n'.
  destruct c; cbn [atomic];
    unfold Create, Start, Kill, Wait, Delete, Exec, Pause, Resume, Get, ListTasks, lookup_task; cbn [m_tasks m_heap];
    repeat first [progress cbn [m_tasks m_heap set_task log_signal m_next m_signals] | case_match]; simplify_eq;
    try constructor; split; try done; by split_and!.
Qed.

(** ** Simulation of calls other than [Delete] *)

Definition not_delete (c : call) : Prop := match c with CDelete _ => False | _ => True end.

(** The section of the manager's lock answers the call, or finds the record. *)
Lemma enter_spec (c : call) (m : Manager) :
  mgr_inv m -> not_delete c ->
  (exists m' a, enter c m = (m', Returning a) /\ atomic c m = Some (m', a)) \/
  exists l id fail, enter c m = (m, Found c l) /\ looks_up c = Some (id, fail) /\ m_tasks m !! id = Some l.
Proof.
  intros Hinv Hc. destruct c; try done; unfold enter, atomic; cbn [looks_up].
  all: try (destruct (m_tasks m !! id) as [l|] eqn:Hid; [right; eauto 10|]; left; eexists _, _; split; [done|]).
  all: try (unfold Start, Kill, Wait, Exec, Pause, Resume, lookup_task; by rewrite Hid).
  - left. destruct (Create _ _ _ _ _ _ m). eauto.
  - left. eauto.
  - left. eauto.
Qed.

(** Where a thread of the specification is, when a thread of the system is at [th]. *)
Definition thread_sim (m : Manager) (th : thread) (ath : athread) : Prop :=
  match th, ath with
  | Invoked c, AInvoked c' => c = c' /\ not_delete c
  | Found c l, AInvoked c' => c = c' /\ exists id fail, looks_up c = Some (id, fail) /\ m_tasks m !! id = Some l
  | HasPid c pid, ACommitted a => snd <$> use_pid c pid m = Some a
  | Received l, ACommitted a => read_code l m = Some a
  | Returning a, ACommitted a' | Finished a, AFinished a' => a = a'
  | _, _ => False
  end.

(** The section of the record's lock is where the call takes effect. *)
Lemma locked_spec (c : call) (l : loc) (id : string) fail (m m' : Manager) (th : thread) :
  mgr_inv m -> looks_up c = Some (id, fail) -> m_tasks m !! id = Some l -> locked c l m = Some (m', th) ->
  exists m'' a, atomic c m = Some (m'', a) /\ same_records m' m'' /\ thread_sim m' th (ACommitted a).
Proof.
  intros Hinv Hc Hid. unfold locked. destruct (m_heap m !! l) as [t|] eqn:Hl; [|done]. cbn.
  assert (Hlk : lookup_task m id = Some (l, t)) by (by apply lookup_task_Some).
  destruct c; try done; injection Hc as <- _; cbn [atomic].
  - rewrite Start_sections, Hlk. intros [= <- <-]. destruct (start_locked _ _ _ _ _) as [m1 r]. by exists m1, (AnsUnit r).
  - unfold Kill. rewrite Hlk. intros [= <- <-]. destruct (t_Pid t <=? 0)%Z; [by eexists _, _|].
    cbn [thread_sim use_pid]. destruct (deliver (t_Pid t) sig); by eexists _, _.
  - unfold Wait. rewrite Hlk. destruct (t_waitCh t) as [|e ch]; [done|]. intros [= <- <-]. eexists _, _.
    split; [done|]. split; [done|]. cbn. unfold read_code. cbn. by rewrite lookup_insert_eq.
  - unfold Exec. rewrite Hlk. intros [= <- <-]. destruct (t_Pid t <=? 0)%Z; by eexists _, _.
  - rewrite Pause_sections, Hlk. intros [= <- <-]. destruct (pause_locked _ _ _ _) as [m1 r]. by exists m1, (AnsUnit r).
  - rewrite Resume_sections, Hlk. intros [= <- <-]. destruct (resume_locked _ _ _ _) as [m1 r]. by exists m1, (AnsUnit r).
Qed.

(** Once the goroutine has finished, the exit code is fixed. *)
Lemma code_stable (t t' : Task) : task_ok t -> task_ok t' -> evolves t t' -> t_mon t = MonDone -> t_ExitCode t' = t_ExitCode t.
Proof.
  intros Hok Hok' Hev Hd. destruct (decide (t_Status t = StatusStopped)) as [Hs|Hs]; [by apply (ev_code _ _ Hev)|].
  assert (Hs' : t_Status t' <> StatusStopped) by (apply (ev_updated _ _ Hev); [rewrite Hd; cbn; lia|done]).
  assert (Hz : forall t0, task_ok t0 -> t_Status t0 <> StatusStopped -> t_ExitCode t0 = 0%Z).
  { intros t0 H0 Hn. destruct (decide (t_ExitCode t0 = 0%Z)) as [|Hne]; [done|]. by apply (tk_code _ H0) in Hne. }
  by rewrite !Hz.
Qed.

Definition keeps_ids (m m' : Manager) : Prop := forall id l, m_tasks m !! id = Some l -> m_tasks m' !! id = Some l.

Lemma thread_sim_mono (m m' : Manager) (th : thread) (ath : athread) :
  mgr_inv m -> effect m m' -> keeps_ids m m' -> thread_ok m th -> thread_sim m th ath -> thread_sim m' th ath.
Proof.
  intros Hinv He Hk Hok. destruct th, ath; cbn; try done.
  - intros (-> & id & fail & Hc & Hid). eauto 10.
  - destruct c; try done; cbn. by destruct (deliver pid sig).
  - destruct Hok as (t & Hl & Hd). unfold read_code. rewrite Hl. cbn. intros <-.
    destruct (effect_evolves _ _ _ _ Hinv He Hl) as (t' & Hl' & Hev). rewrite Hl'. cbn.
    pose proof (effect_inv _ _ Hinv He) as Hinv'.
    assert (Hcode : t_ExitCode t' = t_ExitCode t) by (eapply code_stable; [by eapply Hinv|by eapply Hinv'|done|done]).
    by rewrite Hcode.
Qed.

Record refines (s : Sys) (a : Abs) : Prop := {
  rf_inv : sys_inv s;
  rf_mgr : same_records (y_mgr s) (a_mgr a);
  rf_threads : forall tid, option_Forall2 (thread_sim (y_mgr s)) (y_threads s !! tid) (a_threads a !! tid)
}.

Lemma refines_step (s s' : Sys) (a : Abs) (n : Manager) (o : option event) (tid : nat) (th : thread) (ath : athread) w :
  refines s a -> sys_step s o s' -> s' = mkSys (y_mgr s') w (<[tid := th]> (y_threads s)) ->
  keeps_ids (y_mgr s) (y_mgr s') -> same_records (y_mgr s') n -> thread_sim (y_mgr s') th ath ->
  refines s' (mkAbs n (<[tid := ath]> (a_threads a))).
Proof.
  intros [Hi Hm Ht] Hs Heq Hk Hn Hsim. pose proof (sys_step_effect _ _ _ Hi Hs) as He.
  constructor; cbn; [by eapply sys_step_inv|done|]. intros tid0. rewrite Heq at 2. cbn.
  destruct (decide (tid = tid0)) as [<-|Hne]; [rewrite !lookup_insert_eq; by constructor|].
  rewrite !lookup_insert_ne by done. specialize (Ht tid0).
  inversion Ht as [th0 ath0 H0 H1 H2|H1 H2]; constructor.
  eapply thread_sim_mono; [apply Hi|done|done|by eapply (yi_threads _ Hi)|done].
Qed.

Lemma refines_mgr (s : Sys) (a : Abs) (m' n : Manager) (o : option event) :
  refines s a -> sys_step s o (set_mgr m' s) -> m_tasks m' = m_tasks (y_mgr s) -> same_records m' n ->
  refines (set_mgr m' s) (mkAbs n (a_threads a)).
Proof.
  intros [Hi Hm Ht] Hs Hk Hn. pose proof (sys_step_effect _ _ _ Hi Hs) as He.
  constructor; cbn; [by eapply sys_step_inv|done|]. intros tid. specialize (Ht tid).
  inversion Ht as [th0 ath0 H0 H1 H2|H1 H2]; constructor.
  eapply thread_sim_mono; [apply Hi|done| |by eapply (yi_threads _ Hi)|done]. intros id l. by rewrite Hk.
Qed.

Lemma locked_ids (c : call) (l : loc) (m m' : Manager) (th : thread) :
  locked c l m = Some (m', th) -> m_tasks m' = m_tasks m.
Proof.
  unfold locked. destruct (m_heap m !! l) as [t|]; [|done]. cbn.
  destruct c; try done; cbn; unfold start_locked, pause_locked, resume_locked; intros Hl; repeat case_match; by simplify_eq.
Qed.

Lemma use_pid_ids (c : call) (pid : Z) (m m' : Manager) (a : answer) : use_pid c pid m = Some (m', a) -> m_tasks m' = m_tasks m.
Proof. destruct c; try done; cbn; [destruct (deliver pid sig)|]; by intros [= <- _]. Qed.

Lemma Create_ids (start : Cmd -> option Z) (environ : list string) (now : Z) (id bundle : string) (spec : Spec) (m : Manager) :
  keeps_ids m (Create start environ now id bundle spec m).1.
Proof.
  unfold keeps_ids, Create. destruct (m_tasks m !! id) as [l|] eqn:Hid; [done|].
  destruct (sp_RootPath spec); [|done]. destruct (sp_Process spec); [|done]. destruct (start _); [|done].
  intros id0 l Hl. cbn. rewrite lookup_insert_ne; [done|congruence].
Qed.

Lemma atomic_keeps_ids (c : call) (m m' : Manager) (a : answer) :
  not_delete c -> atomic c m = Some (m', a) -> keeps_ids m m'.
Proof.
  intros Hc. assert (Heq : m_tasks m' = m_tasks m -> keeps_ids m m') by (intros He id l; by rewrite He).
  destruct c; try done; cbn [atomic]; try (by intros [= <- _]; apply Heq).
  { pose proof (Create_ids start environ now id bundle spec m) as Hi. destruct (Create _ _ _ _ _ _ m) as [m1 r].
    intros [= <- _] id0 l. apply Hi. }
  all: unfold Start, Kill, Wait, Pause, Resume; intros Ha; apply Heq; repeat case_match; by simplify_eq.
Qed.

(** The specification takes the call in the state of the system. *)
Lemma atomic_commit (a : Abs) (m m' : Manager) (tid : nat) (c : call) (an : answer) :
  same_records m (a_mgr a) -> a_threads a !! tid = Some (AInvoked c) -> atomic c m = Some (m', an) ->
  exists n, same_records m' n /\ abs_step a None (mkAbs n (<[tid := ACommitted an]> (a_threads a))).
Proof.
  intros Hm Ht Ha. pose proof (atomic_proper c _ _ Hm) as Hc. rewrite Ha in Hc.
  inversion Hc as [x [n b] [Hr Hb] Hx Hy|]. cbn in Hr, Hb. subst b x. exists n. split; [done|]. by eapply ab_commit.
Qed.

Lemma refines_advance (s s' : Sys) (a : Abs) (tid : nat) :
  refines s a -> advance tid s = Some s' -> exists a', (a' = a \/ abs_step a None a') /\ refines s' a'.
Proof.
  intros Href Ha. pose proof Href as [Hinv Hm Hth]. pose proof (sy_run s tid s' Ha) as Hs. pose proof (yi_mgr _ Hinv) as Hi.
  revert Ha. unfold advance. destruct (y_threads s !! tid) as [th|] eqn:Ht; [|done]. cbn.
  specialize (Hth tid). rewrite Ht in Hth. inversion Hth as [th0 ath Hsim Hx Hy|]. subst th0. symmetry in Hy.
  assert (Hstay : forall th' m' w, s' = mkSys m' w (<[tid := th']> (y_threads s)) -> m_tasks m' = m_tasks (y_mgr s) ->
    same_records m' (a_mgr a) -> thread_sim m' th' ath -> refines s' a).
  { intros th' m' w He Hids Hrec Hsim'. destruct a as [n ths]. cbn in *. rewrite <- (insert_id ths tid ath Hy).
    subst s'. eapply (refines_step s _ (mkAbs n ths)); [done|exact Hs|reflexivity| |done|done].
    intros id l. cbn. by rewrite Hids. }
  assert (Hcommit : forall c th' m' m'' w an, ath = AInvoked c -> atomic c (y_mgr s) = Some (m'', an) -> not_delete c ->
    s' = mkSys m' w (<[tid := th']> (y_threads s)) -> same_records m' m'' -> thread_sim m' th' (ACommitted an) ->
    exists a', (a' = a \/ abs_step a None a') /\ refines s' a').
  { intros c th' m' m'' w an -> Hat Hnd He Hrec Hsim'. destruct (atomic_commit a _ _ tid c an Hm Hy Hat) as (n & Hn & Hstep).
    eexists. split; [right; exact Hstep|]. subst s'.
    eapply refines_step; [done|exact Hs|reflexivity| |by etrans|done]. cbn.
    intros id l Hl. rewrite (proj1 Hrec). by eapply atomic_keeps_ids. }
  destruct th; try done; destruct ath as [c'| |]; try done; cbn in Hsim.
  - destruct Hsim as [<- Hnd]. destruct (y_writer s); [done|].
    destruct (enter_spec c _ Hi Hnd) as [(m' & an & -> & Hat)|(l & id & fail & -> & Hc & Hid)]; intros [= He]; symmetry in He.
    + by eapply Hcommit.
    + exists a. split; [by left|]. eapply Hstay; [exact He|done|done|]. cbn. eauto 10.
  - destruct Hsim as (<- & id & fail & Hc & Hid). destruct (locked c l (y_mgr s)) as [[m' th']|] eqn:Hl; [|done].
    intros [= He]. symmetry in He. destruct (locked_spec _ _ _ _ _ _ _ Hi Hc Hid Hl) as (m'' & an & Hat & Hrec & Hsim').
    eapply Hcommit; [done|exact Hat| |exact He|done|done]. by destruct c.
  - destruct (use_pid c pid (y_mgr s)) as [[m' an]|] eqn:Hu; [|done]. injection Hsim as ->. intros [= He]. symmetry in He.
    exists a. split; [by left|]. eapply Hstay; [exact He|by eapply use_pid_ids| |done].
    etrans; [|exact Hm]. destruct c; try done; cbn in Hu; [destruct (deliver pid sig)|]; by injection Hu as <- _.
  - rewrite Hsim. cbn. intros [= He]. symmetry in He. exists a. split; [by left|]. by eapply Hstay.
Qed.

Definition event_not_delete (e : event) : Prop := match e with Call _ c => not_delete c | _ => True end.

Lemma sys_simulation (s : Sys) (o : option event) (s' : Sys) (a : Abs) :
  refines s a -> Forall event_not_delete (event_of o) -> sys_step s o s' ->
  exists a', (a' = a /\ o = None \/ abs_step a o a') /\ refines s' a'.
Proof.
  intros Href Ho Hs. pose proof Href as [Hinv Hm Hth].
  assert (Hat : forall tid th, y_threads s !! tid = Some th ->
    exists ath, a_threads a !! tid = Some ath /\ thread_sim (y_mgr s) th ath).
  { intros tid th Ht. specialize (Hth tid). rewrite Ht in Hth. inversion Hth. eauto. }
  pose proof Hs as Hs0. destruct Hs as [tid c Hn Hc|tid s1 Ha|tid an Hr|l err|l|l].
  - eexists. split; [right; apply ab_call; [|done]|].
    + specialize (Hth tid). rewrite Hn in Hth. by inversion Hth.
    + eapply refines_step; [done|exact Hs0|reflexivity|by intros ?|exact Hm|]. split; [done|by apply Forall_cons in Ho as [? _]].
  - destruct (refines_advance _ _ _ _ Href Ha) as (a' & [->|Hstep] & Hr); eauto.
  - destruct (Hat _ _ Hr) as (ath & Hx & Hsim). destruct ath as [|an'|]; try done. cbn in Hsim. subst an'.
    eexists. split; [right; by apply ab_ret|]. by eapply refines_step; [done|exact Hs0|reflexivity|by intros ?|exact Hm|].
  - eexists. split; [right; apply ab_exit|]. eapply refines_mgr; [done|exact Hs0| |by rewrite Hm].
    unfold process_exit. by repeat case_match.
  - eexists. split; [right; apply ab_update|]. eapply refines_mgr; [done|exact Hs0| |by rewrite Hm].
    unfold monitor_update. by repeat case_match.
  - eexists. split; [right; apply ab_send|]. eapply refines_mgr; [done|exact Hs0| |by rewrite Hm].
    unfold monitor_send. by repeat case_match.
Qed.

Lemma init_refines : refines sys_init abs_init.
Proof. constructor; [apply sys_init_inv|done|]. intros tid. cbn. rewrite !lookup_empty. constructor. Qed.

(** ** Progress *)

(** The steps a call has left at most. *)
Definition steps_left (th : thread) : nat :=
  match th with
  | Invoked _ => 3
  | Found _ _ => 2
  | HasPid _ _ | Received _ | Deleting _ => 1
  | Returning _ | Finished _ => 0
  end.

(** [Wait] has nothing to receive. *)
Definition waiting (m : Manager) (th : thread) : Prop :=
  match th with
  | Found (CWait _) l => exists t, m_heap m !! l = Some t /\ t_waitCh t = []
  | _ => False
  end.

Lemma enter_moves (c : call) (m : Manager) : steps_left (enter c m).2 < 3.
Proof.
  destruct c; unfold enter; cbn [looks_up]; try (destruct (m_tasks m !! id); cbn; lia); try (cbn; lia).
  - destruct (Create _ _ _ _ _ _ m). cbn. lia.
  - destruct (lookup_task m id) as [[l t]|]; [destruct (String.eqb _ _)|]; cbn; lia.
Qed.

(** In the record's section a call gets on, unless it waits. *)
Lemma locked_moves (c : call) (l : loc) (m : Manager) :
  is_Some (looks_up c) -> is_Some (m_heap m !! l) ->
  waiting m (Found c l) \/ exists m' th, locked c l m = Some (m', th) /\ steps_left th < 2.
Proof.
  intros Hc [t Hl]. unfold locked. rewrite Hl. cbn. destruct c; try (by destruct Hc); try (right; eexists _, _; split; [done|cbn; lia]).
  - right. eexists _, _. split; [done|]. destruct (t_Pid t <=? 0)%Z; cbn; lia.
  - destruct (t_waitCh t) as [|e ch] eqn:Hch; [left; by exists t|]. right. eexists _, _. split; [done|cbn; lia].
  - right. eexists _, _. split; [done|]. destruct (t_Pid t <=? 0)%Z; cbn; lia.
Qed.

(** A thread moves: it takes a step, and has fewer left. *)
Definition moves (tid : nat) (th : thread) (s : Sys) : Prop :=
  exists s' th', advance tid s = Some s' /\ y_threads s' !! tid = Some th' /\ steps_left th' < steps_left th.

Lemma moves_intro (tid : nat) (s : Sys) (th th' : thread) (m' : Manager) w :
  advance tid s = Some (mkSys m' w (<[tid := th']> (y_threads s))) -> steps_left th' < steps_left th -> moves tid th s.
Proof. intros Ha Hl. eexists _, th'. split; [exact Ha|]. split; [|done]. cbn. by rewrite lookup_insert_eq. Qed.

Lemma thread_progress (s : Sys) (tid : nat) (th : thread) :
  sys_inv s -> y_threads s !! tid = Some th -> 0 < steps_left th ->
  moves tid th s \/ waiting (y_mgr s) th \/ is_Some (y_writer s) /\ exists c, th = Invoked c.
Proof.
  intros Hinv Ht Hl. pose proof (yi_threads _ Hinv _ _ Ht) as Hok.
  destruct th as [c|c l|c pid|l|id|a|a]; cbn in Hl; try lia.
  - destruct (y_writer s) as [w|] eqn:Hw; [eauto|]. left. pose proof (enter_moves c (y_mgr s)) as Hm.
    destruct (enter c (y_mgr s)) as [m' th'] eqn:He. eapply moves_intro; [unfold advance; rewrite Ht; cbn; by rewrite Hw, He|done].
  - destruct Hok as [Hc Hh]. destruct (locked_moves c l _ Hc Hh) as [?|(m' & th' & He & Hm)]; [auto|]. left.
    eapply moves_intro; [unfold advance; rewrite Ht; cbn; by rewrite He|done].
  - left. destruct Hok as [_ Hc].
    assert (Hu : exists m' a, use_pid c pid (y_mgr s) = Some (m', a)).
    { destruct c; try done; cbn; [destruct (deliver pid sig)|]; eauto. }
    destruct Hu as (m' & a & Hu). eapply moves_intro; [unfold advance; rewrite Ht; cbn; by rewrite Hu|cbn; lia].
  - left. destruct Hok as (t & Hh & _).
    eapply moves_intro; [unfold advance; rewrite Ht; cbn; unfold read_code; by rewrite Hh|cbn; lia].
  - left. eapply moves_intro; [unfold advance; rewrite Ht; reflexivity|cbn; lia].
Qed.

(** ** [Delete] against [Start] *)

Definition race_create : call := CCreate demo_start [] 1 "c" "/b" demo_spec.
Definition race_start : call := CStart 2 "c".
Definition race_delete : call := CDelete "c".
Definition unit_ok : answer := AnsUnit (Ok tt).

(** A task is created; then [Start] and [Delete] overlap, and both succeed. *)
Definition race_trace : list event :=
  [Call 0 race_create; Ret 0 (AnsLoc (Ok 0)); Call 1 race_start; Call 2 race_delete; Ret 1 unit_ok; Ret 2 unit_ok].

(** [exec]: the next steps of a schedule, executably. *)
Inductive act : Type := DoCall (tid : nat) (c : call) | DoRun (tid : nat) | DoRet (tid : nat).

Definition perform (x : act) (s : Sys) : option (list event * Sys) :=
  match x with
  | DoCall tid c => match y_threads s !! tid with None => Some ([Call tid c], set_thread tid (Invoked c) s) | Some _ => None end
  | DoRun tid => s' ← advance tid s; Some ([], s')
  | DoRet tid => match y_threads s !! tid with
                 | Some (Returning a) => Some ([Ret tid a], set_thread tid (Finished a) s)
                 | _ => None
                 end
  end.

Fixpoint exec (xs : list act) (s : Sys) : option (list event * Sys) :=
  match xs with
  | [] => Some ([], s)
  | x :: xs => '(tr, s1) ← perform x s; '(tr', s2) ← exec xs s1; Some (tr ++ tr', s2)
  end.

Definition act_ok (x : act) : Prop := match x with DoCall _ c => call_ok c | _ => True end.

Lemma perform_run (x : act) (s s' : Sys) (tr : list event) :
  act_ok x -> perform x s = Some (tr, s') -> run sys_step s tr s'.
Proof.
  destruct x as [tid c|tid|tid]; cbn; intros Hx.
  - destruct (y_threads s !! tid) eqn:Ht; [done|]. intros [= <- <-]. eapply run_event; [by apply sy_call|apply run_nil].
  - destruct (advance tid s) as [s1|] eqn:Ha; [|done]. intros [= <- <-]. eapply run_silent; [by eapply sy_run|apply run_nil].
  - destruct (y_threads s !! tid) as [[]|] eqn:Ht; try done. intros [= <- <-].
    eapply run_event; [by apply sy_ret|apply run_nil].
Qed.

Lemma exec_run (xs : list act) (s s' : Sys) (tr : list event) :
  Forall act_ok xs -> exec xs s = Some (tr, s') -> run sys_step s tr s'.
Proof.
  intros Hok. revert s tr. induction Hok as [|x xs Hx _ IH]; intros s tr; cbn; [intros [= <- <-]; apply run_nil|].
  destruct (perform x s) as [[t1 s1]|] eqn:Hp; [|done]. cbn.
  destruct (exec xs s1) as [[t2 s2]|] eqn:He; [|done]. intros [= <- <-].
  eapply run_app; [by eapply perform_run|by apply IH].
Qed.

(** [Delete] reads the state, [Start] runs, [Delete] deletes. *)
Definition race_schedule : list act :=
  [DoCall 0 race_create; DoRun 0; DoRet 0; DoCall 1 race_start; DoRun 1; DoCall 2 race_delete; DoRun 2; DoRun 1; DoRun 2;
   DoRet 1; DoRet 2].

Lemma race_ok : Forall act_ok race_schedule.
Proof. unfold race_schedule. repeat constructor. by intros cmd pid [= <-]. Qed.

(** What the specification shows of a thread. *)
Definition view (a : Abs) (tid : nat) : option (call + answer) :=
  (fun th => match th with AInvoked c => inl c | ACommitted an | AFinished an => inr an end) <$> a_threads a !! tid.

Definition race_event (e : event) : Prop :=
  match e with
  | Call tid c => (tid, c) ∈ [(0, race_create); (1, race_start); (2, race_delete)]
  | Ret _ _ => True
  | Exit _ _ => False
  end.

(** How far the specification can get with these calls. *)
Inductive phase (m : Manager) (v : nat -> option (call + answer)) : Prop :=
| ph_absent : m_tasks m !! "c" = None -> (forall an, v 0 <> Some (inr an)) ->
    v 1 <> Some (inr unit_ok) -> v 2 <> Some (inr unit_ok) -> phase m v
| ph_created an l t : lookup_task m "c" = Some (l, t) -> t_Status t = StatusCreated -> v 0 = Some (inr an) ->
    v 1 <> Some (inr unit_ok) -> v 2 <> Some (inr unit_ok) -> phase m v
| ph_started an l t : lookup_task m "c" = Some (l, t) -> t_Status t = StatusRunning -> v 0 = Some (inr an) ->
    v 1 = Some (inr unit_ok) -> v 2 <> Some (inr unit_ok) -> phase m v
| ph_deleted an : m_tasks m !! "c" = None -> v 0 = Some (inr an) ->
    v 1 <> Some (inr unit_ok) -> v 2 = Some (inr unit_ok) -> phase m v.

Record race_inv (a : Abs) : Prop := {
  ri_mons : forall l t, m_heap (a_mgr a) !! l = Some t -> t_mon t = MonWaiting;
  ri_calls : forall tid c, view a tid = Some (inl c) -> race_event (Call tid c);
  ri_phase : phase (a_mgr a) (view a)
}.

Lemma phase_ext (m : Manager) (v v' : nat -> option (call + answer)) :
  (forall tid, v' tid = v tid) -> phase m v -> phase m v'.
Proof.
  intros Hv []; [eapply ph_absent|eapply ph_created|eapply ph_started|eapply ph_deleted]; intros; rewrite ?Hv; eauto.
Qed.

Definition set_view (tid : nat) (x : call + answer) (v : nat -> option (call + answer)) : nat -> option (call + answer) :=
  fun i => if decide (i = tid) then Some x else v i.

Lemma lookup_task_absent (m : Manager) (id : string) : m_tasks m !! id = None -> lookup_task m id = None.
Proof. unfold lookup_task. by intros ->. Qed.

Lemma lookup_task_set (m : Manager) (id : string) (l : loc) (t t' : Task) :
  lookup_task m id = Some (l, t) -> lookup_task (set_task l t' m) id = Some (l, t').
Proof. intros [Hid Hl]%lookup_task_Some. apply lookup_task_Some. cbn. by rewrite lookup_insert_eq. Qed.

(** One call takes effect. *)
Lemma race_create_phase (m m' : Manager) (v : nat -> option (call + answer)) (an : answer) :
  phase m v -> v 0 = Some (inl race_create) -> atomic race_create m = Some (m', an) -> phase m' (set_view 0 (inr an) v).
Proof.
  intros Hp Hv Ha. destruct Hp as [Hid H0 H1 H2|an0 l t _ _ H0 _ _|an0 l t _ _ H0 _ _|an0 _ H0 _ _]; try congruence.
  cbn [atomic race_create] in Ha. unfold Create in Ha. rewrite Hid in Ha. injection Ha as <- <-.
  eapply ph_created; [apply lookup_task_Some; cbn; by rewrite !lookup_insert_eq|done|done|done|done].
Qed.

Lemma race_start_phase (m m' : Manager) (v : nat -> option (call + answer)) (an : answer) :
  phase m v -> v 1 = Some (inl race_start) -> atomic race_start m = Some (m', an) -> phase m' (set_view 1 (inr an) v).
Proof.
  intros Hp Hv. cbn [atomic race_start]. rewrite Start_sections.
  destruct Hp as [Hid H0 H1 H2|an0 l t Hl Hs H0 H1 H2|an0 l t _ _ _ H1 _|an0 Hid H0 H1 H2]; try congruence.
  - rewrite lookup_task_absent by done. intros [= <- <-]. by apply ph_absent.
  - rewrite Hl. unfold start_locked. rewrite Hs. intros [= <- <-].
    eapply ph_started; [by eapply lookup_task_set|done|exact H0|done|done].
  - rewrite lookup_task_absent by done. intros [= <- <-]. by eapply ph_deleted.
Qed.

Lemma race_delete_phase (m m' : Manager) (v : nat -> option (call + answer)) (an : answer) :
  phase m v -> v 2 = Some (inl race_delete) -> atomic race_delete m = Some (m', an) -> phase m' (set_view 2 (inr an) v).
Proof.
  intros Hp Hv. cbn [atomic race_delete]. unfold Delete.
  destruct Hp as [Hid H0 H1 H2|an0 l t Hl Hs H0 H1 H2|an0 l t Hl Hs H0 H1 H2|an0 _ _ _ H2]; try congruence.
  - rewrite lookup_task_absent by done. intros [= <- <-]. by apply ph_absent.
  - rewrite Hl, Hs. intros [= <- <-]. eapply ph_deleted; [cbn; by rewrite lookup_delete_eq|exact H0|done|done].
  - rewrite Hl, Hs. intros [= <- <-]. by eapply ph_started.
Qed.

(** No process ends, so the goroutines wait. *)
Definition all_waiting (m : Manager) : Prop := forall l t, m_heap m !! l = Some t -> t_mon t = MonWaiting.

Lemma race_atomic_waiting (tid : nat) (c : call) (m m' : Manager) (an : answer) :
  race_event (Call tid c) -> all_waiting m -> atomic c m = Some (m', an) -> all_waiting m'.
Proof.
  intros Hc Hm. cbn in Hc. rewrite !elem_of_cons, elem_of_nil in Hc.
  destruct Hc as [[= -> ->]|[[= -> ->]|[[= -> ->]|[]]]]; cbn [atomic race_create race_start race_delete].
  - unfold Create. destruct (m_tasks m !! "c"); [by intros [= <- _]|]. cbn. intros [= <- _] l t. cbn [m_heap].
    intros [[_ <-]|[_ Hl]]%lookup_insert_Some; [done|by eapply Hm].
  - unfold Start. destruct (lookup_task m "c") as [[l t]|] eqn:Hl; [|by intros [= <- _]].
    apply lookup_task_Some in Hl as [_ Hl]. destruct (negb _); intros [= <- _]; [done|].
    intros l0 t0. cbn [m_heap set_task]. intros [[_ <-]|[_ Hl0]]%lookup_insert_Some; [exact (Hm _ _ Hl)|exact (Hm _ _ Hl0)].
  - unfold Delete. destruct (lookup_task m "c") as [[l t]|]; [|by intros [= <- _]].
    destruct (String.eqb _ _); by intros [= <- _].
Qed.

Lemma waiting_update (m : Manager) (l : loc) : all_waiting m -> monitor_update l m = m /\ monitor_send l m = m.
Proof.
  intros Hm. unfold monitor_update, monitor_send. destruct (m_heap m !! l) as [t|] eqn:Hl; [|done]. by rewrite (Hm _ _ Hl).
Qed.

Lemma race_step (a a' : Abs) (o : option event) :
  race_inv a -> Forall race_event (event_of o) -> abs_step a o a' -> race_inv a'.
Proof.
  intros [Hm Hc Hp] Ho Hs.
  assert (Hview : forall m tid ath, forall x,
    view (mkAbs m (<[tid := ath]> (a_threads a))) x =
    set_view tid (match ath with AInvoked c => inl c | ACommitted an | AFinished an => inr an end) (view a) x).
  { intros m tid ath x. unfold view, set_view. cbn. destruct (decide (x = tid)) as [->|]; [by rewrite lookup_insert_eq|].
    by rewrite lookup_insert_ne. }
  destruct Hs as [tid c Hn _|tid c m' an Ht Ha|tid an Ht|l err|l|l].
  - assert (Hv : view a tid = None) by (unfold view; by rewrite Hn). apply Forall_cons in Ho as [Ho _].
    constructor; [done| |].
    + intros i c0. rewrite Hview. unfold set_view. destruct (decide (i = tid)) as [->|]; [by intros [= <-]|by apply Hc].
    + eapply phase_ext; [apply Hview|]. unfold set_view.
      destruct Hp; [apply ph_absent|eapply ph_created|eapply ph_started|eapply ph_deleted]; intros; eauto;
        destruct (decide _); congruence || eauto.
  - assert (Hv : view a tid = Some (inl c)) by (unfold view; by rewrite Ht). pose proof (Hc _ _ Hv) as He.
    constructor; [by eapply race_atomic_waiting| |].
    + intros i c0. rewrite Hview. unfold set_view. destruct (decide (i = tid)); [done|by apply Hc].
    + eapply phase_ext; [apply Hview|]. cbn in He. rewrite !elem_of_cons, elem_of_nil in He.
      destruct He as [[= -> ->]|[[= -> ->]|[[= -> ->]|[]]]];
        [by eapply race_create_phase|by eapply race_start_phase|by eapply race_delete_phase].
  - assert (Hv : view a tid = Some (inr an)) by (unfold view; by rewrite Ht).
    assert (Hsame : forall i, view (mkAbs (a_mgr a) (<[tid := AFinished an]> (a_threads a))) i = view a i).
    { intros i. rewrite Hview. unfold set_view. by destruct (decide (i = tid)) as [->|]. }
    constructor; [done| |by eapply phase_ext]. intros i c. rewrite Hsame. apply Hc.
  - by apply Forall_cons in Ho as [[] _].
  - constructor; cbn; destruct (waiting_update (a_mgr a) l Hm) as [-> _]; done.
  - constructor; cbn; destruct (waiting_update (a_mgr a) l Hm) as [_ ->]; done.
Qed.

Lemma race_run_inv (a a' : Abs) (tr : list event) :
  run abs_step a tr a' -> Forall race_event tr -> race_inv a -> race_inv a'.
Proof.
  induction 1 as [a|a a1 tr a' Hs _ IH|a e a1 tr a' Hs _ IH]; intros Ht Hi; [done|..].
  - apply IH; [done|]. by eapply (race_step a a1 None).
  - apply Forall_cons in Ht as [He Ht]. apply IH; [done|]. eapply (race_step a a1 (Some e)); [done|by constructor|done].
Qed.

Lemma race_init : race_inv abs_init.
Proof. constructor; [done|done|]. by apply ph_absent. Qed.

(** A returned answer stays. *)
Lemma run_finished (a a' : Abs) (tr : list event) (tid : nat) (an : answer) :
  run abs_step a tr a' -> a_threads a !! tid = Some (AFinished an) \/ Ret tid an ∈ tr ->
  a_threads a' !! tid = Some (AFinished an).
Proof.
  assert (Hkeep : forall a1 o a2, abs_step a1 o a2 -> a_threads a1 !! tid = Some (AFinished an) ->
    a_threads a2 !! tid = Some (AFinished an)).
  { intros a1 o a2 Hs Ht. destruct Hs as [i c Hn _|i c m' b Hn _|i b Hn|l err|l|l]; cbn; try done;
      (rewrite lookup_insert_ne; [done|congruence]). }
  induction 1 as [a|a a1 tr a' Hs _ IH|a e a1 tr a' Hs _ IH]; intros [Ht|Hin]; eauto.
  - by apply not_elem_of_nil in Hin.
  - apply elem_of_cons in Hin as [<-|Hin]; [|eauto]. apply IH. left. inversion Hs; subst. cbn. by rewrite lookup_insert_eq.
Qed.

(** ** Properties *)

(** C5: the task manager is linearizable as long as nothing is deleted.  Its
    calls take the manager's lock, then the record's, then none, and interleave
    at will with each other and with the ends of the processes; yet every trace
    of calls, answers and process ends that this shows is one that calls taking
    effect in a single step between call and return show as well, and it leaves
    the same records. *)
Theorem task_manager_linearizable (tr : list event) (s : Sys) :
  run sys_step sys_init tr s -> Forall event_not_delete tr ->
  exists a, run abs_step abs_init tr a /\ same_records (y_mgr s) (a_mgr a).
Proof.
  intros Hr Hd. destruct (simulation_trace sys_step abs_step event_not_delete refines _ _ _ abs_init sys_simulation Hr Hd init_refines)
    as (a & Ha & Href). exists a. split; [done|apply Href].
Qed.

(** C18: [Delete] is not one step.  It reads the state of the record without the
    record's lock and deletes the id later, so a [Start] that has found the
    record runs in between: both calls succeed, and the task is RUNNING with a
    live process under no id, out of reach of every later call.  When calls are
    single steps, no order of the same calls shows these answers. *)
Theorem Delete_races_Start :
  (exists s l t, run sys_step sys_init race_trace s /\
     m_tasks (y_mgr s) !! "c" = None /\ m_heap (y_mgr s) !! l = Some t /\
     t_Status t = StatusRunning /\ t_mon t = MonWaiting /\ (0 < t_Pid t)%Z) /\
  forall a, ~ run abs_step abs_init race_trace a.
Proof.
  split.
  - destruct (exec race_schedule sys_init) as [[tr s]|] eqn:He; [|by vm_compute in He].
    pose proof (exec_run _ _ _ _ race_ok He) as Hr. vm_compute in He. injection He as <- <-.
    eexists _, 0, _. split; [exact Hr|]. by vm_compute.
  - intros a Hr. assert (Hi : race_inv a).
    { eapply race_run_inv; [exact Hr| |apply race_init]. repeat constructor; cbn; set_solver. }
    assert (Hv : forall tid, Ret tid unit_ok ∈ race_trace -> view a tid = Some (inr unit_ok)).
    { intros tid Hin. unfold view. by rewrite (run_finished _ _ _ _ _ Hr (or_intror Hin)). }
    pose proof (Hv 1 ltac:(unfold race_trace; set_solver)) as H1.
    pose proof (Hv 2 ltac:(unfold race_trace; set_solver)) as H2. destruct (ri_phase _ Hi); congruence.
Qed.

(** What can hold up a call, the sections under a record's lock being single
    steps here.  In every reachable state a call that has not got its answer can
    take a step, and has one less to take after it, three in all; or another
    thread, a [Delete], holds the manager's lock and can take the step that gives
    it back; or it is a [Wait] for a record whose channel is empty: the result is
    still to come, or another [Wait] has taken it and this one never ends
    ([Wait_only_once]). *)
Theorem calls_progress (s : Sys) (tid : nat) (th : thread) :
  sys_reachable s -> y_threads s !! tid = Some th -> 0 < steps_left th ->
  moves tid th s \/ waiting (y_mgr s) th \/
  exists w id s', y_writer s = Some w /\ w <> tid /\ y_threads s !! w = Some (Deleting id) /\
    advance w s = Some s' /\ y_writer s' = None.
Proof.
  intros Hinv%sys_reachable_inv Ht Hl. destruct (thread_progress s tid th Hinv Ht Hl) as [?|[?|[[w Hw] [c ->]]]]; [auto..|].
  right. right. pose proof Hw as [id Hid]%(yi_writer _ Hinv). exists w, id. eexists.
  split; [done|]. split; [congruence|]. split; [done|]. unfold advance. rewrite Hid. done.
Qed.

(** C30: the life of a task under concurrent calls, [Delete] included.  In every
    reachable state a record has one of the four states, a pid exactly while its
    process has not been reaped, and a non-zero exit code only when it is
    stopped.  A step of any thread or goroutine keeps its id and moves its state
    along CREATED to RUNNING, RUNNING to PAUSED and back, RUNNING to STOPPED, or
    not at all; and a record that is STOPPED stays so, without a pid and with
    its exit code. *)
Theorem task_lifecycle_concurrent (s s' : Sys) (o : option event) (l : loc) (t : Task) :
  sys_reachable s -> sys_step s o s' -> m_heap (y_mgr s) !! l = Some t ->
  task_ok t /\
  exists t', m_heap (y_mgr s') !! l = Some t' /\ task_ok t' /\ t_ID t' = t_ID t /\
    (t_Status t' = t_Status t \/ status_edge (t_Status t) (t_Status t')) /\
    (t_Status t = StatusStopped -> t_Status t' = StatusStopped /\ t_Pid t' = 0%Z /\ t_ExitCode t' = t_ExitCode t).
Proof.
  intros Hinv%sys_reachable_inv Hs Hl. pose proof (sys_step_effect _ _ _ Hinv Hs) as He.
  pose proof (yi_mgr _ Hinv) as Hm. split; [by eapply Hm|].
  destruct (effect_evolves _ _ _ _ Hm He Hl) as (t' & Hl' & Hev). pose proof (effect_inv _ _ Hm He) as Hm'.
  assert (Hok' : task_ok t') by (by eapply Hm'). exists t'. split; [done|]. split; [done|]. split; [apply Hev|].
  split; [apply Hev|]. intros Hst. assert (Hs' : t_Status t' = StatusStopped).
  { destruct (ev_status _ _ Hev) as [->|Hed]; [done|]. apply status_edge_eq in Hed as [Hed _]. done. }
  split; [done|]. split; [by apply (tk_stopped _ Hok')|by apply (ev_code _ _ Hev)].
Qed.

(** ** Witnesses *)

(** [Kill] and [Wait] overlap with the start of the task. *)
Definition demo_schedule : list act :=
  [DoCall 0 race_create; DoRun 0; DoRet 0; DoCall 1 (CKill (fun _ _ => true) "c" 9); DoRun 1; DoCall 2 race_start; DoRun 2;
   DoRun 1; DoRun 2; DoRun 1; DoCall 3 (CWait "c"); DoRun 3; DoRet 1; DoRet 2].

Lemma demo_schedule_ok : Forall act_ok demo_schedule.
Proof. unfold demo_schedule. repeat constructor. by intros cmd pid [= <-]. Qed.

Definition demo_run : list event * Sys := default ([], sys_init) (exec demo_schedule sys_init).

Lemma demo_run_ok : run sys_step sys_init demo_run.1 demo_run.2.
Proof. apply (exec_run demo_schedule); [apply demo_schedule_ok|]. vm_compute. reflexivity. Qed.

Lemma task_manager_linearizable_witness :
  exists a, run abs_step abs_init demo_run.1 a /\ m_heap (a_mgr a) !! 0 = m_heap (y_mgr demo_run.2) !! 0.
Proof.
  destruct (task_manager_linearizable demo_run.1 demo_run.2 demo_run_ok) as (a & Ha & _ & Hh & _).
  - vm_compute. repeat constructor.
  - exists a. split; [exact Ha|]. rewrite Hh. reflexivity.
Defined.

Lemma calls_progress_witness : waiting (y_mgr demo_run.2) (Found (CWait "c") 0).
Proof.
  destruct (calls_progress demo_run.2 3 (Found (CWait "c") 0)) as [(s' & th' & Ha & _)|[Hw|(w & id & s' & Hw & _)]].
  - exists demo_run.1. exact demo_run_ok.
  - vm_compute. reflexivity.
  - cbn. lia.
  - vm_compute in Ha. discriminate Ha.
  - exact Hw.
  - vm_compute in Hw. discriminate Hw.
Defined.

Lemma task_lifecycle_concurrent_witness :
  exists t', m_heap (process_exit 0 ExitNil (y_mgr demo_run.2)) !! 0 = Some t' /\ t_Status t' = StatusRunning.
Proof.
  destruct (task_lifecycle_concurrent demo_run.2 (set_mgr (process_exit 0 ExitNil (y_mgr demo_run.2)) demo_run.2)
    (Some (Exit 0 ExitNil)) 0 (demo_task 100 StatusRunning 0 (Some 2%Z) [] MonWaiting)) as (_ & t' & Ht & _ & _ & [Hs|Hs] & _).
  - exists demo_run.1. exact demo_run_ok.
  - constructor.
  - vm_compute. reflexivity.
  - exists t'. split; [exact Ht|exact Hs].
  - exists t'. split; [exact Ht|]. vm_compute in Ht. injection Ht as <-. reflexivity.
Defined.

(** [Kill] has read the pid, the process ends and is reaped, and the signal goes
    to its number all the same: to no process, or to one that has the number now. *)
Example Kill_after_reaping :
  let s := (default ([], sys_init) (exec [DoCall 0 race_create; DoRun 0; DoCall 1 (CKill (fun _ _ => true) "c" 9); DoRun 1; DoRun 1] sys_init)).2 in
  let s1 := set_mgr (monitor_update 0 (process_exit 0 ExitNil (y_mgr s))) s in
  (t_Pid <$> m_heap (y_mgr s1) !! 0) = Some 0%Z /\
  (m_signals ∘ y_mgr <$> advance 1 s1) = Some [(100%Z, 9%Z)].
Proof. vm_compute. split; reflexivity. Qed.
