(* ===== verification/Float64.v ===== *)
(** * Go's [float64]

    Resource quantities are [float64] values.  They are modelled by IEEE 754
    binary64 as the Standard Library specifies it (53 bits of precision,
    rounding to nearest even), so that rounding is part of the model.  The
    lemmas show when no rounding happens: on integers below 2^53 addition,
    subtraction, multiplication and comparison are those of [Z]. *)

From S2P Require Import Prelude.
From Stdlib Require Import SpecFloat.

Definition float64 : Type := spec_float.

Definition f_zero : float64 := S754_zero false.
Definition f_add : float64 -> float64 -> float64 := SFadd 53 1024.
Definition f_sub : float64 -> float64 -> float64 := SFsub 53 1024.
Definition f_mul : float64 -> float64 -> float64 := SFmul 53 1024.

(** [a > b] in Go: false when either is NaN. *)
Definition f_gt (a b : float64) : bool := SFltb b a.

(** The conversion [float64(n)] of an integer. *)
Definition f_of_int (n : Z) : float64 := binary_normalize 53 1024 n 0 false.

#[global] Instance float64_eq_dec : EqDecision float64.
Proof. solve_decision. Defined.

(** ** Shifted mantissas *)

Definition shlp (p : positive) (k : nat) : positive := Nat.iter k xO p.
Abbreviation digits := digits2_pos.

(** The canonical representation of an integer below 2^53. *)
Definition canon (n : Z) : float64 :=
  match n with
  | Z0 => S754_zero false
  | Zpos p => S754_finite false (shlp p (53 - Pos.to_nat (digits p))) (Zpos (digits p) - 53)
  | Zneg p => S754_finite true (shlp p (53 - Pos.to_nat (digits p))) (Zpos (digits p) - 53)
  end.

Definition small (n : Z) : Prop := (- 2 ^ 53 < n < 2 ^ 53)%Z.

Lemma shlp_value (p : positive) (k : nat) : Zpos (shlp p k) = (Zpos p * 2 ^ Z.of_nat k)%Z.
Proof.
  induction k as [|k IH]; [cbn; lia|]. rewrite Nat2Z.inj_succ, Z.pow_succ_r by lia.
  change (shlp p (S k)) with (xO (shlp p k)). lia.
Qed.

Lemma shlp_shlp (p : positive) (j k : nat) : shlp (shlp p j) k = shlp p (j + k).
Proof. apply (inj Zpos). rewrite !shlp_value, Nat2Z.inj_add, Z.pow_add_r by lia. lia. Qed.

Lemma digits_shlp (p : positive) (k : nat) : Pos.to_nat (digits (shlp p k)) = Pos.to_nat (digits p) + k.
Proof.
  induction k as [|k IH]; [cbn; lia|]. change (shlp p (S k)) with (xO (shlp p k)). cbn [digits2_pos]. lia.
Qed.

Lemma digits_bounds (p : positive) :
  (2 ^ (Z.of_nat (Pos.to_nat (digits p)) - 1) <= Zpos p < 2 ^ Z.of_nat (Pos.to_nat (digits p)))%Z.
Proof.
  induction p as [p IH|p IH|]; cbn [digits2_pos]; [| |done];
    rewrite Pos2Nat.inj_succ, Nat2Z.inj_succ, Z.pow_succ_r by lia;
    replace (Z.succ (Z.of_nat (Pos.to_nat (digits p))) - 1)%Z
      with (Z.succ (Z.of_nat (Pos.to_nat (digits p)) - 1)) by lia;
    rewrite Z.pow_succ_r by lia; lia.
Qed.

Lemma digits_le (p : positive) (n : nat) : (Zpos p < 2 ^ Z.of_nat n)%Z -> Pos.to_nat (digits p) <= n.
Proof.
  intros H. destruct (digits_bounds p) as [Hb _].
  destruct (decide (Pos.to_nat (digits p) <= n)) as [|Hn]; [done|].
  assert (Hp : (2 ^ Z.of_nat n <= 2 ^ (Z.of_nat (Pos.to_nat (digits p)) - 1))%Z)
    by (apply Z.pow_le_mono_r; lia). lia.
Qed.

Lemma iter_pos_nat {A : Type} (f : A -> A) (n : positive) (x : A) :
  iter_pos f n x = Nat.iter (Pos.to_nat n) f x.
Proof.
  revert x. induction n as [n IH|n IH|]; intros x; cbn [iter_pos]; [| |done].
  - rewrite !IH, Pos2Nat.inj_xI, <- Nat.iter_add, Nat.iter_succ_r. f_equal. lia.
  - rewrite !IH, Pos2Nat.inj_xO, <- Nat.iter_add. f_equal. lia.
Qed.

Lemma shl_align_down (m : positive) (e e' : Z) (k : nat) :
  (e' + Z.of_nat k = e)%Z -> shl_align m e e' = (shlp m k, e').
Proof.
  intros H. unfold shl_align. destruct k as [|k].
  - replace (e' - e)%Z with 0%Z by lia. cbn. f_equal. lia.
  - replace (e' - e)%Z with (Zneg (Pos.of_succ_nat k)) by lia. f_equal.
    unfold shlp. rewrite Pos2Nat.inj_iter. by rewrite SuccNat2Pos.id_succ.
Qed.

Lemma shr_exact (p : positive) (e : Z) (j : nat) :
  shr (Build_shr_record (Zpos (shlp p j)) false false) e (Z.of_nat j) =
  (Build_shr_record (Zpos p) false false, (e + Z.of_nat j)%Z).
Proof.
  unfold shr. destruct j as [|j]; [cbn; f_equal; lia|].
  change (Z.of_nat (S j)) with (Zpos (Pos.of_succ_nat j)).
  cbv beta iota. rewrite iter_pos_nat, SuccNat2Pos.id_succ. f_equal.
  induction j as [|j IH]; [done|]. rewrite Nat.iter_succ_r.
  change (shlp p (S (S j))) with (xO (shlp p (S j))). cbn [shr_1 orb]. apply IH.
Qed.

(** ** Rounding an exact value *)

Lemma fexp_small (d : nat) : 1 <= d -> fexp 53 1024 (Z.of_nat d) = (Z.of_nat d - 53)%Z.
Proof. intros H. unfold fexp, emin. lia. Qed.

Lemma shr_fexp_exact (p : positive) (e : Z) (j d : nat) :
  Pos.to_nat (digits p) = 53 -> (e + Z.of_nat j = Z.of_nat d - 53)%Z -> 1 <= d ->
  shr_fexp 53 1024 (Zpos (shlp p j)) e loc_Exact =
  (Build_shr_record (Zpos p) false false, (Z.of_nat d - 53)%Z).
Proof.
  intros Hp He Hd. unfold shr_fexp, shr_record_of_loc.
  pose proof (digits_shlp p j) as Hj. rewrite Hp in Hj. cbn [Zdigits2].
  replace (Zpos (digits (shlp p j)) + e)%Z with (Z.of_nat d) by lia.
  rewrite fexp_small by done. replace (Z.of_nat d - 53 - e)%Z with (Z.of_nat j) by lia.
  rewrite shr_exact. f_equal. lia.
Qed.

Lemma round_aux_exact (s : bool) (p : positive) (k : nat) :
  Pos.to_nat (digits p) <= 53 <= Pos.to_nat (digits p) + k ->
  binary_round_aux 53 1024 s (Zpos (shlp p k)) (- Z.of_nat k) loc_Exact =
  S754_finite s (shlp p (53 - Pos.to_nat (digits p))) (Zpos (digits p) - 53).
Proof.
  set (d := Pos.to_nat (digits p)). intros [Hd Hk].
  set (m := shlp p (53 - d)).
  assert (Hm : Pos.to_nat (digits m) = 53) by (unfold m; rewrite digits_shlp; fold d; lia).
  assert (Hsh : shlp p k = shlp m (k + d - 53)).
  { unfold m. rewrite shlp_shlp. f_equal. lia. }
  rewrite Hsh. unfold binary_round_aux.
  rewrite (shr_fexp_exact m _ _ d) by (try done; unfold d in *; lia).
  cbn [shr_m loc_of_shr_record round_nearest_even].
  change (Zpos m) with (Zpos (shlp m 0)).
  rewrite (shr_fexp_exact m _ 0 d) by (try done; unfold d in *; lia).
  cbn [shr_m]. replace (Z.of_nat d - 53 <=? 1024 - 53)%Z with true by lia.
  f_equal. unfold d. lia.
Qed.

Lemma binary_round_exact (s : bool) (p : positive) (k : nat) :
  (Zpos p < 2 ^ 53)%Z ->
  binary_round 53 1024 s (shlp p k) (- Z.of_nat k) =
  S754_finite s (shlp p (53 - Pos.to_nat (digits p))) (Zpos (digits p) - 53).
Proof.
  intros Hp. assert (Hd : Pos.to_nat (digits p) <= 53) by (apply digits_le; lia).
  unfold binary_round. pose proof (digits_shlp p k) as Hk.
  replace (Zpos (digits (shlp p k)) + - Z.of_nat k)%Z with (Z.of_nat (Pos.to_nat (digits p))) by lia.
  rewrite fexp_small by lia.
  destruct (decide (53 <= Pos.to_nat (digits p) + k)) as [Hle|Hlt].
  - replace (shl_align (shlp p k) (- Z.of_nat k) (Z.of_nat (Pos.to_nat (digits p)) - 53))
      with (shlp p k, (- Z.of_nat k)%Z); [by apply round_aux_exact|].
    unfold shl_align. destruct (_ - _)%Z eqn:E; [done|done|lia].
  - rewrite (shl_align_down _ _ _ (53 - Pos.to_nat (digits p) - k)) by lia.
    rewrite shlp_shlp.
    replace (k + (53 - Pos.to_nat (digits p) - k)) with (53 - Pos.to_nat (digits p)) by lia.
    replace (Z.of_nat (Pos.to_nat (digits p)) - 53)%Z
      with (- Z.of_nat (53 - Pos.to_nat (digits p)))%Z by lia.
    rewrite round_aux_exact; [|lia]. done.
Qed.

Lemma normalize_exact (n : Z) (k : nat) :
  small n -> binary_normalize 53 1024 (n * 2 ^ Z.of_nat k) (- Z.of_nat k) false = canon n.
Proof.
  unfold small. intros Hn. destruct n as [|p|p]; [done| |].
  - rewrite <- shlp_value. apply binary_round_exact. lia.
  - replace (Zneg p * 2 ^ Z.of_nat k)%Z with (Zneg (shlp p k)).
    + apply binary_round_exact. lia.
    + pose proof (shlp_value p k). lia.
Qed.

Lemma f_of_int_canon (n : Z) : small n -> f_of_int n = canon n.
Proof.
  intros Hn. unfold f_of_int. rewrite <- (normalize_exact n 0) by done.
  f_equal. cbn. lia.
Qed.

(** ** Arithmetic on canonical integers *)

(** The aligned mantissa of a canonical integer, with its sign. *)
Lemma canon_align (n : Z) (s : bool) (m : positive) (e ez : Z) :
  small n -> canon n = S754_finite s m e -> (ez <= e)%Z ->
  (e <= 0)%Z /\ cond_Zopp s (Zpos (shl_align m e ez).1) = (n * 2 ^ (- ez))%Z.
Proof.
  unfold small. intros Hn Hc Hez.
  assert (H : forall p, (Zpos p < 2 ^ 53)%Z -> m = shlp p (53 - Pos.to_nat (digits p)) ->
    e = (Zpos (digits p) - 53)%Z -> (e <= 0)%Z /\ Zpos (shl_align m e ez).1 = (Zpos p * 2 ^ (- ez))%Z).
  { intros p Hp -> ->. assert (Hd : Pos.to_nat (digits p) <= 53) by (apply digits_le; lia).
    split; [lia|].
    rewrite (shl_align_down _ _ _ (Z.to_nat (Zpos (digits p) - 53 - ez))) by lia. cbn [fst].
    rewrite !shlp_value, <- Z.mul_assoc, <- Z.pow_add_r by lia. do 2 f_equal. lia. }
  destruct n as [|p|p]; cbn in Hc; [done| |]; injection Hc as <- <- <-;
    destruct (H p) as [He Hv]; try done; try lia; split; try done; unfold cond_Zopp; lia.
Qed.

Lemma canon_normalize (a b c : Z) (e1 e2 : Z) :
  small c -> (e1 <= 0)%Z -> (e2 <= 0)%Z -> (a + b = c)%Z ->
  binary_normalize 53 1024 (a * 2 ^ (- Z.min e1 e2) + b * 2 ^ (- Z.min e1 e2)) (Z.min e1 e2) false = canon c.
Proof.
  intros Hc H1 H2 Hab. rewrite <- Z.mul_add_distr_r, Hab.
  rewrite <- (normalize_exact c (Z.to_nat (- Z.min e1 e2))) by done. f_equal; [|lia].
  do 2 f_equal. lia.
Qed.

Lemma f_add_canon (a b : Z) : small a -> small b -> small (a + b) ->
  f_add (canon a) (canon b) = canon (a + b).
Proof.
  intros Ha Hb Hab. unfold f_add.
  destruct (decide (a = 0%Z)) as [->|Hna]; [by destruct b|].
  destruct (decide (b = 0%Z)) as [->|Hnb].
  { rewrite Z.add_0_r. by destruct a. }
  destruct (canon a) as [|?| |s1 m1 e1] eqn:Ea; try by destruct a.
  destruct (canon b) as [|?| |s2 m2 e2] eqn:Eb; try by destruct b.
  cbn [SFadd]. destruct (canon_align a s1 m1 e1 (Z.min e1 e2) Ha Ea) as [H1 H1v]; [lia|].
  destruct (canon_align b s2 m2 e2 (Z.min e1 e2) Hb Eb) as [H2 H2v]; [lia|].
  rewrite H1v, H2v. by apply canon_normalize.
Qed.

Lemma f_sub_canon (a b : Z) : small a -> small b -> small (a - b) ->
  f_sub (canon a) (canon b) = canon (a - b).
Proof.
  intros Ha Hb Hab. unfold f_sub.
  destruct (decide (a = 0%Z)) as [->|Hna]; [by destruct b|].
  destruct (decide (b = 0%Z)) as [->|Hnb].
  { rewrite Z.sub_0_r. by destruct a. }
  destruct (canon a) as [|?| |s1 m1 e1] eqn:Ea; try by destruct a.
  destruct (canon b) as [|?| |s2 m2 e2] eqn:Eb; try by destruct b.
  cbn [SFsub]. destruct (canon_align a s1 m1 e1 (Z.min e1 e2) Ha Ea) as [H1 H1v]; [lia|].
  destruct (canon_align b s2 m2 e2 (Z.min e1 e2) Hb Eb) as [H2 H2v]; [lia|].
  rewrite H1v, H2v. rewrite <- Z.add_opp_r, <- Z.mul_opp_l. by apply canon_normalize.
Qed.

(** Multiplication, for factors that are not negative (a negative factor and
    zero give the negative zero). *)
Lemma f_mul_canon (a b : Z) : (0 <= a)%Z -> (0 <= b)%Z -> small a -> small b -> small (a * b) ->
  f_mul (canon a) (canon b) = canon (a * b).
Proof.
  unfold small. intros Ha0 Hb0 Ha Hb Hab. unfold f_mul.
  destruct a as [|p|p]; [by destruct b| |lia]. destruct b as [|q|q]; [done| |lia].
  assert (Hp : Pos.to_nat (digits p) <= 53) by (apply digits_le; lia).
  assert (Hq : Pos.to_nat (digits q) <= 53) by (apply digits_le; lia).
  cbn [canon SFmul xorb Z.mul].
  set (i := 53 - Pos.to_nat (digits p)). set (j := 53 - Pos.to_nat (digits q)).
  assert (Hm : (shlp p i * shlp q j)%positive = shlp (p * q) (i + j)).
  { apply (inj Zpos). rewrite Pos2Z.inj_mul, !shlp_value, Nat2Z.inj_add, Z.pow_add_r by lia. lia. }
  rewrite Hm. replace (Zpos (digits p) - 53 + (Zpos (digits q) - 53))%Z with (- Z.of_nat (i + j))%Z by lia.
  apply round_aux_exact. split; [apply digits_le; lia|].
  assert (Hd : Pos.to_nat (digits p) + Pos.to_nat (digits q) <= S (Pos.to_nat (digits (p * q)))).
  { destruct (digits_bounds p) as [H1 _], (digits_bounds q) as [H2 _], (digits_bounds (p * q)) as [_ H3].
    rewrite Pos2Z.inj_mul in H3.
    assert (H4 : (2 ^ (Z.of_nat (Pos.to_nat (digits p)) - 1 + (Z.of_nat (Pos.to_nat (digits q)) - 1))
      < 2 ^ Z.of_nat (Pos.to_nat (digits (p * q))))%Z).
    { rewrite Z.pow_add_r by lia. eapply Z.le_lt_trans; [|exact H3]. apply Z.mul_le_mono_nonneg; lia. }
    apply Z.pow_lt_mono_r_iff in H4; lia. }
  lia.
Qed.

(** ** Comparison *)

Lemma canon_pos_compare (p q : positive) : (Zpos p < 2 ^ 53)%Z -> (Zpos q < 2 ^ 53)%Z ->
  SFcompare (canon (Zpos p)) (canon (Zpos q)) = Some (Z.compare (Zpos p) (Zpos q)).
Proof.
  intros Hp Hq.
  assert (Hdp : Pos.to_nat (digits p) <= 53) by (apply digits_le; lia).
  assert (Hdq : Pos.to_nat (digits q) <= 53) by (apply digits_le; lia).
  destruct (digits_bounds p) as [Hp1 Hp2], (digits_bounds q) as [Hq1 Hq2].
  assert (Hpow : forall a b : nat, a < b -> (2 ^ Z.of_nat a <= 2 ^ (Z.of_nat b - 1))%Z).
  { intros a b Hab. apply Z.pow_le_mono_r; lia. }
  cbn [canon SFcompare]. f_equal.
  destruct (Z.compare_spec (Zpos (digits p) - 53) (Zpos (digits q) - 53)) as [He|He|He].
  - assert (Hd : digits p = digits q) by lia. rewrite Hd.
    set (k := 53 - _). change (Pos.compare_cont Eq ?a ?b) with (Pos.compare a b).
    change ((shlp p k ?= shlp q k)%positive) with (Zpos (shlp p k) ?= Zpos (shlp q k))%Z.
    rewrite !shlp_value. symmetry. apply Zmult_compare_compat_r. lia.
  - symmetry. apply Z.compare_lt_iff. specialize (Hpow (Pos.to_nat (digits p)) (Pos.to_nat (digits q))). lia.
  - symmetry. apply Z.compare_gt_iff. specialize (Hpow (Pos.to_nat (digits q)) (Pos.to_nat (digits p))). lia.
Qed.

Lemma SFcompare_neg (s1 s2 : bool) (m1 m2 : positive) (e1 e2 : Z) :
  SFcompare (S754_finite true m1 e1) (S754_finite true m2 e2) =
  CompOpp <$> SFcompare (S754_finite false m1 e1) (S754_finite false m2 e2).
Proof. cbn. by destruct (e1 ?= e2)%Z. Qed.

Lemma f_gt_canon (a b : Z) : small a -> small b -> f_gt (canon a) (canon b) = (b <? a)%Z.
Proof.
  unfold small, f_gt, SFltb, Z.ltb. intros Ha Hb.
  destruct a as [|p|p], b as [|q|q]; try done.
  - by rewrite canon_pos_compare by lia.
  - cbn [canon]. rewrite (SFcompare_neg true true).
    pose proof (canon_pos_compare q p) as H. cbn [canon] in H. rewrite H by lia. cbn.
    change (Zneg q ?= Zneg p)%Z with (CompOpp (q ?= p)%positive).
    by destruct (q ?= p)%positive.
Qed.

(** ** The operations on small integers *)

Lemma f_add_int (a b : Z) : small a -> small b -> small (a + b) ->
  f_add (f_of_int a) (f_of_int b) = f_of_int (a + b).
Proof. intros. rewrite !f_of_int_canon by done. by apply f_add_canon. Qed.

Lemma f_sub_int (a b : Z) : small a -> small b -> small (a - b) ->
  f_sub (f_of_int a) (f_of_int b) = f_of_int (a - b).
Proof. intros. rewrite !f_of_int_canon by done. by apply f_sub_canon. Qed.

Lemma f_mul_int (a b : Z) : (0 <= a)%Z -> (0 <= b)%Z -> small a -> small b -> small (a * b) ->
  f_mul (f_of_int a) (f_of_int b) = f_of_int (a * b).
Proof. intros. rewrite !f_of_int_canon by done. by apply f_mul_canon. Qed.

Lemma f_gt_int (a b : Z) : small a -> small b -> f_gt (f_of_int a) (f_of_int b) = (b <? a)%Z.
Proof. intros. rewrite !f_of_int_canon by done. by apply f_gt_canon. Qed.

Lemma f_of_int_inj (a b : Z) : small a -> small b -> f_of_int a = f_of_int b -> a = b.
Proof.
  intros Ha Hb He. pose proof (f_gt_int a b Ha Hb) as H1. pose proof (f_gt_int b a Hb Ha) as H2.
  rewrite He in H1, H2. unfold f_gt, SFltb in H1, H2.
  assert (Hirr : forall x : Z, small x -> f_gt (f_of_int x) (f_of_int x) = false).
  { intros x Hx. rewrite f_gt_int by done. apply Z.ltb_irrefl. }
  specialize (Hirr b Hb). unfold f_gt, SFltb in Hirr. rewrite Hirr in H1, H2.
  symmetry in H1, H2. apply Z.ltb_ge in H1, H2. lia.
Qed.

Lemma small_0 : small 0.
Proof. done. Qed.

Lemma f_of_int_0 : f_of_int 0 = f_zero.
Proof. done. Qed.

#[export] Hint Resolve small_0 : core.

(** Rounding does happen outside the integers: giving back 0.2 after having
    taken 0.1 and 0.2 does not leave 0.1. *)
Definition f_tenth : float64 := SFdiv 53 1024 (f_of_int 1) (f_of_int 10).
Definition f_fifth : float64 := SFdiv 53 1024 (f_of_int 1) (f_of_int 5).

Example release_rounds : f_sub (f_add f_tenth f_fifth) f_fifth <> f_tenth.
Proof. vm_compute. congruence. Qed.

(** ** Reading an integer back *)

Definition z_of_float (f : float64) : Z :=
  match f with
  | S754_finite s m e => cond_Zopp s (Z.shiftr (Zpos m) (- e))
  | _ => 0%Z
  end.

(** A float that is a non-negative integer below 2^53. *)
Definition is_nat53 (f : float64) : Prop :=
  f = f_of_int (z_of_float f) /\ (0 <= z_of_float f < 2 ^ 53)%Z.

Lemma z_of_f_of_int (n : Z) : small n -> z_of_float (f_of_int n) = n.
Proof.
  unfold small. intros Hn. rewrite f_of_int_canon by done.
  assert (H : forall p, (Zpos p < 2 ^ 53)%Z ->
    Z.shiftr (Zpos (shlp p (53 - Pos.to_nat (digits p)))) (- (Zpos (digits p) - 53)) = Zpos p).
  { intros p Hp. assert (Hd : Pos.to_nat (digits p) <= 53) by (apply digits_le; lia).
    rewrite Z.shiftr_div_pow2, shlp_value by lia.
    replace (- (Zpos (digits p) - 53))%Z with (Z.of_nat (53 - Pos.to_nat (digits p))) by lia.
    apply Z.div_mul. pose proof (Z.pow_pos_nonneg 2 (Z.of_nat (53 - Pos.to_nat (digits p)))). lia. }
  destruct n as [|p|p]; cbn [canon z_of_float cond_Zopp]; [done| |]; rewrite H by lia; lia.
Qed.

Lemma is_nat53_int (n : Z) : (0 <= n < 2 ^ 53)%Z -> is_nat53 (f_of_int n).
Proof. intros Hn. unfold is_nat53. rewrite z_of_f_of_int by (unfold small; lia). done. Qed.
