(* ===== verification/KueueTypes.v ===== *)
(** * Queues, quotas and workloads: mini-kueue/pkg/types/types.go

    Resource lists are Go maps to [float64].  Workloads are objects reached
    through pointers from several lists, so they live in a heap; flavors and
    cluster queues are each reached from one place and are kept by value. *)

From S2P Require Import Prelude.
From S2P Require Import Float64.

(** ** Resource lists *)

Abbreviation ResourceList := (gmap string float64).

Definition ResourceCPU : string := "cpu".
Definition ResourceMemory : string := "memory".
Definition ResourceGPU : string := "nvidia.com/gpu".

(** [r[k]]: the zero value for a missing key. *)
Definition rl_get (r : ResourceList) (k : string) : float64 := default f_zero (r !! k).

Definition Clone (r : ResourceList) : ResourceList := gmap_copy r ∅.

Definition Add (r other : ResourceList) : ResourceList :=
  map_fold (fun k v (result : ResourceList) => <[k := f_add (default f_zero (result !! k)) v]> result)
    (gmap_copy r ∅) other.

Definition Sub (r other : ResourceList) : ResourceList :=
  map_fold (fun k v (result : ResourceList) => <[k := f_sub (default f_zero (result !! k)) v]> result)
    (gmap_copy r ∅) other.

Definition Fits (r capacity : ResourceList) : bool :=
  gmap_all (fun k v => match capacity !! k with Some cap => negb (f_gt v cap) | None => true end) r.

(** ** Workloads *)

Abbreviation WorkloadStatus := string.
Definition StatusPending : WorkloadStatus := "Pending".
Definition StatusAdmitted : WorkloadStatus := "Admitted".
Definition StatusRejected : WorkloadStatus := "Rejected".
Definition StatusFinished : WorkloadStatus := "Finished".

Record Workload : Type := mkWorkload {
  w_Name : string;
  w_Namespace : string;
  w_QueueName : string;
  w_Resources : ResourceList;
  w_FlavorName : string;
  w_PodCount : Z;
  w_Priority : Z;
  w_Status : WorkloadStatus;
  w_CreatedAt : Z;
  w_AdmittedAt : option Z;
  w_FinishedAt : option Z
}.

Definition NewWorkload (now : Z) (name namespace queueName : string) (resources : ResourceList)
    (podCount priority : Z) : Workload :=
  mkWorkload name namespace queueName resources "" podCount priority "" now None None.

Definition TotalRequests (w : Workload) : ResourceList :=
  map_fold (fun k v (result : ResourceList) => <[k := f_mul v (f_of_int (w_PodCount w))]> result)
    ∅ (w_Resources w).

Abbreviation wloc := nat.
Abbreviation wheap := (nat -> Workload).

Definition w_admit (flavor : string) (now : Z) (w : Workload) : Workload :=
  mkWorkload (w_Name w) (w_Namespace w) (w_QueueName w) (w_Resources w) flavor (w_PodCount w)
    (w_Priority w) StatusAdmitted (w_CreatedAt w) (Some now) (w_FinishedAt w).
Definition w_finish (now : Z) (w : Workload) : Workload :=
  mkWorkload (w_Name w) (w_Namespace w) (w_QueueName w) (w_Resources w) (w_FlavorName w) (w_PodCount w)
    (w_Priority w) StatusFinished (w_CreatedAt w) (w_AdmittedAt w) (Some now).
Definition w_pend (w : Workload) : Workload :=
  mkWorkload (w_Name w) (w_Namespace w) (w_QueueName w) (w_Resources w) (w_FlavorName w) (w_PodCount w)
    (w_Priority w) StatusPending (w_CreatedAt w) (w_AdmittedAt w) (w_FinishedAt w).

(** ** Flavors *)

Record FlavorQuota : Type := mkFlavor {
  fq_Name : string;
  fq_Resources : ResourceList;
  fq_Used : ResourceList
}.

Definition Available (fq : FlavorQuota) : ResourceList := Sub (Clone (fq_Resources fq)) (fq_Used fq).

Definition CanFit (fq : FlavorQuota) (req : ResourceList) : bool :=
  gmap_all (fun k _ => match fq_Resources fq !! k with Some _ => true | None => false end) req
  && Fits req (Available fq).

Definition Reserve (req : ResourceList) (fq : FlavorQuota) : FlavorQuota :=
  mkFlavor (fq_Name fq) (fq_Resources fq) (Add (fq_Used fq) req).

Definition Release (req : ResourceList) (fq : FlavorQuota) : FlavorQuota :=
  mkFlavor (fq_Name fq) (fq_Resources fq) (Sub (fq_Used fq) req).

(** ** Cluster queues *)

Record ClusterQueue : Type := mkCQ {
  cq_Name : string;
  cq_Flavors : list FlavorQuota;
  cq_Workloads : list wloc;
  cq_Queue : list wloc
}.

(** The loop over the flavors: the first that fits is reserved. *)
Fixpoint assign_first (req : ResourceList) (flavors : list FlavorQuota) :
    option (string * list FlavorQuota) :=
  match flavors with
  | [] => None
  | fq :: rest =>
      if CanFit fq req then Some (fq_Name fq, Reserve req fq :: rest)
      else
        match assign_first req rest with
        | Some (name, rest') => Some (name, fq :: rest')
        | None => None
        end
  end.

Definition AssignFlavor (now : Z) (l : wloc) (cq : ClusterQueue) (h : wheap) :
    (ClusterQueue * wheap) * option string :=
  match assign_first (TotalRequests (h l)) (cq_Flavors cq) with
  | Some (name, flavors) =>
      ((mkCQ (cq_Name cq) flavors (cq_Workloads cq ++ [l]) (cq_Queue cq),
        <[l := w_admit name now (h l)]> h), Some name)
  | None => ((cq, h), None)
  end.

(** The first flavor of that name is released. *)
Fixpoint release_first (name : string) (req : ResourceList) (flavors : list FlavorQuota) :
    list FlavorQuota :=
  match flavors with
  | [] => []
  | fq :: rest =>
      if String.eqb (fq_Name fq) name then Release req fq :: rest
      else fq :: release_first name req rest
  end.

Definition ReleaseWorkload (now : Z) (l : wloc) (cq : ClusterQueue) (h : wheap) : ClusterQueue * wheap :=
  let w := h l in
  (mkCQ (cq_Name cq) (release_first (w_FlavorName w) (TotalRequests w) (cq_Flavors cq))
     (cq_Workloads cq) (cq_Queue cq),
   <[l := w_finish now w]> h).

(** The order of the pending queue. *)
Definition less (a b : Workload) : bool :=
  if negb (w_Priority a =? w_Priority b)%Z then (w_Priority b <? w_Priority a)%Z
  else (w_CreatedAt a <? w_CreatedAt b)%Z.

(** [sort.SliceStable]: insertion, after the elements that are not greater. *)
Fixpoint insert_stable (h : wheap) (x : wloc) (q : list wloc) : list wloc :=
  match q with
  | [] => [x]
  | y :: q' => if less (h x) (h y) then x :: y :: q' else y :: insert_stable h x q'
  end.

Definition sortQueue (h : wheap) (q : list wloc) : list wloc :=
  fold_left (fun acc x => insert_stable h x acc) q [].

Definition Enqueue (l : wloc) (cq : ClusterQueue) (h : wheap) : ClusterQueue * wheap :=
  let h' : wheap := <[l := w_pend (h l)]> h in
  (mkCQ (cq_Name cq) (cq_Flavors cq) (cq_Workloads cq) (sortQueue h' (cq_Queue cq ++ [l])), h').

Definition Dequeue (cq : ClusterQueue) : ClusterQueue * option wloc :=
  match cq_Queue cq with
  | [] => (cq, None)
  | l :: q => (mkCQ (cq_Name cq) (cq_Flavors cq) (cq_Workloads cq) q, Some l)
  end.

Record LocalQueue : Type := mkLQ {
  lq_Name : string;
  lq_Namespace : string;
  lq_ClusterQueueName : string;
  lq_Workloads : list wloc
}.

(** ** Specification vocabulary

    [zr] reads a quantity as an integer; [int_rl] says that all of them are
    non-negative integers below 2^53, where [float64] arithmetic is exact. *)

Definition zr (r : ResourceList) (k : string) : Z := z_of_float (rl_get r k).

Definition int_rl (r : ResourceList) : Prop := forall k f, r !! k = Some f -> is_nat53 f.

Definition req_of (w : Workload) (k : string) : Z := zr (TotalRequests w) k.

(** [a] may stand before [b] in the queue. *)
Definition before (h : wheap) (a b : wloc) : Prop := less (h b) (h a) = false.

(** [a] goes before [b]: its priority is higher, or the same and it is older; and
    [a] goes before [b] or is as good. *)
Definition outranks (a b : Workload) : Prop :=
  (w_Priority b < w_Priority a)%Z \/ w_Priority a = w_Priority b /\ (w_CreatedAt a < w_CreatedAt b)%Z.
Definition ranks (a b : Workload) : Prop :=
  (w_Priority b < w_Priority a)%Z \/ w_Priority a = w_Priority b /\ (w_CreatedAt a <= w_CreatedAt b)%Z.

Definition same_rank (a b : Workload) : bool :=
  (w_Priority a =? w_Priority b)%Z && (w_CreatedAt a =? w_CreatedAt b)%Z.

(** Workloads whose requests are exact integers. *)
Definition req_ok (w : Workload) : Prop := int_rl (TotalRequests w).

(** What the admitted workloads of a flavor hold of a resource. *)
Definition holds (fl : string) (w : Workload) : bool :=
  String.eqb (w_Status w) StatusAdmitted && String.eqb (w_FlavorName w) fl.

Definition usage (h : wheap) (ws : list wloc) (fl k : string) : Z :=
  foldr (fun l acc => ((if holds fl (h l) then req_of (h l) k else 0) + acc)%Z) 0%Z ws.

(** The recorded use of a flavor is [u], within its quota. *)
Definition fl_bal (fq : FlavorQuota) (u : string -> Z) : Prop :=
  int_rl (fq_Resources fq) /\
  forall k, rl_get (fq_Used fq) k = f_of_int (u k) /\ (0 <= u k <= zr (fq_Resources fq) k)%Z.

(** The books of one cluster queue balance: the recorded use of a flavor is
    what its admitted workloads hold, and it is within the quota. *)
Record cq_ok (h : wheap) (cq : ClusterQueue) : Prop := {
  co_names : NoDup (map fq_Name (cq_Flavors cq));
  co_bal : Forall (fun fq => fl_bal fq (usage h (cq_Workloads cq) (fq_Name fq))) (cq_Flavors cq);
  co_reqs : Forall (fun l => req_ok (h l)) (cq_Queue cq ++ cq_Workloads cq)
}.

(** ** Lemmas: resource lists *)

Lemma TotalRequests_lookup (w : Workload) (k : string) :
  TotalRequests w !! k = (fun v => f_mul v (f_of_int (w_PodCount w))) <$> w_Resources w !! k.
Proof.
  unfold TotalRequests.
  rewrite (map_fold_pointwise (fun _ v => f_mul v (f_of_int (w_PodCount w)))).
  by destruct (w_Resources w !! k).
Qed.

Lemma Add_get (r other : ResourceList) (k : string) :
  rl_get (Add r other) k =
  match other !! k with Some v => f_add (rl_get r k) v | None => rl_get r k end.
Proof.
  unfold rl_get, Add. rewrite gmap_copy_empty.
  rewrite (map_fold_pointwise (fun o v => f_add (default f_zero o) v)). by destruct (other !! k).
Qed.

Lemma Sub_get (r other : ResourceList) (k : string) :
  rl_get (Sub r other) k =
  match other !! k with Some v => f_sub (rl_get r k) v | None => rl_get r k end.
Proof.
  unfold rl_get, Sub. rewrite gmap_copy_empty.
  rewrite (map_fold_pointwise (fun o v => f_sub (default f_zero o) v)). by destruct (other !! k).
Qed.

Lemma Sub_lookup_is_Some (r other : ResourceList) (k : string) :
  is_Some (r !! k) -> is_Some (Sub r other !! k).
Proof.
  intros Hr. unfold Sub. rewrite gmap_copy_empty.
  rewrite (map_fold_pointwise (fun o v => f_sub (default f_zero o) v)). by destruct (other !! k).
Qed.

Lemma Clone_id (r : ResourceList) : Clone r = r.
Proof. apply gmap_copy_empty. Qed.

Lemma zr_int (r : ResourceList) (k : string) :
  int_rl r -> rl_get r k = f_of_int (zr r k) /\ (0 <= zr r k < 2 ^ 53)%Z.
Proof.
  intros Hr. unfold zr, rl_get. destruct (r !! k) as [f|] eqn:Hk; [by apply (Hr k f)|done].
Qed.

Lemma zr_missing (r : ResourceList) (k : string) : r !! k = None -> zr r k = 0%Z.
Proof. intros H. unfold zr, rl_get. by rewrite H. Qed.

Lemma zr_lookup (r : ResourceList) (k : string) (f : float64) :
  int_rl r -> r !! k = Some f -> f = f_of_int (zr r k).
Proof. intros Hr Hk. destruct (zr_int r k Hr) as [H _]. unfold rl_get in H. by rewrite Hk in H. Qed.

Lemma Fits_spec (r cap : ResourceList) :
  Fits r cap = true <-> forall k v c, r !! k = Some v -> cap !! k = Some c -> f_gt v c = false.
Proof.
  unfold Fits. rewrite gmap_all_spec. split.
  - intros H k v c Hv Hc. specialize (H k v Hv). rewrite Hc in H. by apply negb_true_iff.
  - intros H k v Hv. destruct (cap !! k) as [c|] eqn:Hc; [|done]. by rewrite (H k v c).
Qed.

(** ** Lemmas: one flavor *)

Lemma Available_get (fq : FlavorQuota) (u : string -> Z) (k : string) :
  fl_bal fq u -> rl_get (Available fq) k = f_of_int (zr (fq_Resources fq) k - u k).
Proof.
  intros [Hr Hu]. destruct (zr_int _ k Hr) as [Hrk Hb], (Hu k) as [Huk Hub].
  unfold Available. rewrite Clone_id, Sub_get, Hrk. destruct (fq_Used fq !! k) as [v|] eqn:Hv.
  - assert (Hv' : v = f_of_int (u k)) by (unfold rl_get in Huk; by rewrite Hv in Huk).
    rewrite Hv'. apply f_sub_int; unfold small; lia.
  - assert (H0 : u k = 0%Z).
    { unfold rl_get in Huk. rewrite Hv in Huk. cbn in Huk. rewrite <- f_of_int_0 in Huk.
      symmetry. apply f_of_int_inj; [done|unfold small; lia|done]. }
    by rewrite H0, Z.sub_0_r.
Qed.

(** On exact integers a flavor fits a request when it has every requested
    resource and enough of it is free. *)
Lemma CanFit_spec (fq : FlavorQuota) (u : string -> Z) (req : ResourceList) :
  fl_bal fq u -> int_rl req ->
  CanFit fq req = true <->
  forall k, is_Some (req !! k) ->
    is_Some (fq_Resources fq !! k) /\ (zr req k <= zr (fq_Resources fq) k - u k)%Z.
Proof.
  intros Hb Hreq. unfold CanFit. rewrite andb_true_iff, gmap_all_spec, Fits_spec.
  assert (Hcmp : forall k v c, req !! k = Some v -> Available fq !! k = Some c ->
    f_gt v c = false <-> (zr req k <= zr (fq_Resources fq) k - u k)%Z).
  { intros k v c Hv Hc. pose proof (Available_get fq u k Hb) as Ha. unfold rl_get in Ha. rewrite Hc in Ha.
    cbn in Ha. rewrite Ha, (zr_lookup req k v Hreq Hv).
    destruct Hb as [Hr Hu]. destruct (zr_int _ k Hr) as [_ Hb1], (Hu k) as [_ Hb2], (zr_int _ k Hreq) as [_ Hb3].
    rewrite f_gt_int by (unfold small; lia). rewrite Z.ltb_ge. done. }
  split.
  - intros [H1 H2] k [v Hv]. specialize (H1 k v Hv).
    destruct (fq_Resources fq !! k) as [r|] eqn:Hr; [|done]. split; [done|].
    destruct (Sub_lookup_is_Some (Clone (fq_Resources fq)) (fq_Used fq) k) as [c Hc];
      [rewrite Clone_id, Hr; done|].
    rewrite <- (Hcmp k v c Hv Hc). by eapply H2.
  - intros H. split.
    + intros k v Hv. destruct (H k) as [[r Hr] _]; [by rewrite Hv|]. by rewrite Hr.
    + intros k v c Hv Hc. rewrite (Hcmp k v c Hv Hc). apply H. by rewrite Hv.
Qed.

Lemma Reserve_bal (fq : FlavorQuota) (u : string -> Z) (req : ResourceList) :
  fl_bal fq u -> int_rl req -> CanFit fq req = true ->
  fl_bal (Reserve req fq) (fun k => zr req k + u k)%Z.
Proof.
  intros Hb Hreq Hfit. pose proof (proj1 (CanFit_spec fq u req Hb Hreq) Hfit) as Hf.
  destruct Hb as [Hr Hu]. split; [done|]. intros k. cbn [Reserve fq_Used fq_Resources].
  destruct (Hu k) as [Huk Hub], (zr_int _ k Hr) as [_ Hrb], (zr_int _ k Hreq) as [_ Hqb].
  rewrite Add_get, Huk. destruct (req !! k) as [v|] eqn:Hv.
  - destruct (Hf k) as [_ Hle]; [by rewrite Hv|]. rewrite (zr_lookup req k v Hreq Hv).
    rewrite f_add_int by (unfold small; lia). split; [f_equal; lia|lia].
  - rewrite (zr_missing req k Hv). split; [done|lia].
Qed.

Lemma Release_bal (fq : FlavorQuota) (u : string -> Z) (req : ResourceList) :
  fl_bal fq u -> int_rl req -> (forall k, zr req k <= u k)%Z ->
  fl_bal (Release req fq) (fun k => u k - zr req k)%Z.
Proof.
  intros [Hr Hu] Hreq Hle. split; [done|]. intros k. cbn [Release fq_Used fq_Resources].
  destruct (Hu k) as [Huk Hub], (zr_int _ k Hr) as [_ Hrb], (zr_int _ k Hreq) as [_ Hqb].
  specialize (Hle k). rewrite Sub_get, Huk. destruct (req !! k) as [v|] eqn:Hv.
  - rewrite (zr_lookup req k v Hreq Hv). rewrite f_sub_int by (unfold small; lia). split; [done|lia].
  - rewrite (zr_missing req k Hv), Z.sub_0_r in *. split; [done|lia].
Qed.

Lemma fl_bal_ext (fq : FlavorQuota) (u u' : string -> Z) :
  (forall k, u k = u' k) -> fl_bal fq u -> fl_bal fq u'.
Proof. intros He [Hr Hu]. split; [done|]. intros k. rewrite <- !He. apply Hu. Qed.

(** A flavor that cannot take a request cannot take it after a reservation. *)
Lemma CanFit_mono (fq fq' : FlavorQuota) (u u' : string -> Z) (req : ResourceList) :
  fl_bal fq u -> fl_bal fq' u' -> fq_Resources fq' = fq_Resources fq -> (forall k, u k <= u' k)%Z ->
  int_rl req -> CanFit fq req = false -> CanFit fq' req = false.
Proof.
  intros Hb Hb' He Hle Hreq Hf. destruct (CanFit fq' req) eqn:Hf'; [|done]. rewrite <- Hf. symmetry.
  apply (CanFit_spec fq u req Hb Hreq). intros k Hk.
  destruct (proj1 (CanFit_spec fq' u' req Hb' Hreq) Hf' k Hk) as [H1 H2]. rewrite He in *.
  split; [done|]. specialize (Hle k). lia.
Qed.

(** ** Lemmas: usage *)

Lemma usage_cons (h : wheap) (l : wloc) (ws : list wloc) (fl k : string) :
  usage h (l :: ws) fl k = ((if holds fl (h l) then req_of (h l) k else 0) + usage h ws fl k)%Z.
Proof. done. Qed.

Lemma usage_app (h : wheap) (ws1 ws2 : list wloc) (fl k : string) :
  usage h (ws1 ++ ws2) fl k = (usage h ws1 fl k + usage h ws2 fl k)%Z.
Proof. induction ws1 as [|l ws1 IH]; [done|]. cbn [app]. rewrite !usage_cons, IH. lia. Qed.

Lemma usage_ext (h h' : wheap) (ws : list wloc) (fl k : string) :
  (forall l, l ∈ ws -> h' l = h l) -> usage h' ws fl k = usage h ws fl k.
Proof.
  induction ws as [|l ws IH]; intros H; [done|]. rewrite !usage_cons, IH, H; [done|by left|].
  intros l' Hl'. apply H. by right.
Qed.

Lemma usage_nonneg (h : wheap) (ws : list wloc) (fl k : string) :
  Forall (fun l => req_ok (h l)) ws -> (0 <= usage h ws fl k)%Z.
Proof.
  induction 1 as [|l ws Hl Hws IH]; [done|]. rewrite usage_cons.
  destruct (zr_int _ k Hl) as [_ Hb]. unfold req_of. destruct (holds fl (h l)); lia.
Qed.

Lemma holds_admit (name fl : string) (now : Z) (w : Workload) :
  holds fl (w_admit name now w) = String.eqb name fl.
Proof. done. Qed.

Lemma req_of_admit (name k : string) (now : Z) (w : Workload) :
  req_of (w_admit name now w) k = req_of w k.
Proof. done. Qed.

(** Giving back one admitted workload of the list. *)
Lemma usage_finish (h : wheap) (ws : list wloc) (l : wloc) (now : Z) (fl k : string) :
  NoDup ws -> l ∈ ws ->
  (usage (<[l := w_finish now (h l)]> h) ws fl k =
   usage h ws fl k - (if holds fl (h l) then req_of (h l) k else 0))%Z.
Proof.
  intros Hnd Hin. induction Hnd as [|x ws Hx Hnd IH]; [by apply not_elem_of_nil in Hin|]. rewrite !usage_cons.
  apply elem_of_cons in Hin as [->|Hin].
  - rewrite fn_lookup_insert. rewrite (usage_ext h); [cbn; lia|].
    intros l' Hl'. apply fn_lookup_insert_ne. by intros ->.
  - rewrite IH by done. rewrite fn_lookup_insert_ne by (by intros ->). lia.
Qed.

(** ** Lemmas: the loops over the flavors *)

Lemma assign_first_Some (req : ResourceList) (fqs fqs' : list FlavorQuota) (name : string) :
  assign_first req fqs = Some (name, fqs') ->
  exists pre fq post, fqs = pre ++ fq :: post /\ fqs' = pre ++ Reserve req fq :: post /\
    name = fq_Name fq /\ CanFit fq req = true /\ Forall (fun f => CanFit f req = false) pre.
Proof.
  revert fqs'. induction fqs as [|fq fqs IH]; intros fqs'; cbn; [done|].
  destruct (CanFit fq req) eqn:Hf.
  - intros [= <- <-]. by exists [], fq, fqs.
  - destruct (assign_first req fqs) as [[n r]|]; [|done]. intros [= -> <-].
    destruct (IH r eq_refl) as (pre & fq' & post & -> & -> & -> & H1 & H2).
    exists (fq :: pre), fq', post. split_and!; try done. by constructor.
Qed.

Lemma assign_first_None (req : ResourceList) (fqs : list FlavorQuota) :
  assign_first req fqs = None <-> Forall (fun f => CanFit f req = false) fqs.
Proof.
  induction fqs as [|fq fqs [IH1 IH2]]; cbn; [done|]. split.
  - destruct (CanFit fq req) eqn:Hf; [done|]. constructor; [done|].
    apply IH1. by destruct (assign_first req fqs) as [[n r]|].
  - intros [Hf Hr]%Forall_cons_1. by rewrite Hf, IH2.
Qed.

Lemma release_first_in (name : string) (req : ResourceList) (fqs : list FlavorQuota) :
  NoDup (map fq_Name fqs) ->
  release_first name req fqs =
  map (fun fq => if String.eqb (fq_Name fq) name then Release req fq else fq) fqs.
Proof.
  induction fqs as [|fq fqs IH]; [done|]. cbn. intros [Hn Hnd]%NoDup_cons.
  destruct (String.eqb (fq_Name fq) name) eqn:He; [|by rewrite IH].
  f_equal. apply String.eqb_eq in He. symmetry. transitivity (map id fqs); [|apply map_id]. apply map_ext_in.
  intros f Hf%list_elem_of_In. destruct (String.eqb (fq_Name f) name) eqn:He'; [|done].
  apply String.eqb_eq in He'. destruct Hn. rewrite He, <- He'. by apply list_elem_of_fmap_2.
Qed.

(** ** Lemmas: the books of a cluster queue *)

Lemma bal_reserve (h h' : wheap) (ws : list wloc) (l : wloc) (fqs : list FlavorQuota)
    (fl : string) (req : ResourceList) :
  Forall (fun fq => fl_bal fq (usage h ws (fq_Name fq))) fqs ->
  (forall fq, fq ∈ fqs -> forall k, usage h' (ws ++ [l]) (fq_Name fq) k =
     ((if String.eqb fl (fq_Name fq) then zr req k else 0) + usage h ws (fq_Name fq) k)%Z) ->
  (forall fq, fq ∈ fqs -> fq_Name fq <> fl) ->
  Forall (fun fq => fl_bal fq (usage h' (ws ++ [l]) (fq_Name fq))) fqs.
Proof.
  intros Hb Hu Hne. rewrite Forall_forall in *. intros fq Hfq. eapply fl_bal_ext; [|by apply Hb].
  intros k. rewrite Hu by done. specialize (Hne fq Hfq).
  by rewrite (proj2 (String.eqb_neq _ _)) by congruence.
Qed.

(** Admitting a workload keeps the books. *)
Lemma AssignFlavor_ok (now : Z) (l : wloc) (cq cq' : ClusterQueue) (h h' : wheap) (name : string) :
  cq_ok h cq -> req_ok (h l) -> l ∉ cq_Workloads cq ->
  AssignFlavor now l cq h = ((cq', h'), Some name) -> cq_ok h' cq'.
Proof.
  intros [Hnames Hbal Hreqs] Hreq Hl. unfold AssignFlavor.
  destruct (assign_first _ _) as [[n fqs]|] eqn:Ha; [|done]. intros [= <- <- <-].
  apply assign_first_Some in Ha as (pre & fq & post & Hfl & -> & -> & Hfit & _).
  set (h' := <[l := _]> h).
  assert (Hh' : forall x, req_ok (h x) -> req_ok (h' x)).
  { intros x Hx. unfold h'. destruct (decide (l = x)) as [->|Hne].
    - rewrite fn_lookup_insert. exact Hx.
    - by rewrite fn_lookup_insert_ne. }
  rewrite Hfl in *. rewrite map_app in Hnames. cbn in Hnames.
  assert (Huse : forall fl k, usage h' (cq_Workloads cq ++ [l]) fl k =
    ((if String.eqb (fq_Name fq) fl then zr (TotalRequests (h l)) k else 0) + usage h (cq_Workloads cq) fl k)%Z).
  { intros fl k. rewrite usage_app, usage_cons. cbn [usage foldr].
    rewrite (usage_ext h h' (cq_Workloads cq)).
    - unfold h'. rewrite fn_lookup_insert, holds_admit, req_of_admit. unfold req_of. lia.
    - intros x Hx. unfold h'. apply fn_lookup_insert_ne. by intros ->. }
  pose proof Hnames as (Hn1 & Hn2 & Hn3)%NoDup_app. apply NoDup_cons in Hn3 as [Hn3 Hn4].
  apply Forall_app in Hbal as [Hb1 Hb2]. apply Forall_cons in Hb2 as [Hb2 Hb3].
  constructor; cbn.
  - by rewrite map_app.
  - apply Forall_app. split; [|constructor].
    + eapply bal_reserve; [exact Hb1|intros f _; apply Huse|].
      intros f Hf He. apply (Hn2 (fq_Name fq)); [|by left]. rewrite <- He. by apply list_elem_of_fmap_2.
    + eapply fl_bal_ext; [|by eapply Reserve_bal]. intros k. cbn. rewrite Huse. by rewrite String.eqb_refl.
    + eapply bal_reserve; [exact Hb3|intros f _; apply Huse|].
      intros f Hf He. apply Hn3. rewrite <- He. by apply list_elem_of_fmap_2.
  - rewrite app_assoc. apply Forall_app. split; [|constructor; [by apply Hh'|done]].
    eapply Forall_impl; [exact Hreqs|]. intros x. apply Hh'.
Qed.

(** Finishing an admitted workload keeps the books. *)
Lemma ReleaseWorkload_ok (now : Z) (l : wloc) (cq : ClusterQueue) (h : wheap) :
  cq_ok h cq -> NoDup (cq_Workloads cq) -> l ∈ cq_Workloads cq -> w_Status (h l) = StatusAdmitted ->
  let '(cq', h') := ReleaseWorkload now l cq h in cq_ok h' cq'.
Proof.
  intros [Hnames Hbal Hreqs] Hnd Hl Hst. unfold ReleaseWorkload.
  rewrite release_first_in by done. set (h' := <[l := _]> h).
  assert (Hh' : forall x, req_ok (h x) -> req_ok (h' x)).
  { intros x Hx. unfold h'. destruct (decide (l = x)) as [->|Hne].
    - rewrite fn_lookup_insert. exact Hx.
    - by rewrite fn_lookup_insert_ne. }
  assert (Hreq : req_ok (h l)).
  { apply Forall_app in Hreqs as [_ Hr]. rewrite Forall_forall in Hr. by apply Hr. }
  assert (Huse : forall fl k, usage h' (cq_Workloads cq) fl k =
    (usage h (cq_Workloads cq) fl k - (if String.eqb (w_FlavorName (h l)) fl then req_of (h l) k else 0))%Z).
  { intros fl k. unfold h'. rewrite usage_finish by done. unfold holds. by rewrite Hst. }
  assert (Hpos : forall fl k, (0 <= usage h' (cq_Workloads cq) fl k)%Z).
  { intros fl k. apply usage_nonneg. apply Forall_app in Hreqs as [_ Hr].
    eapply Forall_impl; [exact Hr|]. intros x. apply Hh'. }
  constructor; cbn.
  - rewrite map_map. erewrite map_ext; [exact Hnames|]. intros fq. by destruct (String.eqb _ _).
  - apply Forall_map. eapply Forall_impl; [exact Hbal|]. intros fq Hb. cbn.
    destruct (String.eqb (fq_Name fq) (w_FlavorName (h l))) eqn:He.
    + apply String.eqb_eq in He. cbn.
      assert (Hu : forall k, usage h' (cq_Workloads cq) (fq_Name fq) k =
        (usage h (cq_Workloads cq) (fq_Name fq) k - req_of (h l) k)%Z).
      { intros k. rewrite Huse, He. by rewrite String.eqb_refl. }
      eapply fl_bal_ext; [|eapply Release_bal; [exact Hb|exact Hreq|]]; [by intros k; rewrite Hu|].
      intros k. specialize (Hpos (fq_Name fq) k). rewrite Hu in Hpos. unfold req_of in Hpos. lia.
    + eapply fl_bal_ext; [|exact Hb]. intros k. rewrite Huse. apply String.eqb_neq in He.
      rewrite (proj2 (String.eqb_neq _ _)) by congruence. lia.
  - eapply Forall_impl; [exact Hreqs|]. intros x. apply Hh'.
Qed.

(** ** Lemmas: the order of the queue *)

Lemma less_false (a b : Workload) :
  less a b = false <->
  (w_Priority a < w_Priority b)%Z \/
  (w_Priority a = w_Priority b /\ (w_CreatedAt b <= w_CreatedAt a)%Z).
Proof. unfold less. destruct (w_Priority a =? w_Priority b)%Z eqn:E; cbn [negb]; lia. Qed.

Lemma less_true (a b : Workload) :
  less a b = true <->
  (w_Priority b < w_Priority a)%Z \/
  (w_Priority a = w_Priority b /\ (w_CreatedAt a < w_CreatedAt b)%Z).
Proof. unfold less. destruct (w_Priority a =? w_Priority b)%Z eqn:E; cbn [negb]; lia. Qed.

Lemma before_ranks (h : wheap) (a b : wloc) : before h a b <-> ranks (h a) (h b).
Proof. unfold before, ranks. rewrite less_false. lia. Qed.

#[global] Instance before_trans (h : wheap) : Transitive (before h).
Proof. intros a b c. unfold before. rewrite !less_false. lia. Qed.

Lemma insert_stable_perm (h : wheap) (x : wloc) (q : list wloc) : insert_stable h x q ≡ₚ x :: q.
Proof.
  induction q as [|y q IH]; cbn; [done|]. destruct (less (h x) (h y)); [done|].
  rewrite IH. apply perm_swap.
Qed.

Lemma insert_stable_sorted (h : wheap) (x : wloc) (q : list wloc) :
  StronglySorted (before h) q -> StronglySorted (before h) (insert_stable h x q).
Proof.
  induction 1 as [|y q Hs IH Hall]; cbn; [by repeat constructor|].
  destruct (less (h x) (h y)) eqn:Hxy.
  - apply less_true in Hxy. assert (Hb : before h x y) by (unfold before; apply less_false; lia).
    constructor; [by constructor|]. constructor; [done|].
    eapply Forall_impl; [exact Hall|]. intros z Hz. by transitivity y.
  - constructor; [done|]. rewrite insert_stable_perm. by constructor.
Qed.

(** An element that is compared with the last first. *)
Lemma insert_stable_snoc (h : wheap) (x y : wloc) (q : list wloc) :
  StronglySorted (before h) (q ++ [y]) ->
  insert_stable h x (q ++ [y]) = if less (h x) (h y) then insert_stable h x q ++ [y] else q ++ [y; x].
Proof.
  intros Hs. destruct (less (h x) (h y)) eqn:Hxy.
  - clear Hs. induction q as [|z q IH]; cbn; [by rewrite Hxy|]. rewrite IH. by destruct (less (h x) (h z)).
  - induction q as [|z q IH]; cbn in *; [by rewrite Hxy|]. apply StronglySorted_inv in Hs as [Hs Hz].
    rewrite IH by done. apply Forall_app in Hz as [_ Hz]. apply Forall_cons in Hz as [Hz _].
    assert (Hb : less (h x) (h z) = false) by by apply (before_trans h z y x). by rewrite Hb.
Qed.

(** Elements of one rank keep their order. *)
Lemma insert_stable_filter (h : wheap) (x : wloc) (q : list wloc) (w : Workload) :
  StronglySorted (before h) q ->
  List.filter (fun l => same_rank (h l) w) (insert_stable h x q) =
  List.filter (fun l => same_rank (h l) w) (q ++ [x]).
Proof.
  induction 1 as [|y q Hs IH Hall]; [done|]. cbn [insert_stable].
  destruct (less (h x) (h y)) eqn:Hxy.
  - rewrite List.filter_app. cbn [List.filter app].
    destruct (same_rank (h x) w) eqn:Hx; [|by rewrite app_nil_r].
    assert (Hno : List.filter (fun l => same_rank (h l) w) (y :: q) = []).
    { assert (Hf : Forall (fun z => same_rank (h z) w = false) (y :: q)).
      { unfold same_rank in *. apply less_true in Hxy. constructor; [lia|].
        eapply Forall_impl; [exact Hall|]. intros z Hz. unfold before in Hz.
        rewrite less_false in Hz. lia. }
      clear -Hf. induction Hf as [|z l Hz Hl IH]; [done|]. cbn. by rewrite Hz. }
    cbn [List.filter] in Hno. by rewrite Hno.
  - cbn [List.filter app]. rewrite IH. by destruct (same_rank (h y) w).
Qed.

Lemma sortQueue_spec (h : wheap) (q : list wloc) :
  sortQueue h q ≡ₚ q /\ StronglySorted (before h) (sortQueue h q) /\
  forall w, List.filter (fun l => same_rank (h l) w) (sortQueue h q) =
            List.filter (fun l => same_rank (h l) w) q.
Proof.
  unfold sortQueue.
  assert (H : forall acc, StronglySorted (before h) acc ->
    let r := fold_left (fun acc x => insert_stable h x acc) q acc in
    r ≡ₚ acc ++ q /\ StronglySorted (before h) r /\
    forall w, List.filter (fun l => same_rank (h l) w) r =
              List.filter (fun l => same_rank (h l) w) (acc ++ q)).
  { induction q as [|x q IH]; intros acc Hs; cbn; [by rewrite app_nil_r|].
    destruct (IH (insert_stable h x acc)) as (H1 & H2 & H3); [by apply insert_stable_sorted|].
    split_and!; [|done|].
    - rewrite H1, insert_stable_perm. apply Permutation_middle.
    - intros w. rewrite H3, List.filter_app, insert_stable_filter by done.
      by rewrite <- List.filter_app, <- app_assoc. }
  apply (H []). constructor.
Qed.

(** A sorted queue stays as it is. *)
Lemma sortQueue_sorted (h : wheap) (q : list wloc) : StronglySorted (before h) q -> sortQueue h q = q.
Proof.
  unfold sortQueue. assert (H : forall acc, StronglySorted (before h) (acc ++ q) ->
    fold_left (fun acc x => insert_stable h x acc) q acc = acc ++ q); [|by apply (H [])].
  induction q as [|x q IH]; intros acc Hs; cbn; [by rewrite app_nil_r|].
  assert (Hx : insert_stable h x acc = acc ++ [x]).
  { clear IH. induction acc as [|y acc IH]; [done|]. cbn in *. apply StronglySorted_inv in Hs as [Hs Hy].
    apply Forall_app in Hy as [_ Hy]. apply Forall_cons in Hy as [Hy _]. unfold before in Hy. by rewrite Hy, IH. }
  rewrite Hx, IH; by rewrite <- app_assoc.
Qed.

Lemma sortQueue_app (h : wheap) (q1 q2 : list wloc) :
  sortQueue h (q1 ++ q2) = fold_left (fun acc x => insert_stable h x acc) q2 (sortQueue h q1).
Proof. unfold sortQueue. by rewrite fold_left_app. Qed.

(** Where an element goes. *)
Lemma insert_stable_split (h : wheap) (x : wloc) (q : list wloc) :
  StronglySorted (before h) q ->
  exists pre post, q = pre ++ post /\ insert_stable h x q = pre ++ x :: post /\
    Forall (fun y => ranks (h y) (h x)) pre /\ Forall (fun y => outranks (h x) (h y)) post.
Proof.
  induction 1 as [|y q Hs IH Hall]; [by exists [], []|]. cbn [insert_stable]. destruct (less (h x) (h y)) eqn:Hxy.
  - exists [], (y :: q). split_and!; [done|done|done|]. apply less_true in Hxy. unfold outranks. constructor; [lia|].
    eapply Forall_impl; [exact Hall|]. intros z Hz%before_ranks. unfold ranks in Hz. lia.
  - destruct IH as (pre & post & -> & -> & H1 & H2). exists (y :: pre), post. split_and!; [done|done| |done].
    constructor; [by apply before_ranks|done].
Qed.

Lemma sortQueue_nodup (h : wheap) (q : list wloc) : NoDup q -> NoDup (sortQueue h q).
Proof. intros Hq. destruct (sortQueue_spec h q) as (Hp & _). by rewrite Hp. Qed.

(** ** What the calls leave alone *)

(** The fields of a workload that no scheduling call writes. *)
Definition core (w : Workload) : string * string * string * ResourceList * Z * Z * Z :=
  (w_Name w, w_Namespace w, w_QueueName w, w_Resources w, w_PodCount w, w_Priority w, w_CreatedAt w).

(** Workloads that differ in what scheduling writes, and heaps of such. *)
Definition alike (w w' : Workload) : Prop := core w = core w'.

Definition same_core (h h' : wheap) : Prop := forall x, alike (h' x) (h x).

#[export] Instance alike_equiv : Equivalence alike.
Proof. split; unfold alike; [done|by intros w w' ->|by intros w1 w2 w3 -> ->]. Qed.

#[export] Instance same_core_equiv : Equivalence same_core.
Proof.
  split; [by intros h x|by intros h h' H x; symmetry|].
  intros h1 h2 h3 H1 H2 x. by rewrite (H2 x), (H1 x).
Qed.

#[export] Instance TotalRequests_alike : Proper (alike ==> eq) TotalRequests.
Proof. unfold alike, core, TotalRequests. intros w w' [= _ _ _ -> -> _ _]. done. Qed.

#[export] Instance less_alike : Proper (alike ==> alike ==> eq) less.
Proof. unfold alike, core, less. intros a a' [= _ _ _ _ _ -> ->] b b' [= _ _ _ _ _ -> ->]. done. Qed.

#[export] Instance req_ok_alike : Proper (alike ==> iff) req_ok.
Proof. intros w w' Hw. unfold req_ok. by rewrite Hw. Qed.

#[export] Instance before_same_core : Proper (same_core ==> eq ==> eq ==> iff) before.
Proof. intros h h' H a ? <- b ? <-. unfold before. by rewrite (H a), (H b). Qed.

Lemma same_core_insert (h : wheap) (l : wloc) (w : Workload) :
  core w = core (h l) -> same_core h (<[l := w]> h).
Proof.
  intros Hw x. destruct (decide (l = x)) as [->|Hne]; [by rewrite fn_lookup_insert|].
  by rewrite fn_lookup_insert_ne.
Qed.

Lemma req_ok_core (h h' : wheap) (x : wloc) : same_core h h' -> req_ok (h x) -> req_ok (h' x).
Proof. intros H. by rewrite (H x). Qed.

#[export] Instance sorted_same_core : Proper (same_core ==> eq ==> iff) (fun h => StronglySorted (before h)).
Proof.
  assert (Himp : forall h h' q, same_core h h' -> StronglySorted (before h) q -> StronglySorted (before h') q).
  { intros h h' q H. induction 1 as [|x q Hs IH Hall]; constructor; [done|].
    eapply Forall_impl; [exact Hall|]. intros y. by rewrite H. }
  intros h h' H q ? <-. split; [by apply Himp|]. symmetry in H. by apply Himp.
Qed.

Lemma sorted_core (h h' : wheap) (q : list wloc) :
  same_core h h' -> StronglySorted (before h) q -> StronglySorted (before h') q.
Proof. intros H. apply (sorted_same_core h h' H q q eq_refl). Qed.

(** The books do not depend on workloads outside the queue. *)
Lemma cq_ok_frame (h h' : wheap) (cq : ClusterQueue) :
  same_core h h' -> (forall x, x ∈ cq_Workloads cq -> h' x = h x) -> cq_ok h cq -> cq_ok h' cq.
Proof.
  intros Hc Hf [Hn Hb Hr]. constructor; [done| |].
  - eapply Forall_impl; [exact Hb|]. intros fq Hfq. eapply fl_bal_ext; [|exact Hfq].
    intros k. symmetry. by apply usage_ext.
  - eapply Forall_impl; [exact Hr|]. intros x. by apply req_ok_core.
Qed.

Lemma Enqueue_ok (l : wloc) (cq : ClusterQueue) (h : wheap) :
  cq_ok h cq -> req_ok (h l) -> l ∉ cq_Workloads cq ->
  let '(cq', h') := Enqueue l cq h in cq_ok h' cq'.
Proof.
  intros Hok Hreq Hl. cbn. set (h' := <[l := _]> h).
  assert (Hc : same_core h h') by by apply same_core_insert.
  assert (Hok' : cq_ok h' cq).
  { apply (cq_ok_frame h); [done| |done]. intros x Hx. apply fn_lookup_insert_ne. by intros ->. }
  destruct Hok' as [Hn Hb Hr]. constructor; cbn; [done|done|].
  destruct (sortQueue_spec h' (cq_Queue cq ++ [l])) as (Hp & _). rewrite Hp.
  apply Forall_app in Hr as [Hq Hw]. rewrite !Forall_app. split_and!; [done| |done].
  constructor; [|done]. by apply (req_ok_core h).
Qed.

(** Rejected requests stay rejected when another workload is admitted. *)
Lemma AssignFlavor_grow (now : Z) (l : wloc) (cq cq' : ClusterQueue) (h h' : wheap) (o : option string)
    (req : ResourceList) :
  cq_ok h cq -> req_ok (h l) -> int_rl req ->
  AssignFlavor now l cq h = ((cq', h'), o) ->
  Forall (fun fq => CanFit fq req = false) (cq_Flavors cq) ->
  Forall (fun fq => CanFit fq req = false) (cq_Flavors cq').
Proof.
  intros [_ Hbal _] Hreq Hint. unfold AssignFlavor.
  destruct (assign_first _ _) as [[n fqs]|] eqn:Ha; [|by intros [= <- <- <-]]. intros [= <- <- <-].
  apply assign_first_Some in Ha as (pre & fq & post & Hfl & -> & -> & Hfit & _). rewrite Hfl in *. cbn.
  apply Forall_app in Hbal as [_ Hb]. apply Forall_cons in Hb as [Hb _].
  intros [H1 H2]%Forall_app. apply Forall_cons in H2 as [H2 H3].
  apply Forall_app. split; [done|]. constructor; [|done].
  eapply CanFit_mono; [exact Hb|by eapply Reserve_bal|done| |done|done].
  intros k. cbn. destruct (zr_int _ k Hreq). lia.
Qed.

(** ** Properties *)

(** Enqueueing keeps the pending queue in order.  The new queue holds the
    old one and the workload, higher priorities stand before lower ones and
    among equal priorities older workloads before younger ones, and workloads
    of equal priority and age keep their order. *)
Theorem Enqueue_sorted (l : wloc) (cq : ClusterQueue) (h : wheap) :
  let '(cq', h') := Enqueue l cq h in
  cq_Queue cq' ≡ₚ cq_Queue cq ++ [l] /\ StronglySorted (before h') (cq_Queue cq') /\
  (forall w, List.filter (fun x => same_rank (h' x) w) (cq_Queue cq') =
             List.filter (fun x => same_rank (h' x) w) (cq_Queue cq ++ [l])) /\
  w_Status (h' l) = StatusPending.
Proof.
  cbn. destruct (sortQueue_spec (<[l := w_pend (h l)]> h) (cq_Queue cq ++ [l])) as (H1 & H2 & H3).
  split_and!; [exact H1|exact H2|exact H3|by rewrite fn_lookup_insert].
Qed.

(** [AssignFlavor] takes the first flavor that fits.  On success the flavors
    before the chosen one do not fit, the request is added to the chosen one's
    use only, and the workload is recorded as admitted; on failure no flavor
    fits and nothing changes. *)
Theorem AssignFlavor_first_fit (now : Z) (l : wloc) (cq : ClusterQueue) (h : wheap) :
  let req := TotalRequests (h l) in
  match AssignFlavor now l cq h with
  | ((cq', h'), Some name) =>
      exists pre fq post, cq_Flavors cq = pre ++ fq :: post /\ name = fq_Name fq /\
        Forall (fun f => CanFit f req = false) pre /\ CanFit fq req = true /\
        cq_Flavors cq' = pre ++ Reserve req fq :: post /\
        cq_Workloads cq' = cq_Workloads cq ++ [l] /\ cq_Queue cq' = cq_Queue cq /\
        h' = <[l := w_admit name now (h l)]> h
  | ((cq', h'), None) =>
      cq' = cq /\ h' = h /\ Forall (fun f => CanFit f req = false) (cq_Flavors cq)
  end.
Proof.
  cbn. unfold AssignFlavor. destruct (assign_first _ _) as [[name fqs]|] eqn:Ha.
  - apply assign_first_Some in Ha as (pre & fq & post & H1 & -> & -> & H2 & H3).
    exists pre, fq, post. by split_and!.
  - apply assign_first_None in Ha. done.
Qed.

(** A negative request always fits and enlarges the quota: after it a request
    of twice the capacity is admitted. *)
Example negative_request_inflates_quota :
  let fq := mkFlavor "std" {[ "cpu" := f_of_int 4 ]} ∅ in
  let req (n : Z) : ResourceList := {[ "cpu" := f_of_int n ]} in
  CanFit fq (req 8%Z) = false /\ CanFit fq (req (-4)%Z) = true /\
  CanFit (Reserve (req (-4)%Z) fq) (req 8%Z) = true.
Proof. by vm_compute. Qed.
