(* ===== verification/Scheduler.v ===== *)
(** * The scheduler: mini-kueue/pkg/scheduler/scheduler.go

    Routing of workloads through local queues to cluster queues, the
    scheduling pass, and the release of finished workloads. *)

From S2P Require Import Prelude.
From S2P Require Import Float64.
From S2P Require Import KueueTypes.
Open Scope go_scope.

Record Scheduler : Type := mkScheduler {
  sc_clusterQueues : gmap string ClusterQueue;
  sc_localQueues : gmap string LocalQueue;
  sc_heap : wheap
}.

Inductive SchedErr : Type :=
| LocalQueueNotFound (key : string)
| ClusterQueueNotFound (name : string)
| WorkloadNotFound (name cq : string).

Definition New (h : wheap) : Scheduler := mkScheduler ∅ ∅ h.

Definition AddClusterQueue (cq : ClusterQueue) (s : Scheduler) : Scheduler :=
  mkScheduler (<[cq_Name cq := cq]> (sc_clusterQueues s)) (sc_localQueues s) (sc_heap s).

Definition AddLocalQueue (lq : LocalQueue) (s : Scheduler) : Scheduler :=
  mkScheduler (sc_clusterQueues s)
    (<[(lq_Namespace lq +:+ "/" +:+ lq_Name lq) := lq]> (sc_localQueues s)) (sc_heap s).

(** The local queue and the cluster queue a key leads to. *)
Definition route (key : string) (s : Scheduler) : res SchedErr (LocalQueue * ClusterQueue) :=
  match sc_localQueues s !! key with
  | None => Err (LocalQueueNotFound key)
  | Some lq =>
      match sc_clusterQueues s !! lq_ClusterQueueName lq with
      | None => Err (ClusterQueueNotFound (lq_ClusterQueueName lq))
      | Some cq => Ok (lq, cq)
      end
  end.

Definition Submit (l : wloc) : GoM Scheduler SchedErr unit := fun s =>
  let key := w_Namespace (sc_heap s l) +:+ "/" +:+ w_QueueName (sc_heap s l) in
  match route key s with
  | Ok (lq, cq) =>
      let '(cq', h') := Enqueue l cq (sc_heap s) in
      let lq' := mkLQ (lq_Name lq) (lq_Namespace lq) (lq_ClusterQueueName lq) (lq_Workloads lq ++ [l]) in
      (mkScheduler (<[lq_ClusterQueueName lq := cq']> (sc_clusterQueues s))
                   (<[key := lq']> (sc_localQueues s)) h', Ok tt)
  | Err e => (s, Err e)
  | Panic => (s, Panic)
  end.

(** The inner loop of a pass, until [Dequeue] returns nil: the workloads to
    retry and the admitted ones. *)
Fixpoint drain (fuel : nat) (now : Z) (cq : ClusterQueue) (h : wheap) (toRetry admitted : list wloc) :
    option (ClusterQueue * wheap * list wloc * list wloc) :=
  match fuel with
  | 0 => None
  | S fuel' =>
      match Dequeue cq with
      | (cq1, None) => Some (cq1, h, toRetry, admitted)
      | (cq1, Some w) =>
          match AssignFlavor now w cq1 h with
          | ((cq2, h2), None) => drain fuel' now cq2 h2 (toRetry ++ [w]) admitted
          | ((cq2, h2), Some _) => drain fuel' now cq2 h2 toRetry (admitted ++ [w])
          end
      end
  end.

Fixpoint enqueue_all (ws : list wloc) (cq : ClusterQueue) (h : wheap) : ClusterQueue * wheap :=
  match ws with
  | [] => (cq, h)
  | w :: ws' => let '(cq', h') := Enqueue w cq h in enqueue_all ws' cq' h'
  end.

(** The body of the loop over the cluster queues. *)
Definition schedule_cq (fuel : nat) (now : Z) (cq : ClusterQueue) (h : wheap) (admitted : list wloc) :
    option (ClusterQueue * wheap * list wloc) :=
  match drain fuel now cq h [] admitted with
  | None => None
  | Some (cq1, h1, toRetry, admitted') =>
      let '(cq2, h2) := enqueue_all toRetry cq1 h1 in Some (cq2, h2, admitted')
  end.

(** [order] is the order in which the range over the map visits the queues. *)
Fixpoint schedule_all (fuel : nat) (now : Z) (order : list string) (s : Scheduler) (admitted : list wloc) :
    option (Scheduler * list wloc) :=
  match order with
  | [] => Some (s, admitted)
  | name :: order' =>
      match sc_clusterQueues s !! name with
      | None => schedule_all fuel now order' s admitted
      | Some cq =>
          match schedule_cq fuel now cq (sc_heap s) admitted with
          | None => None
          | Some (cq', h', admitted') =>
              schedule_all fuel now order'
                (mkScheduler (<[name := cq']> (sc_clusterQueues s)) (sc_localQueues s) h') admitted'
          end
      end
  end.

Definition Schedule (fuel : nat) (now : Z) (order : list string) (s : Scheduler) :
    option (Scheduler * list wloc) :=
  schedule_all fuel now order s [].

Definition put_cq (name : string) (r : ClusterQueue * wheap) (s : Scheduler) : Scheduler :=
  mkScheduler (<[name := r.1]> (sc_clusterQueues s)) (sc_localQueues s) r.2.

(** The first workload of the cluster queue with that name and namespace. *)
Definition find_workload (h : wheap) (namespace name : string) (ws : list wloc) : option wloc :=
  find (fun l => String.eqb (w_Name (h l)) name && String.eqb (w_Namespace (h l)) namespace) ws.

Definition FinishByName (now : Z) (namespace queueName workloadName : string) :
    GoM Scheduler SchedErr unit := fun s =>
  match route (namespace +:+ "/" +:+ queueName) s with
  | Ok (lq, cq) =>
      match find_workload (sc_heap s) namespace workloadName (cq_Workloads cq) with
      | Some l => (put_cq (lq_ClusterQueueName lq) (ReleaseWorkload now l cq (sc_heap s)) s, Ok tt)
      | None => (s, Err (WorkloadNotFound workloadName (cq_Name cq)))
      end
  | Err e => (s, Err e)
  | Panic => (s, Panic)
  end.

Definition Finish (now : Z) (l : wloc) : GoM Scheduler SchedErr unit := fun s =>
  let w := sc_heap s l in
  match route (w_Namespace w +:+ "/" +:+ w_QueueName w) s with
  | Ok (lq, cq) =>
      (put_cq (lq_ClusterQueueName lq) (ReleaseWorkload now l cq (sc_heap s)) s, Ok tt)
  | Err e => (s, Err e)
  | Panic => (s, Panic)
  end.

Definition GetClusterQueue (name : string) (s : Scheduler) : option ClusterQueue :=
  sc_clusterQueues s !! name.

(** ** One pass over one cluster queue *)

(** Parts of a sorted queue are sorted. *)
Lemma sorted_sublist (h : wheap) (l q : list wloc) :
  l `sublist_of` q -> StronglySorted (before h) q -> StronglySorted (before h) l.
Proof.
  induction 1 as [|x l1 l2 Hsub IH|x l1 l2 Hsub IH]; [done| |]; intros [Hs Hall]%StronglySorted_inv; [|by apply IH].
  constructor; [by apply IH|]. rewrite Forall_forall in *. intros y Hy. apply Hall. by eapply elem_of_sublist.
Qed.

Lemma sorted_app_l (h : wheap) (q1 q2 : list wloc) : StronglySorted (before h) (q1 ++ q2) -> StronglySorted (before h) q1.
Proof. apply sorted_sublist. apply sublist_inserts_r. reflexivity. Qed.

(** Any two elements of a sorted queue stand in the order of their ranks. *)
Lemma sorted_ranks (h : wheap) (q : list wloc) (i j : nat) (a b : wloc) :
  StronglySorted (before h) q -> i < j -> q !! i = Some a -> q !! j = Some b -> ranks (h a) (h b).
Proof.
  intros Hs. revert i j. induction Hs as [|x q Hs IH Hall]; intros i j Hij Hi Hj; [done|].
  destruct j as [|j]; [lia|]. cbn in Hj. destruct i as [|i]; [|apply (IH i j); [lia|done|done]].
  cbn in Hi. injection Hi as <-. rewrite Forall_forall in Hall. apply before_ranks, Hall. by eapply list_elem_of_lookup_2.
Qed.

(** What the inner loop achieves: the queue is emptied into the admitted
    workloads [new] and the rejected ones [rest], both in queue order; the
    books balance; every rejected workload fits no flavor, even at the end. *)
Record drained (cq : ClusterQueue) (h : wheap) (cq' : ClusterQueue) (h' : wheap)
    (new rest : list wloc) : Prop := {
  dr_ok : cq_ok h' cq';
  dr_queue : cq_Queue cq' = [];
  dr_name : cq_Name cq' = cq_Name cq;
  dr_ws : cq_Workloads cq' = cq_Workloads cq ++ new;
  dr_perm : cq_Queue cq ≡ₚ new ++ rest;
  dr_new : new `sublist_of` cq_Queue cq;
  dr_rest : rest `sublist_of` cq_Queue cq;
  dr_core : same_core h h';
  dr_frame : forall x, x ∉ new -> h' x = h x;
  dr_status : Forall (fun x => w_Status (h' x) = StatusAdmitted) new;
  dr_max : Forall (fun l => Forall (fun fq => CanFit fq (TotalRequests (h l)) = false) (cq_Flavors cq')) rest;
  dr_grow : forall req, int_rl req ->
    Forall (fun fq => CanFit fq req = false) (cq_Flavors cq) ->
    Forall (fun fq => CanFit fq req = false) (cq_Flavors cq')
}.

Lemma dequeue_ok (h : wheap) (cq : ClusterQueue) (l : wloc) (q : list wloc) :
  cq_ok h cq -> cq_Queue cq = l :: q ->
  cq_ok h (mkCQ (cq_Name cq) (cq_Flavors cq) (cq_Workloads cq) q) /\ req_ok (h l).
Proof.
  intros [Hn Hb Hr] Hq. rewrite Hq in Hr. cbn in Hr. apply Forall_cons in Hr as [Hl Hr]. by split.
Qed.

(** One admission followed by the rest of the loop. *)
Lemma drained_admit (now : Z) (l : wloc) (q : list wloc) (cq cq2 cq' : ClusterQueue) (h h2 h' : wheap)
    (name : string) (new rest : list wloc) :
  let cq1 := mkCQ (cq_Name cq) (cq_Flavors cq) (cq_Workloads cq) q in
  cq_Queue cq = l :: q -> cq_ok h cq1 -> req_ok (h l) -> NoDup (l :: q ++ cq_Workloads cq) ->
  AssignFlavor now l cq1 h = ((cq2, h2), Some name) ->
  drained cq2 h2 cq' h' new rest -> drained cq h cq' h' (l :: new) rest.
Proof.
  intros cq1 Hq Hok Hreq Hnd Ha Hd.
  pose proof (fun req => AssignFlavor_grow now l cq1 cq2 h h2 (Some name) req Hok Hreq) as Hgrow.
  pose proof (AssignFlavor_first_fit now l cq1 h) as Hff. cbn in Hff. rewrite Ha in Hff.
  destruct Hff as (pre & fq & post & _ & _ & _ & _ & _ & Hws & Hq2 & Hh2). cbn in Hws, Hq2.
  assert (Hc : same_core h h2) by (subst h2; by apply same_core_insert).
  assert (Hl : l ∉ q) by (apply NoDup_cons in Hnd as [Hl _]; intros Hin; apply Hl, elem_of_app; by left).
  assert (Hnl : l ∉ new).
  { intros Hin. apply Hl. rewrite <- Hq2. eapply elem_of_sublist; [exact Hin|apply Hd]. }
  destruct Hd. constructor; try done.
  - etransitivity; [exact dr_name0|].
    unfold AssignFlavor in Ha. destruct (assign_first _ _) as [[n f]|]; [|done]. by injection Ha as <- _ _.
  - by rewrite dr_ws0, Hws, <- app_assoc.
  - rewrite Hq, <- Hq2, dr_perm0. done.
  - rewrite Hq, <- Hq2. by constructor.
  - rewrite Hq, <- Hq2. by constructor.
  - by etrans.
  - intros x [Hx1 Hx2]%not_elem_of_cons. rewrite dr_frame0 by done. subst h2.
    by rewrite fn_lookup_insert_ne.
  - constructor; [|done]. rewrite dr_frame0 by done. subst h2. by rewrite fn_lookup_insert.
  - eapply Forall_impl; [exact dr_max0|]. intros x Hx. cbn in Hx. by rewrite (TotalRequests_alike _ _ (Hc x)) in Hx.
  - intros req Hint Hf. apply dr_grow0; [done|]. by apply (Hgrow req Hint Ha).
Qed.

Lemma drain_spec (fuel : nat) (now : Z) (cq : ClusterQueue) (h : wheap) (toRetry admitted : list wloc) :
  cq_ok h cq -> NoDup (cq_Queue cq ++ cq_Workloads cq) -> length (cq_Queue cq) < fuel ->
  exists cq' h' new rest,
    drain fuel now cq h toRetry admitted = Some (cq', h', toRetry ++ rest, admitted ++ new) /\
    drained cq h cq' h' new rest.
Proof.
  revert cq h toRetry admitted. induction fuel as [|fuel IH]; intros cq h toRetry admitted Hok Hnd Hf; [lia|].
  cbn. unfold Dequeue. destruct (cq_Queue cq) as [|l q] eqn:Hq.
  { exists cq, h, [], []. rewrite !app_nil_r. split; [done|]. by constructor; rewrite ?app_nil_r, ?Hq. }
  destruct (dequeue_ok h cq l q Hok Hq) as [Hok1 Hreq]. cbn in Hf, Hnd.
  pose proof Hnd as [Hl Hnd1]%NoDup_cons.
  destruct (AssignFlavor _ _ _ _) as [[cq2 h2] [name|]] eqn:Ha.
  - pose proof (AssignFlavor_first_fit now l (mkCQ (cq_Name cq) (cq_Flavors cq) (cq_Workloads cq) q) h) as Hff.
    cbn in Hff. rewrite Ha in Hff.
    destruct Hff as (pre & fq & post & _ & _ & _ & _ & _ & Hws & Hq2 & _). cbn in Hws, Hq2.
    destruct (IH cq2 h2 toRetry (admitted ++ [l])) as (cq' & h' & new & rest & Hdr & Hd).
    + eapply AssignFlavor_ok; [exact Hok1|done| |exact Ha]. cbn. intros Hin. apply Hl, elem_of_app. by right.
    + rewrite Hws, Hq2, app_assoc, (Permutation_app_comm _ [l]). by cbn.
    + rewrite Hq2. lia.
    + exists cq', h', (l :: new), rest. rewrite Hdr, <- app_assoc. split; [done|].
      by eapply (drained_admit now l q cq cq2).
  - unfold AssignFlavor in Ha. destruct (assign_first _ _) as [[n f]|] eqn:Haf; [done|].
    injection Ha as <- <-. apply assign_first_None in Haf. cbn in Haf.
    destruct (IH (mkCQ (cq_Name cq) (cq_Flavors cq) (cq_Workloads cq) q) h (toRetry ++ [l]) admitted Hok1)
      as (cq' & h' & new & rest & Hdr & Hd); [done|cbn; lia|].
    exists cq', h', new, (l :: rest). rewrite Hdr, <- app_assoc. split; [done|].
    destruct Hd. constructor; try done; cbn in *.
    + rewrite Hq, dr_perm0. apply Permutation_middle.
    + rewrite Hq. by constructor.
    + rewrite Hq. by constructor.
    + constructor; [|done]. by apply dr_grow0.
Qed.

(** Re-queueing the rejected workloads. *)
Lemma enqueue_all_spec (ws : list wloc) (cq : ClusterQueue) (h : wheap) :
  cq_ok h cq -> Forall (fun l => req_ok (h l)) ws -> (forall l, l ∈ ws -> l ∉ cq_Workloads cq) ->
  let '(cq', h') := enqueue_all ws cq h in
  cq_ok h' cq' /\ cq_Flavors cq' = cq_Flavors cq /\ cq_Workloads cq' = cq_Workloads cq /\
  cq_Name cq' = cq_Name cq /\
  cq_Queue cq' ≡ₚ cq_Queue cq ++ ws /\ same_core h h' /\ (forall x, x ∉ ws -> h' x = h x) /\
  (StronglySorted (before h) (cq_Queue cq) -> StronglySorted (before h') (cq_Queue cq')) /\
  (StronglySorted (before h) (cq_Queue cq ++ ws) -> cq_Queue cq' = cq_Queue cq ++ ws).
Proof.
  revert cq h. induction ws as [|l ws IH]; intros cq h Hok Hreq Hdis; cbn [enqueue_all].
  { by rewrite app_nil_r. }
  apply Forall_cons in Hreq as [Hl Hreq].
  pose proof (Enqueue_ok l cq h Hok Hl (Hdis l (list_elem_of_here _ _))) as Hok1.
  destruct (sortQueue_spec (<[l := w_pend (h l)]> h) (cq_Queue cq ++ [l])) as (Hp & Hs & _).
  unfold Enqueue in *. set (h1 := <[l := _]> h) in *. set (cq1 := mkCQ _ _ _ _) in *.
  assert (Hc : same_core h h1) by by apply same_core_insert.
  specialize (IH cq1 h1 Hok1). destruct (enqueue_all ws cq1 h1) as [cq' h'].
  destruct IH as (H1 & H2 & H3 & H4 & H5 & H6 & H7 & H8 & H9).
  - eapply Forall_impl; [exact Hreq|]. intros x. by apply req_ok_core.
  - intros x Hx. apply Hdis. by right.
  - split_and!; try done.
    + rewrite H5. cbn. rewrite Hp, <- app_assoc. done.
    + by etrans.
    + intros x [Hx1 Hx2]%not_elem_of_cons. rewrite H7 by done. unfold h1. by rewrite fn_lookup_insert_ne.
    + intros _. by apply H8.
    + intros Hall%(sorted_core _ h1); [|done]. replace (cq_Queue cq ++ l :: ws) with ((cq_Queue cq ++ [l]) ++ ws) in * by by rewrite <- app_assoc.
      assert (Hq : sortQueue h1 (cq_Queue cq ++ [l]) = cq_Queue cq ++ [l]) by by apply sortQueue_sorted; eapply sorted_app_l.
      unfold cq1 in H9. cbn in H9. rewrite Hq in H9. by apply H9.
Qed.

(** The outcome of a pass over one cluster queue. *)
Record scheduled (cq : ClusterQueue) (h : wheap) (cq' : ClusterQueue) (h' : wheap) (new : list wloc) : Prop := {
  sd_ok : cq_ok h' cq';
  sd_name : cq_Name cq' = cq_Name cq;
  sd_ws : cq_Workloads cq' = cq_Workloads cq ++ new;
  sd_perm : cq_Queue cq ≡ₚ new ++ cq_Queue cq';
  sd_new : new `sublist_of` cq_Queue cq;
  sd_core : same_core h h';
  sd_frame : forall x, x ∉ cq_Queue cq -> h' x = h x;
  sd_status : Forall (fun x => w_Status (h' x) = StatusAdmitted) new;
  sd_rest : StronglySorted (before h) (cq_Queue cq) -> cq_Queue cq' `sublist_of` cq_Queue cq;
  sd_sorted : StronglySorted (before h') (cq_Queue cq');
  sd_max : Forall (fun l => Forall (fun fq => CanFit fq (TotalRequests (h' l)) = false) (cq_Flavors cq'))
             (cq_Queue cq')
}.

Lemma schedule_cq_spec (fuel : nat) (now : Z) (cq : ClusterQueue) (h : wheap) (admitted : list wloc) :
  cq_ok h cq -> NoDup (cq_Queue cq ++ cq_Workloads cq) -> length (cq_Queue cq) < fuel ->
  exists cq' h' new, schedule_cq fuel now cq h admitted = Some (cq', h', admitted ++ new) /\
    scheduled cq h cq' h' new.
Proof.
  intros Hok Hnd Hf. unfold schedule_cq.
  destruct (drain_spec fuel now cq h [] admitted Hok Hnd Hf) as (cq1 & h1 & new & rest & -> & Hd).
  cbn [app]. pose proof Hnd as (Hndq & Hdis & _)%NoDup_app.
  assert (Hsplit : NoDup (new ++ rest)) by by rewrite <- (dr_perm _ _ _ _ _ _ Hd).
  apply NoDup_app in Hsplit as (_ & Hnr & _).
  assert (Hreqs : Forall (fun l => req_ok (h1 l)) rest).
  { apply Forall_forall. intros l Hl. apply (req_ok_core h); [apply Hd|].
    destruct Hok as [_ _ Hr]. rewrite Forall_forall in Hr. apply Hr, elem_of_app. left.
    eapply elem_of_sublist; [exact Hl|apply Hd]. }
  pose proof (enqueue_all_spec rest cq1 h1 (dr_ok _ _ _ _ _ _ Hd) Hreqs) as He.
  destruct (enqueue_all rest cq1 h1) as [cq2 h2].
  destruct He as (H1 & H2 & H3 & H4 & H5 & H6 & H7 & H8 & H9).
  { intros l Hl. rewrite (dr_ws _ _ _ _ _ _ Hd). intros [Hw|Hn]%elem_of_app.
    - apply (Hdis l); [|done]. eapply elem_of_sublist; [exact Hl|apply Hd].
    - by apply (Hnr l). }
  exists cq2, h2, new. split; [done|]. rewrite (dr_queue _ _ _ _ _ _ Hd) in *. cbn in H5.
  assert (Hcore : same_core h h2) by (etrans; [apply Hd|done]).
  destruct Hd. constructor; try done; try congruence.
  - by rewrite H5.
  - intros x Hx. rewrite H7, dr_frame0; [done| |]; intros Hin; apply Hx; rewrite dr_perm0;
      apply elem_of_app; auto.
  - rewrite Forall_forall in *. intros x Hx. rewrite H7; [by apply dr_status0|]. by apply Hnr.
  - intros Hs. rewrite H9; [done|]. apply (sorted_core h); [done|]. by eapply sorted_sublist.
  - apply H8. constructor.
  - rewrite H2. rewrite Forall_forall in *. intros l Hl. rewrite H5 in Hl.
    rewrite (TotalRequests_alike _ _ (Hcore l)). by apply dr_max0.
Qed.

(** ** The scheduler's invariant *)

Definition cq_locs (cq : ClusterQueue) : list wloc := cq_Queue cq ++ cq_Workloads cq.

(** The books of every cluster queue balance, every queue is sorted, and no
    workload is in two places. *)
Record sched_inv (s : Scheduler) : Prop := {
  sv_ok : forall c cq, sc_clusterQueues s !! c = Some cq -> cq_ok (sc_heap s) cq;
  sv_nodup : forall c cq, sc_clusterQueues s !! c = Some cq -> NoDup (cq_locs cq);
  sv_disj : forall c1 c2 q1 q2, sc_clusterQueues s !! c1 = Some q1 -> sc_clusterQueues s !! c2 = Some q2 ->
    c1 <> c2 -> forall l, l ∈ cq_locs q1 -> l ∉ cq_locs q2;
  sv_sorted : forall c cq, sc_clusterQueues s !! c = Some cq ->
    StronglySorted (before (sc_heap s)) (cq_Queue cq)
}.

(** A cluster queue as a client configures it. *)
Definition fresh_cq (cq : ClusterQueue) : Prop :=
  NoDup (map fq_Name (cq_Flavors cq)) /\
  Forall (fun fq => int_rl (fq_Resources fq) /\ fq_Used fq = ∅) (cq_Flavors cq) /\
  cq_Workloads cq = [] /\ cq_Queue cq = [].

(** The workload a release would act on is admitted. *)
Definition releases_admitted (s : Scheduler) (key : string) (pick : ClusterQueue -> option wloc) : Prop :=
  forall lq cq l, route key s = Ok (lq, cq) -> pick cq = Some l ->
    l ∈ cq_Workloads cq /\ w_Status (sc_heap s l) = StatusAdmitted.

(** What clients do: configure queues, submit new workloads with exact
    requests, run passes, and finish admitted workloads. *)
Inductive sched_step (s : Scheduler) : Scheduler -> Prop :=
| kstep_add_cq cq : fresh_cq cq -> sched_step s (AddClusterQueue cq s)
| kstep_add_lq lq : sched_step s (AddLocalQueue lq s)
| kstep_submit l w :
    (forall c cq, sc_clusterQueues s !! c = Some cq -> l ∉ cq_locs cq) -> req_ok w ->
    sched_step s (Submit l (mkScheduler (sc_clusterQueues s) (sc_localQueues s) (<[l := w]> (sc_heap s)))).1
| kstep_schedule fuel now order s' admitted :
    Schedule fuel now order s = Some (s', admitted) -> sched_step s s'
| kstep_finish now l :
    releases_admitted s (w_Namespace (sc_heap s l) +:+ "/" +:+ w_QueueName (sc_heap s l)) (fun _ => Some l) ->
    sched_step s (Finish now l s).1
| kstep_finish_by_name now ns q name :
    releases_admitted s (ns +:+ "/" +:+ q) (fun cq => find_workload (sc_heap s) ns name (cq_Workloads cq)) ->
    sched_step s (FinishByName now ns q name s).1.

(** Replacing one cluster queue and changing only its own workloads. *)
Lemma put_cq_inv (s : Scheduler) (c : string) (cq cq' : ClusterQueue) (h' : wheap) (extra : list wloc) :
  sched_inv s -> sc_clusterQueues s !! c = Some cq ->
  cq_ok h' cq' -> cq_locs cq' ≡ₚ cq_locs cq ++ extra -> NoDup (cq_locs cq ++ extra) ->
  (forall c2 q2 l, sc_clusterQueues s !! c2 = Some q2 -> l ∈ extra -> l ∉ cq_locs q2) ->
  same_core (sc_heap s) h' -> (forall x, x ∉ cq_locs cq ++ extra -> h' x = sc_heap s x) ->
  StronglySorted (before h') (cq_Queue cq') ->
  sched_inv (put_cq c (cq', h') s).
Proof.
  intros [Hok Hnd Hdis Hsort] Hc Hok' Hperm Hnd' Hextra Hcore Hframe Hs.
  assert (Hin : forall l, l ∈ cq_locs cq' <-> l ∈ cq_locs cq \/ l ∈ extra).
  { intros l. by rewrite Hperm, elem_of_app. }
  assert (Hother : forall c2 q2, c <> c2 -> sc_clusterQueues s !! c2 = Some q2 ->
    forall l, l ∈ cq_locs q2 -> l ∉ cq_locs cq').
  { intros c2 q2 Hne H2 l Hl [Hl'|Hl']%Hin; [by eapply (Hdis c c2)|by eapply Hextra]. }
  constructor; cbn.
  - intros c2 q2 [[<- <-]|[Hne H2]]%lookup_insert_Some; [done|].
    apply (cq_ok_frame (sc_heap s)); [done| |by eapply Hok]. intros x Hx. apply Hframe.
    rewrite <- Hperm. eapply Hother; [done|done|]. apply elem_of_app. by right.
  - intros c2 q2 [[<- <-]|[Hne H2]]%lookup_insert_Some; [by rewrite Hperm|by eapply Hnd].
  - intros c1 c2 q1 q2 [[<- <-]|[Hne1 H1]]%lookup_insert_Some [[<- <-]|[Hne2 H2]]%lookup_insert_Some Hne l Hl.
    + done.
    + intros Hl2. by eapply Hother.
    + by eapply Hother.
    + by eapply (Hdis c1 c2).
  - intros c2 q2 [[<- <-]|[Hne H2]]%lookup_insert_Some; [done|].
    eapply sorted_core; [done|by eapply Hsort].
Qed.

Lemma AssignFlavor_queue (now : Z) (l : wloc) (cq cq' : ClusterQueue) (h h' : wheap) (o : option string) :
  AssignFlavor now l cq h = ((cq', h'), o) -> cq_Queue cq' = cq_Queue cq.
Proof. unfold AssignFlavor. destruct (assign_first _ _) as [[n f]|]; by intros [= <- <- <-]. Qed.

(** A finished loop had enough fuel. *)
Lemma drain_fuel (fuel : nat) (now : Z) (cq : ClusterQueue) (h : wheap) (tr ad : list wloc) :
  is_Some (drain fuel now cq h tr ad) -> length (cq_Queue cq) < fuel.
Proof.
  revert cq h tr ad. induction fuel as [|fuel IH]; intros cq h tr ad; cbn; [by intros [? ?]|].
  unfold Dequeue. destruct (cq_Queue cq) as [|l q] eqn:Hq; [cbn; lia|].
  destruct (AssignFlavor _ _ _ _) as [[cq2 h2] o] eqn:Ha. apply AssignFlavor_queue in Ha. cbn in Ha.
  destruct o; intros H%IH; rewrite Ha in H; cbn; lia.
Qed.

Lemma schedule_cq_some (fuel : nat) (now : Z) (cq cq' : ClusterQueue) (h h' : wheap) (ad ad' : list wloc) :
  cq_ok h cq -> NoDup (cq_Queue cq ++ cq_Workloads cq) ->
  schedule_cq fuel now cq h ad = Some (cq', h', ad') ->
  exists new, ad' = ad ++ new /\ scheduled cq h cq' h' new.
Proof.
  intros Hok Hnd Hs.
  destruct (schedule_cq_spec fuel now cq h ad Hok Hnd) as (cq2 & h2 & new & Hs2 & Hd).
  - apply (drain_fuel fuel now cq h [] ad). unfold schedule_cq in Hs. by destruct (drain _ _ _ _ _ _).
  - rewrite Hs2 in Hs. injection Hs as <- <- <-. eauto.
Qed.

Lemma scheduled_locs (cq cq' : ClusterQueue) (h h' : wheap) (new : list wloc) :
  scheduled cq h cq' h' new -> cq_locs cq' ≡ₚ cq_locs cq ++ [].
Proof.
  intros []. unfold cq_locs. rewrite app_nil_r, sd_ws0, sd_perm0.
  rewrite (Permutation_app_comm new), <- app_assoc. by rewrite (Permutation_app_comm new).
Qed.

Lemma scheduled_inv (s : Scheduler) (c : string) (cq cq' : ClusterQueue) (h' : wheap) (new : list wloc) :
  sched_inv s -> sc_clusterQueues s !! c = Some cq -> scheduled cq (sc_heap s) cq' h' new ->
  sched_inv (put_cq c (cq', h') s).
Proof.
  intros Hinv Hc Hd. eapply (put_cq_inv s c cq cq' h' []); try done.
  - apply Hd.
  - by eapply scheduled_locs.
  - rewrite app_nil_r. by eapply Hinv.
  - intros c2 q2 l _ Hl. by apply not_elem_of_nil in Hl.
  - apply Hd.
  - intros x Hx. apply Hd. intros Hin. apply Hx. rewrite app_nil_r. apply elem_of_app. by left.
  - apply Hd.
Qed.

(** The pending workloads of a cluster queue fit none of its flavors. *)
Definition saturated (s : Scheduler) (c : string) : Prop :=
  forall cq, sc_clusterQueues s !! c = Some cq ->
    Forall (fun l => Forall (fun fq => CanFit fq (TotalRequests (sc_heap s l)) = false) (cq_Flavors cq))
      (cq_Queue cq).

(** The range over the cluster queues. *)
Lemma schedule_all_spec (fuel : nat) (now : Z) (order : list string) (s s' : Scheduler) (ad ad' : list wloc) :
  sched_inv s -> schedule_all fuel now order s ad = Some (s', ad') ->
  sched_inv s' /\ same_core (sc_heap s) (sc_heap s') /\
  (forall c, c ∈ order \/ saturated s c -> saturated s' c) /\
  (forall c cq cq', sc_clusterQueues s !! c = Some cq -> sc_clusterQueues s' !! c = Some cq' ->
     cq_locs cq' ≡ₚ cq_locs cq).
Proof.
  revert s ad. induction order as [|name order IH]; intros s ad Hinv; cbn.
  - intros [= -> ->]. split_and!; try done.
    + intros c [Hc|Hc]; [by apply not_elem_of_nil in Hc|done].
    + intros c cq cq' H1 H2. by simplify_eq.
  - destruct (sc_clusterQueues s !! name) as [cq|] eqn:Hc.
    + destruct (schedule_cq _ _ _ _ _) as [[[cq1 h1] ad1]|] eqn:Hs; [|done].
      destruct (schedule_cq_some _ _ _ _ _ _ _ _ (sv_ok _ Hinv _ _ Hc) (sv_nodup _ Hinv _ _ Hc) Hs)
        as (new & -> & Hd). intros Hall.
      change (mkScheduler _ _ h1) with (put_cq name (cq1, h1) s) in Hall.
      apply IH in Hall as (H1 & H2 & H3 & H4); [|by eapply scheduled_inv].
      split_and!; [done|etrans; [apply Hd|done]| |].
      * intros c Hcs. apply H3. destruct (decide (c = name)) as [->|Hne].
        { right. intros cq2 Hcq2. cbn in Hcq2. rewrite lookup_insert_eq in Hcq2. injection Hcq2 as <-. apply Hd. }
        destruct Hcs as [[?|Hcs]%elem_of_cons|Hcs]; [done|by left|right].
        intros cq2 Hcq2. cbn in Hcq2. rewrite lookup_insert_ne in Hcq2 by done. cbn.
        eapply Forall_impl; [by apply Hcs|]. intros l Hl. cbn in *.
        by rewrite (TotalRequests_alike _ _ (sd_core _ _ _ _ _ Hd l)).
      * intros c q q' Hq Hq'. destruct (decide (c = name)) as [->|Hne].
        { rewrite Hc in Hq. injection Hq as <-. rewrite (H4 name cq1 q'); [|cbn; by rewrite lookup_insert_eq|done].
          rewrite (scheduled_locs _ _ _ _ _ Hd). by rewrite app_nil_r. }
        apply (H4 c q q'); [|done]. cbn. by rewrite lookup_insert_ne.
    + intros Hall. apply IH in Hall as (H1 & H2 & H3 & H4); [|done]. split_and!; try done.
      intros c Hcs. destruct (decide (c = name)) as [->|Hne].
      * apply H3. right. intros cq2. by rewrite Hc.
      * apply H3. destruct Hcs as [[?|Hcs]%elem_of_cons|Hcs]; [done|by left|by right].
Qed.

(** What a pass does to one cluster queue. *)
Record passed (cq : ClusterQueue) (cq' : ClusterQueue) (h' : wheap) (new : list wloc) : Prop := {
  pa_ws : cq_Workloads cq' = cq_Workloads cq ++ new;
  pa_new : new `sublist_of` cq_Queue cq;
  pa_rest : cq_Queue cq' `sublist_of` cq_Queue cq;
  pa_status : Forall (fun l => w_Status (h' l) = StatusAdmitted) new
}.

Lemma schedule_all_queues (fuel : nat) (now : Z) (order : list string) (s s' : Scheduler) (ad ad' : list wloc) :
  NoDup order -> sched_inv s -> schedule_all fuel now order s ad = Some (s', ad') ->
  exists l, ad' = ad ++ l /\
    (forall c cq, c ∈ order -> sc_clusterQueues s !! c = Some cq ->
       exists cq' new, sc_clusterQueues s' !! c = Some cq' /\ passed cq cq' (sc_heap s') new /\ new `sublist_of` l) /\
    (forall c, c ∉ order -> sc_clusterQueues s' !! c = sc_clusterQueues s !! c) /\
    (forall x, (forall c cq, c ∈ order -> sc_clusterQueues s !! c = Some cq -> x ∉ cq_Queue cq) -> sc_heap s' x = sc_heap s x).
Proof.
  intros Hnd. revert s ad. induction Hnd as [|name order Hname Hnd IH]; intros s ad Hinv; cbn.
  { intros [= -> ->]. exists []. rewrite app_nil_r. split_and!; try done. by intros c cq ?%not_elem_of_nil. }
  destruct (sc_clusterQueues s !! name) as [cq|] eqn:Hc.
  - destruct (schedule_cq _ _ _ _ _) as [[[cq1 h1] ad1]|] eqn:Hs; [|done].
    destruct (schedule_cq_some _ _ _ _ _ _ _ _ (sv_ok _ Hinv _ _ Hc) (sv_nodup _ Hinv _ _ Hc) Hs) as (new & -> & Hd).
    intros Hall. change (mkScheduler _ _ h1) with (put_cq name (cq1, h1) s) in Hall.
    apply IH in Hall as (l & -> & H1 & H2 & H3); [|by eapply scheduled_inv].
    assert (Hother : forall c q, c <> name -> sc_clusterQueues (put_cq name (cq1, h1) s) !! c = Some q <-> sc_clusterQueues s !! c = Some q).
    { intros c q Hne. cbn. by rewrite lookup_insert_ne. }
    exists (new ++ l). split_and!; [by rewrite app_assoc| | |].
    + intros c q Hin Hq. destruct (decide (c = name)) as [->|Hne].
      * rewrite Hc in Hq. injection Hq as <-. exists cq1, new. split; [rewrite H2 by done; cbn; by rewrite lookup_insert_eq|].
        split; [|by apply sublist_inserts_r]. destruct Hd. constructor; [done|done|by apply sd_rest0, (sv_sorted _ Hinv name)|].
        rewrite Forall_forall in *. intros x Hx. rewrite H3; [by apply sd_status0|]. intros c q Hcin Hcq Hxq.
        assert (Hne : c <> name) by congruence. apply Hother in Hcq; [|done].
        apply (sv_disj _ Hinv name c cq q Hc Hcq (not_eq_sym Hne) x); apply elem_of_app; left; [|done].
        eapply elem_of_sublist; [exact Hx|done].
      * apply elem_of_cons in Hin as [?|Hin]; [done|]. apply Hother in Hq; [|done].
        destruct (H1 c q Hin Hq) as (cq' & n & Hc' & Hp & Hsub). exists cq', n. split; [done|]. split; [done|]. by apply sublist_inserts_l.
    + intros c [Hne Hnin]%not_elem_of_cons. rewrite H2 by done. cbn. by rewrite lookup_insert_ne.
    + intros x Hx. rewrite H3.
      * cbn. apply (sd_frame _ _ _ _ _ Hd). apply (Hx name cq); [by left|done].
      * intros c q Hin Hq. assert (Hne : c <> name) by congruence. apply (Hx c q); [by right|by apply Hother].
  - intros Hall. apply IH in Hall as (l & -> & H1 & H2 & H3); [|done]. exists l. split_and!; try done.
    + intros c q [->|Hin]%elem_of_cons Hq; [congruence|by apply H1].
    + intros c [_ Hnin]%not_elem_of_cons. by apply H2.
    + intros x Hx. apply H3. intros c q Hin. apply Hx. by right.
Qed.

(** Enough fuel: more than the longest queue. *)
Lemma schedule_all_total (fuel : nat) (now : Z) (order : list string) (s : Scheduler) (ad : list wloc) :
  sched_inv s ->
  (forall c cq, sc_clusterQueues s !! c = Some cq -> length (cq_Queue cq) < fuel) ->
  is_Some (schedule_all fuel now order s ad).
Proof.
  revert s ad. induction order as [|name order IH]; intros s ad Hinv Hf; cbn; [done|].
  destruct (sc_clusterQueues s !! name) as [cq|] eqn:Hc; [|by apply IH].
  destruct (schedule_cq_spec fuel now cq (sc_heap s) ad (sv_ok _ Hinv _ _ Hc) (sv_nodup _ Hinv _ _ Hc))
    as (cq1 & h1 & new & -> & Hd); [by eapply Hf|].
  change (mkScheduler _ _ h1) with (put_cq name (cq1, h1) s).
  apply IH; [by eapply scheduled_inv|].
  intros c q Hq. cbn in Hq. apply lookup_insert_Some in Hq as [[<- <-]|[Hne Hq]]; [|by eapply Hf].
  apply Nat.le_lt_trans with (length (cq_Queue cq)); [|by eapply Hf].
  rewrite (sd_perm _ _ _ _ _ Hd), length_app. lia.
Qed.

(** ** The steps keep the invariant *)

Lemma fresh_cq_ok (h : wheap) (cq : ClusterQueue) : fresh_cq cq -> cq_ok h cq /\ cq_locs cq = [].
Proof.
  intros (Hn & Hf & Hw & Hq). split; [|unfold cq_locs; by rewrite Hw, Hq].
  constructor; [done| |by rewrite Hw, Hq]. eapply Forall_impl; [exact Hf|]. intros fq [Hr Hu].
  split; [done|]. intros k. rewrite Hu, Hw. cbn. split; [done|].
  destruct (zr_int _ k Hr). lia.
Qed.

Lemma AddClusterQueue_inv (cq : ClusterQueue) (s : Scheduler) :
  fresh_cq cq -> sched_inv s -> sched_inv (AddClusterQueue cq s).
Proof.
  intros Hf [Hok Hnd Hdis Hsort]. destruct (fresh_cq_ok (sc_heap s) cq Hf) as [Hcq Hl].
  destruct Hf as (_ & _ & _ & Hq). constructor; cbn.
  - intros c q [[<- <-]|[_ H]]%lookup_insert_Some; [done|by eapply Hok].
  - intros c q [[<- <-]|[_ H]]%lookup_insert_Some; [rewrite Hl; constructor|by eapply Hnd].
  - intros c1 c2 q1 q2 [[<- <-]|[Hne1 H1]]%lookup_insert_Some [[<- <-]|[Hne2 H2]]%lookup_insert_Some Hne l.
    + done.
    + rewrite Hl. by intros ?%not_elem_of_nil.
    + rewrite Hl. intros _. apply not_elem_of_nil.
    + by eapply (Hdis c1 c2).
  - intros c q [[<- <-]|[_ H]]%lookup_insert_Some; [rewrite Hq; constructor|by eapply Hsort].
Qed.

(** Local queues are not part of the invariant. *)
Lemma sched_inv_lqs (s : Scheduler) (lqs : gmap string LocalQueue) :
  sched_inv s -> sched_inv (mkScheduler (sc_clusterQueues s) lqs (sc_heap s)).
Proof. intros []. by constructor. Qed.

Lemma route_Ok (key : string) (s : Scheduler) (lq : LocalQueue) (cq : ClusterQueue) :
  route key s = Ok (lq, cq) <->
  sc_localQueues s !! key = Some lq /\ sc_clusterQueues s !! lq_ClusterQueueName lq = Some cq.
Proof.
  unfold route. destruct (sc_localQueues s !! key) as [lq'|]; [|split; [done|by intros [? _]]].
  destruct (sc_clusterQueues s !! lq_ClusterQueueName lq') as [cq'|] eqn:Hc.
  - split; [intros [= <- <-]; done|intros [[= <-] H]; congruence].
  - split; [done|]. intros [[= <-] H]. congruence.
Qed.

(** A new object no queue refers to. *)
Lemma alloc_inv (s : Scheduler) (l : wloc) (w : Workload) :
  sched_inv s -> (forall c cq, sc_clusterQueues s !! c = Some cq -> l ∉ cq_locs cq) ->
  sched_inv (mkScheduler (sc_clusterQueues s) (sc_localQueues s) (<[l := w]> (sc_heap s))).
Proof.
  intros [Hok Hnd Hdis Hsort] Hfr.
  assert (Heq : forall c cq, sc_clusterQueues s !! c = Some cq ->
    forall x, x ∈ cq_locs cq -> (<[l := w]> (sc_heap s) : wheap) x = sc_heap s x).
  { intros c cq Hc x Hx. apply fn_lookup_insert_ne. intros ->. by eapply Hfr. }
  constructor; cbn; [|done|done|].
  - intros c cq Hc. specialize (Heq c cq Hc). destruct (Hok c cq Hc) as [Hn Hb Hr].
    constructor; [done| |].
    + eapply Forall_impl; [exact Hb|]. intros fq Hfq. eapply fl_bal_ext; [|exact Hfq].
      intros k. symmetry. apply usage_ext. intros x Hx. apply Heq, elem_of_app. by right.
    + rewrite Forall_forall in *. intros x Hx. rewrite Heq by done. by apply Hr.
  - intros c cq Hc. specialize (Heq c cq Hc). specialize (Hsort c cq Hc).
    assert (Hq : forall x, x ∈ cq_Queue cq -> (<[l := w]> (sc_heap s) : wheap) x = sc_heap s x).
    { intros x Hx. apply Heq, elem_of_app. by left. }
    clear -Hq Hsort. induction Hsort as [|x q Hs IH Hall]; constructor.
    + apply IH. intros y Hy. apply Hq. by right.
    + rewrite Forall_forall in *. intros y Hy. unfold before.
      rewrite (Hq y) by (by right). rewrite (Hq x) by (by left). by apply Hall.
Qed.

Lemma Submit_inv (l : wloc) (s : Scheduler) :
  sched_inv s -> (forall c cq, sc_clusterQueues s !! c = Some cq -> l ∉ cq_locs cq) ->
  req_ok (sc_heap s l) -> sched_inv (Submit l s).1.
Proof.
  intros Hinv Hfr Hreq. unfold Submit. destruct (route _ s) as [[lq cq]|e|] eqn:Hr; [|done|done].
  apply route_Ok in Hr as [Hlq Hcq].
  assert (Hl : l ∉ cq_Workloads cq) by (intros Hin; eapply Hfr; [done|]; apply elem_of_app; by right).
  pose proof (Enqueue_ok l cq (sc_heap s) (sv_ok _ Hinv _ _ Hcq) Hreq Hl) as Hok.
  destruct (sortQueue_spec (<[l := w_pend (sc_heap s l)]> (sc_heap s)) (cq_Queue cq ++ [l])) as (Hp & Hs & _).
  unfold Enqueue in *. cbn [fst]. set (h' := <[l := _]> (sc_heap s)) in *. set (cq' := mkCQ _ _ _ _) in *.
  apply (sched_inv_lqs (put_cq (lq_ClusterQueueName lq) (cq', h') s)).
  assert (Hlocs : cq_locs cq' ≡ₚ cq_locs cq ++ [l]).
  { unfold cq_locs. cbn. rewrite Hp, <- !app_assoc. by rewrite (Permutation_app_comm [l]). }
  eapply put_cq_inv; try done.
  - apply NoDup_app. split_and!; [by eapply Hinv| |by repeat constructor; apply not_elem_of_nil].
    intros x Hx ->%list_elem_of_singleton. by eapply Hfr.
  - intros c2 q2 x H2 ->%list_elem_of_singleton. by eapply Hfr.
  - by apply same_core_insert.
  - intros x [_ Hx]%not_elem_of_app. unfold h'. apply fn_lookup_insert_ne. intros ->. apply Hx. by left.
Qed.

Lemma release_inv (s : Scheduler) (now : Z) (c : string) (cq : ClusterQueue) (l : wloc) :
  sched_inv s -> sc_clusterQueues s !! c = Some cq -> l ∈ cq_Workloads cq ->
  w_Status (sc_heap s l) = StatusAdmitted ->
  sched_inv (put_cq c (ReleaseWorkload now l cq (sc_heap s)) s).
Proof.
  intros Hinv Hc Hl Hst. pose proof (sv_nodup _ Hinv _ _ Hc) as Hnd.
  pose proof Hnd as (_ & _ & Hndw)%NoDup_app.
  pose proof (ReleaseWorkload_ok now l cq (sc_heap s) (sv_ok _ Hinv _ _ Hc) Hndw Hl Hst) as Hok.
  unfold ReleaseWorkload in *. set (h' := <[l := _]> (sc_heap s)) in *. set (cq' := mkCQ _ _ _ _) in *.
  assert (Hcore : same_core (sc_heap s) h') by by apply same_core_insert.
  eapply (put_cq_inv s c cq cq' h' []); try done.
  - by rewrite app_nil_r.
  - by rewrite app_nil_r.
  - intros c2 q2 x _ Hx. by apply not_elem_of_nil in Hx.
  - intros x Hx. rewrite app_nil_r in Hx. unfold h'. apply fn_lookup_insert_ne. intros ->. apply Hx.
    apply elem_of_app. by right.
  - apply (sorted_core (sc_heap s)); [done|]. exact (sv_sorted _ Hinv _ _ Hc).
Qed.

Lemma sched_step_inv (s s' : Scheduler) : sched_inv s -> sched_step s s' -> sched_inv s'.
Proof.
  intros Hinv [].
  - by apply AddClusterQueue_inv.
  - by apply sched_inv_lqs.
  - apply Submit_inv; [by apply alloc_inv|done|]. cbn. by rewrite fn_lookup_insert.
  - by apply schedule_all_spec in H as [? _].
  - unfold Finish. destruct (route _ s) as [[lq cq]|e|] eqn:Hr; [|done|done].
    destruct (H lq cq l Hr eq_refl) as [Hl Hst]. apply route_Ok in Hr as [_ Hc]. by apply release_inv.
  - unfold FinishByName. destruct (route _ s) as [[lq cq]|e|] eqn:Hr; [|done|done].
    destruct (find_workload _ _ _ _) as [l|] eqn:Hfind; [|done].
    destruct (H lq cq l Hr Hfind) as [Hl Hst]. apply route_Ok in Hr as [_ Hc]. by apply release_inv.
Qed.

Lemma New_inv (h : wheap) : sched_inv (New h).
Proof. by constructor. Qed.

Definition sched_reachable (s : Scheduler) : Prop := exists h, rtc sched_step (New h) s.

Lemma sched_reachable_inv (s : Scheduler) : sched_reachable s -> sched_inv s.
Proof.
  intros [h H]. remember (New h) as s0 eqn:E. assert (Hinv : sched_inv s0) by (subst; apply New_inv).
  clear E. induction H; eauto using sched_step_inv.
Qed.

(** ** A sample run *)

(** Executable forms of the side conditions of the steps. *)
Definition int_rlb (r : ResourceList) : bool :=
  gmap_all (fun _ f => bool_decide (f = f_of_int (z_of_float f)) &&
    (0 <=? z_of_float f)%Z && (z_of_float f <? 2 ^ 53)%Z) r.

Definition absent_everywhere (l : wloc) (s : Scheduler) : bool :=
  gmap_all (fun _ cq => bool_decide (l ∉ cq_locs cq)) (sc_clusterQueues s).

Lemma int_rlb_ok (r : ResourceList) : int_rlb r = true -> int_rl r.
Proof.
  unfold int_rlb. rewrite gmap_all_spec. intros H k f Hk. specialize (H k f Hk). bool_simp.
  split; [done|lia].
Qed.

Lemma absent_everywhere_ok (l : wloc) (s : Scheduler) :
  absent_everywhere l s = true -> forall c cq, sc_clusterQueues s !! c = Some cq -> l ∉ cq_locs cq.
Proof.
  unfold absent_everywhere. rewrite gmap_all_spec. intros H c cq Hc. specialize (H c cq Hc). by bool_simp.
Qed.

Definition demo_cpu (n : Z) : ResourceList := {[ "cpu" := f_of_int n ]}.
Definition demo_job (name : string) (cpu prio created : Z) : Workload :=
  mkWorkload name "ns" "q" (demo_cpu cpu) "" 1 prio "" created None None.
Definition demo_cq : ClusterQueue := mkCQ "cq" [mkFlavor "std" (demo_cpu 4) ∅] [] [].
Definition demo_lq : LocalQueue := mkLQ "q" "ns" "cq" [].
Definition demo_empty : Scheduler :=
  AddLocalQueue demo_lq (AddClusterQueue demo_cq (New (fun _ => demo_job "" 0 0 0))).
Definition demo_submit (l : wloc) (w : Workload) (s : Scheduler) : Scheduler :=
  (Submit l (mkScheduler (sc_clusterQueues s) (sc_localQueues s) (<[l := w]> (sc_heap s)))).1.
Definition demo_pass (s : Scheduler) : Scheduler :=
  match Schedule 9 7 ["cq"] s with Some (s', _) => s' | None => s end.

(** Three jobs: one that never fits in front, one that fits, one that waits. *)
Definition demo_queued : Scheduler :=
  demo_submit 2 (demo_job "late" 3 5 3) (demo_submit 1 (demo_job "big" 9 9 2)
    (demo_submit 0 (demo_job "first" 3 5 1) demo_empty)).
Definition demo_scheduled : Scheduler := demo_pass demo_queued.

Lemma demo_submit_reachable (l : wloc) (w : Workload) (s : Scheduler) :
  sched_reachable s -> absent_everywhere l s = true -> int_rlb (TotalRequests w) = true ->
  sched_reachable (demo_submit l w s).
Proof.
  intros [h H] H1 H2. exists h. eapply rtc_r; [exact H|].
  apply kstep_submit; [by apply absent_everywhere_ok|by apply int_rlb_ok].
Qed.

Lemma demo_empty_reachable : sched_reachable demo_empty.
Proof.
  exists (fun _ => demo_job "" 0 0 0). eapply rtc_l; [apply (kstep_add_cq _ demo_cq)|].
  - split_and!; [by repeat constructor; apply not_elem_of_nil| |done|done].
    constructor; [|constructor]. split; [|done]. by apply int_rlb_ok; vm_compute.
  - eapply rtc_l; [apply (kstep_add_lq _ demo_lq)|apply rtc_refl].
Qed.

Lemma demo_queued_reachable : sched_reachable demo_queued.
Proof. repeat (apply demo_submit_reachable; [|by vm_compute|by vm_compute]). apply demo_empty_reachable. Qed.

Lemma demo_pass_reachable (s : Scheduler) : sched_reachable s -> sched_reachable (demo_pass s).
Proof.
  intros [h H]. exists h. unfold demo_pass.
  destruct (Schedule 9 7 ["cq"] s) as [[s' ad]|] eqn:Hs; [|done].
  eapply rtc_r; [exact H|]. by eapply kstep_schedule.
Qed.

Lemma demo_scheduled_reachable : sched_reachable demo_scheduled.
Proof. apply demo_pass_reachable, demo_queued_reachable. Qed.

(** ** Properties *)

(** C8: Quotas are never exceeded.  When all requests and capacities are
    non-negative integers below 2^53, in every state reached by configuring
    queues, submitting new workloads, scheduling, and finishing admitted
    workloads, the [float64] recorded as used by a flavor is exactly the sum of
    the requests of its admitted workloads, and it lies between zero and the
    flavor's capacity. *)
Theorem quota_safety (s : Scheduler) (c : string) (cq : ClusterQueue) (fq : FlavorQuota) (k : string) :
  sched_reachable s -> GetClusterQueue c s = Some cq -> fq ∈ cq_Flavors cq ->
  let used := usage (sc_heap s) (cq_Workloads cq) (fq_Name fq) k in
  rl_get (fq_Used fq) k = f_of_int used /\ (0 <= used <= zr (fq_Resources fq) k)%Z.
Proof.
  intros Hinv%sched_reachable_inv Hc Hfq. destruct (sv_ok _ Hinv c cq Hc) as [_ Hb _].
  rewrite Forall_forall in Hb. destruct (Hb fq Hfq) as [_ Hu]. apply Hu.
Qed.

Lemma quota_safety_witness :
  exists cq, GetClusterQueue "cq" demo_scheduled = Some cq /\
  exists fq, fq ∈ cq_Flavors cq /\
    rl_get (fq_Used fq) "cpu" = f_of_int (usage (sc_heap demo_scheduled) (cq_Workloads cq) (fq_Name fq) "cpu").
Proof.
  eexists. split; [vm_compute; reflexivity|]. eexists. split; [apply list_elem_of_here|].
  apply (quota_safety demo_scheduled "cq" _ _ "cpu" demo_scheduled_reachable);
    [vm_compute; reflexivity|apply list_elem_of_here].
Defined.

(** C12: A scheduling pass terminates.  With one more unit of fuel than the
    longest queue has workloads, the pass over any list of cluster queues
    returns, although it puts the workloads it cannot admit back into the
    queues it empties. *)
Theorem Schedule_terminates (s : Scheduler) (fuel : nat) (now : Z) (order : list string) :
  sched_reachable s ->
  (forall c cq, GetClusterQueue c s = Some cq -> length (cq_Queue cq) < fuel) ->
  exists s' admitted, Schedule fuel now order s = Some (s', admitted).
Proof.
  intros Hinv%sched_reachable_inv Hf.
  destruct (schedule_all_total fuel now order s [] Hinv Hf) as [[s' ad] H]. by exists s', ad.
Qed.

Lemma Schedule_terminates_witness :
  exists s' admitted, Schedule 4 7 ["cq"] demo_queued = Some (s', admitted).
Proof.
  apply (Schedule_terminates demo_queued 4 7 ["cq"] demo_queued_reachable).
  assert (H : gmap_all (fun _ cq => length (cq_Queue cq) <? 4) (sc_clusterQueues demo_queued) = true)
    by by vm_compute.
  rewrite gmap_all_spec in H. intros c cq Hc. apply Nat.ltb_lt. by apply (H c).
Defined.

(** C10: A pass leaves nothing that could still be admitted.  From a state
    reached with requests and capacities that are non-negative integers, by
    submissions of new workloads, passes and finishes of admitted ones: after the
    pass, in every cluster queue it visited, no pending workload fits any flavor,
    and no workload is lost or duplicated: each is pending or admitted where it was
    before.  A blocked head does not stop the pass. *)
Theorem Schedule_saturates (s s' : Scheduler) (fuel : nat) (now : Z) (order : list string)
    (admitted : list wloc) (c : string) (cq cq' : ClusterQueue) :
  sched_reachable s -> Schedule fuel now order s = Some (s', admitted) -> c ∈ order ->
  GetClusterQueue c s = Some cq -> GetClusterQueue c s' = Some cq' ->
  Forall (fun l => Forall (fun fq => CanFit fq (TotalRequests (sc_heap s' l)) = false) (cq_Flavors cq'))
    (cq_Queue cq') /\
  cq_Queue cq' ++ cq_Workloads cq' ≡ₚ cq_Queue cq ++ cq_Workloads cq.
Proof.
  intros Hinv%sched_reachable_inv Hs Hin Hc Hc'.
  destruct (schedule_all_spec _ _ _ _ _ _ _ Hinv Hs) as (_ & _ & H1 & H2). split.
  - apply (H1 c); [by left|done].
  - by apply (H2 c).
Qed.

Lemma Schedule_saturates_witness :
  exists cq', GetClusterQueue "cq" demo_scheduled = Some cq' /\ cq_Queue cq' = [1; 2] /\
  Forall (fun l => Forall (fun fq => CanFit fq (TotalRequests (sc_heap demo_scheduled l)) = false)
    (cq_Flavors cq')) (cq_Queue cq').
Proof.
  destruct (GetClusterQueue "cq" demo_scheduled) as [cq'|] eqn:Hc'; [|exfalso; vm_compute in Hc'; discriminate].
  destruct (GetClusterQueue "cq" demo_queued) as [cq|] eqn:Hc; [|exfalso; vm_compute in Hc; discriminate].
  exists cq'. split; [done|]. split.
  - assert (H : (cq_Queue <$> GetClusterQueue "cq" demo_scheduled) = Some [1; 2]) by by vm_compute.
    rewrite Hc' in H. by injection H.
  - apply (Schedule_saturates demo_queued demo_scheduled 9 7 ["cq"] [0] "cq" cq cq' demo_queued_reachable);
      [vm_compute; reflexivity|apply list_elem_of_here|exact Hc|exact Hc'].
Defined.

(** C14: Admission follows the priorities.  In a pass over any cluster queues,
    the workloads that each of them newly has admitted are reported as such and
    were taken from its queue from the front to the back: of any two, the one that
    comes first has the higher priority, or the same priority and was not created
    later, and workloads of the same priority and time come in the order in which
    they stood in the queue.  Those that stay pending keep their order too. *)
Theorem Schedule_priority (s s' : Scheduler) (fuel : nat) (now : Z) (order : list string) (admitted : list wloc)
    (c : string) (cq : ClusterQueue) :
  sched_reachable s -> NoDup order -> Schedule fuel now order s = Some (s', admitted) -> c ∈ order ->
  GetClusterQueue c s = Some cq ->
  exists cq' new, GetClusterQueue c s' = Some cq' /\ cq_Workloads cq' = cq_Workloads cq ++ new /\
    new `sublist_of` admitted /\ Forall (fun l => w_Status (sc_heap s' l) = StatusAdmitted) new /\
    new `sublist_of` cq_Queue cq /\ cq_Queue cq' `sublist_of` cq_Queue cq /\
    forall i j a b, i < j -> new !! i = Some a -> new !! j = Some b ->
      let wa := sc_heap s a in let wb := sc_heap s b in
      (w_Priority wb < w_Priority wa)%Z \/ w_Priority wa = w_Priority wb /\ (w_CreatedAt wa <= w_CreatedAt wb)%Z.
Proof.
  intros Hinv%sched_reachable_inv Hnd Hs Hin Hc.
  destruct (schedule_all_queues _ _ _ _ _ _ _ Hnd Hinv Hs) as (new_all & -> & Hq & _ & _).
  destruct (Hq c cq Hin Hc) as (cq' & new & Hc' & [H1 H2 H3 H4] & Hsub). exists cq', new. split_and!; try done.
  intros i j a b Hij Ha Hb. apply (sorted_ranks (sc_heap s) new i j); [|done..].
  eapply sorted_sublist; [exact H2|]. by eapply sv_sorted.
Qed.

Lemma Schedule_priority_witness :
  exists cq cq' new, GetClusterQueue "cq" demo_queued = Some cq /\ GetClusterQueue "cq" demo_scheduled = Some cq' /\
    cq_Workloads cq' = cq_Workloads cq ++ new /\ new `sublist_of` [0].
Proof.
  destruct (GetClusterQueue "cq" demo_queued) as [cq|] eqn:Hc; [|exfalso; vm_compute in Hc; discriminate].
  destruct (Schedule_priority demo_queued demo_scheduled 9 7 ["cq"] [0] "cq" cq demo_queued_reachable)
    as (cq' & new & H1 & H2 & H3 & _); [apply NoDup_singleton|vm_compute; reflexivity|apply list_elem_of_here|exact Hc|].
  exists cq, cq', new. exact (conj eq_refl (conj H1 (conj H2 H3))).
Defined.

(** C31: A workload joins the queue behind those that rank at least as high and in
    front of the others, whose order does not change: workloads of one priority
    and time leave the queue in the order in which they came. *)
Theorem Submit_position (s : Scheduler) (l : wloc) (lq : LocalQueue) (cq : ClusterQueue) :
  let w := sc_heap s l in
  sched_reachable s -> route (w_Namespace w +:+ "/" +:+ w_QueueName w) s = Ok (lq, cq) -> l ∉ cq_Queue cq ->
  exists cq' pre post, GetClusterQueue (lq_ClusterQueueName lq) (Submit l s).1 = Some cq' /\
    cq_Queue cq = pre ++ post /\ cq_Queue cq' = pre ++ l :: post /\
    Forall (fun x => ranks (sc_heap s x) w) pre /\ Forall (fun x => outranks w (sc_heap s x)) post.
Proof.
  intros w Hinv%sched_reachable_inv Hr Hl. pose proof Hr as [_ Hc]%route_Ok. pose proof (sv_sorted _ Hinv _ _ Hc) as Hs.
  set (h' := <[l := w_pend w]> (sc_heap s) : wheap).
  assert (Hs' : StronglySorted (before h') (cq_Queue cq)).
  { apply (sorted_core (sc_heap s)); [|done]. by apply same_core_insert. }
  destruct (insert_stable_split h' l (cq_Queue cq) Hs') as (pre & post & Hq & Hi & H1 & H2).
  eexists _, pre, post. unfold Submit. fold w. rewrite Hr. unfold Enqueue. fold w h'. cbn [fst]. unfold GetClusterQueue. cbn.
  rewrite lookup_insert_eq. split; [reflexivity|]. cbn. split; [done|]. split.
  { rewrite <- Hi. rewrite (sortQueue_app h' (cq_Queue cq) [l]), sortQueue_sorted by done. done. }
  assert (Hh : forall x, x ∈ cq_Queue cq -> h' x = sc_heap s x) by (intros x Hx; apply fn_lookup_insert_ne; by intros ->).
  assert (Hw : h' l = w_pend w) by by apply fn_lookup_insert. rewrite Hq in Hh. rewrite Hw in *.
  rewrite !Forall_forall in *. split; intros x Hx; (rewrite <- Hh; [|by apply elem_of_app; auto]);
    [by apply H1|by apply H2].
Qed.

Lemma Submit_position_witness :
  exists lq cq cq' pre post, route "ns/q" demo_scheduled = Ok (lq, cq) /\ cq_Queue cq = [1; 2] /\
    GetClusterQueue (lq_ClusterQueueName lq) (Submit 0 demo_scheduled).1 = Some cq' /\
    cq_Queue cq = pre ++ post /\ cq_Queue cq' = pre ++ 0 :: post.
Proof.
  destruct (route "ns/q" demo_scheduled) as [[lq cq]|e|] eqn:Hr; [|exfalso; vm_compute in Hr; discriminate..].
  assert (Hq : cq_Queue cq = [1; 2]).
  { assert (H : match route "ns/q" demo_scheduled with Ok (_, cq) => cq_Queue cq = [1; 2] | _ => True end)
      by (vm_compute; reflexivity).
    by rewrite Hr in H. }
  assert (Hw : w_Namespace (sc_heap demo_scheduled 0) +:+ "/" +:+ w_QueueName (sc_heap demo_scheduled 0) = "ns/q")
    by (vm_compute; reflexivity).
  destruct (Submit_position demo_scheduled 0 lq cq demo_scheduled_reachable) as (cq' & pre & post & H1 & H2 & H3 & _).
  - rewrite Hw. exact Hr.
  - rewrite Hq. intros [H|[H|H%not_elem_of_nil]%elem_of_cons]%elem_of_cons; done.
  - exists lq, cq, cq', pre, post. exact (conj eq_refl (conj Hq (conj H1 (conj H2 H3)))).
Defined.

(** A workload can be finished twice, and then the quota is exceeded.
    [FinishByName] neither checks the status of the workload nor removes it, so
    a second call releases its resources again; after that two workloads that
    need the whole flavor each are admitted together. *)
Theorem double_finish_overcommits :
  let s1 := demo_pass (demo_submit 0 (demo_job "a" 4 0 1) demo_empty) in
  let twice := FinishByName 8 "ns" "q" "a" ;;! FinishByName 9 "ns" "q" "a" in
  let s2 := (twice s1).1 in
  let s3 := demo_pass (demo_submit 2 (demo_job "c" 4 0 3) (demo_submit 1 (demo_job "b" 4 0 2) s2)) in
  (twice s1).2 = Ok tt /\
  ((fun cq => (map (fun fq => zr (fq_Used fq) "cpu") (cq_Flavors cq),
               usage (sc_heap s3) (cq_Workloads cq) "std" "cpu",
               map (fun fq => zr (fq_Resources fq) "cpu") (cq_Flavors cq)))
    <$> GetClusterQueue "cq" s3) = Some ([4%Z], 8%Z, [4%Z]).
Proof. split; vm_compute; reflexivity. Qed.

(** The pass does not stop at a head that does not fit: the job behind it is
    admitted. *)
Example Schedule_passes_blocked_head :
  (cq_Queue <$> GetClusterQueue "cq" demo_queued) = Some [1; 0; 2] /\
  (cq_Workloads <$> GetClusterQueue "cq" demo_scheduled) = Some [0].
Proof. split; vm_compute; reflexivity. Qed.

(** A second workload of the same name is never found: the finished one, which
    stays in the list, is released instead. *)
Example FinishByName_finds_the_first :
  let s1 := demo_pass (demo_submit 0 (demo_job "a" 2 0 1) demo_empty) in
  let s2 := (FinishByName 8 "ns" "q" "a" s1).1 in
  let s3 := demo_pass (demo_submit 1 (demo_job "a" 2 0 2) s2) in
  let s4 := (FinishByName 9 "ns" "q" "a" s3).1 in
  w_Status (sc_heap s4 0) = StatusFinished /\ w_Status (sc_heap s4 1) = StatusAdmitted.
Proof. split; vm_compute; reflexivity. Qed.
