(* ===== verification/Controller.v ===== *)
(** * The kueue controller: mini-kueue/cmd/controller/main.go

    The configuration [main] builds and the HTTP handlers over the scheduler.
    A handler reads the fields of the decoded body; its answer is a status
    code, a list of workloads or a page.  The handlers run one at a time here;
    the scheduler has no lock, and [KueueRaces] shows what requests that overlap
    can do. *)

From S2P Require Import Prelude.
From S2P Require Import GoStrings.
From S2P Require Import Float64.
From S2P Require Import KueueTypes.
From S2P Require Import Scheduler.

Definition resources (l : list (string * Z)) : ResourceList :=
  list_to_map (map (fun kv => (kv.1, f_of_int kv.2)) l).

Definition flavor (name : string) (l : list (string * Z)) : FlavorQuota := mkFlavor name (resources l) ∅.

Definition dev : ClusterQueue :=
  mkCQ "dev-queue"
    [flavor "standard" [(ResourceCPU, 10); (ResourceMemory, 32)]%Z;
     flavor "gpu" [(ResourceCPU, 8); (ResourceMemory, 64); (ResourceGPU, 4)]%Z] [] [].

Definition prod_queue : ClusterQueue :=
  mkCQ "prod-queue" [flavor "on-demand" [(ResourceCPU, 100); (ResourceMemory, 256); (ResourceGPU, 8)]%Z] [] [].

Definition main_scheduler (h : wheap) : Scheduler :=
  let s := AddClusterQueue prod_queue (AddClusterQueue dev (New h)) in
  let s := AddLocalQueue (mkLQ "default" "default" "dev-queue" []) s in
  let s := AddLocalQueue (mkLQ "ml-training" "ml-team" "dev-queue" []) s in
  AddLocalQueue (mkLQ "production" "default" "prod-queue" []) s.

Record SubmitReq : Type := mkSubmitReq {
  sr_Name : string;
  sr_Namespace : string;
  sr_QueueName : string;
  sr_Resources : ResourceList;
  sr_PodCount : Z;
  sr_Priority : Z
}.

Definition status_of {A : Type} (r : res SchedErr A) : Z := match r with Ok _ => 200%Z | _ => 400%Z end.

(** [l] is the location of the new workload. *)
Definition handleSubmit (now : Z) (l : wloc) (req : SubmitReq) (s : Scheduler) : Scheduler * Z :=
  let namespace := if String.eqb (sr_Namespace req) "" then "default" else sr_Namespace req in
  let podCount := if (sr_PodCount req =? 0)%Z then 1%Z else sr_PodCount req in
  let wl := NewWorkload now (sr_Name req) namespace (sr_QueueName req) (sr_Resources req) podCount (sr_Priority req) in
  let '(s', r) := Submit l (mkScheduler (sc_clusterQueues s) (sc_localQueues s) (<[l := wl]> (sc_heap s))) in
  (s', status_of r).

Definition handleSchedule (fuel : nat) (now : Z) (order : list string) (s : Scheduler) :
    option (Scheduler * list wloc) := Schedule fuel now order s.

Definition handleFinish (now : Z) (name namespace queueName : string) (s : Scheduler) : Scheduler * Z :=
  let '(s', r) := FinishByName now namespace queueName name s in (s', status_of r).

(** ** The status page

    [fmt_list] is the [%v] of a resource list: the text of a Go map. *)

(** What the page shows of a flavor and of a cluster queue. *)
Record flavor_page : Type := mkFlavorPage { fp_Name : string; fp_used : ResourceList; fp_free : ResourceList }.
Record queue_page : Type := mkQueuePage {
  qp_Name : string;
  qp_flavors : list flavor_page;
  qp_pending : nat;
  qp_active : nat
}.

Definition flavor_shown (fq : FlavorQuota) : flavor_page := mkFlavorPage (fq_Name fq) (fq_Used fq) (Available fq).

Definition queue_shown (cq : ClusterQueue) : queue_page :=
  mkQueuePage (cq_Name cq) (map flavor_shown (cq_Flavors cq)) (length (cq_Queue cq)) (length (cq_Workloads cq)).

(** [sort.Strings] compares bytes. *)
Definition str_le (a b : string) : Prop := String.leb a b = true.
#[local] Instance str_le_dec : RelDecision str_le.
Proof. unfold str_le. intros a b. apply _. Defined.

Definition sorted_names (s : Scheduler) : list string :=
  merge_sort str_le (map fst (map_to_list (sc_clusterQueues s))).

Definition Status_page (s : Scheduler) : list queue_page :=
  omap (fun name => queue_shown <$> sc_clusterQueues s !! name) (sorted_names s).

Section status.
Context (fmt_list : ResourceList -> string).

Definition flavor_status (p : flavor_page) : string :=
  "  Flavor[" +:+ fp_Name p +:+ "]: used=" +:+ fmt_list (fp_used p) +:+ " free=" +:+ fmt_list (fp_free p) +:+ nl.

Definition ClusterQueue_Status (p : queue_page) : string :=
  "ClusterQueue: " +:+ qp_Name p +:+ nl +:+
  String.concat "" (map flavor_status (qp_flavors p)) +:+
  "  Pending: " +:+ pretty (qp_pending p) +:+ " workloads" +:+ nl +:+
  "  Active:  " +:+ pretty (qp_active p) +:+ " workloads" +:+ nl.

Definition page_text (ps : list queue_page) : string := String.concat "" (map (fun p => ClusterQueue_Status p +:+ nl) ps).

Definition Status (s : Scheduler) : string := page_text (Status_page s).

Definition handleStatus (s : Scheduler) : Scheduler * string := (s, Status s).

End status.

(** The port of the server; [getenv] answers "" for an unset variable. *)
Definition port (getenv : string -> string) : string :=
  let p := getenv "PORT" in if negb (String.eqb p "") then p else "8080".

(** ** Requests to the controller *)

Inductive ctrl_step (s : Scheduler) : Scheduler -> Prop :=
| cstep_submit now l req : ctrl_step s (handleSubmit now l req s).1
| cstep_schedule fuel now order s' admitted :
    handleSchedule fuel now order s = Some (s', admitted) -> ctrl_step s s'
| cstep_finish now name namespace queueName : ctrl_step s (handleFinish now name namespace queueName s).1
| cstep_status fmt_list : ctrl_step s (handleStatus fmt_list s).1.

Definition served (s : Scheduler) : Prop := exists h, rtc ctrl_step (main_scheduler h) s.

Definition queue_keys (s : Scheduler) : gset string := dom (sc_localQueues s).

Definition main_keys : gset string := {["default/default"; "ml-team/ml-training"; "default/production"]}.

(** ** Lemmas *)

(** [sort.Strings] has one result for a set of names. *)
Lemma str_le_cons (a b : Ascii.ascii) (s t : string) :
  str_le (String a s) (String b t) <->
  (Ascii.N_of_ascii a < Ascii.N_of_ascii b)%N \/ Ascii.N_of_ascii a = Ascii.N_of_ascii b /\ str_le s t.
Proof.
  unfold str_le, String.leb. cbn. unfold Ascii.compare.
  destruct (N.compare_spec (Ascii.N_of_ascii a) (Ascii.N_of_ascii b)) as [H|H|H]; destruct (String.compare s t);
    intuition (lia || congruence).
Qed.

#[global] Instance str_le_trans : Transitive str_le.
Proof.
  intros s. induction s as [|a s IH]; intros [|b t] [|c u]; try done. rewrite !str_le_cons.
  intros [H1|[H1 H1']] [H2|[H2 H2']]; [left; lia..|]. right. split; [congruence|]. by eapply IH.
Qed.

#[global] Instance str_le_total : Total str_le.
Proof. intros s t. apply String.leb_total. Qed.

#[global] Instance str_le_anti : AntiSymm eq str_le.
Proof. intros s t. apply String.leb_antisym. Qed.

Lemma sorted_names_dom (s s' : Scheduler) :
  dom (sc_clusterQueues s) = dom (sc_clusterQueues s') -> sorted_names s = sorted_names s'.
Proof.
  intros Hd. unfold sorted_names.
  apply (StronglySorted_unique str_le); [by apply (StronglySorted_merge_sort str_le)..|]. rewrite !merge_sort_Permutation.
  apply NoDup_Permutation; [apply NoDup_fst_map_to_list..|]. intros c.
  assert (H : forall m : gmap string ClusterQueue, c ∈ map fst (map_to_list m) <-> c ∈ dom m).
  { intros m. rewrite elem_of_dom. rewrite list_elem_of_fmap. split.
    - intros ([k cq] & -> & Hk%elem_of_map_to_list). by eexists.
    - intros [cq Hc]. exists (c, cq). split; [done|by apply elem_of_map_to_list]. }
  by rewrite !H, Hd.
Qed.

Lemma route_key (key : string) (s : Scheduler) (lq : LocalQueue) (cq : ClusterQueue) :
  route key s = Ok (lq, cq) -> key ∈ queue_keys s.
Proof.
  unfold route, queue_keys. destruct (sc_localQueues s !! key) as [lq0|] eqn:H; [|done].
  intros _. apply elem_of_dom. by eexists.
Qed.

Lemma Submit_keys (l : wloc) (s : Scheduler) : queue_keys (Submit l s).1 = queue_keys s.
Proof.
  unfold Submit. destruct (route _ s) as [[lq cq]|e|] eqn:Hr; [|done|done].
  destruct (Enqueue l cq (sc_heap s)) as [cq' h']. cbn. unfold queue_keys. cbn.
  rewrite dom_insert_L. apply route_key in Hr. unfold queue_keys in Hr. set_solver.
Qed.

Lemma Schedule_keys (fuel : nat) (now : Z) (order : list string) (s s' : Scheduler) (acc adm : list wloc) :
  schedule_all fuel now order s acc = Some (s', adm) -> queue_keys s' = queue_keys s.
Proof.
  revert s acc. induction order as [|name order IH]; intros s acc H; cbn [schedule_all] in H; [by simplify_eq|].
  destruct (sc_clusterQueues s !! name) as [cq|]; [|by eapply IH].
  destruct (schedule_cq _ _ _ _ _) as [[[cq' h'] acc']|]; [|done]. by apply IH in H.
Qed.

Lemma FinishByName_keys (now : Z) (ns q name : string) (s : Scheduler) :
  queue_keys (FinishByName now ns q name s).1 = queue_keys s.
Proof. unfold FinishByName. destruct (route _ _) as [[lq cq]|e|]; [|done|done]. by destruct (find_workload _ _ _ _). Qed.

Lemma main_keys_ok (h : wheap) : queue_keys (main_scheduler h) = main_keys.
Proof. unfold queue_keys, main_scheduler, AddLocalQueue, main_keys. cbn. rewrite !dom_insert_L. cbn. set_solver. Qed.

Lemma ctrl_step_keys (s s' : Scheduler) : ctrl_step s s' -> queue_keys s' = queue_keys s.
Proof.
  intros [now l req|fuel now order s1 adm H|now name ns q|fmt_list]; [| | |done].
  - unfold handleSubmit. cbv zeta.
    match goal with |- context [Submit l ?s0] => pose proof (Submit_keys l s0) as Hk; destruct (Submit l s0) end.
    exact Hk.
  - by apply Schedule_keys in H.
  - unfold handleFinish. pose proof (FinishByName_keys now ns q name s) as Hk. by destruct (FinishByName _ _ _ _ _).
Qed.

Lemma served_keys (s : Scheduler) : served s -> queue_keys s = main_keys.
Proof.
  intros [h H]. rewrite <- (main_keys_ok h). induction H as [|s1 s2 s3 H1 _ IH]; [done|].
  rewrite IH. by apply ctrl_step_keys.
Qed.

(** The configured queues are those the scheduler's guarantees are stated for:
    their capacities are whole numbers and nothing is used or queued. *)
Lemma resources_int (l : list (string * Z)) :
  Forall (fun kv => (0 <= kv.2 < 2 ^ 53)%Z) l -> int_rl (resources l).
Proof.
  intros HF k f Hk. unfold resources in Hk. apply elem_of_list_to_map_2 in Hk.
  apply list_elem_of_In, in_map_iff in Hk as ([k' z] & Heq & Hin%list_elem_of_In). cbn in Heq. simplify_eq.
  rewrite Forall_forall in HF. by apply is_nat53_int, (HF _ Hin).
Qed.

Lemma main_queues_fresh : fresh_cq dev /\ fresh_cq prod_queue.
Proof.
  split; (split; [by apply (bool_decide_unpack _); vm_compute|]); (split; [|done]);
    repeat (apply List.Forall_cons; [split; [apply resources_int; repeat constructor; cbn; lia|done]|]); constructor.
Qed.

(** ** Properties *)

(** A workload submitted without a namespace goes to the namespace
    "default", but a finish request without a namespace is refused and changes
    nothing, in every state the controller reaches: the default is not applied
    there, and no local queue is configured for the empty namespace. *)
Theorem finish_needs_namespace (s : Scheduler) (now : Z) (name queueName : string) :
  served s -> handleFinish now name "" queueName s = (s, 400%Z).
Proof.
  intros Hs%served_keys. unfold handleFinish, FinishByName.
  destruct (route _ s) as [[lq cq]|e|] eqn:Hr; [exfalso|done|done].
  apply route_key in Hr. rewrite Hs in Hr. unfold main_keys in Hr.
  rewrite !elem_of_union, !elem_of_singleton in Hr. by destruct Hr as [[H|H]|H].
Qed.

Definition demo_req : SubmitReq := mkSubmitReq "job" "" "default" (resources [(ResourceCPU, 2%Z)]) 0 0.

Definition demo_controller : Scheduler :=
  (handleSubmit 1 0 demo_req (main_scheduler (fun _ => NewWorkload 0 "" "" "" ∅ 0 0))).1.

(** The status page after the submission, the queues in the order of their
    names. *)
Example status_page :
  Status (fun _ => "{}") demo_controller =
  str_join nl ["ClusterQueue: dev-queue"; "  Flavor[standard]: used={} free={}"; "  Flavor[gpu]: used={} free={}";
    "  Pending: 1 workloads"; "  Active:  0 workloads"; ""; "ClusterQueue: prod-queue";
    "  Flavor[on-demand]: used={} free={}"; "  Pending: 0 workloads"; "  Active:  0 workloads"; ""; ""].
Proof. vm_compute. reflexivity. Qed.

(** The job is accepted, and cannot be finished by the same client. *)
Lemma finish_needs_namespace_witness :
  (handleSubmit 1 0 demo_req (main_scheduler (fun _ => NewWorkload 0 "" "" "" ∅ 0 0))).2 = 200%Z /\
  handleFinish 2 "job" "" "default" demo_controller = (demo_controller, 400%Z).
Proof.
  split; [vm_compute; reflexivity|]. apply (finish_needs_namespace demo_controller 2 "job" "default").
  eexists. eapply rtc_l; [apply (cstep_submit _ 1 0 demo_req)|apply rtc_refl].
Defined.
