(* ===== verification/GoSlice.v ===== *)
(** * Go slices over shared arrays

    A slice is a header: the array it points into, where it starts there, its
    length and its capacity.  [append] writes into the array when there is room
    and moves to a new array when there is none, so two headers may see one
    array.  An array is an address, its elements are cells of a memory that all
    goroutines share.  [grow] is the room the runtime adds to a new array beyond
    the element appended, which the language leaves open. *)

From S2P Require Import Prelude.

Record slice : Type := mkSlice { sl_ptr : nat; sl_off : nat; sl_len : nat; sl_cap : nat }.

Definition nil_slice : slice := mkSlice 0 0 0 0.

Section slices.
Context {A : Type} (grow : nat -> nat).

(** The element [i] of the array [p] is the cell [(p, i)]. *)
Abbreviation cells := (gmap (nat * nat) A).

Definition read_range (m : cells) (p o n : nat) : list A := omap (fun i => m !! (p, i)) (seq o n).

Fixpoint write_range (p o : nat) (l : list A) (m : cells) : cells :=
  match l with
  | [] => m
  | x :: l => <[(p, o) := x]> (write_range p (S o) l m)
  end.

Definition elems (m : cells) (s : slice) : list A := read_range m (sl_ptr s) (sl_off s) (sl_len s).

(** [s[i]]; [None] when the index is out of range. *)
Definition slice_at (m : cells) (s : slice) (i : nat) : option A :=
  if i <? sl_len s then m !! (sl_ptr s, sl_off s + i) else None.

(** [s[n:]]; [None] when the bounds are out of range. *)
Definition slice_from (n : nat) (s : slice) : option slice :=
  if n <=? sl_len s then Some (mkSlice (sl_ptr s) (sl_off s + n) (sl_len s - n) (sl_cap s - n)) else None.

(** [append(s, x)]; [next] is the address of the next new array. *)
Definition slice_append (s : slice) (x : A) (m : cells) (next : nat) : slice * cells * nat :=
  if sl_len s <? sl_cap s then
    (mkSlice (sl_ptr s) (sl_off s) (S (sl_len s)) (sl_cap s), <[(sl_ptr s, sl_off s + sl_len s) := x]> m, next)
  else
    (mkSlice next 0 (S (sl_len s)) (S (sl_len s) + grow (sl_len s)), write_range next 0 (elems m s ++ [x]) m, S next).

(** [s[i] = x]; [None] when the index is out of range. *)
Definition slice_put (s : slice) (i : nat) (x : A) (m : cells) : option cells :=
  if i <? sl_len s then Some (<[(sl_ptr s, sl_off s + i) := x]> m) else None.

(** The elements replaced in place by as many others. *)
Definition slice_set (s : slice) (l : list A) (m : cells) : cells := write_range (sl_ptr s) (sl_off s) l m.

(** ** Specification vocabulary *)

(** Every element of the slice has been written. *)
Definition written (m : cells) (s : slice) : Prop :=
  forall i, i < sl_len s -> is_Some (m !! (sl_ptr s, sl_off s + i)).

(** A slice that is alone with its array, which was made before [next]. *)
Record slice_ok (m : cells) (next : nat) (s : slice) : Prop := {
  so_cap : sl_len s <= sl_cap s;
  so_old : 0 < sl_cap s -> sl_ptr s < next;
  so_written : written m s
}.

(** No cell is lost. *)
Definition cells_grow (m m' : cells) : Prop := forall a, is_Some (m !! a) -> is_Some (m' !! a).

#[global] Instance cells_grow_preorder : PreOrder cells_grow.
Proof. split; [by intros m a|intros m1 m2 m3 H1 H2 a Ha; by apply H2, H1]. Qed.

(** ** Ranges *)

#[local] Arguments read_range : simpl never.

Lemma read_range_S (m : cells) (p o n : nat) :
  read_range m p o (S n) = match m !! (p, o) with Some x => x :: read_range m p (S o) n | None => read_range m p (S o) n end.
Proof. done. Qed.

Lemma read_range_ext (m m' : cells) (p o n : nat) :
  (forall i, o <= i < o + n -> m !! (p, i) = m' !! (p, i)) -> read_range m p o n = read_range m' p o n.
Proof.
  revert o. induction n as [|n IH]; intros o H; [done|]. rewrite !read_range_S, (H o) by lia.
  rewrite IH; [done|]. intros i Hi. apply H. lia.
Qed.

Lemma read_range_app (m : cells) (p o n k : nat) :
  read_range m p o (n + k) = read_range m p o n ++ read_range m p (o + n) k.
Proof. unfold read_range. by rewrite seq_app, omap_app. Qed.

Lemma read_range_length (m : cells) (p o n : nat) :
  (forall i, i < n -> is_Some (m !! (p, o + i))) -> length (read_range m p o n) = n.
Proof.
  revert o. induction n as [|n IH]; intros o H; [done|]. rewrite read_range_S.
  destruct (H 0) as [x Hx]; [lia|]. rewrite Nat.add_0_r in Hx. rewrite Hx. cbn. f_equal. apply IH.
  intros i Hi. replace (S o + i) with (o + S i) by lia. apply H. lia.
Qed.

Lemma write_range_lookup_ne (p q o i : nat) (l : list A) (m : cells) :
  p <> q \/ i < o \/ o + length l <= i -> write_range p o l m !! (q, i) = m !! (q, i).
Proof.
  revert o. induction l as [|x l IH]; intros o H; [done|]. cbn in *.
  rewrite lookup_insert_ne; [apply IH|]; [|intros [= -> ->]]; lia.
Qed.

Lemma read_write_range (p o : nat) (l : list A) (m : cells) : read_range (write_range p o l m) p o (length l) = l.
Proof.
  revert o. induction l as [|x l IH]; intros o; [done|]. cbn [length write_range].
  rewrite read_range_S, lookup_insert_eq. f_equal. etrans; [|apply (IH (S o))]. apply read_range_ext.
  intros i Hi. apply lookup_insert_ne. intros [= ->]. lia.
Qed.

Lemma write_range_grow (p o : nat) (l : list A) (m : cells) : cells_grow m (write_range p o l m).
Proof.
  revert o. induction l as [|x l IH]; intros o a Ha; [done|]. cbn. destruct (decide (a = (p, o))) as [->|Hne].
  - by rewrite lookup_insert_eq.
  - rewrite lookup_insert_ne by done. by apply IH.
Qed.

Lemma write_range_written (p o i : nat) (l : list A) (m : cells) :
  o <= i < o + length l -> is_Some (write_range p o l m !! (p, i)).
Proof.
  revert o. induction l as [|x l IH]; intros o Hi; cbn in *; [lia|]. destruct (decide (i = o)) as [->|Hne].
  - by rewrite lookup_insert_eq.
  - rewrite lookup_insert_ne by congruence. apply IH. lia.
Qed.

Lemma write_range_lookup (p o i : nat) (l : list A) (m : cells) :
  o <= i < o + length l -> write_range p o l m !! (p, i) = l !! (i - o).
Proof.
  revert o. induction l as [|x l IH]; intros o Hi; cbn in *; [lia|]. destruct (decide (i = o)) as [->|Hne].
  - by rewrite lookup_insert_eq, Nat.sub_diag.
  - rewrite lookup_insert_ne by congruence. rewrite IH by lia. by replace (i - o) with (S (i - S o)) by lia.
Qed.

Lemma elem_of_read_range (m : cells) (p o n : nat) (x : A) :
  x ∈ read_range m p o n -> exists i, i < n /\ m !! (p, o + i) = Some x.
Proof.
  unfold read_range. rewrite list_elem_of_omap. intros (j & Hj%elem_of_seq & Hx). exists (j - o).
  split; [lia|]. by replace (o + (j - o)) with j by lia.
Qed.

(** ** Slices *)

Lemma written_grow (m m' : cells) (s : slice) : cells_grow m m' -> written m s -> written m' s.
Proof. intros Hg Hw i Hi. by apply Hg, Hw. Qed.

Lemma elems_length (m : cells) (s : slice) : written m s -> length (elems m s) = sl_len s.
Proof. apply read_range_length. Qed.

Lemma elems_nil (m : cells) (s : slice) : written m s -> sl_len s = 0 <-> elems m s = [].
Proof. intros Hw%elems_length. rewrite <- Hw. apply length_zero_iff_nil. Qed.

Lemma slice_at_0 (m : cells) (s : slice) : written m s -> slice_at m s 0 = head (elems m s).
Proof.
  intros Hw. unfold slice_at, elems. destruct (sl_len s) as [|n] eqn:Hl; [done|]. cbn [Nat.ltb Nat.leb].
  rewrite read_range_S, Nat.add_0_r. destruct (Hw 0) as [x Hx]; [lia|]. rewrite Nat.add_0_r in Hx. by rewrite Hx.
Qed.

Lemma slice_at_lookup (m : cells) (s : slice) (i : nat) : written m s -> slice_at m s i = elems m s !! i.
Proof.
  intros Hw. unfold slice_at. destruct (Nat.ltb_spec i (sl_len s)) as [Hi|Hi].
  - unfold elems. assert (He : sl_len s = i + S (sl_len s - i - 1)) by lia. rewrite He at 1. rewrite read_range_app.
    rewrite lookup_app_r; rewrite read_range_length; try (intros j Hj; apply Hw; lia); [|lia].
    rewrite Nat.sub_diag, read_range_S. destruct (Hw i Hi) as [x Hx]. by rewrite Hx.
  - symmetry. apply lookup_ge_None_2. by rewrite elems_length.
Qed.

Lemma slice_from_1 (m : cells) (next : nat) (s : slice) (x : A) (l : list A) :
  slice_ok m next s -> elems m s = x :: l ->
  exists s', slice_from 1 s = Some s' /\ slice_ok m next s' /\ elems m s' = l /\ (sl_ptr s' = sl_ptr s) /\
    (0 < sl_cap s' -> 0 < sl_cap s).
Proof.
  intros [Hc Ho Hw] He. unfold slice_from. pose proof (elems_length m s Hw) as Hl. rewrite He in Hl. cbn in Hl.
  destruct (Nat.leb_spec 1 (sl_len s)) as [_|]; [|lia]. eexists. split; [done|]. split_and!; cbn; try lia.
  - split; cbn; [lia|intros H; apply Ho; lia|]. intros i Hi. cbn in *.
    replace (sl_off s + 1 + i) with (sl_off s + S i) by lia. apply Hw. lia.
  - unfold elems in *. cbn. rewrite <- Hl, read_range_S in He. cbn. rewrite <- Hl. cbn. rewrite Nat.sub_0_r, Nat.add_1_r.
    destruct (Hw 0) as [y Hy]; [lia|]. rewrite Nat.add_0_r in Hy. rewrite Hy in He. by injection He.
Qed.

Lemma slice_append_written (m m' : cells) (next next' : nat) (s s' : slice) (x : A) :
  written m s -> slice_append s x m next = (s', m', next') -> written m' s' /\ cells_grow m m' /\ 0 < sl_len s'.
Proof.
  intros Hw. unfold slice_append. destruct (sl_len s <? sl_cap s); intros [= <- <- <-].
  - assert (Hg : cells_grow m (<[(sl_ptr s, sl_off s + sl_len s) := x]> m)).
    { apply (write_range_grow (sl_ptr s) (sl_off s + sl_len s) [x]). }
    split_and!; [|done|cbn; lia]. intros i Hi. cbn in *.
    destruct (decide (i = sl_len s)) as [->|]; [by rewrite lookup_insert_eq|]. apply Hg, Hw. lia.
  - split_and!; [|apply write_range_grow|cbn; lia]. intros i Hi. cbn in *. apply write_range_written.
    rewrite length_app, elems_length by done. cbn. lia.
Qed.

Lemma slice_from_written (m : cells) (s : slice) :
  written m s -> 0 < sl_len s -> exists s', slice_from 1 s = Some s' /\ written m s'.
Proof.
  intros Hw Hl. unfold slice_from. destruct (Nat.leb_spec 1 (sl_len s)) as [_|]; [|lia]. eexists. split; [done|].
  intros i Hi. cbn in *. replace (sl_off s + 1 + i) with (sl_off s + S i) by lia. apply Hw. lia.
Qed.

Lemma slice_append_ok (m m' : cells) (next next' : nat) (s s' : slice) (x : A) :
  slice_ok m next s -> slice_append s x m next = (s', m', next') ->
  slice_ok m' next' s' /\ elems m' s' = elems m s ++ [x] /\ cells_grow m m' /\ next <= next' /\ 0 < sl_len s'.
Proof.
  intros [Hc Ho Hw] Ha. destruct (slice_append_written _ _ _ _ _ _ _ Hw Ha) as (Hw' & Hg & Hl). revert Ha.
  unfold slice_append. destruct (Nat.ltb_spec (sl_len s) (sl_cap s)) as [Hr|Hr]; intros [= <- <- <-].
  - split_and!; cbn; try lia; [split; cbn; [lia|auto|done]| |done].
    unfold elems. cbn [sl_ptr sl_off sl_len]. rewrite <- Nat.add_1_r, read_range_app. f_equal.
    + apply read_range_ext. intros i Hi. apply lookup_insert_ne. intros [=]. lia.
    + by rewrite read_range_S, lookup_insert_eq.
  - assert (He : length (elems m s ++ [x]) = S (sl_len s)) by (rewrite length_app, elems_length by done; cbn; lia).
    split_and!; cbn; try lia; [split; cbn; [lia|lia|done]| |done].
    unfold elems at 1. cbn [sl_ptr sl_off sl_len]. rewrite <- He. apply read_write_range.
Qed.

(** What a slice with another array holds does not change. *)
Lemma slice_append_frame (m m' : cells) (next next' : nat) (s s' t : slice) (x : A) :
  slice_append s x m next = (s', m', next') -> sl_len s <= sl_cap s ->
  sl_len t = 0 \/ (sl_ptr t <> sl_ptr s \/ sl_cap s = 0) /\ sl_ptr t < next -> elems m' t = elems m t.
Proof.
  intros Ha Hc [Hz|[Hp Hn]]; [by unfold elems; rewrite Hz|]. unfold slice_append in Ha.
  destruct (Nat.ltb_spec (sl_len s) (sl_cap s)) as [Hr|Hr]; injection Ha as _ <- _; apply read_range_ext; intros i Hi.
  - apply lookup_insert_ne. intros [=]. lia.
  - apply write_range_lookup_ne. lia.
Qed.

Lemma slice_set_ok (m : cells) (next : nat) (s : slice) (l : list A) :
  slice_ok m next s -> length l = sl_len s ->
  slice_ok (slice_set s l m) next s /\ elems (slice_set s l m) s = l.
Proof.
  intros [Hc Ho Hw] Hl. unfold slice_set. split.
  - split; [done|done|]. eapply written_grow, Hw. apply write_range_grow.
  - unfold elems. rewrite <- Hl. apply read_write_range.
Qed.

Lemma slice_set_frame (m : cells) (s t : slice) (l : list A) :
  sl_len t = 0 \/ length l = 0 \/ sl_ptr t <> sl_ptr s -> elems (slice_set s l m) t = elems m t.
Proof.
  intros [Hz|[->%length_zero_iff_nil|Hp]]; [by unfold elems; rewrite Hz|done|]. apply read_range_ext. intros i Hi. apply write_range_lookup_ne. lia.
Qed.

(** *** Elements replaced one by one *)

Lemma write_range_insert (p o i : nat) (x : A) (l : list A) (m : cells) :
  i < length l -> <[(p, o + i) := x]> (write_range p o l m) = write_range p o (<[i := x]> l) m.
Proof.
  revert o i. induction l as [|y l IH]; intros o i Hi; cbn in Hi; [lia|]. destruct i as [|i]; cbn.
  - by rewrite Nat.add_0_r, insert_insert_eq.
  - rewrite insert_insert_ne by (intros [=]; lia). f_equal. replace (o + S i) with (S o + i) by lia. apply IH. lia.
Qed.

Lemma slice_set_put (m : cells) (s : slice) (i : nat) (x : A) (l : list A) :
  length l = sl_len s -> i < sl_len s -> slice_put s i x (slice_set s l m) = Some (slice_set s (<[i := x]> l) m).
Proof.
  intros Hl Hi. unfold slice_put, slice_set. destruct (Nat.ltb_spec i (sl_len s)) as [_|]; [|lia].
  by rewrite write_range_insert by lia.
Qed.

Lemma slice_set_at (m : cells) (s : slice) (i : nat) (l : list A) :
  length l = sl_len s -> slice_at (slice_set s l m) s i = l !! i.
Proof.
  intros Hl. unfold slice_at, slice_set. destruct (Nat.ltb_spec i (sl_len s)) as [Hi|Hi].
  - rewrite write_range_lookup by lia. f_equal. lia.
  - symmetry. apply lookup_ge_None_2. lia.
Qed.

Lemma slice_set_elems (m : cells) (s : slice) : written m s -> slice_set s (elems m s) m = m.
Proof.
  intros Hw. pose proof (elems_length m s Hw) as Hl. unfold slice_set. apply map_eq. intros [p i].
  destruct (decide (sl_ptr s = p /\ sl_off s <= i < sl_off s + length (elems m s))) as [[<- Hi]|Hne].
  - rewrite write_range_lookup by done. rewrite <- slice_at_lookup by done. unfold slice_at.
    destruct (Nat.ltb_spec (i - sl_off s) (sl_len s)) as [_|]; [|lia]. do 2 f_equal. lia.
  - apply write_range_lookup_ne. lia.
Qed.

Lemma slice_put_grow (m m' : cells) (s : slice) (i : nat) (x : A) : slice_put s i x m = Some m' -> cells_grow m m'.
Proof.
  unfold slice_put. destruct (i <? sl_len s); intros [= <-]. apply (write_range_grow (sl_ptr s) (sl_off s + i) [x]).
Qed.

Lemma slice_ok_grow (m m' : cells) (next next' : nat) (s : slice) :
  cells_grow m m' -> next <= next' -> slice_ok m next s -> slice_ok m' next' s.
Proof. intros Hg Hn [Hc Ho Hw]. split; [done|intros H; specialize (Ho H); lia|by eapply written_grow]. Qed.

(** *** Values a slice does not show

    The slice has been written, no element is [x], and its array was made before
    [next]. *)
Record slice_clear (m : cells) (next : nat) (x : A) (s : slice) : Prop := {
  sc_written : written m s;
  sc_old : sl_ptr s < next \/ (sl_len s = 0 /\ sl_cap s = 0);
  sc_clear : forall i, i < sl_len s -> m !! (sl_ptr s, sl_off s + i) <> Some x
}.

(** [x] has come into no array but new ones. *)
Record no_more (m m' : cells) (next next' : nat) (x : A) : Prop := {
  nm_next : next <= next';
  nm_grow : cells_grow m m';
  nm_cells : forall p i, p < next -> m' !! (p, i) = Some x -> m !! (p, i) = Some x
}.

Lemma no_more_refl (m : cells) (next : nat) (x : A) : no_more m m next next x.
Proof. by split. Qed.

Lemma no_more_trans (m1 m2 m3 : cells) (n1 n2 n3 : nat) (x : A) :
  no_more m1 m2 n1 n2 x -> no_more m2 m3 n2 n3 x -> no_more m1 m3 n1 n3 x.
Proof. intros [A1 A2 A3] [B1 B2 B3]. split; [lia|by etrans|]. intros p i Hp H. apply A3, B3; [lia|lia|done]. Qed.

Lemma slice_clear_keep (m m' : cells) (next next' : nat) (x : A) (s : slice) :
  no_more m m' next next' x -> slice_clear m next x s -> slice_clear m' next' x s.
Proof.
  intros [Hn Hg Hc] [Hw Ho Hs]. split; [by eapply written_grow|destruct Ho; [left; lia|by right]|]. intros i Hi Hx.
  apply (Hs i Hi), Hc; [|done]. destruct Ho; lia.
Qed.

Lemma slice_clear_elems (m : cells) (next : nat) (x : A) (s : slice) : slice_clear m next x s -> x ∉ elems m s.
Proof. intros [_ _ Hs] (i & Hi & Hx)%elem_of_read_range. by apply (Hs i Hi). Qed.

Lemma slice_clear_at (m : cells) (next : nat) (x y : A) (s : slice) (i : nat) :
  slice_clear m next x s -> slice_at m s i = Some y -> y <> x.
Proof.
  intros [_ _ Hs]. unfold slice_at. destruct (Nat.ltb_spec i (sl_len s)) as [Hi|]; [|done].
  intros Hy ->. by apply (Hs i Hi).
Qed.

Lemma slice_clear_from (m : cells) (next n : nat) (x : A) (s s' : slice) :
  slice_clear m next x s -> slice_from n s = Some s' -> slice_clear m next x s'.
Proof.
  intros [Hw Ho Hs]. unfold slice_from. destruct (Nat.leb_spec n (sl_len s)) as [Hn|]; [|done]. intros [= <-]. split; cbn.
  - intros i Hi. cbn in *. rewrite <- Nat.add_assoc. apply Hw. lia.
  - destruct Ho as [Ho|[H1 H2]]; [by left|right; lia].
  - intros i Hi. rewrite <- Nat.add_assoc. apply Hs. lia.
Qed.

Lemma write_range_no_more (p o : nat) (l : list A) (m : cells) (next next' : nat) (x : A) :
  next <= next' -> (next <= p \/ x ∉ l) -> no_more m (write_range p o l m) next next' x.
Proof.
  intros Hn Hl. split; [done|apply write_range_grow|]. intros q i Hq Hx.
  destruct (decide (p = q /\ o <= i < o + length l)) as [[-> Hi]|Hne].
  - rewrite write_range_lookup in Hx by done. destruct Hl as [Hl|Hl]; [lia|]. by apply list_elem_of_lookup_2 in Hx.
  - rewrite write_range_lookup_ne in Hx; [done|]. lia.
Qed.

(** An assignment of something else. *)
Lemma slice_put_no_more (m m' : cells) (next : nat) (s : slice) (i : nat) (x y : A) :
  y <> x -> slice_put s i y m = Some m' -> no_more m m' next next x.
Proof.
  intros Hy. unfold slice_put. destruct (i <? sl_len s); intros [= <-].
  apply (write_range_no_more (sl_ptr s) (sl_off s + i) [y]); [done|]. right. by intros ->%list_elem_of_singleton.
Qed.

(** An append of something else. *)
Lemma slice_append_no_more (m m' : cells) (next next' : nat) (s s' : slice) (x y : A) :
  y <> x -> slice_append s y m next = (s', m', next') -> no_more m m' next next' x.
Proof.
  intros Hy. unfold slice_append. destruct (sl_len s <? sl_cap s); intros [= <- <- <-].
  - apply (write_range_no_more (sl_ptr s) (sl_off s + sl_len s) [y]); [done|]. right. by intros ->%list_elem_of_singleton.
  - apply write_range_no_more; [lia|]. by left.
Qed.

Lemma slice_append_clear (m m' : cells) (next next' : nat) (s s' : slice) (x y : A) :
  y <> x -> slice_clear m next x s -> slice_append s y m next = (s', m', next') -> slice_clear m' next' x s'.
Proof.
  intros Hy [Hw Ho Hs] Ha. pose proof (slice_append_no_more _ _ _ _ _ _ x _ Hy Ha) as [_ _ Hc].
  destruct (slice_append_written _ _ _ _ _ _ _ Hw Ha) as (Hw' & _ & _). revert Ha Hc Hw'. unfold slice_append.
  destruct (Nat.ltb_spec (sl_len s) (sl_cap s)) as [Hl|Hl]; intros [= <- <- <-] Hc Hw';
    (split; cbn; [done|left; lia|]); intros i Hi Hx.
  - destruct (decide (i = sl_len s)) as [->|Hne].
    + rewrite lookup_insert_eq in Hx. congruence.
    + apply (Hs i); [lia|]. apply Hc; [lia|done].
  - rewrite write_range_lookup in Hx by (rewrite length_app, elems_length by done; cbn; lia).
    rewrite Nat.sub_0_r in Hx. apply list_elem_of_lookup_2, elem_of_app in Hx.
    destruct Hx as [Hx|Hx%list_elem_of_singleton]; [|congruence]. revert Hx. by apply (slice_clear_elems m next).
Qed.

Lemma nil_slice_ok (m : cells) (next : nat) : slice_ok m next nil_slice.
Proof. split; cbn; [lia|lia|]. intros i Hi. cbn in Hi. lia. Qed.

End slices.

Create HintDb slices.
#[export] Hint Resolve written_grow slice_ok_grow write_range_grow slice_put_grow nil_slice_ok : slices.
