(* ===== verification/GoThreads.v ===== *)
(** * Goroutines as programs of accesses

    A goroutine is a program: it makes accesses [E X] to a state that all
    goroutines share, each answered with an [X], and ends with a value or a
    panic.  Goroutines are interleaved access by access.  A loop that may run for
    ever is cut into jobs: a program ends with the next job, and a job is begun as
    a program.  [safe] is a logic of rely and guarantee for programs, which
    carries over to systems whose unfinished threads are compatible. *)

From S2P Require Import Prelude.
From Stdlib Require Import FunctionalExtensionality.
Open Scope go_scope.

(** [Crash]: the goroutine panics. *)
Inductive prog (E : Type -> Type) (A : Type) : Type :=
| Ret (a : A)
| Crash
| Acc {X : Type} (e : E X) (k : X -> prog E A).
Arguments Ret {E A} a.
Arguments Crash {E A}.
Arguments Acc {E A X} e k.

Fixpoint prog_bind {E : Type -> Type} {A B : Type} (p : prog E A) (f : A -> prog E B) : prog E B :=
  match p with
  | Ret a => f a
  | Crash => Crash
  | Acc e k => Acc e (fun x => prog_bind (k x) f)
  end.

Lemma prog_bind_assoc {E : Type -> Type} {A B C : Type} (p : prog E A) (f : A -> prog E B) (g : B -> prog E C) :
  prog_bind (prog_bind p f) g = prog_bind p (fun a => prog_bind (f a) g).
Proof. induction p as [a| |X e k IH]; cbn; [done|done|]. f_equal. apply functional_extensionality. intros x. apply IH. Qed.

Definition acc {E : Type -> Type} {X : Type} (e : E X) : prog E X := Acc e Ret.

Definition or_crash {E : Type -> Type} {A : Type} (o : option A) : prog E A :=
  match o with Some a => Ret a | None => Crash end.

Notation "x <-~ p ; q" := (prog_bind p (fun x => q))
  (at level 100, p at next level, q at level 200, right associativity) : go_scope.
Notation "p ;;~ q" := (prog_bind p (fun _ => q)) (at level 100, q at level 200, right associativity) : go_scope.

Definition crashed {E : Type -> Type} {A : Type} (p : prog E A) : Prop := match p with Crash => True | _ => False end.

(** ** One program *)

Section run.
Context {E : Type -> Type} {St : Type} (do : forall X, E X -> St -> St * X).
#[local] Arguments do {X} _ _.

(** A program from its first access to its last, with nothing in between. *)
Fixpoint exec {A : Type} (p : prog E A) (m : St) : St * option A :=
  match p with
  | Ret a => (m, Some a)
  | Crash => (m, None)
  | Acc e k => let '(m', x) := do e m in exec (k x) m'
  end.

Lemma exec_bind {A B : Type} (p : prog E A) (f : A -> prog E B) (m : St) :
  exec (prog_bind p f) m = match exec p m with (m', Some a) => exec (f a) m' | (m', None) => (m', None) end.
Proof.
  revert m. induction p as [a| |X e k IH]; intros m; [done|done|]. cbn. destruct (do e m) as [m' x]. apply IH.
Qed.

Lemma exec_acc {A X : Type} (e : E X) (f : X -> prog E A) (m : St) :
  exec (prog_bind (acc e) f) m = exec (f (do e m).2) (do e m).1.
Proof. cbn. by destruct (do e m). Qed.

(** An access that reads. *)
Lemma exec_read {A X : Type} (e : E X) (f : X -> prog E A) (m : St) :
  (do e m).1 = m -> exec (prog_bind (acc e) f) m = exec (f (do e m).2) m.
Proof. intros Hm. by rewrite exec_acc, Hm. Qed.

(** The accesses of [p] keep [G], and [p] ends in [Q], if the others keep [R] in
    between; it crashes only if [C]. *)
Fixpoint safe {A : Type} (C : Prop) (R G : relation St) (p : prog E A) (Q : A -> St -> Prop) (m : St) : Prop :=
  match p with
  | Ret a => Q a m
  | Crash => C
  | Acc e k => G m (do e m).1 /\ forall m', R (do e m).1 m' -> safe C R G (k (do e m).2) Q m'
  end.

Lemma safe_mono {A : Type} (C : Prop) (R G : relation St) (p : prog E A) (Q Q' : A -> St -> Prop) (m : St) :
  (forall a m, Q a m -> Q' a m) -> safe C R G p Q m -> safe C R G p Q' m.
Proof.
  intros HQ. revert m. induction p as [a| |X e k IH]; intros m; cbn; [apply HQ|done|].
  intros [Hg Hk]. split; [done|]. intros m' Hm'. by apply IH, Hk.
Qed.

Lemma safe_bind {A B : Type} (C : Prop) (R G : relation St) (p : prog E A) (f : A -> prog E B) (Q : B -> St -> Prop) (m : St) :
  safe C R G p (fun a => safe C R G (f a) Q) m -> safe C R G (prog_bind p f) Q m.
Proof.
  revert m. induction p as [a| |X e k IH]; intros m; cbn; [done|done|].
  intros [Hg Hk]. split; [done|]. intros m' Hm'. by apply IH, Hk.
Qed.

(** What every access keeps relates the end to the beginning. *)
Lemma safe_track {A : Type} (C : Prop) (R G K : relation St) `{!PreOrder K} (p : prog E A) (Q : A -> St -> Prop) (m : St) :
  (forall m m', R m m' -> K m m') -> (forall m m', G m m' -> K m m') ->
  safe C R G p Q m -> safe C R G p (fun a m' => Q a m' /\ K m m') m.
Proof.
  intros HR HG. assert (H : forall m0, K m0 m -> safe C R G p Q m -> safe C R G p (fun a m' => Q a m' /\ K m0 m') m); [|by apply H].
  revert m. induction p as [a| |X e k IH]; intros m m0 Hm; cbn; [done|done|]. intros [Hg Hk]. split; [done|]. intros m' Hm'.
  apply IH; [|by apply Hk]. etrans; [exact Hm|]. etrans; [by apply HG|by apply HR].
Qed.

Lemma safe_acc {A X : Type} (C : Prop) (R G : relation St) (e : E X) (f : X -> prog E A) (Q : A -> St -> Prop) (m : St) :
  G m (do e m).1 -> (forall m', R (do e m).1 m' -> safe C R G (f (do e m).2) Q m') -> safe C R G (prog_bind (acc e) f) Q m.
Proof. by split. Qed.

(** ** Systems of threads *)

Section threads.
Context {Rq J : Type} (start : Rq -> prog E J) (body : J -> prog E J) (last : J -> bool).

(** The thread has ended: it has panicked, or its job is a last one. *)
Definition ended (p : prog E J) : bool :=
  match p with Ret j => last j | Crash => true | Acc _ _ => false end.

(** One access, or the start of the next job. *)
Definition thread_step (p : prog E J) (m : St) : prog E J * St :=
  match p with
  | Acc e k => let '(m', x) := do e m in (k x, m')
  | Ret j => (body j, m)
  | Crash => (Crash, m)
  end.

(** The requests received so far, with what is left of their threads. *)
Record system : Type := mkSys { sys_threads : gmap nat (Rq * prog E J); sys_mem : St }.

Inductive sys_step (s : system) : system -> Prop :=
| step_receive i r : sys_threads s !! i = None ->
    sys_step s (mkSys (<[i := (r, start r)]> (sys_threads s)) (sys_mem s))
| step_run i r p : sys_threads s !! i = Some (r, p) -> ended p = false ->
    sys_step s (mkSys (<[i := (r, (thread_step p (sys_mem s)).1)]> (sys_threads s)) (thread_step p (sys_mem s)).2).

(** Every request received has been answered, or has panicked. *)
Definition quiet (s : system) : Prop := map_Forall (fun _ x => ended x.2 = true) (sys_threads s).

(** *** A thread by itself *)

Definition alone : relation (prog E J * St) := rtc (fun a b => ended a.1 = false /\ b = thread_step a.1 a.2).

Lemma alone_exec (p : prog E J) (m m' : St) (j : J) : exec p m = (m', Some j) -> alone (p, m) (Ret j, m').
Proof.
  revert m. induction p as [j0| |X e k IH]; intros m; cbn; [intros [= -> ->]; apply rtc_refl|done|].
  destruct (do e m) as [m1 x] eqn:He. intros H%IH. eapply rtc_l; [|exact H]. split; [done|]. cbn. by rewrite He.
Qed.

Lemma alone_iteration (j j' : J) (m m' : St) :
  last j = false -> exec (body j) m = (m', Some j') -> alone (Ret j, m) (Ret j', m').
Proof. intros He H%alone_exec. eapply rtc_l; [|exact H]. by split. Qed.

(** What a thread does by itself it can do in a system while the others wait. *)
Lemma alone_steps (i : nat) (r : Rq) (x y : prog E J * St) (th : gmap nat (Rq * prog E J)) :
  alone x y -> th !! i = Some (r, x.1) -> rtc sys_step (mkSys th x.2) (mkSys (<[i := (r, y.1)]> th) y.2).
Proof.
  intros H. revert th. induction H as [x|x x1 y [He ->] _ IH]; intros th Hi; [by rewrite insert_id|].
  eapply rtc_l; [by apply (step_run (mkSys th x.2) i r x.1)|]. cbn [sys_threads sys_mem].
  rewrite <- (insert_insert_eq th i (r, y.1) (r, (thread_step x.1 x.2).1)). apply IH, lookup_insert_eq.
Qed.

(** There is one way to go. *)
Lemma alone_unique (x y z : prog E J * St) : alone x y -> alone x z -> ended y.1 = true -> ended z.1 = true -> y = z.
Proof.
  intros Hy. revert z. induction Hy as [x|x x1 y [He ->] _ IH]; intros z Hz Ey Ez.
  - destruct Hz as [|x x1 z [He _] _]; [done|congruence].
  - destruct Hz as [x|x x1 z [_ ->] Hz]; [congruence|]. by apply IH.
Qed.

(** *** Compatible threads

    [rely r] is what the others keep while a thread of the request [r] runs,
    [guar r] what it keeps; [post r] holds of the jobs it goes on with; [C] if it
    may crash.  All keep [I].  Threads of compatible requests keep what the other relies on. *)

Context (C : Prop) (I : St -> Prop) (rely guar : Rq -> relation St) (post : Rq -> J -> Prop) (compat : Rq -> Rq -> Prop).
Context `{!forall r, PreOrder (rely r), !forall r, PreOrder (guar r)}.
Context (rely_I : forall r m m', rely r m m' -> I m -> I m') (guar_I : forall r m m', guar r m m' -> I m -> I m').
Context (compat_ok : forall r r' m m', compat r r' -> guar r m m' -> rely r' m m').

(** Whatever the others have done, the thread goes on safely. *)
Definition thread_ok (r : Rq) (p : prog E J) (m : St) : Prop :=
  forall m', rely r m m' -> safe C (rely r) (guar r) p (fun j _ => post r j) m'.

Context (start_ok : forall r m, I m -> thread_ok r (start r) m).
Context (body_ok : forall r j m, I m -> post r j -> last j = false ->
  safe C (rely r) (guar r) (body j) (fun j _ => post r j) m).

(** Any two threads that have not ended are compatible. *)
Definition apart (s : system) : Prop :=
  forall i j r r' p p', i <> j -> sys_threads s !! i = Some (r, p) -> sys_threads s !! j = Some (r', p') ->
    ended p = false -> ended p' = false -> compat r r'.

Definition apart_steps : relation system := rtc (fun s s' => apart s /\ sys_step s s').

Record system_ok (s : system) : Prop := {
  sys_I : I (sys_mem s);
  sys_threads_ok : forall i r p, sys_threads s !! i = Some (r, p) -> thread_ok r p (sys_mem s)
}.

Lemma thread_ok_rely (r : Rq) (p : prog E J) (m m' : St) : thread_ok r p m -> rely r m m' -> thread_ok r p m'.
Proof. intros Hp Hr m2 Hr2. apply Hp. by etrans. Qed.

Lemma thread_ok_ended (r : Rq) (p : prog E J) (m m' : St) : thread_ok r p m -> ended p = true -> thread_ok r p m'.
Proof. intros Hp He. specialize (Hp m (reflexivity m)). destruct p as [j| |]; [by intros m2 _|by intros m2 _|done]. Qed.

Lemma thread_step_ok (r : Rq) (p : prog E J) (m : St) :
  I m -> thread_ok r p m -> ended p = false -> guar r m (thread_step p m).2 /\ thread_ok r (thread_step p m).1 (thread_step p m).2.
Proof.
  intros HI Hp He. pose proof (Hp m (reflexivity m)) as Hs. destruct p as [j| |X e k]; cbn [thread_step]; [|done|].
  - split; [reflexivity|]. intros m' Hm'. apply body_ok; [by eapply rely_I|exact Hs|exact He].
  - cbn in Hs. by destruct (do e m) as [m1 x].
Qed.

Lemma sys_step_ok (s s' : system) : system_ok s -> apart s -> sys_step s s' -> system_ok s'.
Proof.
  intros [HI Ht] Hapart [i r Hi|i r p Hi He]; (split; [|intros j r' p']); cbn; [done| | |].
  - destruct (decide (i = j)) as [<-|Hne]; [rewrite lookup_insert_eq; intros [= <- <-]; by apply start_ok|].
    rewrite lookup_insert_ne by done. apply Ht.
  - destruct (thread_step_ok r p (sys_mem s) HI (Ht _ _ _ Hi) He) as [Hg _]. by eapply guar_I.
  - destruct (thread_step_ok r p (sys_mem s) HI (Ht _ _ _ Hi) He) as [Hg Hok].
    destruct (decide (i = j)) as [<-|Hne]; [rewrite lookup_insert_eq; by intros [= <- <-]|].
    rewrite lookup_insert_ne by done. intros Hj. specialize (Ht _ _ _ Hj).
    destruct (ended p') eqn:He'; [by eapply thread_ok_ended|]. eapply thread_ok_rely; [done|]. eapply compat_ok; [|done].
    by apply (Hapart i j r r' p p').
Qed.

Lemma apart_steps_ok (s s' : system) : apart_steps s s' -> system_ok s -> system_ok s'.
Proof. induction 1 as [|s1 s2 s3 [H1 H2] _ IH]; [done|]. intros Hs1. by eapply IH, sys_step_ok. Qed.

Lemma system_ok_no_crash (s : system) (i : nat) (r : Rq) (p : prog E J) :
  system_ok s -> ~ C -> sys_threads s !! i = Some (r, p) -> ~ crashed p.
Proof. intros [_ Ht] HC Hi. specialize (Ht _ _ _ Hi (sys_mem s) (reflexivity _)). destruct p; [tauto|done|tauto]. Qed.

Lemma system_ok_job (s : system) (i : nat) (r : Rq) (j : J) :
  system_ok s -> sys_threads s !! i = Some (r, Ret j) -> post r j.
Proof. intros [_ Ht] Hi. exact (Ht _ _ _ Hi (sys_mem s) (reflexivity _)). Qed.

End threads.

(** ** Executions *)

Section executions.
Context {Rq J : Type} (start : Rq -> prog E J) (body : J -> prog E J) (last : J -> bool).

(** What is received, and which request takes its next steps, [n] of them or as
    many as it has left. *)
Inductive act : Type :=
| Receive (i : nat) (r : Rq)
| Go (i n : nat).

(** [guard] is asked before every step. *)
Abbreviation sys := (@system Rq J).
Context (guard : sys -> bool).

Fixpoint go (i n : nat) (s : sys) : option sys :=
  match n with
  | 0 => Some s
  | S n =>
      match sys_threads s !! i with
      | Some (r, p) =>
          if ended last p then Some s
          else if guard s then
            go i n (mkSys (<[i := (r, (thread_step body p (sys_mem s)).1)]> (sys_threads s)) (thread_step body p (sys_mem s)).2)
          else None
      | None => None
      end
  end.

Fixpoint run_acts (l : list act) (s : sys) : option sys :=
  match l with
  | [] => Some s
  | Receive i r :: l =>
      match sys_threads s !! i with
      | None => if guard s then run_acts l (mkSys (<[i := (r, start r)]> (sys_threads s)) (sys_mem s)) else None
      | Some _ => None
      end
  | Go i n :: l => match go i n s with Some s' => run_acts l s' | None => None end
  end.

Abbreviation guarded := (rtc (fun s s' => guard s = true /\ sys_step start body last s s')).

Lemma go_steps (i n : nat) (s s' : sys) : go i n s = Some s' -> guarded s s'.
Proof.
  revert s. induction n as [|n IH]; intros s; cbn [go]; [intros [= ->]; apply rtc_refl|].
  destruct (sys_threads s !! i) as [[r p]|] eqn:Hi; [|done]. destruct (ended last p) eqn:He; [intros [= ->]; apply rtc_refl|].
  destruct (guard s) eqn:Hg; [|done].
  intros H%IH. eapply rtc_l; [split; [done|by apply (step_run start body last s i r p)]|exact H].
Qed.

Lemma run_acts_steps (l : list act) (s s' : sys) : run_acts l s = Some s' -> guarded s s'.
Proof.
  revert s. induction l as [|[i r|i n] l IH]; intros s; cbn [run_acts]; [intros [= ->]; apply rtc_refl| |].
  - destruct (sys_threads s !! i) eqn:Hi; [done|]. destruct (guard s) eqn:Hg; [|done].
    intros H%IH. eapply rtc_l; [split; [done|by apply step_receive]|exact H].
  - destruct (go i n s) as [s1|] eqn:Hg; [|done]. intros H%IH. etrans; [by eapply go_steps|exact H].
Qed.

End executions.
End run.

(** Compatible threads, as a test: each thread that has not ended against those
    after it in the list and back. *)
Definition apart_b {E : Type -> Type} {St Rq J : Type} (last : J -> bool) (compat : Rq -> Rq -> bool) (s : @system E St Rq J) : bool :=
  let l := map_to_list (sys_threads s) in
  forallb (fun x => forallb (fun y =>
    bool_decide (x.1 = y.1) || ended last x.2.2 || ended last y.2.2 || compat x.2.1 y.2.1) l) l.

Lemma apart_b_ok {E : Type -> Type} {St Rq J : Type} (last : J -> bool) (compat : Rq -> Rq -> bool) (s : @system E St Rq J) :
  apart_b last compat s = true -> apart last (fun r r' => compat r r' = true) s.
Proof.
  unfold apart_b. rewrite forallb_forall. intros H i j r r' p p' Hne Hi Hj He He'.
  apply elem_of_map_to_list, list_elem_of_In in Hi, Hj. specialize (H _ Hi). rewrite forallb_forall in H. specialize (H _ Hj).
  cbn in H. rewrite He, He', !orb_false_r, orb_true_iff in H. destruct H as [H%bool_decide_eq_true|H]; done.
Qed.
