(* ===== verification/KueueThreads.v ===== *)
(** * The controller's requests as threads: mini-kueue/pkg/scheduler, pkg/types, cmd/controller

    The HTTP server runs every request in a goroutine of its own, and neither the
    scheduler nor its queues have a lock.  Here a request is a program of
    accesses to the memory that all requests share, and the programs of the
    requests in flight are interleaved access by access.  A slice header is read
    and written in one access, and so is a pointer; the accesses take effect in
    the order of the interleaving.  The language promises less for such races, so
    what this model reaches the code reaches.

    [sort.SliceStable] takes the header of the queue once: it swaps elements of
    that slice.  The comparison it is given reads the queue's field anew every
    time and indexes what it finds there.  Slices of up to twenty elements are
    sorted by insertion, which [p_sort] does for all; longer ones go through
    insertion in blocks of twenty that are then merged, with comparisons and swaps
    of the same kind, and the result of a sort that is left alone is the same.

    The pending queues, the admitted workloads and the lists of the local queues
    are slices over arrays of pointers ([GoSlice]).  What is never written after
    the configuration, the maps of queues and the names and capacities of the
    flavors, is a parameter.

    The requests are those of the four handlers: submit, schedule, finish, status.
    A status page is its contents; [page_text] of [Controller] is its text.

    [KueueAlone] shows that a request that nothing interferes with does what its
    handler in [Controller] does, [KueueRaces] what requests that overlap do. *)

From S2P Require Import Prelude.
From S2P Require Import Float64.
From S2P Require Import GoSlice.
From S2P Require Import GoThreads.
From S2P Require Import KueueTypes.
From S2P Require Import Scheduler.
From S2P Require Import Controller.
Open Scope go_scope.

(** ** The memory *)

(** The fields that hold a slice. *)
Inductive svar : Type :=
| VQueue (cq : string)
| VWorkloads (cq : string)
| VLocal (key : string).

#[global] Instance svar_eq_dec : EqDecision svar.
Proof. solve_decision. Defined.

Record memory : Type := mkMem {
  sm_cells : gmap (nat * nat) wloc;
  sm_next : nat;                                 (* the next new array *)
  sm_slices : svar -> slice;
  sm_used : string * nat -> ResourceList;        (* Used of the ith flavor of a cluster queue *)
  sm_heap : wheap;
  sm_wnext : wloc                                (* the next new workload *)
}.

Definition with_slice (v : svar) (s : slice) (m : memory) : memory :=
  mkMem (sm_cells m) (sm_next m) (<[v := s]> (sm_slices m)) (sm_used m) (sm_heap m) (sm_wnext m).
Definition with_cells (c : gmap (nat * nat) wloc) (n : nat) (m : memory) : memory :=
  mkMem c n (sm_slices m) (sm_used m) (sm_heap m) (sm_wnext m).
Definition with_used (a : string * nat) (r : ResourceList) (m : memory) : memory :=
  mkMem (sm_cells m) (sm_next m) (sm_slices m) (<[a := r]> (sm_used m)) (sm_heap m) (sm_wnext m).
Definition with_heap (h : wheap) (n : wloc) (m : memory) : memory :=
  mkMem (sm_cells m) (sm_next m) (sm_slices m) (sm_used m) h n.

(** An assignment to one field of a workload. *)
Inductive wfield : Type :=
| FStatus (s : WorkloadStatus)
| FFlavorName (f : string)
| FAdmittedAt (t : Z)
| FFinishedAt (t : Z).

Definition set_field (f : wfield) (w : Workload) : Workload :=
  let mk flavor status admitted finished :=
    mkWorkload (w_Name w) (w_Namespace w) (w_QueueName w) (w_Resources w) flavor (w_PodCount w) (w_Priority w)
      status (w_CreatedAt w) admitted finished in
  match f with
  | FStatus s => mk (w_FlavorName w) s (w_AdmittedAt w) (w_FinishedAt w)
  | FFlavorName n => mk n (w_Status w) (w_AdmittedAt w) (w_FinishedAt w)
  | FAdmittedAt t => mk (w_FlavorName w) (w_Status w) (Some t) (w_FinishedAt w)
  | FFinishedAt t => mk (w_FlavorName w) (w_Status w) (w_AdmittedAt w) (Some t)
  end.

(** ** Accesses and programs *)

Inductive access : Type -> Type :=
| RdSlice (v : svar) : access slice
| WrSlice (v : svar) (s : slice) : access unit
| RdSlot (s : slice) (i : nat) : access (option wloc)
| AppendSlot (s : slice) (w : wloc) : access slice
| WrSlot (s : slice) (i : nat) (w : wloc) : access (option unit)
| RdUsed (a : string * nat) : access ResourceList
| WrUsed (a : string * nat) (r : ResourceList) : access unit
| RdW (w : wloc) : access Workload
| WrW (w : wloc) (f : wfield) : access unit
| NewW (w : Workload) : access wloc.

Abbreviation program := (prog access).

Section memory.
Context (grow : nat -> nat).

Definition do_access {X : Type} (e : access X) (m : memory) : memory * X :=
  match e in access T return memory * T with
  | RdSlice v => (m, sm_slices m v)
  | WrSlice v s => (with_slice v s m, tt)
  | RdSlot s i => (m, slice_at (sm_cells m) s i)
  | AppendSlot s w =>
      let '(s', c, n) := slice_append grow s w (sm_cells m) (sm_next m) in (with_cells c n m, s')
  | WrSlot s i w =>
      match slice_put s i w (sm_cells m) with
      | Some c => (with_cells c (sm_next m) m, Some tt)
      | None => (m, None)
      end
  | RdUsed a => (m, sm_used m a)
  | WrUsed a r => (with_used a r m, tt)
  | RdW w => (m, sm_heap m w)
  | WrW w f => (with_heap (<[w := set_field f (sm_heap m w)]> (sm_heap m)) (sm_wnext m) m, tt)
  | NewW w => (with_heap (<[sm_wnext m := w]> (sm_heap m)) (S (sm_wnext m)) m, sm_wnext m)
  end.

End memory.

(** ** The operations of the queues *)

Definition p_append (v : svar) (w : wloc) : program unit :=
  s <-~ acc (RdSlice v); s' <-~ acc (AppendSlot s w); acc (WrSlice v s').

Definition p_at (s : slice) (i : nat) : program wloc := o <-~ acc (RdSlot s i); or_crash o.

(** The comparison of [sortQueue]: it mentions [cq.Queue] twice. *)
Definition p_less (cq : string) (i j : nat) : program bool :=
  si <-~ acc (RdSlice (VQueue cq)); a <-~ p_at si i;
  sj <-~ acc (RdSlice (VQueue cq)); b <-~ p_at sj j;
  wa <-~ acc (RdW a); wb <-~ acc (RdW b); Ret (less wa wb).

(** The swap of [reflect.Swapper] on the slice it was given. *)
Definition p_swap (s : slice) (i j : nat) : program unit :=
  a <-~ p_at s i; b <-~ p_at s j;
  o <-~ acc (WrSlot s i b); or_crash o ;;~
  (o <-~ acc (WrSlot s j a); or_crash o).

(** The element [j] goes towards the front as long as it is less than the one
    before it. *)
Fixpoint p_sift (cq : string) (s : slice) (j : nat) : program unit :=
  match j with
  | 0 => Ret tt
  | S j' => lt <-~ p_less cq j j'; if lt : bool then p_swap s j j' ;;~ p_sift cq s j' else Ret tt
  end.

(** The elements from the [i]th on; [n] are left. *)
Fixpoint p_insertion (cq : string) (s : slice) (i n : nat) : program unit :=
  match n with
  | 0 => Ret tt
  | S n => p_sift cq s i ;;~ p_insertion cq s (S i) n
  end.

Definition p_sort (cq : string) : program unit :=
  s <-~ acc (RdSlice (VQueue cq)); p_insertion cq s 1 (sl_len s - 1).

Definition p_Enqueue (cq : string) (w : wloc) : program unit :=
  acc (WrW w (FStatus StatusPending)) ;;~ p_append (VQueue cq) w ;;~ p_sort cq.

(** Each mention of [cq.Queue] reads the field again. *)
Definition p_Dequeue (cq : string) : program (option wloc) :=
  s <-~ acc (RdSlice (VQueue cq));
  if sl_len s =? 0 then Ret None
  else
    s1 <-~ acc (RdSlice (VQueue cq));
    o <-~ acc (RdSlot s1 0);
    w <-~ or_crash o;
    s2 <-~ acc (RdSlice (VQueue cq));
    s3 <-~ or_crash (slice_from 1 s2);
    acc (WrSlice (VQueue cq) s3) ;;~ Ret (Some w).

(** The loop over the flavors from the [i]th on. *)
Fixpoint p_assign (now : Z) (cq : string) (w : wloc) (req : ResourceList) (i : nat) (flavors : list FlavorQuota) :
    program (option string) :=
  match flavors with
  | [] => Ret None
  | fq :: flavors =>
      used <-~ acc (RdUsed (cq, i));
      if CanFit (mkFlavor (fq_Name fq) (fq_Resources fq) used) req then
        used <-~ acc (RdUsed (cq, i));
        acc (WrUsed (cq, i) (Add used req)) ;;~
        acc (WrW w (FFlavorName (fq_Name fq))) ;;~
        acc (WrW w (FStatus StatusAdmitted)) ;;~
        acc (WrW w (FAdmittedAt now)) ;;~
        p_append (VWorkloads cq) w ;;~
        Ret (Some (fq_Name fq))
      else p_assign now cq w req (S i) flavors
  end.

Definition p_AssignFlavor (now : Z) (cq : string) (flavors : list FlavorQuota) (w : wloc) : program (option string) :=
  wl <-~ acc (RdW w); p_assign now cq w (TotalRequests wl) 0 flavors.

Fixpoint p_release (cq : string) (w : wloc) (req : ResourceList) (i : nat) (flavors : list FlavorQuota) : program unit :=
  match flavors with
  | [] => Ret tt
  | fq :: flavors =>
      wl <-~ acc (RdW w);
      if String.eqb (fq_Name fq) (w_FlavorName wl) then
        used <-~ acc (RdUsed (cq, i)); acc (WrUsed (cq, i) (Sub used req))
      else p_release cq w req (S i) flavors
  end.

Definition p_ReleaseWorkload (now : Z) (cq : string) (flavors : list FlavorQuota) (w : wloc) : program unit :=
  wl <-~ acc (RdW w);
  p_release cq w (TotalRequests wl) 0 flavors ;;~
  acc (WrW w (FStatus StatusFinished)) ;;~
  acc (WrW w (FFinishedAt now)).

(** ** The requests *)

Inductive request : Type :=
| RSubmit (now : Z) (req : SubmitReq)
| RSchedule (now : Z) (order : list string)
| RFinish (now : Z) (name namespace queueName : string)
| RStatus.

Inductive answer : Type :=
| AStatus (code : Z)
| AAdmitted (workloads : list wloc)
| APage (queues : list queue_page).

(** A loop that may run for ever is cut into its iterations.  Where a pass is: at
    the next dequeue, or putting back what was not admitted, with its own lists
    and the cluster queues that are left. *)
Inductive job : Type :=
| JDrain (now : Z) (cq : string) (rest : list string) (toRetry admitted : list wloc)
| JRetry (now : Z) (cq : string) (rest : list string) (toRetry admitted : list wloc)
| JAnswer (a : answer).

Section requests.

(** The queues as [main] configures them. *)
Context (cfg : Scheduler).

Definition flavors_of (cq : string) : list FlavorQuota :=
  match sc_clusterQueues cfg !! cq with Some c => cq_Flavors c | None => [] end.

Definition p_Submit (l : wloc) : program answer :=
  wl <-~ acc (RdW l);
  let key := w_Namespace wl +:+ "/" +:+ w_QueueName wl in
  match route key cfg with
  | Ok (lq, _) =>
      p_Enqueue (lq_ClusterQueueName lq) l ;;~ p_append (VLocal key) l ;;~ Ret (AStatus 200)
  | _ => Ret (AStatus 400)
  end.

Definition p_handleSubmit (now : Z) (req : SubmitReq) : program answer :=
  let namespace := if String.eqb (sr_Namespace req) "" then "default" else sr_Namespace req in
  let podCount := if (sr_PodCount req =? 0)%Z then 1%Z else sr_PodCount req in
  l <-~ acc (NewW (NewWorkload now (sr_Name req) namespace (sr_QueueName req) (sr_Resources req) podCount (sr_Priority req)));
  p_Submit l.

(** The loop over the admitted workloads from the [i]th on; [n] are left. *)
Fixpoint p_find (name namespace : string) (s : slice) (i n : nat) : program (option wloc) :=
  match n with
  | 0 => Ret None
  | S n =>
      o <-~ acc (RdSlot s i);
      w <-~ or_crash o;
      wl <-~ acc (RdW w);
      if String.eqb (w_Name wl) name && String.eqb (w_Namespace wl) namespace then Ret (Some w)
      else p_find name namespace s (S i) n
  end.

Definition p_FinishByName (now : Z) (namespace queueName name : string) : program answer :=
  match route (namespace +:+ "/" +:+ queueName) cfg with
  | Ok (lq, _) =>
      let cq := lq_ClusterQueueName lq in
      s <-~ acc (RdSlice (VWorkloads cq));
      o <-~ p_find name namespace s 0 (sl_len s);
      match o with
      | Some w => p_ReleaseWorkload now cq (flavors_of cq) w ;;~ Ret (AStatus 200)
      | None => Ret (AStatus 400)
      end
  | _ => Ret (AStatus 400)
  end.

(** The flavors of a status page from the [i]th on: what is used is read twice,
    to be shown and for what is free. *)
Fixpoint p_flavor_lines (cq : string) (i : nat) (flavors : list FlavorQuota) : program (list flavor_page) :=
  match flavors with
  | [] => Ret []
  | fq :: flavors =>
      used <-~ acc (RdUsed (cq, i));
      used' <-~ acc (RdUsed (cq, i));
      ps <-~ p_flavor_lines cq (S i) flavors;
      Ret (mkFlavorPage (fq_Name fq) used (Available (mkFlavor (fq_Name fq) (fq_Resources fq) used')) :: ps)
  end.

Fixpoint p_Status (names : list string) : program (list queue_page) :=
  match names with
  | [] => Ret []
  | c :: names =>
      match sc_clusterQueues cfg !! c with
      | Some cq =>
          fs <-~ p_flavor_lines c 0 (cq_Flavors cq);
          q <-~ acc (RdSlice (VQueue c));
          ws <-~ acc (RdSlice (VWorkloads c));
          ps <-~ p_Status names;
          Ret (mkQueuePage (cq_Name cq) fs (sl_len q) (sl_len ws) :: ps)
      | None => p_Status names
      end
  end.

(** The next cluster queue of a pass. *)
Fixpoint next_cq (now : Z) (order : list string) (admitted : list wloc) : job :=
  match order with
  | [] => JAnswer (AAdmitted admitted)
  | c :: order =>
      match sc_clusterQueues cfg !! c with
      | Some _ => JDrain now c order [] admitted
      | None => next_cq now order admitted
      end
  end.

(** One iteration of a loop of a pass. *)
Definition body (j : job) : program job :=
  match j with
  | JDrain now cq rest toRetry admitted =>
      o <-~ p_Dequeue cq;
      match o with
      | None => Ret (JRetry now cq rest toRetry admitted)
      | Some w =>
          a <-~ p_AssignFlavor now cq (flavors_of cq) w;
          Ret (match a with
               | None => JDrain now cq rest (toRetry ++ [w]) admitted
               | Some _ => JDrain now cq rest toRetry (admitted ++ [w])
               end)
      end
  | JRetry now _ rest [] admitted => Ret (next_cq now rest admitted)
  | JRetry now cq rest (w :: ws) admitted => p_Enqueue cq w ;;~ Ret (JRetry now cq rest ws admitted)
  | JAnswer a => Ret (JAnswer a)
  end.

Definition start (r : request) : program job :=
  match r with
  | RSubmit now req => a <-~ p_handleSubmit now req; Ret (JAnswer a)
  | RSchedule now order => Ret (next_cq now order [])
  | RFinish now name namespace queueName =>
      a <-~ p_FinishByName now namespace queueName name; Ret (JAnswer a)
  | RStatus => ps <-~ p_Status (sorted_names cfg); Ret (JAnswer (APage ps))
  end.

End requests.

(** ** The controller as a system of threads

    The server keeps a request's panic from the others. *)

Definition answered (j : job) : bool := match j with JAnswer _ => true | _ => false end.

Abbreviation k_system := (@system access memory request job).
Abbreviation k_exec grow := (exec (@do_access grow)).
Abbreviation k_step cfg grow := (sys_step (@do_access grow) (start cfg) (body cfg) answered).
Abbreviation k_alone cfg grow := (alone (@do_access grow) (body cfg) answered).
