(* ===== verification/KueueAlone.v ===== *)
(** * Requests that do not overlap: mini-kueue/cmd/controller over [KueueThreads]

    A program of [KueueThreads] that runs by itself computes the operation of
    [KueueTypes] and [Scheduler] it is written after: the slices hold what the
    lists hold, as long as no two fields share an array, and every operation
    keeps them apart.  So a controller whose requests come one after the other is
    the one of [Controller].  The heap and the fields of the memory are
    functions, compared by functional extensionality. *)

From Stdlib Require Import FunctionalExtensionality.
From S2P Require Import Prelude.
From S2P Require Import Float64.
From S2P Require Import GoSlice.
From S2P Require Import GoThreads.
From S2P Require Import KueueTypes.
From S2P Require Import Scheduler.
From S2P Require Import Controller.
From S2P Require Import KueueThreads.
Open Scope go_scope.

(** ** Lemmas: what a program does by itself, on lists

    A [view] of the memory has lists for slices. *)

Record view : Type := mkView {
  vw_lists : svar -> list wloc;
  vw_used : string * nat -> ResourceList;
  vw_heap : wheap;
  vw_wnext : wloc
}.

Definition set_list (v : svar) (l : list wloc) (x : view) : view :=
  mkView (<[v := l]> (vw_lists x)) (vw_used x) (vw_heap x) (vw_wnext x).
Definition set_heap (h : wheap) (x : view) : view := mkView (vw_lists x) (vw_used x) h (vw_wnext x).
Definition set_used (a : string * nat) (r : ResourceList) (x : view) : view :=
  mkView (vw_lists x) (<[a := r]> (vw_used x)) (vw_heap x) (vw_wnext x).

Definition view_of (m : memory) : view :=
  mkView (fun v => elems (sm_cells m) (sm_slices m v)) (sm_used m) (sm_heap m) (sm_wnext m).

(** No two fields share an array. *)
Record mem_ok (m : memory) : Prop := {
  mo_slices : forall v, slice_ok (sm_cells m) (sm_next m) (sm_slices m v);
  mo_apart : forall v v', v <> v' -> 0 < sl_cap (sm_slices m v) -> 0 < sl_cap (sm_slices m v') ->
    sl_ptr (sm_slices m v) <> sl_ptr (sm_slices m v')
}.

Section alone.
Context (grow : nat -> nat).

(** [p], by itself, ends with [a] and leaves what [x] shows. *)
Definition runs {A : Type} (p : program A) (m : memory) (a : A) (x : view) : Prop :=
  exists m', k_exec grow p m = (m', Some a) /\ mem_ok m' /\ view_of m' = x.

Lemma runs_ret {A : Type} (a : A) (m : memory) (x : view) : mem_ok m -> view_of m = x -> runs (Ret a) m a x.
Proof. intros Hm Hx. by exists m. Qed.

Lemma runs_bind {A B : Type} (p : program A) (f : A -> program B) (m : memory) (a : A) (b : B) (x y : view) :
  runs p m a x -> (forall m', mem_ok m' -> view_of m' = x -> runs (f a) m' b y) -> runs (prog_bind p f) m b y.
Proof.
  intros (m' & He & Hok & Hx) Hf. destruct (Hf m' Hok Hx) as (m2 & He2 & Hok2 & Hy). exists m2.
  by rewrite exec_bind, He.
Qed.

Lemma runs_read {A X : Type} (e : access X) (f : X -> program A) (m : memory) (a : A) (x : view) :
  (do_access grow e m).1 = m -> runs (f (do_access grow e m).2) m a x -> runs (prog_bind (acc e) f) m a x.
Proof. intros Hm (m' & He & Hr). exists m'. by rewrite exec_read. Qed.

Lemma runs_used (b : string * nat) (r : ResourceList) (m : memory) :
  mem_ok m -> runs (acc (WrUsed b r)) m tt (set_used b r (view_of m)).
Proof. intros [H1 H2]. eexists. by split_and!. Qed.

Lemma runs_field (w : wloc) (f : wfield) (m : memory) :
  mem_ok m -> runs (acc (WrW w f)) m tt (set_heap (<[w := set_field f (sm_heap m w)]> (sm_heap m)) (view_of m)).
Proof. intros [H1 H2]. eexists. by split_and!. Qed.

(** A field gets a slice that is alone with its array, which is the field's own
    or new. *)
Lemma mem_ok_store (m : memory) (v : svar) (s : slice) (c : gmap (nat * nat) wloc) (n : nat) :
  mem_ok m -> cells_grow (sm_cells m) c -> sm_next m <= n -> slice_ok c n s ->
  (0 < sl_cap s -> (0 < sl_cap (sm_slices m v) /\ sl_ptr s = sl_ptr (sm_slices m v)) \/ sm_next m <= sl_ptr s) ->
  mem_ok (with_slice v s (with_cells c n m)).
Proof.
  intros [Hs Ha] Hg Hn Ho Hp. split; cbn.
  - intros v'. destruct (decide (v = v')) as [<-|Hne]; [by rewrite fn_lookup_insert|].
    rewrite fn_lookup_insert_ne by done. by eapply slice_ok_grow, Hs.
  - assert (Hv : forall v', v <> v' -> 0 < sl_cap s -> 0 < sl_cap (sm_slices m v') -> sl_ptr s <> sl_ptr (sm_slices m v')).
    { intros v' Hne H1 H2. pose proof (so_old _ _ _ (Hs v') H2). destruct (Hp H1) as [[H3 ->]|H3]; [by apply Ha|lia]. }
    intros v1 v2 Hne. destruct (decide (v = v1)) as [<-|H1], (decide (v = v2)) as [<-|H2]; [done|..];
      rewrite ?fn_lookup_insert, ?fn_lookup_insert_ne by done.
    + by apply Hv.
    + intros H3 H4. apply not_eq_sym. by apply Hv.
    + by apply Ha.
Qed.

Lemma view_store (m : memory) (v : svar) (s : slice) (c : gmap (nat * nat) wloc) (n : nat) :
  (forall v', v <> v' -> elems c (sm_slices m v') = elems (sm_cells m) (sm_slices m v')) ->
  view_of (with_slice v s (with_cells c n m)) = set_list v (elems c s) (view_of m).
Proof.
  intros He. unfold view_of, set_list. cbn. f_equal. apply functional_extensionality. intros v'.
  destruct (decide (v = v')) as [<-|Hne]; [by rewrite !fn_lookup_insert|]. rewrite !fn_lookup_insert_ne by done. by apply He.
Qed.

Lemma runs_append (v : svar) (w : wloc) (m : memory) :
  mem_ok m -> runs (p_append v w) m tt (set_list v (vw_lists (view_of m) v ++ [w]) (view_of m)).
Proof.
  intros Hm. unfold runs. cbn. destruct (slice_append grow _ _ _ _) as [[s' c] n] eqn:Ha. cbn.
  pose proof (mo_slices _ Hm v) as Hv. pose proof (slice_append_ok _ _ _ _ _ _ _ _ Hv Ha) as (Ho & He & Hg & Hn & _).
  eexists. split; [done|]. split.
  - apply mem_ok_store; try done. intros _. unfold slice_append in Ha.
    destruct (Nat.ltb_spec (sl_len (sm_slices m v)) (sl_cap (sm_slices m v))); injection Ha as <- _ _; cbn; [left; split; lia|by right].
  - rewrite view_store, He; [done|]. intros v' Hne. eapply slice_append_frame; [done|apply Hv|].
    destruct (Nat.eq_dec (sl_len (sm_slices m v')) 0) as [Hz|Hz]; [by left|right].
    pose proof (mo_slices _ Hm v') as [Hc Hold _]. split; [|apply Hold; lia].
    destruct (Nat.eq_dec (sl_cap (sm_slices m v)) 0); [by right|left]. apply not_eq_sym, (mo_apart _ Hm); [done|lia|lia].
Qed.

(** *** The sort of a queue, element by element

    [sorting l]: the queue of [m] with the elements [l] in its slice. *)

Section sort.
Context (c : string) (m : memory).

#[local] Abbreviation h := (sm_heap m).
#[local] Abbreviation s := (sm_slices m (VQueue c)).

Definition sorting (l : list wloc) : memory := with_cells (slice_set s l (sm_cells m)) (sm_next m) m.

Lemma exec_at (l : list wloc) (i : nat) : length l = sl_len s -> k_exec grow (p_at s i) (sorting l) = (sorting l, l !! i).
Proof. intros Hl. unfold p_at. rewrite exec_acc. cbn. rewrite slice_set_at by done. by destruct (l !! i). Qed.

Lemma exec_less (l : list wloc) (i j : nat) (a b : wloc) :
  length l = sl_len s -> l !! i = Some a -> l !! j = Some b ->
  k_exec grow (p_less c i j) (sorting l) = (sorting l, Some (less (h a) (h b))).
Proof.
  intros Hl Hi Hj. unfold p_less. rewrite exec_acc. cbn [do_access fst snd]. change (sm_slices (sorting l)) with (sm_slices m).
  rewrite exec_bind, exec_at, Hi by done. rewrite exec_acc. cbn [do_access fst snd]. change (sm_slices (sorting l)) with (sm_slices m).
  by rewrite exec_bind, exec_at, Hj by done.
Qed.

Lemma exec_put (l : list wloc) (i : nat) (w : wloc) :
  length l = sl_len s -> i < length l -> do_access grow (WrSlot s i w) (sorting l) = (sorting (<[i := w]> l), Some tt).
Proof. intros Hl Hi. cbn. by rewrite slice_set_put by lia. Qed.

Lemma exec_swap (l1 l2 : list wloc) (x y : wloc) :
  length (l1 ++ y :: x :: l2) = sl_len s ->
  k_exec grow (p_swap s (S (length l1)) (length l1)) (sorting (l1 ++ y :: x :: l2)) = (sorting (l1 ++ x :: y :: l2), Some tt).
Proof.
  intros Hl. pose proof Hl as Hn. rewrite length_app in Hn. cbn in Hn. set (l := l1 ++ y :: x :: l2) in *.
  assert (Hx : l !! S (length l1) = Some x) by (unfold l; rewrite lookup_app_r by lia; by rewrite Nat.sub_succ_l, Nat.sub_diag).
  assert (Hy : l !! length l1 = Some y) by (unfold l; by rewrite lookup_app_r, Nat.sub_diag).
  unfold p_swap. rewrite exec_bind, exec_at, Hx by done. rewrite exec_bind, exec_at, Hy by done.
  rewrite exec_acc, exec_put by lia. cbn [fst snd or_crash prog_bind].
  rewrite exec_acc, exec_put by (rewrite length_insert; lia). cbn [fst snd or_crash exec]. do 2 f_equal.
  unfold l. rewrite insert_app_r_alt by lia. rewrite Nat.sub_succ_l, Nat.sub_diag by lia.
  by rewrite insert_app_r_alt, Nat.sub_diag by lia.
Qed.

Lemma exec_sift (l1 : list wloc) (x : wloc) (l2 : list wloc) :
  StronglySorted (before h) l1 -> length (l1 ++ x :: l2) = sl_len s ->
  k_exec grow (p_sift c s (length l1)) (sorting (l1 ++ x :: l2)) = (sorting (insert_stable h x l1 ++ l2), Some tt).
Proof.
  revert l2. induction l1 as [|y l1 IH] using rev_ind; intros l2 Hs Hl; [done|].
  rewrite insert_stable_snoc by done. rewrite length_app, Nat.add_1_r. cbn [p_sift].
  rewrite <- app_assoc in *. cbn [app] in *. pose proof Hl as Hn. rewrite length_app in Hn. cbn in Hn.
  rewrite exec_bind. erewrite exec_less; [|done|rewrite lookup_app_r by lia; by rewrite Nat.sub_succ_l, Nat.sub_diag|by rewrite lookup_app_r, Nat.sub_diag].
  destruct (less (h x) (h y)).
  - rewrite exec_bind, exec_swap by done. rewrite IH; [by rewrite <- app_assoc| |].
    + clear -Hs. induction l1 as [|z l1 IH]; [constructor|]. cbn in Hs. apply StronglySorted_inv in Hs as [Hs Hz].
      apply Forall_app in Hz as [Hz _]. constructor; auto.
    + rewrite length_app. cbn. lia.
  - by rewrite <- app_assoc.
Qed.

Lemma exec_insertion (l2 l1 : list wloc) :
  StronglySorted (before h) l1 -> length (l1 ++ l2) = sl_len s ->
  k_exec grow (p_insertion c s (length l1) (length l2)) (sorting (l1 ++ l2)) =
  (sorting (fold_left (fun acc x => insert_stable h x acc) l2 l1), Some tt).
Proof.
  revert l1. induction l2 as [|x l2 IH]; intros l1 Hs Hl; [by rewrite app_nil_r|]. cbn [length p_insertion fold_left].
  rewrite exec_bind, exec_sift by done. pose proof (insert_stable_perm h x l1) as Hp. apply Permutation_length in Hp.
  cbn in Hp. rewrite <- Hp. apply IH; [by apply insert_stable_sorted|]. rewrite length_app in *. cbn in *. lia.
Qed.

Lemma exec_sort :
  written (sm_cells m) s -> k_exec grow (p_sort c) m = (sorting (sortQueue h (elems (sm_cells m) s)), Some tt).
Proof.
  intros Hw. pose proof (elems_length _ _ Hw) as Hl. unfold p_sort. rewrite exec_acc. cbn [do_access fst snd].
  assert (Hm : m = sorting (elems (sm_cells m) s)) by (unfold sorting; rewrite slice_set_elems by done; by destruct m).
  destruct (elems (sm_cells m) s) as [|x q] eqn:He; rewrite <- Hl; cbn [length Nat.sub p_insertion exec].
  - by rewrite Hm at 1.
  - rewrite Hm at 2. rewrite Nat.sub_0_r. apply (exec_insertion q [x]); [|done]. by repeat constructor.
Qed.

End sort.

Lemma runs_sort (cq : string) (m : memory) :
  mem_ok m ->
  runs (p_sort cq) m tt
    (set_list (VQueue cq) (sortQueue (sm_heap m) (vw_lists (view_of m) (VQueue cq))) (view_of m)).
Proof.
  intros Hm. pose proof (mo_slices _ Hm (VQueue cq)) as Hs. set (s := sm_slices m (VQueue cq)) in *.
  set (l := sortQueue (sm_heap m) (elems (sm_cells m) s)).
  exists (sorting cq m l). split; [by apply exec_sort, Hs|]. unfold sorting. fold s.
  assert (Hl : length l = sl_len s).
  { unfold l. destruct (sortQueue_spec (sm_heap m) (elems (sm_cells m) s)) as (Hp & _). rewrite Hp.
    apply elems_length, Hs. }
  destruct (slice_set_ok _ _ _ _ Hs Hl) as [Ho He].
  assert (Hid : with_cells (slice_set s l (sm_cells m)) (sm_next m) m =
    with_slice (VQueue cq) s (with_cells (slice_set s l (sm_cells m)) (sm_next m) m)).
  { unfold with_slice, with_cells. cbn. f_equal. apply functional_extensionality. intros v.
    destruct (decide (VQueue cq = v)) as [<-|Hne]; [by rewrite fn_lookup_insert|by rewrite fn_lookup_insert_ne]. }
  rewrite Hid. split.
  - apply mem_ok_store; auto with slices. apply write_range_grow.
  - rewrite view_store, He; [done|]. intros v' Hne. apply slice_set_frame. fold s.
    destruct (Nat.eq_dec (sl_len (sm_slices m v')) 0) as [Hz|Hz]; [by left|].
    destruct (Nat.eq_dec (sl_len s) 0) as [Hz'|Hz']; right; [left; lia|right].
    pose proof (mo_slices _ Hm v') as [Hc _ _]. destruct Hs as [Hc' _ _].
    apply not_eq_sym, (mo_apart _ Hm); fold s; [done|lia|lia].
Qed.

Lemma runs_Enqueue (c : string) (w : wloc) (cq : ClusterQueue) (m : memory) :
  mem_ok m -> vw_lists (view_of m) (VQueue c) = cq_Queue cq ->
  let '(cq', h') := Enqueue w cq (sm_heap m) in
  runs (p_Enqueue c w) m tt (set_list (VQueue c) (cq_Queue cq') (set_heap h' (view_of m))).
Proof.
  intros Hm Hq. unfold Enqueue, p_Enqueue. cbv zeta.
  eapply runs_bind; [by apply runs_field|]. intros m1 Hm1 Hv1.
  eapply runs_bind; [by apply runs_append|]. intros m2 Hm2 Hv2.
  destruct (runs_sort c m2 Hm2) as (m3 & He & Hm3 & Hv3). exists m3. split; [done|]. split; [done|].
  change (sm_heap m2) with (vw_heap (view_of m2)) in Hv3. rewrite Hv3, Hv2, Hv1.
  unfold set_list, set_heap. cbn in *. by rewrite fn_lookup_insert, fn_insert_twice, Hq.
Qed.

Lemma runs_Dequeue (c : string) (m : memory) :
  mem_ok m ->
  match vw_lists (view_of m) (VQueue c) with
  | [] => runs (p_Dequeue c) m None (view_of m)
  | w :: q => runs (p_Dequeue c) m (Some w) (set_list (VQueue c) q (view_of m))
  end.
Proof.
  intros Hm. cbn. pose proof (mo_slices _ Hm (VQueue c)) as Hs. unfold p_Dequeue.
  destruct (elems _ _) as [|w q] eqn:He; (apply runs_read; [done|]); cbn [do_access snd].
  - apply (elems_nil _ _ (so_written _ _ _ Hs)) in He. rewrite He. by apply runs_ret.
  - destruct (Nat.eqb_spec (sl_len (sm_slices m (VQueue c))) 0) as [Hz|_].
    { apply (elems_nil _ _ (so_written _ _ _ Hs)) in Hz. congruence. }
    apply runs_read; [done|]. cbn [do_access snd]. apply runs_read; [done|]. cbn [do_access snd].
    rewrite slice_at_0, He by apply Hs. cbn [head or_crash prog_bind]. apply runs_read; [done|]. cbn [do_access snd].
    destruct (slice_from_1 _ _ _ _ _ Hs He) as (s' & -> & Hs' & He' & Hp & Hc). cbn [or_crash prog_bind].
    eexists. split; [done|].
    assert (Hid : with_slice (VQueue c) s' m = with_slice (VQueue c) s' (with_cells (sm_cells m) (sm_next m) m)) by done.
    cbn [do_access fst exec]. rewrite Hid. split.
    + apply mem_ok_store; [done|reflexivity|done|done|]. intros H. left. auto.
    + by rewrite view_store, He'.
Qed.

(** *** Flavors *)

(** The flavors from the [i]th on with what they have in use. *)
Fixpoint live (used : string * nat -> ResourceList) (c : string) (i : nat) (flavors : list FlavorQuota) : list FlavorQuota :=
  match flavors with
  | [] => []
  | fq :: flavors => mkFlavor (fq_Name fq) (fq_Resources fq) (used (c, i)) :: live used c (S i) flavors
  end.

Lemma live_ext (u u' : string * nat -> ResourceList) (c : string) (i : nat) (flavors : list FlavorQuota) :
  (forall j, i <= j -> u' (c, j) = u (c, j)) -> live u' c i flavors = live u c i flavors.
Proof.
  revert i. induction flavors as [|fq flavors IH]; intros i H; [done|]. cbn. rewrite H by lia. f_equal. apply IH.
  intros j Hj. apply H. lia.
Qed.

(** What the other cluster queues, and the flavors before the [i]th, have in use
    is as before. *)
Definition same_used (c : string) (i : nat) (u u' : string * nat -> ResourceList) : Prop :=
  forall a, a.1 <> c \/ a.2 < i -> u' a = u a.

Lemma same_used_insert (c : string) (i : nat) (u : string * nat -> ResourceList) (r : ResourceList) :
  same_used c i u (<[(c, i) := r]> u).
Proof. intros [c' j] Hj. apply fn_lookup_insert_ne. intros [= -> ->]. cbn in Hj. destruct Hj; [done|lia]. Qed.

Lemma runs_assign (now : Z) (c : string) (w : wloc) (req : ResourceList) (flavors : list FlavorQuota) (i : nat) (m : memory) :
  mem_ok m ->
  match assign_first req (live (sm_used m) c i flavors) with
  | None => runs (p_assign now c w req i flavors) m None (view_of m)
  | Some (name, flavors') =>
      exists u, same_used c i (sm_used m) u /\ live u c i flavors = flavors' /\
        runs (p_assign now c w req i flavors) m (Some name)
          (mkView (<[VWorkloads c := vw_lists (view_of m) (VWorkloads c) ++ [w]]> (vw_lists (view_of m))) u
             (<[w := w_admit name now (sm_heap m w)]> (sm_heap m)) (sm_wnext m))
  end.
Proof.
  intros Hm. revert i. induction flavors as [|fq flavors IH]; intros i; cbn [live assign_first p_assign].
  - by apply runs_ret.
  - destruct (CanFit _ req) eqn:Hf.
    + cbn [fq_Name]. eexists. split; [apply (same_used_insert c i _ (Add (sm_used m (c, i)) req))|]. split.
      { cbn [live]. rewrite fn_lookup_insert. f_equal. apply live_ext. intros j Hj.
        apply fn_lookup_insert_ne. intros [=]. lia. }
      apply runs_read; [done|]. cbn [do_access snd]. rewrite Hf. apply runs_read; [done|]. cbn [do_access snd].
      eapply runs_bind; [by apply runs_used|]. intros m1 Hm1 Hv1.
      eapply runs_bind; [by apply runs_field|]. intros m2 Hm2 Hv2.
      eapply runs_bind; [by apply runs_field|]. intros m3 Hm3 Hv3.
      eapply runs_bind; [by apply runs_field|]. intros m4 Hm4 Hv4.
      eapply runs_bind; [by apply runs_append|]. intros m5 Hm5 Hv5. apply runs_ret; [done|].
      rewrite Hv5, Hv4. change (sm_heap m3) with (vw_heap (view_of m3)). rewrite Hv3.
      change (sm_heap m2) with (vw_heap (view_of m2)). rewrite Hv2.
      change (sm_heap m1) with (vw_heap (view_of m1)). rewrite Hv1.
      unfold set_list, set_heap, set_used. cbn. by rewrite !fn_lookup_insert, !fn_insert_twice.
    + specialize (IH (S i)). destruct (assign_first req (live _ c (S i) flavors)) as [[name fl]|].
      * destruct IH as (u & Hu & <- & Hr). exists u. split; [|split].
        -- intros a Ha. apply Hu. destruct Ha; [by left|right; lia].
        -- cbn [live]. rewrite (Hu (c, i)); [done|right; cbn; lia].
        -- apply runs_read; [done|]. cbn [do_access snd]. by rewrite Hf.
      * apply runs_read; [done|]. cbn [do_access snd]. by rewrite Hf.
Qed.

Lemma runs_release (c : string) (w : wloc) (req : ResourceList) (flavors : list FlavorQuota) (i : nat) (m : memory) :
  mem_ok m ->
  exists u, same_used c i (sm_used m) u /\
    live u c i flavors = release_first (w_FlavorName (sm_heap m w)) req (live (sm_used m) c i flavors) /\
    runs (p_release c w req i flavors) m tt (mkView (vw_lists (view_of m)) u (sm_heap m) (sm_wnext m)).
Proof.
  intros Hm. revert i. induction flavors as [|fq flavors IH]; intros i; cbn [live release_first p_release].
  - exists (sm_used m). by split_and!; [|done|apply runs_ret].
  - cbn [fq_Name]. destruct (String.eqb (fq_Name fq) (w_FlavorName (sm_heap m w))) eqn:Hn.
    + eexists. split; [apply (same_used_insert c i _ (Sub (sm_used m (c, i)) req))|]. split.
      { rewrite fn_lookup_insert. f_equal. apply live_ext. intros j Hj.
        apply fn_lookup_insert_ne. intros [=]. lia. }
      apply runs_read; [done|]. cbn [do_access snd]. rewrite Hn. apply runs_read; [done|]. cbn [do_access snd].
      by apply runs_used.
    + destruct (IH (S i)) as (u & Hu & Hl & Hr). exists u. split; [|split].
      * intros a Ha. apply Hu. destruct Ha; [by left|right; lia].
      * rewrite Hl, (Hu (c, i)); [done|right; cbn; lia].
      * apply runs_read; [done|]. cbn [do_access snd]. by rewrite Hn.
Qed.

Lemma runs_find (name namespace : string) (s : slice) (n i : nat) (m : memory) :
  mem_ok m -> written (sm_cells m) s -> i + n = sl_len s ->
  runs (p_find name namespace s i n) m (find_workload (sm_heap m) namespace name (drop i (elems (sm_cells m) s))) (view_of m).
Proof.
  intros Hm Hw. pose proof (elems_length _ _ Hw) as Hl. revert i. induction n as [|n IH]; intros i Hi; cbn [p_find].
  - rewrite drop_ge by lia. by apply runs_ret.
  - apply runs_read; [done|]. cbn [do_access snd]. rewrite slice_at_lookup by done.
    destruct (lookup_lt_is_Some_2 (elems (sm_cells m) s) i) as [w Hx]; [lia|].
    rewrite Hx, (drop_S _ w) by done. cbn [or_crash prog_bind]. apply runs_read; [done|]. cbn [do_access snd].
    unfold find_workload at 1. cbn [find]. destruct (_ && _); [by apply runs_ret|]. apply IH. lia.
Qed.
End alone.

(** ** Lemmas: requests by themselves

    The scheduler of [Scheduler] that a view shows. *)

Section refine.
Context (cfg : Scheduler) (grow : nat -> nat).

Definition abs_cq (x : view) (c : string) (cq : ClusterQueue) : ClusterQueue :=
  mkCQ (cq_Name cq) (live (vw_used x) c 0 (cq_Flavors cq)) (vw_lists x (VWorkloads c)) (vw_lists x (VQueue c)).
Definition abs_lq (x : view) (key : string) (lq : LocalQueue) : LocalQueue :=
  mkLQ (lq_Name lq) (lq_Namespace lq) (lq_ClusterQueueName lq) (vw_lists x (VLocal key)).
Definition abs (x : view) : Scheduler :=
  mkScheduler (map_imap (fun c cq => Some (abs_cq x c cq)) (sc_clusterQueues cfg))
    (map_imap (fun key lq => Some (abs_lq x key lq)) (sc_localQueues cfg)) (vw_heap x).

Lemma abs_cqs (x : view) (c : string) :
  sc_clusterQueues (abs x) !! c = abs_cq x c <$> sc_clusterQueues cfg !! c.
Proof. cbn. rewrite map_lookup_imap. by destruct (sc_clusterQueues cfg !! c). Qed.

Lemma abs_lqs (x : view) (key : string) :
  sc_localQueues (abs x) !! key = abs_lq x key <$> sc_localQueues cfg !! key.
Proof. cbn. rewrite map_lookup_imap. by destruct (sc_localQueues cfg !! key). Qed.

Lemma abs_route (x : view) (key : string) :
  route key (abs x) =
  match route key cfg with
  | Ok (lq, cq) => Ok (abs_lq x key lq, abs_cq x (lq_ClusterQueueName lq) cq)
  | Err e => Err e
  | Panic => Panic
  end.
Proof.
  unfold route. rewrite abs_lqs. destruct (sc_localQueues cfg !! key) as [lq|]; [|done]. cbn [fmap option_fmap option_map].
  rewrite abs_cqs. cbn [abs_lq lq_ClusterQueueName]. by destruct (sc_clusterQueues cfg !! lq_ClusterQueueName lq).
Qed.

(** What [x] and [y] show differs in the cluster queue [c] and the heap only. *)
Record only_cq (c : string) (x y : view) : Prop := {
  oc_queue : forall c', c' <> c -> vw_lists y (VQueue c') = vw_lists x (VQueue c');
  oc_workloads : forall c', c' <> c -> vw_lists y (VWorkloads c') = vw_lists x (VWorkloads c');
  oc_local : forall key, vw_lists y (VLocal key) = vw_lists x (VLocal key);
  oc_used : forall c' i, c' <> c -> vw_used y (c', i) = vw_used x (c', i);
  oc_wnext : vw_wnext y = vw_wnext x
}.

Lemma only_cq_refl (c : string) (x : view) : only_cq c x x.
Proof. by split. Qed.

Lemma only_cq_trans (c : string) (x y z : view) : only_cq c x y -> only_cq c y z -> only_cq c x z.
Proof. intros [A1 A2 A3 A4 A5] [B1 B2 B3 B4 B5]. split; intros; [rewrite B1, A1|rewrite B2, A2|rewrite B3, A3|rewrite B4, A4|rewrite B5, A5]; done. Qed.

Lemma abs_put (c : string) (cq : ClusterQueue) (x y : view) :
  only_cq c x y -> sc_clusterQueues cfg !! c = Some cq -> abs y = put_cq c (abs_cq y c cq, vw_heap y) (abs x).
Proof.
  intros [Hq Hw Hl Hu _] Hc. unfold abs, put_cq. cbn [fst snd sc_clusterQueues sc_localQueues]. f_equal; apply map_eq; intros k.
  - rewrite map_lookup_imap. destruct (decide (k = c)) as [->|Hne]; [by rewrite lookup_insert_eq, Hc|].
    rewrite lookup_insert_ne, map_lookup_imap by done. destruct (sc_clusterQueues cfg !! k) as [q|]; [|done]. cbn.
    unfold abs_cq. rewrite Hq, Hw by done. do 2 f_equal. apply live_ext. intros j _. by apply Hu.
  - rewrite !map_lookup_imap. destruct (sc_localQueues cfg !! k) as [lq|]; [|done]. cbn. unfold abs_lq. by rewrite Hl.
Qed.

(** *** Operations on one cluster queue *)

Context (c : string) (cq : ClusterQueue).

(** By itself [p] ends with [a] and leaves the cluster queue [cq'] and the heap
    [h']; nothing else has changed. *)
Definition leaves {A : Type} (p : program A) (m : memory) (a : A) (r : ClusterQueue * wheap) : Prop :=
  exists m', k_exec grow p m = (m', Some a) /\ mem_ok m' /\ only_cq c (view_of m) (view_of m') /\
    (abs_cq (view_of m') c cq, sm_heap m') = r.

Lemma runs_leaves {A : Type} (p : program A) (m : memory) (a : A) (x : view) (r : ClusterQueue * wheap) :
  runs grow p m a x -> only_cq c (view_of m) x -> (abs_cq x c cq, vw_heap x) = r -> leaves p m a r.
Proof. intros (m' & He & Hm & <-) Ho Hr. by exists m'. Qed.

Lemma leaves_Enqueue (w : wloc) (m : memory) :
  mem_ok m -> leaves (p_Enqueue c w) m tt (Enqueue w (abs_cq (view_of m) c cq) (sm_heap m)).
Proof.
  intros Hm. pose proof (runs_Enqueue grow c w (abs_cq (view_of m) c cq) m Hm eq_refl) as Hr.
  unfold Enqueue in *. eapply runs_leaves; [exact Hr| |].
  - split; try done; intros; cbn; by rewrite fn_lookup_insert_ne by congruence.
  - unfold abs_cq. cbn. by rewrite fn_lookup_insert, fn_lookup_insert_ne.
Qed.

Lemma leaves_Dequeue (m : memory) :
  mem_ok m ->
  leaves (p_Dequeue c) m (Dequeue (abs_cq (view_of m) c cq)).2 ((Dequeue (abs_cq (view_of m) c cq)).1, sm_heap m).
Proof.
  intros Hm. pose proof (runs_Dequeue grow c m Hm) as Hr. unfold Dequeue. cbn [abs_cq cq_Queue].
  destruct (vw_lists (view_of m) (VQueue c)) as [|w q] eqn:Hq; cbn [fst snd];
    (eapply runs_leaves; [exact Hr| |]); [apply only_cq_refl|done| |].
  - split; try done; intros; cbn; by rewrite fn_lookup_insert_ne by congruence.
  - unfold abs_cq. cbn. by rewrite fn_lookup_insert, fn_lookup_insert_ne.
Qed.

Lemma leaves_AssignFlavor (now : Z) (w : wloc) (m : memory) :
  mem_ok m ->
  let r := AssignFlavor now w (abs_cq (view_of m) c cq) (sm_heap m) in
  leaves (p_AssignFlavor now c (cq_Flavors cq) w) m r.2 r.1.
Proof.
  intros Hm. cbv zeta. pose proof (runs_assign grow now c w (TotalRequests (sm_heap m w)) (cq_Flavors cq) 0 m Hm) as Hr.
  unfold AssignFlavor. cbn [abs_cq cq_Flavors]. change (vw_used (view_of m)) with (sm_used m).
  destruct (assign_first _ _) as [[name fl]|]; cbn [fst snd].
  - destruct Hr as (u & Hu & Hl & Hr). eapply runs_leaves.
    + unfold p_AssignFlavor. apply runs_read; [done|]. cbn [do_access snd]. exact Hr.
    + split; try done; intros; cbn; try (by rewrite fn_lookup_insert_ne by congruence). apply Hu. by left.
    + unfold abs_cq. cbn. by rewrite Hl, fn_lookup_insert, fn_lookup_insert_ne.
  - eapply runs_leaves; [|apply only_cq_refl|done]. unfold p_AssignFlavor. apply runs_read; [done|]. exact Hr.
Qed.

Lemma leaves_ReleaseWorkload (now : Z) (w : wloc) (m : memory) :
  mem_ok m ->
  leaves (p_ReleaseWorkload now c (cq_Flavors cq) w) m tt (ReleaseWorkload now w (abs_cq (view_of m) c cq) (sm_heap m)).
Proof.
  intros Hm. destruct (runs_release grow c w (TotalRequests (sm_heap m w)) (cq_Flavors cq) 0 m Hm) as (u & Hu & Hl & Hr).
  eapply runs_leaves.
  - unfold p_ReleaseWorkload. apply runs_read; [done|]. cbn [do_access snd].
    eapply runs_bind; [exact Hr|]. intros m1 Hm1 Hv1. eapply runs_bind; [by apply runs_field|]. intros m2 Hm2 Hv2.
    destruct (runs_field grow w (FFinishedAt now) m2 Hm2) as (m3 & He & Hm3 & Hv3). exists m3. split; [done|]. split; [done|].
    change (sm_heap m2) with (vw_heap (view_of m2)) in Hv3. rewrite Hv3, Hv2.
    change (sm_heap m1) with (vw_heap (view_of m1)). rewrite Hv1. reflexivity.
  - split; try done. intros c' i Hne. cbn. apply Hu. by left.
  - unfold abs_cq, ReleaseWorkload. cbn. by rewrite Hl, !fn_lookup_insert, fn_insert_twice.
Qed.

End refine.

Section requests_alone.
Context (cfg : Scheduler) (grow : nat -> nat).

(** *** A pass over one cluster queue *)

Context (c : string) (cq : ClusterQueue) (Hcq : sc_clusterQueues cfg !! c = Some cq).

Abbreviation now_cq m := (abs_cq (view_of m) c cq).

(** The thread gets from the job [j] to [j'] and leaves [r] in the cluster queue. *)
Definition gets (j : job) (m : memory) (j' : job) (r : ClusterQueue * wheap) : Prop :=
  exists m', k_alone cfg grow (Ret j, m) (Ret j', m') /\ mem_ok m' /\ only_cq c (view_of m) (view_of m') /\
    (now_cq m', sm_heap m') = r.

Lemma gets_trans (j1 j2 j3 : job) (m m1 : memory) (r : ClusterQueue * wheap) :
  k_alone cfg grow (Ret j1, m) (Ret j2, m1) -> only_cq c (view_of m) (view_of m1) -> gets j2 m1 j3 r -> gets j1 m j3 r.
Proof.
  intros Ha Ho (m' & Ha' & Hm & Ho' & Hr). exists m'. split; [by etrans|]. split; [done|]. split; [by eapply only_cq_trans|done].
Qed.

Lemma gets_drain (fuel : nat) (now : Z) (rest tr ad tr' ad' : list _) (cq' : ClusterQueue) (h' : wheap) (m : memory) :
  mem_ok m -> drain fuel now (now_cq m) (sm_heap m) tr ad = Some (cq', h', tr', ad') ->
  gets (JDrain now c rest tr ad) m (JRetry now c rest tr' ad') (cq', h').
Proof.
  revert m tr ad. induction fuel as [|fuel IH]; intros m tr ad Hm; cbn [drain]; [done|].
  destruct (leaves_Dequeue grow c cq m Hm) as (m1 & He1 & Hm1 & Ho1 & Hr1).
  destruct (Dequeue (now_cq m)) as [cq1 [w|]]; cbn [fst snd] in *; injection Hr1 as Hq1 Hh1.
  - destruct (leaves_AssignFlavor grow c cq now w m1 Hm1) as (m2 & He2 & Hm2 & Ho2 & Hr2). rewrite Hq1, Hh1 in *.
    destruct (AssignFlavor now w cq1 (sm_heap m)) as [[cq2 h2] a]. cbn [fst snd] in *. injection Hr2 as <- <-.
    assert (Hb : k_exec grow (body cfg (JDrain now c rest tr ad)) m = (m2, Some (match a with
      | None => JDrain now c rest (tr ++ [w]) ad | Some _ => JDrain now c rest tr (ad ++ [w]) end))).
    { cbn [body]. rewrite exec_bind, He1, exec_bind. unfold flavors_of. by rewrite Hcq, He2. }
    apply (alone_iteration (@do_access grow) (body cfg) answered) in Hb; [|done]. intros Hd.
    assert (Ho : only_cq c (view_of m) (view_of m2)) by by eapply only_cq_trans.
    destruct a as [name|]; (eapply gets_trans; [exact Hb|exact Ho|by apply IH]).
  - intros [= <- <- <- <-]. exists m1. split; [|by rewrite Hq1, Hh1].
    apply alone_iteration; [done|]. cbn [body]. by rewrite exec_bind, He1.
Qed.

Lemma gets_retry (now : Z) (rest : list string) (ws ad : list wloc) (m : memory) :
  mem_ok m ->
  exists m', k_alone cfg grow (Ret (JRetry now c rest ws ad), m) (Ret (next_cq cfg now rest ad), m') /\ mem_ok m' /\
    only_cq c (view_of m) (view_of m') /\ (now_cq m', sm_heap m') = enqueue_all ws (now_cq m) (sm_heap m).
Proof.
  revert m. induction ws as [|w ws IH]; intros m Hm; cbn [enqueue_all].
  - exists m. split; [by apply alone_iteration|]. split; [done|]. split; [apply only_cq_refl|done].
  - destruct (leaves_Enqueue grow c cq w m Hm) as (m1 & He1 & Hm1 & Ho1 & Hr1).
    destruct (Enqueue w (now_cq m) (sm_heap m)) as [cq1 h1]. injection Hr1 as <- <-.
    destruct (IH m1 Hm1) as (m2 & Ha2 & Hm2 & Ho2 & Hr2). exists m2. split_and!; [|done|by eapply only_cq_trans|done].
    etrans; [|exact Ha2]. apply alone_iteration; [done|]. cbn [body]. by rewrite exec_bind, He1.
Qed.

Lemma pass_cq (fuel : nat) (now : Z) (rest : list string) (ad ad' : list wloc) (cq' : ClusterQueue) (h' : wheap) (m : memory) :
  mem_ok m -> schedule_cq fuel now (now_cq m) (sm_heap m) ad = Some (cq', h', ad') ->
  exists m', k_alone cfg grow (Ret (JDrain now c rest [] ad), m) (Ret (next_cq cfg now rest ad'), m') /\ mem_ok m' /\
    only_cq c (view_of m) (view_of m') /\ (now_cq m', sm_heap m') = (cq', h').
Proof.
  intros Hm. unfold schedule_cq. destruct (drain _ _ _ _ _ _) as [[[[cq1 h1] tr] ad1]|] eqn:Hd; [|done].
  destruct (gets_drain fuel now rest _ _ _ _ _ _ m Hm Hd) as (m1 & Ha1 & Hm1 & Ho1 & [= <- <-]).
  destruct (gets_retry now rest tr ad1 m1 Hm1) as (m2 & Ha2 & Hm2 & Ho2 & Hr2). rewrite <- Hr2. intros [= <- <- <-].
  exists m2. split; [by etrans|]. split; [done|]. split; [by eapply only_cq_trans|done].
Qed.

End requests_alone.

(** *** Whole requests *)

(** The handlers of [Controller]; [l] is the location of a new workload. *)
Definition serve (fuel : nat) (r : request) (l : wloc) (s : Scheduler) : option (Scheduler * answer) :=
  match r with
  | RSubmit now req => let '(s', code) := handleSubmit now l req s in Some (s', AStatus code)
  | RSchedule now order =>
      match handleSchedule fuel now order s with Some (s', admitted) => Some (s', AAdmitted admitted) | None => None end
  | RFinish now name namespace queueName =>
      let '(s', code) := handleFinish now name namespace queueName s in Some (s', AStatus code)
  | RStatus => Some (s, APage (Status_page s))
  end.

Section serve.
Context (cfg : Scheduler) (grow : nat -> nat).

(** The request [r] by itself has the answer [a] and leaves [s]. *)
Definition answers (p : program job) (m : memory) (s : Scheduler) (a : answer) : Prop :=
  exists m', k_alone cfg grow (p, m) (Ret (JAnswer a), m') /\ mem_ok m' /\ abs cfg (view_of m') = s.

Lemma exec_answers (p : program answer) (m m' : memory) (a : answer) (s : Scheduler) :
  k_exec grow p m = (m', Some a) -> mem_ok m' -> abs cfg (view_of m') = s ->
  answers (a <-~ p; Ret (JAnswer a)) m s a.
Proof. intros He Hm Hs. exists m'. split; [|done]. apply alone_exec. by rewrite exec_bind, He. Qed.

Lemma abs_local (x : view) (key : string) (lq : LocalQueue) (l : list wloc) :
  sc_localQueues cfg !! key = Some lq ->
  abs cfg (set_list (VLocal key) l x) =
  mkScheduler (sc_clusterQueues (abs cfg x))
    (<[key := mkLQ (lq_Name lq) (lq_Namespace lq) (lq_ClusterQueueName lq) l]> (sc_localQueues (abs cfg x))) (vw_heap x).
Proof.
  intros Hk. unfold abs. cbn [sc_clusterQueues sc_localQueues]. f_equal. apply map_eq. intros k.
  rewrite map_lookup_imap. destruct (decide (k = key)) as [->|Hne].
  - rewrite lookup_insert_eq, Hk. cbn. unfold abs_lq. cbn. by rewrite fn_lookup_insert.
  - rewrite lookup_insert_ne, map_lookup_imap by done. destruct (sc_localQueues cfg !! k) as [q|]; [|done]. cbn.
    unfold abs_lq. cbn. by rewrite fn_lookup_insert_ne by congruence.
Qed.

Lemma exec_Submit (l : wloc) (m : memory) :
  let key := w_Namespace (sm_heap m l) +:+ "/" +:+ w_QueueName (sm_heap m l) in
  k_exec grow (p_Submit cfg l) m =
  k_exec grow match route key cfg with
    | Ok (lq, _) => p_Enqueue (lq_ClusterQueueName lq) l ;;~ p_append (VLocal key) l ;;~ Ret (AStatus 200)
    | _ => Ret (AStatus 400)
    end m.
Proof. done. Qed.

Lemma submit_alone (fuel : nat) (now : Z) (req : SubmitReq) (m : memory) :
  mem_ok m ->
  exists s a, serve fuel (RSubmit now req) (sm_wnext m) (abs cfg (view_of m)) = Some (s, a) /\
    answers (start cfg (RSubmit now req)) m s a.
Proof.
  intros Hm. cbn [serve start]. unfold handleSubmit, p_handleSubmit. cbv zeta. set (wl := NewWorkload _ _ _ _ _ _ _).
  set (m1 := with_heap (<[sm_wnext m := wl]> (sm_heap m)) (S (sm_wnext m)) m).
  assert (Hm1 : mem_ok m1) by (destruct Hm; by split).
  assert (Hs1 : mkScheduler (sc_clusterQueues (abs cfg (view_of m))) (sc_localQueues (abs cfg (view_of m)))
    (<[sm_wnext m := wl]> (sc_heap (abs cfg (view_of m)))) = abs cfg (view_of m1)) by done.
  rewrite Hs1. unfold Submit. change (sc_heap (abs cfg (view_of m1))) with (sm_heap m1).
  set (key := w_Namespace (sm_heap m1 (sm_wnext m)) +:+ _). rewrite abs_route.
  destruct (route key cfg) as [[lq cq]|e|] eqn:Hr.
  - pose proof Hr as [Hk Hcq]%route_Ok. set (c := lq_ClusterQueueName lq) in *.
    destruct (leaves_Enqueue grow c cq (sm_wnext m) m1 Hm1) as (m2 & He2 & Hm2 & Ho2 & Hr2).
    cbn [lq_ClusterQueueName abs_lq]. fold c.
    destruct (Enqueue (sm_wnext m) _ (sm_heap m1)) as [cq' h'] eqn:Hen. injection Hr2 as Hcq' Hh'.
    destruct (runs_append grow (VLocal key) (sm_wnext m) m2 Hm2) as (m3 & He3 & Hm3 & Hv3).
    eexists _, _. split; [reflexivity|]. apply (exec_answers _ m m3).
    + etrans; [apply (exec_Submit (sm_wnext m) m1)|]. fold key. rewrite Hr. fold c. rewrite exec_bind, He2, exec_bind, He3. done.
    + done.
    + rewrite Hv3, (abs_local _ _ lq), (oc_local _ _ _ Ho2), (abs_put cfg c cq _ _ Ho2 Hcq), Hcq' by done.
      change (vw_heap (view_of m2)) with (sm_heap m2). by rewrite Hh'.
  - eexists _, _. split; [reflexivity|]. apply (exec_answers _ m m1); [|done|done].
    etrans; [apply (exec_Submit (sm_wnext m) m1)|]. fold key. by rewrite Hr.
  - eexists _, _. split; [reflexivity|]. apply (exec_answers _ m m1); [|done|done].
    etrans; [apply (exec_Submit (sm_wnext m) m1)|]. fold key. by rewrite Hr.
Qed.

Lemma finish_alone (fuel : nat) (now : Z) (name namespace queueName : string) (m : memory) :
  mem_ok m ->
  exists s a, serve fuel (RFinish now name namespace queueName) (sm_wnext m) (abs cfg (view_of m)) = Some (s, a) /\
    answers (start cfg (RFinish now name namespace queueName)) m s a.
Proof.
  intros Hm. cbn [serve start]. unfold handleFinish, FinishByName, p_FinishByName. rewrite abs_route.
  destruct (route _ cfg) as [[lq cq]|e|] eqn:Hr;
    [|eexists _, _; (split; [reflexivity|]); by apply (exec_answers _ m m)..].
  pose proof Hr as [Hk Hcq]%route_Ok. cbn [lq_ClusterQueueName abs_lq cq_Workloads abs_cq]. set (c := lq_ClusterQueueName lq) in *.
  change (sc_heap (abs cfg (view_of m))) with (sm_heap m).
  destruct (runs_find grow name namespace (sm_slices m (VWorkloads c)) (sl_len (sm_slices m (VWorkloads c))) 0 m)
    as (m1 & He1 & Hm1 & Hv1); [done|apply (mo_slices _ Hm)|done|]. rewrite drop_0 in He1.
  change (vw_lists (view_of m) (VWorkloads c)) with (elems (sm_cells m) (sm_slices m (VWorkloads c))).
  destruct (find_workload _ _ _ _) as [w|] eqn:Hfind.
  - destruct (leaves_ReleaseWorkload grow c cq now w m1 Hm1) as (m2 & He2 & Hm2 & Ho2 & Hr2).
    change (sm_heap m1) with (vw_heap (view_of m1)) in Hr2. rewrite Hv1 in *.
    eexists _, _. split; [reflexivity|]. apply (exec_answers _ m m2); [|done|].
    + fold c. rewrite (exec_read (@do_access grow)) by done. cbn [do_access snd]. rewrite exec_bind, He1, exec_bind. unfold flavors_of. by rewrite Hcq, He2.
    + rewrite (abs_put cfg c cq _ _ Ho2 Hcq). change (vw_heap (view_of m2)) with (sm_heap m2). by rewrite Hr2.
  - eexists _, _. split; [reflexivity|]. apply (exec_answers _ m m1); [|done|by rewrite Hv1].
    fold c. rewrite (exec_read (@do_access grow)) by done. cbn [do_access snd]. by rewrite exec_bind, He1.
Qed.

Lemma pass_all (fuel : nat) (now : Z) (order : list string) (ad ad' : list wloc) (s : Scheduler) (m : memory) :
  mem_ok m -> schedule_all fuel now order (abs cfg (view_of m)) ad = Some (s, ad') ->
  answers (Ret (next_cq cfg now order ad)) m s (AAdmitted ad').
Proof.
  revert m ad. induction order as [|c order IH]; intros m ad Hm; cbn [schedule_all next_cq].
  - intros [= <- <-]. exists m. split; [apply rtc_refl|done].
  - rewrite abs_cqs. destruct (sc_clusterQueues cfg !! c) as [cq|] eqn:Hc; cbn [fmap option_fmap option_map]; [|by apply IH].
    change (sc_heap (abs cfg (view_of m))) with (sm_heap m).
    destruct (schedule_cq _ _ _ _ _) as [[[cq' h'] ad1]|] eqn:Hs; [|done].
    destruct (pass_cq cfg grow c cq Hc fuel now order ad ad1 cq' h' m Hm Hs) as (m1 & Ha & Hm1 & Ho & [= <- <-]).
    pose proof (abs_put cfg c cq _ _ Ho Hc) as Hput. unfold put_cq in Hput. cbn [fst snd] in Hput.
    change (vw_heap (view_of m1)) with (sm_heap m1) in Hput. rewrite <- Hput. intros H.
    destruct (IH m1 ad1 Hm1 H) as (m2 & Ha2 & Hr). exists m2. split; [by etrans|done].
Qed.

(** A status page, which changes nothing. *)
Lemma exec_flavor_lines (c : string) (flavors : list FlavorQuota) (i : nat) (m : memory) :
  k_exec grow (p_flavor_lines c i flavors) m = (m, Some (map flavor_shown (live (sm_used m) c i flavors))).
Proof. revert i. induction flavors as [|fq flavors IH]; intros i; cbn; [done|]. by rewrite exec_bind, IH. Qed.

Lemma exec_Status (names : list string) (m : memory) :
  mem_ok m ->
  k_exec grow (p_Status cfg names) m =
  (m, Some (omap (fun name => queue_shown <$> sc_clusterQueues (abs cfg (view_of m)) !! name) names)).
Proof.
  intros Hm. induction names as [|c names IH]; [done|]. cbn [p_Status omap list_omap]. rewrite abs_cqs.
  destruct (sc_clusterQueues cfg !! c) as [cq|]; cbn [fmap option_fmap option_map]; [|exact IH].
  rewrite exec_bind, exec_flavor_lines, !exec_acc. cbn [do_access fst snd]. rewrite exec_bind, IH. cbn [exec]. do 3 f_equal.
  unfold queue_shown. cbn. by rewrite !elems_length by apply Hm.
Qed.

(** The names on the page are those of the configuration. *)
Lemma abs_names (x : view) : sorted_names (abs cfg x) = sorted_names cfg.
Proof.
  apply sorted_names_dom. apply set_eq. intros c. rewrite !elem_of_dom, abs_cqs. by rewrite fmap_is_Some.
Qed.

Lemma status_alone (fuel : nat) (m : memory) :
  mem_ok m ->
  exists s a, serve fuel RStatus (sm_wnext m) (abs cfg (view_of m)) = Some (s, a) /\ answers (start cfg RStatus) m s a.
Proof.
  intros Hm. eexists _, _. split; [reflexivity|]. exists m. split; [|done]. apply alone_exec.
  cbn [start]. rewrite exec_bind, exec_Status by done. cbn [exec]. unfold Status_page. by rewrite abs_names.
Qed.

End serve.

(** *** A pass always ends *)

Lemma drain_total (fuel : nat) (now : Z) (cq : ClusterQueue) (h : wheap) (tr ad : list wloc) :
  length (cq_Queue cq) < fuel ->
  exists cq' h' tr' ad', drain fuel now cq h tr ad = Some (cq', h', tr', ad') /\
    cq_Queue cq' = [] /\ length tr' <= length tr + length (cq_Queue cq).
Proof.
  revert cq h tr ad. induction fuel as [|fuel IH]; intros cq h tr ad Hf; [lia|]. cbn [drain].
  unfold Dequeue. destruct (cq_Queue cq) as [|l q] eqn:Hq; [eexists _, _, _, _; split; [done|]; split; [done|lia]|]. cbn in Hf.
  destruct (AssignFlavor _ _ _ _) as [[cq2 h2] o] eqn:Ha. apply AssignFlavor_queue in Ha. cbn in Ha.
  destruct o; (edestruct (IH cq2 h2) as (cq' & h' & tr' & ad' & Hd & He & Hl); [rewrite Ha; lia|]);
    (eexists _, _, _, _; split; [exact Hd|]; split; [done|]); rewrite Ha in Hl; rewrite ?length_app in Hl; cbn in *; lia.
Qed.

Lemma enqueue_all_length (ws : list wloc) (cq : ClusterQueue) (h : wheap) :
  length (cq_Queue (enqueue_all ws cq h).1) = length (cq_Queue cq) + length ws.
Proof.
  revert cq h. induction ws as [|w ws IH]; intros cq h; cbn [enqueue_all]; [cbn; lia|].
  unfold Enqueue. rewrite IH. cbn [cq_Queue length].
  destruct (sortQueue_spec (<[w := w_pend (h w)]> h) (cq_Queue cq ++ [w])) as (Hp & _). rewrite Hp, length_app. cbn. lia.
Qed.

Lemma schedule_cq_total (fuel : nat) (now : Z) (cq : ClusterQueue) (h : wheap) (ad : list wloc) :
  length (cq_Queue cq) < fuel ->
  exists cq' h' ad', schedule_cq fuel now cq h ad = Some (cq', h', ad') /\ length (cq_Queue cq') <= length (cq_Queue cq).
Proof.
  intros Hf. unfold schedule_cq. destruct (drain_total fuel now cq h [] ad Hf) as (cq1 & h1 & tr & ad1 & -> & Hq & Hl).
  pose proof (enqueue_all_length tr cq1 h1) as He. destruct (enqueue_all tr cq1 h1) as [cq2 h2].
  eexists _, _, _. split; [done|]. cbn in *. rewrite He, Hq. cbn. lia.
Qed.

(** No pending queue is as long as [fuel]. *)
Definition short (fuel : nat) (s : Scheduler) : Prop :=
  forall c cq, GetClusterQueue c s = Some cq -> length (cq_Queue cq) < fuel.

Lemma schedule_total (fuel : nat) (now : Z) (order : list string) (s : Scheduler) (ad : list wloc) :
  short fuel s -> is_Some (schedule_all fuel now order s ad).
Proof.
  revert s ad. induction order as [|c order IH]; intros s ad Hs; cbn [schedule_all]; [by eexists|].
  destruct (sc_clusterQueues s !! c) as [cq|] eqn:Hc; [|by apply IH].
  destruct (schedule_cq_total fuel now cq (sc_heap s) ad (Hs c cq Hc)) as (cq' & h' & ad' & -> & Hl).
  apply IH. intros c' q. unfold GetClusterQueue. cbn. destruct (decide (c = c')) as [<-|Hne].
  - rewrite lookup_insert_eq. intros [= <-]. specialize (Hs c cq Hc). lia.
  - rewrite lookup_insert_ne by done. apply Hs.
Qed.

(** *** Requests of the configured controller, one at a time *)

Definition no_workloads : wheap := fun _ => NewWorkload 0 "" "" "" ∅ 0 0.

(** The configured queues, and the memory [main] starts with. *)
Definition main_cfg : Scheduler := main_scheduler no_workloads.
Definition main_memory : memory := mkMem ∅ 0 (fun _ => nil_slice) (fun _ => ∅) no_workloads 0.

(** What the memory shows as a state of [Controller]. *)
Definition shown (m : memory) : Scheduler := abs main_cfg (view_of m).

(** Each request is received when the one before it is answered. *)
Inductive one_at_a_time (grow : nat -> nat) : memory -> Prop :=
| one_main : one_at_a_time grow main_memory
| one_more m m' r a : one_at_a_time grow m ->
    k_alone main_cfg grow (start main_cfg r, m) (Ret (JAnswer a), m') -> one_at_a_time grow m'.

Lemma main_memory_ok : mem_ok main_memory.
Proof. split; cbn; [intros v; apply nil_slice_ok|intros; lia]. Qed.

Lemma main_shown : shown main_memory = main_cfg.
Proof. reflexivity. Qed.

Lemma request_alone (cfg : Scheduler) (grow : nat -> nat) (fuel : nat) (r : request) (m : memory) :
  mem_ok m -> short fuel (abs cfg (view_of m)) ->
  exists s a, serve fuel r (sm_wnext m) (abs cfg (view_of m)) = Some (s, a) /\ answers cfg grow (start cfg r) m s a.
Proof.
  intros Hm Hf. destruct r as [now req|now order|now name namespace queueName|].
  - by apply submit_alone.
  - destruct (schedule_total fuel now order _ [] Hf) as [[s ad] Hs]. exists s, (AAdmitted ad).
    split; [cbn; unfold handleSchedule, Schedule; by rewrite Hs|]. by eapply pass_all.
  - by apply finish_alone.
  - by apply status_alone.
Qed.

Lemma serve_step (fuel : nat) (r : request) (l : wloc) (s s' : Scheduler) (a : answer) :
  serve fuel r l s = Some (s', a) -> ctrl_step s s'.
Proof.
  destruct r as [now req|now order|now name namespace queueName|]; cbn.
  - destruct (handleSubmit now l req s) as [s1 code] eqn:H. intros [= <- <-].
    pose proof (cstep_submit s now l req) as Hc. by rewrite H in Hc.
  - destruct (handleSchedule fuel now order s) as [[s1 ad]|] eqn:H; [|done]. intros [= <- <-]. by eapply cstep_schedule.
  - destruct (handleFinish now name namespace queueName s) as [s1 code] eqn:H. intros [= <- <-].
    pose proof (cstep_finish s now name namespace queueName) as Hc. by rewrite H in Hc.
  - intros [= <- _]. apply (cstep_status s (fun _ => "")).
Qed.

Lemma short_exists (s : Scheduler) : exists fuel, short fuel s.
Proof.
  exists (S (map_fold (fun _ cq n => length (cq_Queue cq) + n) 0 (sc_clusterQueues s))). unfold short, GetClusterQueue.
  apply (map_fold_weak_ind (fun n (m : gmap string ClusterQueue) =>
    forall c cq, m !! c = Some cq -> length (cq_Queue cq) < S n)); [by intros c cq H; rewrite lookup_empty in H|].
  intros i x m n Hi IH c cq. destruct (decide (i = c)) as [<-|Hne].
  - rewrite lookup_insert_eq. intros [= ->]. lia.
  - rewrite lookup_insert_ne by done. intros H%IH. lia.
Qed.

Lemma one_at_a_time_ok (grow : nat -> nat) (m : memory) : one_at_a_time grow m -> mem_ok m /\ served (shown m).
Proof.
  induction 1 as [|m m' r a _ [Hm Hs] Ha]; [split; [apply main_memory_ok|rewrite main_shown; by exists no_workloads]|].
  destruct (short_exists (shown m)) as [fuel Hf].
  destruct (request_alone main_cfg grow fuel r m Hm Hf) as (s & a' & Hserve & m1 & Ha1 & Hm1 & <-).
  pose proof (alone_unique _ _ _ _ _ _ Ha Ha1 eq_refl eq_refl) as [= <- <-]. split; [done|].
  destruct Hs as [h Hs]. exists h. eapply rtc_r; [exact Hs|]. by eapply serve_step.
Qed.

(** ** Properties *)

(** C6: requests that do not overlap are served as [Controller] serves them.  In
    every memory the configured controller gets to when each request comes after
    the answer to the last, the memory shows a state of [Controller]; and there
    every request, taken access by access through shared arrays, ends, with the
    answer and the state of its handler, one more unit of fuel than the longest
    queue has workloads being enough for the handler. *)
Theorem requests_one_at_a_time (grow : nat -> nat) (m : memory) (fuel : nat) (r : request) :
  one_at_a_time grow m -> short fuel (shown m) ->
  served (shown m) /\
  exists m' a, k_alone main_cfg grow (start main_cfg r, m) (Ret (JAnswer a), m') /\
    serve fuel r (sm_wnext m) (shown m) = Some (shown m', a).
Proof.
  intros [Hm Hs]%one_at_a_time_ok Hf. split; [done|].
  destruct (request_alone main_cfg grow fuel r m Hm Hf) as (s & a & Hserve & m1 & Ha1 & _ & <-). by exists m1, a.
Qed.

(** A scheduling pass that nothing interferes with is the pass of the
    sequential scheduler. *)
Theorem pass_alone (cfg : Scheduler) (grow : nat -> nat) (fuel : nat) (now : Z) (order : list string) (m : memory) :
  mem_ok m -> short fuel (abs cfg (view_of m)) ->
  exists s admitted, Schedule fuel now order (abs cfg (view_of m)) = Some (s, admitted) /\
    answers cfg grow (start cfg (RSchedule now order)) m s (AAdmitted admitted).
Proof.
  intros Hm Hf. destruct (schedule_total fuel now order _ [] Hf) as [[s ad] Hs]. exists s, ad. split; [done|by eapply pass_all].
Qed.

(** The room a new array of up to 256 elements has: it doubles. *)
Definition doubling (n : nat) : nat := n - 1.

(** A job is submitted, and then a pass is asked for. *)
Definition first_job : SubmitReq :=
  mkSubmitReq "a" "" "default" (resources [(ResourceCPU, 6); (ResourceMemory, 1)]%Z) 0 0.

Definition after_first : memory := (k_exec doubling (start main_cfg (RSubmit 0 first_job)) main_memory).1.

Lemma after_first_reached : one_at_a_time doubling after_first.
Proof.
  eapply (one_more _ main_memory _ (RSubmit 0 first_job) (AStatus 200)); [constructor|]. apply alone_exec.
  vm_compute. reflexivity.
Qed.

Lemma requests_one_at_a_time_witness :
  exists m', serve 2 (RSchedule 1 ["dev-queue"; "prod-queue"]) (sm_wnext after_first) (shown after_first) =
    Some (shown m', AAdmitted [0]).
Proof.
  assert (Hf : gmap_all (fun _ cq => length (cq_Queue cq) <? 2) (sc_clusterQueues (shown after_first)) = true) by (vm_compute; reflexivity).
  rewrite gmap_all_spec in Hf.
  destruct (requests_one_at_a_time doubling after_first 2 (RSchedule 1 ["dev-queue"; "prod-queue"]) after_first_reached)
    as (_ & m' & a & _ & Hs).
  - intros c cq Hc. apply Nat.ltb_lt. by apply (Hf c).
  - exists m'. rewrite Hs.
    assert (Ha : snd <$> serve 2 (RSchedule 1 ["dev-queue"; "prod-queue"]) (sm_wnext after_first) (shown after_first) =
      Some (AAdmitted [0])) by (vm_compute; reflexivity).
    rewrite Hs in Ha. cbn in Ha. by injection Ha as ->.
Defined.
