(* ===== verification/KueueLost.v ===== *)
(** * A workload that is in no cluster queue stays out: over [KueueThreads]

    When a workload is in no cluster queue and no request in flight holds it, it
    is never seen again: whatever requests come and however they interleave, none
    puts it into a queue, admits it or finishes it.  The proof is by rely and
    guarantee, with the values a program holds in its postconditions. *)

From S2P Require Import Prelude.
From S2P Require Import Float64.
From S2P Require Import GoSlice.
From S2P Require Import GoThreads.
From S2P Require Import KueueTypes.
From S2P Require Import Scheduler.
From S2P Require Import Controller.
From S2P Require Import KueueThreads.
From S2P Require Import KueueAlone.
Open Scope go_scope.

Section lost.
Context (cfg : Scheduler) (grow : nat -> nat) (l : wloc).

Abbreviation clear m s := (slice_clear (sm_cells m) (sm_next m) l s).

(** No cluster queue has the workload pending or admitted. *)
Definition forgotten (s : Scheduler) : Prop := map_Forall (fun _ cq => l ∉ cq_locs cq) (sc_clusterQueues s).

Definition configured (c : string) : Prop := is_Some (sc_clusterQueues cfg !! c).

(** The workload exists, and no cluster queue shows it. *)
Record out (m : memory) : Prop := {
  ou_old : l < sm_wnext m;
  ou_queue : forall c, configured c -> clear m (sm_slices m (VQueue c));
  ou_workloads : forall c, configured c -> clear m (sm_slices m (VWorkloads c))
}.

(** What every access keeps. *)
Record keep (m m' : memory) : Prop := {
  ke_more : no_more (sm_cells m) (sm_cells m') (sm_next m) (sm_next m') l;
  ke_heap : sm_heap m' l = sm_heap m l;
  ke_out : out m -> out m'
}.

#[local] Instance keep_preorder : PreOrder keep.
Proof.
  split; [split; [apply no_more_refl|done|done]|]. intros m1 m2 m3 [A1 A2 A3] [B1 B2 B3].
  split; [by eapply no_more_trans|by rewrite B2|auto].
Qed.

Lemma clear_keep (m m' : memory) (s : slice) : keep m m' -> clear m s -> clear m' s.
Proof. intros [H _ _]. by apply slice_clear_keep. Qed.

(** ** Accesses *)

Lemma keep_heap (m : memory) (u : string * nat -> ResourceList) (h : wheap) (n : wloc) :
  sm_wnext m <= n -> h l = sm_heap m l -> keep m (mkMem (sm_cells m) (sm_next m) (sm_slices m) u h n).
Proof. intros Hn Hh. split; cbn; [apply no_more_refl|done|]. intros [H1 H2 H3]. split; cbn; [lia|done|done]. Qed.

Lemma keep_cells (m : memory) (c : gmap (nat * nat) wloc) (n : nat) :
  no_more (sm_cells m) c (sm_next m) n l -> keep m (with_cells c n m).
Proof.
  intros Hn. split; cbn; [done|done|].
  intros [H1 H2 H3]. split; cbn; [done|intros c' Hc; eapply slice_clear_keep; eauto..].
Qed.

Lemma keep_store (m : memory) (v : svar) (s : slice) :
  (clear m s \/ exists key, v = VLocal key) -> keep m (with_slice v s m).
Proof.
  intros Hs. split; cbn; [apply no_more_refl|done|]. intros [H1 H2 H3]. split; cbn; [done| |]; intros c Hc;
    [destruct (decide (v = VQueue c)) as [->|Hne]|destruct (decide (v = VWorkloads c)) as [->|Hne]];
    rewrite ?fn_lookup_insert, ?fn_lookup_insert_ne by done; auto; by destruct Hs as [Hs|[key Hs]].
Qed.

Lemma keep_append (m : memory) (s s' : slice) (w : wloc) (c : gmap (nat * nat) wloc) (n : nat) :
  w <> l -> slice_append grow s w (sm_cells m) (sm_next m) = (s', c, n) -> keep m (with_cells c n m).
Proof. intros Hw Ha. apply keep_cells. by eapply slice_append_no_more. Qed.

Lemma keep_put (m : memory) (s : slice) (i : nat) (w : wloc) : w <> l -> keep m (do_access grow (WrSlot s i w) m).1.
Proof.
  intros Hw. cbn. destruct (slice_put s i w (sm_cells m)) as [c|] eqn:Hp; [|reflexivity].
  apply keep_cells. by eapply slice_put_no_more.
Qed.

(** ** Programs *)

Abbreviation calm p Q m := (safe (@do_access grow) True keep keep p Q m).

(** An access that keeps, before more of the program. *)
Lemma calm_acc {A X : Type} (e : access X) (f : X -> program A) (Q : A -> memory -> Prop) (m : memory) :
  out m -> keep m (do_access grow e m).1 ->
  (forall m', out m' -> keep (do_access grow e m).1 m' -> calm (f (do_access grow e m).2) Q m') -> calm (prog_bind (acc e) f) Q m.
Proof.
  intros Ho Hk Hf. apply safe_acc; [done|]. intros m' Hm'. apply Hf; [|done]. by apply (ke_out _ _ Hm'), (ke_out _ _ Hk).
Qed.

Lemma calm_last {X : Type} (e : access X) (m : memory) :
  out m -> keep m (do_access grow e m).1 -> calm (acc e) (fun _ => out) m.
Proof. intros Ho Hk. split; [done|]. intros m' Hm'. by apply (ke_out _ _ Hm'), (ke_out _ _ Hk). Qed.

Definition v_configured (v : svar) : Prop :=
  match v with VQueue c | VWorkloads c => configured c | VLocal _ => True end.

Lemma calm_append (v : svar) (w : wloc) (m : memory) :
  v_configured v -> out m -> w <> l -> calm (p_append v w) (fun _ => out) m.
Proof.
  intros Hv Ho Hw. apply calm_acc; [done|reflexivity|]. cbn [do_access fst snd]. intros m1 Ho1 Hk1.
  assert (Hs : clear m1 (sm_slices m v) \/ exists key, v = VLocal key).
  { destruct v as [c|c|key]; [left|left|right; by exists key]; (eapply clear_keep; [done|]); by apply Ho. }
  apply calm_acc; [done| |]; cbn [do_access]; destruct (slice_append grow _ _ _ _) as [[s' c] n] eqn:Ha; cbn [fst snd];
    [by eapply keep_append|]. intros m2 Ho2 Hk2. apply calm_last; [done|]. apply keep_store.
  destruct Hs as [Hs|Hs]; [left|by right]. eapply clear_keep; [exact Hk2|]. by eapply slice_append_clear.
Qed.

(** Goes through accesses to fields and the heap. *)
Ltac calm_step := apply calm_acc;
  [assumption|first [reflexivity|apply keep_heap; [done|done || by apply fn_lookup_insert_ne]]|cbn [do_access fst snd]; intros].

(** The element of a slice that does not show the workload is another one. *)
Lemma calm_at {A : Type} (s : slice) (i : nat) (f : wloc -> program A) (Q : A -> memory -> Prop) (m : memory) :
  out m -> clear m s -> (forall w m', out m' -> keep m m' -> w <> l -> calm (f w) Q m') ->
  calm (prog_bind (p_at s i) f) Q m.
Proof.
  intros Ho Hs Hf. unfold p_at. apply safe_bind. apply calm_acc; [done|reflexivity|]. cbn [do_access fst snd]. intros m1 Ho1 Hk1.
  destruct (slice_at _ s i) as [w|] eqn:Hw; [|done]. cbn [or_crash]. apply Hf; [done|done|]. by eapply slice_clear_at.
Qed.

Lemma calm_less (c : string) (i j : nat) (m : memory) : configured c -> out m -> calm (p_less c i j) (fun _ => out) m.
Proof.
  intros Hc Ho. calm_step. apply calm_at; [done|eapply clear_keep; [done|by apply ou_queue]|]. intros a m2 Ho2 _ Ha.
  calm_step. apply calm_at; [done|eapply clear_keep; [done|by apply ou_queue]|]. intros b m4 Ho4 _ Hb.
  calm_step. by calm_step.
Qed.

Lemma calm_put (s : slice) (i : nat) (w : wloc) (m : memory) :
  out m -> w <> l -> calm (o <-~ acc (WrSlot s i w); or_crash o) (fun _ => out) m.
Proof.
  intros Ho Hw. apply calm_acc; [done|by apply keep_put|]. intros m1 Ho1 _. cbn [do_access snd].
  by destruct (slice_put s i w (sm_cells m)).
Qed.

Lemma calm_swap (s : slice) (i j : nat) (m : memory) : out m -> clear m s -> calm (p_swap s i j) (fun _ => out) m.
Proof.
  intros Ho Hs. apply calm_at; [done|done|]. intros a m1 Ho1 Hk1 Ha.
  apply calm_at; [done|by eapply clear_keep|]. intros b m2 Ho2 Hk2 Hb.
  pose proof (calm_put s i b m2 Ho2 Hb) as Hp. rewrite <- prog_bind_assoc. apply safe_bind. eapply safe_mono; [|exact Hp].
  intros ? m3 Ho3. by apply calm_put.
Qed.

(** The slice that is sorted stays clear of the workload. *)
Lemma calm_clear {A B : Type} (s : slice) (p : program A) (f : A -> program B) (Q : B -> memory -> Prop) (m : memory) :
  clear m s -> calm p (fun _ => out) m -> (forall a m', out m' -> clear m' s -> calm (f a) Q m') -> calm (prog_bind p f) Q m.
Proof.
  intros Hs Hp Hf. apply safe_bind. eapply safe_mono; [|apply (safe_track (@do_access grow) True keep keep keep); [done|done|exact Hp]].
  intros a m' [Ho Hk]. apply Hf; [done|]. by eapply clear_keep.
Qed.

Lemma calm_sift (c : string) (s : slice) (j : nat) (m : memory) :
  configured c -> out m -> clear m s -> calm (p_sift c s j) (fun _ => out) m.
Proof.
  intros Hc. revert m. induction j as [|j IH]; intros m Ho Hs; cbn [p_sift]; [done|].
  apply (calm_clear s); [done|by apply calm_less|]. intros lt m1 Ho1 Hs1. destruct lt; [|done].
  apply (calm_clear s); [done|by apply calm_swap|]. intros ? m2 Ho2 Hs2. by apply IH.
Qed.

Lemma calm_insertion (c : string) (s : slice) (n i : nat) (m : memory) :
  configured c -> out m -> clear m s -> calm (p_insertion c s i n) (fun _ => out) m.
Proof.
  intros Hc. revert i m. induction n as [|n IH]; intros i m Ho Hs; cbn [p_insertion]; [done|].
  apply (calm_clear s); [done|by apply calm_sift|]. intros ? m1 Ho1 Hs1. by apply IH.
Qed.

Lemma calm_Enqueue (c : string) (w : wloc) (m : memory) : configured c -> out m -> w <> l -> calm (p_Enqueue c w) (fun _ => out) m.
Proof.
  intros Hc Ho Hw. calm_step. apply safe_bind. eapply safe_mono; [|by apply calm_append].
  intros ? m2 Ho2. calm_step. apply calm_insertion; [done|done|]. eapply clear_keep; [done|by apply ou_queue].
Qed.

Lemma calm_Dequeue (c : string) (m : memory) :
  configured c -> out m -> calm (p_Dequeue c) (fun o m' => out m' /\ o <> Some l) m.
Proof.
  intros Hc Ho. calm_step. destruct (_ =? 0); [done|].
  apply calm_acc; [done|reflexivity|]. cbn [do_access fst snd]. intros m2 Ho2 Hk2.
  apply calm_acc; [done|reflexivity|]. cbn [do_access fst snd]. intros m3 Ho3 Hk3.
  destruct (slice_at _ _ 0) as [w|] eqn:Hw; [|done]. cbn [or_crash prog_bind].
  assert (Hwl : w <> l).
  { eapply slice_clear_at; [|exact Hw]. eapply clear_keep; [exact Hk2|]. by apply ou_queue. }
  apply calm_acc; [done|reflexivity|]. cbn [do_access fst snd]. intros m4 Ho4 Hk4.
  destruct (slice_from 1 _) as [s3|] eqn:Hs; [|done]. cbn [or_crash prog_bind].
  assert (Hk : keep m4 (with_slice (VQueue c) s3 m4)).
  { apply keep_store. left. eapply clear_keep; [exact Hk4|]. eapply slice_clear_from; [|exact Hs]. by apply ou_queue. }
  split; [done|]. intros m5 Hk5. split; [by apply (ke_out _ _ Hk5), (ke_out _ _ Hk)|congruence].
Qed.

Lemma calm_assign (now : Z) (c : string) (w : wloc) (req : ResourceList) (flavors : list FlavorQuota) (i : nat) (m : memory) :
  configured c -> out m -> w <> l -> calm (p_assign now c w req i flavors) (fun _ => out) m.
Proof.
  intros Hc Ho Hw. revert i m Ho. induction flavors as [|fq flavors IH]; intros i m Ho; cbn [p_assign]; [done|].
  calm_step. destruct (CanFit _ _); [|by apply IH]. do 5 calm_step.
  apply safe_bind. eapply safe_mono; [|by apply calm_append]. done.
Qed.

Lemma calm_release (c : string) (w : wloc) (req : ResourceList) (flavors : list FlavorQuota) (i : nat) (m : memory) :
  out m -> calm (p_release c w req i flavors) (fun _ => out) m.
Proof.
  revert i m. induction flavors as [|fq flavors IH]; intros i m Ho; cbn [p_release]; [done|].
  calm_step. destruct (String.eqb _ _); [|by apply IH]. calm_step. apply calm_last; [done|by apply keep_heap].
Qed.

Lemma calm_ReleaseWorkload (now : Z) (c : string) (flavors : list FlavorQuota) (w : wloc) (m : memory) :
  out m -> w <> l -> calm (p_ReleaseWorkload now c flavors w) (fun _ => out) m.
Proof.
  intros Ho Hw. calm_step. apply safe_bind. eapply safe_mono; [|by apply calm_release].
  intros ? m2 Ho2. calm_step. apply calm_last; [done|]. apply keep_heap; [done|by apply fn_lookup_insert_ne].
Qed.

(** The workloads a job holds. *)
Definition held (j : job) : list wloc :=
  match j with
  | JDrain _ _ _ toRetry admitted | JRetry _ _ _ toRetry admitted => toRetry ++ admitted
  | JAnswer (AAdmitted admitted) => admitted
  | JAnswer (AStatus _) | JAnswer (APage _) => []
  end.

Lemma status_held (code : Z) : l ∉ held (JAnswer (AStatus code)).
Proof. apply not_elem_of_nil. Qed.

Lemma calm_handleSubmit (now : Z) (req : SubmitReq) (m : memory) : out m -> calm (p_handleSubmit cfg now req) (fun a _ => l ∉ held (JAnswer a)) m.
Proof.
  intros Ho. assert (Hl : sm_wnext m <> l) by (pose proof (ou_old _ Ho); lia).
  apply calm_acc; [done|apply keep_heap; [lia|by apply fn_lookup_insert_ne]|]. cbn [do_access fst snd]. intros m1 Ho1 _.
  calm_step. cbv zeta. destruct (route _ cfg) as [[lq cq]|e|] eqn:Hr; [|apply status_held..].
  apply route_Ok in Hr as [_ Hr]. assert (Hc : configured (lq_ClusterQueueName lq)) by by eexists. apply safe_bind.
  eapply safe_mono; [|by apply calm_Enqueue]. intros ? m2 Ho2. apply safe_bind. eapply safe_mono; [|by apply calm_append].
  intros ? m3 _. apply status_held.
Qed.

Lemma calm_find (name namespace : string) (s : slice) (n i : nat) (m : memory) :
  out m -> clear m s -> calm (p_find name namespace s i n) (fun o m' => out m' /\ o <> Some l) m.
Proof.
  revert i m. induction n as [|n IH]; intros i m Ho Hs; cbn [p_find]; [done|].
  apply calm_acc; [done|reflexivity|]. cbn [do_access fst snd]. intros m1 Ho1 Hk1.
  destruct (slice_at _ s i) as [w|] eqn:Hw; [|done]. cbn [or_crash prog_bind].
  pose proof (slice_clear_at _ _ _ _ _ _ Hs Hw) as Hwl.
  apply calm_acc; [done|reflexivity|]. cbn [do_access fst snd]. intros m2 Ho2 Hk2.
  destruct (_ && _); [split; [done|congruence]|]. apply IH; [done|]. eapply clear_keep; [exact Hk2|by eapply clear_keep].
Qed.

Lemma calm_FinishByName (now : Z) (namespace queueName name : string) (m : memory) :
  out m -> calm (p_FinishByName cfg now namespace queueName name) (fun a _ => l ∉ held (JAnswer a)) m.
Proof.
  intros Ho. unfold p_FinishByName. destruct (route _ cfg) as [[lq cq]|e|] eqn:Hr; [|apply status_held..].
  apply route_Ok in Hr as [_ Hr]. assert (Hc : configured (lq_ClusterQueueName lq)) by by eexists.
  apply calm_acc; [done|reflexivity|]. cbn [do_access fst snd]. intros m1 Ho1 Hk1.
  apply safe_bind. eapply safe_mono; [|apply calm_find; [done|]].
  - intros [w|] m2 [Ho2 Hw]; [|apply status_held]. apply safe_bind.
    eapply safe_mono; [|apply calm_ReleaseWorkload; [done|congruence]]. intros ? m3 _. apply status_held.
  - eapply clear_keep; [exact Hk1|]. by apply Ho.
Qed.

Lemma calm_flavor_lines (c : string) (flavors : list FlavorQuota) (i : nat) (m : memory) :
  out m -> calm (p_flavor_lines c i flavors) (fun _ => out) m.
Proof.
  revert i m. induction flavors as [|fq flavors IH]; intros i m Ho; cbn [p_flavor_lines]; [done|].
  do 2 calm_step. apply safe_bind. eapply safe_mono; [|by apply IH]. done.
Qed.

Lemma calm_Status (names : list string) (m : memory) : out m -> calm (p_Status cfg names) (fun _ => out) m.
Proof.
  revert m. induction names as [|c names IH]; intros m Ho; cbn [p_Status]; [done|].
  destruct (sc_clusterQueues cfg !! c) as [cq|]; [|by apply IH]. apply safe_bind.
  eapply safe_mono; [|by apply calm_flavor_lines]. intros fs m1 Ho1. do 2 calm_step.
  apply safe_bind. eapply safe_mono; [|by apply IH]. done.
Qed.

(** ** Jobs *)

(** The job does not hold the workload, and its cluster queue is configured. *)
Definition job_ok (j : job) : Prop :=
  (l ∉ held j) /\ match j with JDrain _ c _ _ _ | JRetry _ c _ _ _ => configured c | JAnswer _ => True end.

Lemma next_cq_ok (now : Z) (order : list string) (ad : list wloc) : l ∉ ad -> job_ok (next_cq cfg now order ad).
Proof.
  intros Had. induction order as [|c order IH]; [done|]. cbn. destruct (sc_clusterQueues cfg !! c) eqn:Hc; [|done].
  split; [done|]. by eexists.
Qed.

Lemma calm_body (j : job) (m : memory) : out m -> job_ok j -> calm (body cfg j) (fun j _ => job_ok j) m.
Proof.
  intros Ho. destruct j as [now c rest tr ad|now c rest [|w ws] ad|a]; cbn [body]; (intros [Hl Hc]; cbn [held] in Hl).
  - apply not_elem_of_app in Hl as [Htr Had]. apply safe_bind. eapply safe_mono; [|by apply calm_Dequeue].
    intros [w|] m1 [Ho1 Hw]; [|split; [by apply not_elem_of_app|done]]. assert (Hwl : w <> l) by congruence. apply safe_bind.
    calm_step. eapply safe_mono; [|by apply calm_assign].
    intros [name|] m3 _; (split; [|done]); cbn [held]; rewrite !not_elem_of_app, list_elem_of_singleton; naive_solver.
  - cbn. by apply next_cq_ok.
  - apply not_elem_of_cons in Hl as [Hw Hl]. apply safe_bind. eapply safe_mono; [|apply calm_Enqueue; [done|done|by apply not_eq_sym]].
    intros ? m2 _. by split.
  - by split.
Qed.

Lemma calm_start (r : request) (m : memory) :
  out m -> thread_ok (@do_access grow) True (fun _ => keep) (fun _ => keep) (fun _ => job_ok) r (start cfg r) m.
Proof.
  intros Ho m' Hk. pose proof (ke_out _ _ Hk Ho) as Ho'. destruct r as [now req|now order|now name namespace queueName|]; cbn [start].
  - apply safe_bind. eapply safe_mono; [|by apply calm_handleSubmit]. by split.
  - apply next_cq_ok, not_elem_of_nil.
  - apply safe_bind. eapply safe_mono; [|by apply calm_FinishByName]. by split.
  - apply safe_bind. eapply safe_mono; [|by apply calm_Status]. intros ps m2 _. split; [apply not_elem_of_nil|done].
Qed.

(** ** Systems *)

(** No request in flight or answered holds the workload. *)
Definition unheld (s : k_system) : Prop :=
  map_Forall (fun _ x => match x.2 with Ret j => job_ok j | Crash => True | Acc _ _ => False end) (sys_threads s).

Lemma lost_for_ever (s s' : k_system) :
  out (sys_mem s) -> unheld s -> rtc (k_step cfg grow) s s' ->
  out (sys_mem s') /\ sm_heap (sys_mem s') l = sm_heap (sys_mem s) l /\
  forall i r j, sys_threads s' !! i = Some (r, Ret j) -> l ∉ held j.
Proof.
  intros Ho Hu Hs. set (I := fun m => out m /\ sm_heap m l = sm_heap (sys_mem s) l).
  assert (Hk : forall (r : request) m m', keep m m' -> I m -> I m').
  { intros _ m m' [_ Hh Hm] [H1 H2]. split; [by apply Hm|by rewrite Hh]. }
  assert (Hok : system_ok (@do_access grow) True I (fun _ => keep) (fun _ => keep) (fun _ => job_ok) s').
  { assert (Hc : forall (r r' : request) m m', True -> keep m m' -> keep m m') by done.
    refine (apart_steps_ok (@do_access grow) (start cfg) (body cfg) answered True I (fun _ => keep) (fun _ => keep)
      (fun _ => job_ok) (fun _ _ => True) Hk Hk Hc _ _ s s' _ _).
    - intros r m [Hm _]. by apply calm_start.
    - intros r j m [Hm _] Hj _. by apply calm_body.
    - eapply rtc_subrel; [|exact Hs]. by intros s1 s2 H.
    - split; [by split|]. intros i r p Hi m' Hm'. specialize (Hu i _ Hi). cbn in Hu. by destruct p as [j| |]. }
  destruct (sys_I _ _ _ _ _ _ _ Hok) as [H1 H2]. split_and!; [done|done|].
  intros i r j Hj. by apply (system_ok_job _ _ _ _ _ _ _ _ _ _ Hok) in Hj as [? _].
Qed.

Lemma out_forgotten (m : memory) : out m -> forgotten (abs cfg (view_of m)).
Proof.
  intros [_ Hq Hw] c cq. rewrite abs_cqs. destruct (sc_clusterQueues cfg !! c) as [q|] eqn:Hc; [|done]. intros [= <-].
  unfold cq_locs. cbn. apply not_elem_of_app. split; eapply slice_clear_elems; [apply Hq|apply Hw]; by eexists.
Qed.

(** [s] has lost the workload: whatever the requests in flight and those to come
    do, no cluster queue has it, nothing changes it, and no pass reports it. *)
Definition lost (s : k_system) : Prop :=
  forall s', rtc (k_step cfg grow) s s' ->
    forgotten (abs cfg (view_of (sys_mem s'))) /\ sm_heap (sys_mem s') l = sm_heap (sys_mem s) l /\
    forall i r admitted, sys_threads s' !! i = Some (r, Ret (JAnswer (AAdmitted admitted))) -> l ∉ admitted.

Lemma out_lost (s : k_system) : out (sys_mem s) -> unheld s -> lost s.
Proof.
  intros Ho Hu s' Hs. destruct (lost_for_ever s s' Ho Hu Hs) as (H1 & H2 & H3).
  split; [by apply out_forgotten|]. split; [done|]. intros i r ad Hi. exact (H3 _ _ _ Hi).
Qed.

(** A test for it. *)
Definition clear_b (m : memory) (s : slice) : bool :=
  ((sl_ptr s <? sm_next m) || ((sl_len s =? 0) && (sl_cap s =? 0))) &&
  forallb (fun i => match sm_cells m !! (sl_ptr s, sl_off s + i) with Some y => negb (y =? l) | None => false end)
    (seq 0 (sl_len s)).

Definition out_b (m : memory) : bool :=
  (l <? sm_wnext m) &&
  gmap_all (fun c _ => clear_b m (sm_slices m (VQueue c)) && clear_b m (sm_slices m (VWorkloads c))) (sc_clusterQueues cfg).

Definition unheld_b (s : k_system) : bool :=
  forallb (fun x => match x.2.2 with
    | Ret (JAnswer a) => bool_decide (l ∉ held (JAnswer a)) | Crash => true | _ => false end) (map_to_list (sys_threads s)).

Lemma clear_b_ok (m : memory) (s : slice) : clear_b m s = true -> clear m s.
Proof.
  unfold clear_b. intros [Ho Hf]%andb_true_iff. rewrite forallb_forall in Hf.
  assert (Hc : forall i, i < sl_len s -> exists y, sm_cells m !! (sl_ptr s, sl_off s + i) = Some y /\ y <> l).
  { intros i Hi. specialize (Hf i). destruct (sm_cells m !! _) as [y|].
    - exists y. split; [done|]. apply Nat.eqb_neq, negb_true_iff, Hf, in_seq. lia.
    - discriminate Hf. apply in_seq. lia. }
  split; [| |].
  - intros i Hi. destruct (Hc i Hi) as (y & Hy & _). by eexists.
  - apply orb_true_iff in Ho as [Ho%Nat.ltb_lt|[H1%Nat.eqb_eq H2%Nat.eqb_eq]%andb_true_iff]; [by left|by right].
  - intros i Hi Hl. destruct (Hc i Hi) as (y & Hy & Hne). congruence.
Qed.

Lemma out_b_ok (m : memory) : out_b m = true -> out m.
Proof.
  unfold out_b. intros [Hl%Nat.ltb_lt Hc]%andb_true_iff. rewrite gmap_all_spec in Hc.
  split; [done| |]; intros c [q Hq]; specialize (Hc _ _ Hq); apply andb_true_iff in Hc as [H1 H2]; by apply clear_b_ok.
Qed.

Lemma unheld_b_ok (s : k_system) : unheld_b s = true -> unheld s.
Proof.
  unfold unheld_b. rewrite forallb_forall. intros H i x Hi. specialize (H (i, x)). cbn in H.
  apply elem_of_map_to_list, list_elem_of_In, H in Hi. destruct (x.2) as [[| |a]| |]; try done.
  apply bool_decide_eq_true in Hi. by split.
Qed.

End lost.
