(* ===== verification/KueueRaces.v ===== *)
(** * Requests that overlap: mini-kueue/cmd/controller over [KueueThreads]

    The handlers run concurrently without a lock.  As long as at most one
    submission or pass is under way no request panics, whatever finishes and
    status pages overlap with it; the proof is by rely and guarantee over the
    accesses of a program.  Everything else a client may hope for fails:
    executions of the configured controller show two passes that admit more than
    the quota, two submissions that are both accepted of which one is never
    scheduled, a submission that brings back a workload a pass has admitted, and
    submissions and passes that panic when they overlap. *)

From S2P Require Import Prelude.
From S2P Require Import Float64.
From S2P Require Import GoSlice.
From S2P Require Import GoThreads.
From S2P Require Import KueueTypes.
From S2P Require Import Scheduler.
From S2P Require Import Controller.
From S2P Require Import KueueThreads.
From S2P Require Import KueueAlone.
From S2P Require Import KueueLost.
Open Scope go_scope.

(** ** One request at a time on the queues: no request panics *)

Definition is_pass (r : request) : bool := match r with RSchedule _ _ => true | _ => false end.
Definition is_submission (r : request) : bool := match r with RSubmit _ _ => true | _ => false end.

(** The requests that write a queue: a finish and a status page only read. *)
Definition on_queues (r : request) : bool := is_pass r || is_submission r.

(** Every slice in a field has been written. *)
Definition fields_written (m : memory) : Prop := forall v, written (sm_cells m) (sm_slices m v).

(** What every access keeps. *)
Record any_change (m m' : memory) : Prop := {
  ac_grow : cells_grow (sm_cells m) (sm_cells m');
  ac_written : fields_written m -> fields_written m'
}.

(** What every access of a finish or a status page keeps. *)
Record frozen (m m' : memory) : Prop := {
  fr_cells : sm_cells m' = sm_cells m;
  fr_slices : sm_slices m' = sm_slices m
}.

#[global] Instance any_change_preorder : PreOrder any_change.
Proof. split; [by split|]. intros m1 m2 m3 [A1 A2] [B1 B2]. split; [by etrans|auto]. Qed.

#[global] Instance frozen_preorder : PreOrder frozen.
Proof. split; [by split|]. intros m1 m2 m3 [A1 A2] [B1 B2]. split; congruence. Qed.

Lemma frozen_change (m m' : memory) : frozen m m' -> any_change m m'.
Proof. intros [Hc Hs]. split; [by rewrite Hc|]. intros Hw v. rewrite Hc, Hs. apply Hw. Qed.

Lemma frozen_written (m m' : memory) : frozen m m' -> fields_written m -> fields_written m'.
Proof. intros H. apply (ac_written _ _ (frozen_change _ _ H)). Qed.

Section safe.
Context (cfg : Scheduler) (grow : nat -> nat).

Abbreviation k_safe := (safe (@do_access grow) False).

(** What accesses do to the fields and the cells. *)
Lemma cells_change (m : memory) (c : gmap (nat * nat) wloc) (n : nat) :
  cells_grow (sm_cells m) c -> any_change m (with_cells c n m).
Proof. intros Hg. split; cbn; [done|]. intros Hw v. cbn. by eapply written_grow. Qed.

Lemma store_change (m : memory) (v : svar) (s : slice) :
  written (sm_cells m) s -> any_change m (with_slice v s m).
Proof.
  intros Hs. split; [by intros a|]. intros Hw v'. cbn. destruct (decide (v = v')) as [<-|Hne].
  - by rewrite fn_lookup_insert.
  - by rewrite fn_lookup_insert_ne.
Qed.

Lemma put_change (m : memory) (s : slice) (i : nat) (w : wloc) : any_change m (do_access grow (WrSlot s i w) m).1.
Proof.
  cbn. destruct (slice_put s i w (sm_cells m)) as [c|] eqn:Hp; [|reflexivity].
  apply cells_change. by eapply slice_put_grow.
Qed.

(** *** Submissions and passes: the others leave the queues alone *)

Section touching.

(** [p] is safe and leaves written fields. *)
Abbreviation touching p Q m := (k_safe frozen any_change p Q m).
Abbreviation fine p m := (touching p (fun _ => fields_written) m).

Lemma touch {A X : Type} (e : access X) (f : X -> program A) (Q : A -> memory -> Prop) (m : memory) :
  any_change m (do_access grow e m).1 -> fields_written m ->
  (forall m', fields_written m' -> frozen (do_access grow e m).1 m' -> touching (f (do_access grow e m).2) Q m') ->
  touching (prog_bind (acc e) f) Q m.
Proof.
  intros Hc Hw Hf. apply safe_acc; [done|]. intros m' Hm'. apply Hf; [|done].
  by eapply frozen_written, (ac_written _ _ Hc).
Qed.

(** Goes through an access that leaves cells and slices alone. *)
Ltac pass_by := apply touch; [apply frozen_change; by split|assumption|cbn [do_access fst snd]; intros].

Lemma fine_append (v : svar) (w : wloc) (m : memory) : fields_written m -> fine (p_append v w) m.
Proof.
  intros Hw. apply touch; [reflexivity|done|]. cbn [do_access fst snd]. intros m1 Hw1 [Hc1 Hs1].
  assert (Hs : written (sm_cells m1) (sm_slices m v)) by (rewrite <- Hs1; apply Hw1).
  assert (Ha : exists s' c n, slice_append grow (sm_slices m v) w (sm_cells m1) (sm_next m1) = (s', c, n))
    by (destruct (slice_append _ _ _ _ _) as [[s' c] n]; by eexists _, _, _).
  destruct Ha as (s' & c & n & Ha). destruct (slice_append_written _ _ _ _ _ _ _ _ Hs Ha) as (Hs' & Hg & _).
  apply touch; [cbn [do_access]; rewrite Ha; by apply cells_change|done|]. cbn [do_access]. rewrite Ha. cbn [fst snd].
  intros m2 Hw2 [Hc2 _]. cbn in Hc2. assert (Hc : any_change m2 (with_slice v s' m2)) by (apply store_change; by rewrite Hc2).
  split; [done|]. intros m3 Hr3. cbn. by eapply frozen_written, (ac_written _ _ Hc).
Qed.

Lemma fine_field {A : Type} (w : wloc) (f : wfield) (p : program A) (Q : A -> memory -> Prop) (m : memory) :
  fields_written m -> (forall m', fields_written m' -> frozen m m' -> touching p Q m') ->
  touching (acc (WrW w f) ;;~ p) Q m.
Proof. intros Hw Hp. pass_by. apply Hp; [done|]. etrans; [|done]. by split. Qed.

(** While a queue is sorted its field keeps the slice that is sorted. *)
Definition holds_slice (c : string) (s : slice) (m : memory) : Prop := fields_written m /\ sm_slices m (VQueue c) = s.

Lemma touch_held {A X : Type} (c : string) (s : slice) (e : access X) (f : X -> program A) (Q : A -> memory -> Prop) (m : memory) :
  any_change m (do_access grow e m).1 -> sm_slices (do_access grow e m).1 = sm_slices m -> holds_slice c s m ->
  (forall m', holds_slice c s m' -> touching (f (do_access grow e m).2) Q m') -> touching (prog_bind (acc e) f) Q m.
Proof.
  intros Hc Hs [Hw Hh] Hf. apply touch; [done|done|]. intros m' Hw' [_ Hs']. apply Hf. split; [done|]. by rewrite Hs', Hs.
Qed.

Lemma held_at {A : Type} (c : string) (s : slice) (i : nat) (f : wloc -> program A) (Q : A -> memory -> Prop) (m : memory) :
  holds_slice c s m -> i < sl_len s -> (forall w m', holds_slice c s m' -> touching (f w) Q m') ->
  touching (prog_bind (p_at s i) f) Q m.
Proof.
  intros Hh Hi Hf. unfold p_at. apply safe_bind, (touch_held c s); [reflexivity|done|done|]. intros m1 Hh1. cbn [do_access snd].
  unfold slice_at. destruct (Nat.ltb_spec i (sl_len s)) as [_|]; [|lia]. destruct Hh as [Hw Hs].
  specialize (Hw (VQueue c)). rewrite Hs in Hw. destruct (Hw i Hi) as [w ->]. by apply Hf.
Qed.

Lemma held_queue {A : Type} (c : string) (s : slice) (f : slice -> program A) (Q : A -> memory -> Prop) (m : memory) :
  holds_slice c s m -> (forall m', holds_slice c s m' -> touching (f s) Q m') ->
  touching (prog_bind (acc (RdSlice (VQueue c))) f) Q m.
Proof. intros Hh Hf. apply (touch_held c s); [reflexivity|done|done|]. intros m1 Hh1. cbn. destruct Hh as [_ ->]. by apply Hf. Qed.

Lemma held_less (c : string) (s : slice) (i j : nat) (m : memory) :
  holds_slice c s m -> i < sl_len s -> j < sl_len s -> touching (p_less c i j) (fun _ => holds_slice c s) m.
Proof.
  intros Hh Hi Hj. apply (held_queue c s); [done|]. intros m1 Hh1. apply (held_at c); [done|done|]. intros a m2 Hh2.
  apply (held_queue c s); [done|]. intros m3 Hh3. apply (held_at c); [done|done|]. intros b m4 Hh4.
  apply (touch_held c s); [reflexivity|done|done|]. intros m5 Hh5. by apply (touch_held c s).
Qed.

Lemma held_put (c : string) (s : slice) (i : nat) (w : wloc) (m : memory) :
  holds_slice c s m -> i < sl_len s -> touching (o <-~ acc (WrSlot s i w); or_crash o) (fun _ => holds_slice c s) m.
Proof.
  intros Hh Hi. apply (touch_held c s); [apply put_change| |done|]; cbn [do_access]; unfold slice_put;
    (destruct (Nat.ltb_spec i (sl_len s)) as [_|]; [|lia]); [done|]. by intros m1 Hh1.
Qed.

Lemma held_swap (c : string) (s : slice) (i j : nat) (m : memory) :
  holds_slice c s m -> i < sl_len s -> j < sl_len s -> touching (p_swap s i j) (fun _ => holds_slice c s) m.
Proof.
  intros Hh Hi Hj. apply (held_at c); [done|done|]. intros a m1 Hh1. apply (held_at c); [done|done|]. intros b m2 Hh2.
  rewrite <- prog_bind_assoc. apply safe_bind. eapply safe_mono; [|by apply held_put]. intros ? m3 Hh3. by apply held_put.
Qed.

Lemma held_sift (c : string) (s : slice) (j : nat) (m : memory) :
  holds_slice c s m -> j < sl_len s -> touching (p_sift c s j) (fun _ => holds_slice c s) m.
Proof.
  revert m. induction j as [|j IH]; intros m Hh Hj; cbn [p_sift]; [done|]. apply safe_bind.
  eapply safe_mono; [|apply held_less; [done|lia|lia]]. intros lt m1 Hh1. destruct lt; [|done]. apply safe_bind.
  eapply safe_mono; [|apply held_swap; [done|lia|lia]]. intros ? m2 Hh2. apply IH; [done|lia].
Qed.

Lemma held_insertion (c : string) (s : slice) (n i : nat) (m : memory) :
  holds_slice c s m -> i + n <= sl_len s -> touching (p_insertion c s i n) (fun _ => holds_slice c s) m.
Proof.
  revert i m. induction n as [|n IH]; intros i m Hh Hn; cbn [p_insertion]; [done|]. apply safe_bind.
  eapply safe_mono; [|apply held_sift; [done|lia]]. intros ? m1 Hh1. apply IH; [done|lia].
Qed.

Lemma fine_Enqueue (c : string) (w : wloc) (m : memory) : fields_written m -> fine (p_Enqueue c w) m.
Proof.
  intros Hw. apply fine_field; [done|]. intros m1 Hw1 _. apply safe_bind. eapply safe_mono; [|by apply fine_append].
  intros ? m2 Hw2. set (s := sm_slices m2 (VQueue c)). apply (held_queue c s); [done|]. intros m3 Hh3.
  destruct (Nat.eq_dec (sl_len s) 0) as [Hz|Hz]; [rewrite Hz; apply Hh3|].
  eapply safe_mono; [|apply held_insertion; [done|lia]]. intros ? m4. apply proj1.
Qed.

Lemma fine_Dequeue (c : string) (m : memory) : fields_written m -> fine (p_Dequeue c) m.
Proof.
  intros Hw. set (s := sm_slices m (VQueue c)). apply (held_queue c s); [done|]. intros m1 Hh1.
  destruct (Nat.eqb_spec (sl_len s) 0) as [_|Hl]; [apply Hh1|].
  apply (held_queue c s); [done|]. intros m2 Hh2. rewrite <- prog_bind_assoc. apply (held_at c); [done|lia|]. intros w m3 Hh3.
  apply (held_queue c s); [done|]. intros m4 [Hw4 Hs4]. pose proof (Hw4 (VQueue c)) as Hs. rewrite Hs4 in Hs.
  destruct (slice_from_written _ s Hs) as (s3 & -> & Hs3); [lia|]. cbn [or_crash prog_bind].
  apply touch; [by apply store_change|done|]. by intros m5 Hw5 _.
Qed.

Lemma fine_assign (now : Z) (c : string) (w : wloc) (req : ResourceList) (flavors : list FlavorQuota) (i : nat) (m : memory) :
  fields_written m -> fine (p_assign now c w req i flavors) m.
Proof.
  revert i m. induction flavors as [|fq flavors IH]; intros i m Hw; cbn [p_assign]; [done|].
  pass_by. destruct (CanFit _ _); [|by apply IH]. do 5 pass_by. apply safe_bind. eapply safe_mono; [|by apply fine_append]. done.
Qed.

Lemma fine_handleSubmit (now : Z) (req : SubmitReq) (m : memory) : fields_written m -> fine (p_handleSubmit cfg now req) m.
Proof.
  intros Hw. do 2 pass_by. cbv zeta. destruct (route _ cfg) as [[lq cq]|e|]; [|done|done]. apply safe_bind.
  eapply safe_mono; [|by apply fine_Enqueue]. intros ? m2 Hw2. apply safe_bind. eapply safe_mono; [|by apply fine_append]. done.
Qed.

Lemma fine_body (j : job) (m : memory) : fields_written m -> touching (body cfg j) (fun _ _ => True) m.
Proof.
  intros Hw. destruct j as [now c rest tr ad|now c rest [|w ws] ad|a]; cbn [body]; try done.
  - apply safe_bind. eapply safe_mono; [|by apply fine_Dequeue]. intros [w|] m1 Hw1; [|done].
    apply safe_bind. pass_by. eapply safe_mono; [|by apply fine_assign]. done.
  - apply safe_bind. eapply safe_mono; [|by apply fine_Enqueue]. done.
Qed.

End touching.

(** *** Finishes and status pages: the others do anything *)

Section reading.

Abbreviation reading p := (k_safe any_change frozen p (fun _ => fields_written)).

Lemma read_on {A X : Type} (e : access X) (f : X -> program A) (Q : A -> memory -> Prop) (m : memory) :
  frozen m (do_access grow e m).1 -> fields_written m ->
  (forall m', fields_written m' -> any_change m m' -> k_safe any_change frozen (f (do_access grow e m).2) Q m') ->
  k_safe any_change frozen (prog_bind (acc e) f) Q m.
Proof.
  intros Hf Hw Hk. apply safe_acc; [done|]. intros m' Hm'. assert (Hc : any_change m m') by (etrans; [by apply frozen_change|done]).
  apply Hk; [by apply (ac_written _ _ Hc)|done].
Qed.

Ltac go_on := apply read_on; [by split|assumption|cbn [do_access fst snd]; intros].

Lemma reading_release (c : string) (w : wloc) (req : ResourceList) (flavors : list FlavorQuota) (i : nat) (m : memory) :
  fields_written m -> reading (p_release c w req i flavors) m.
Proof.
  revert i m. induction flavors as [|fq flavors IH]; intros i m Hw; cbn [p_release]; [done|].
  go_on. destruct (String.eqb _ _); [|by apply IH]. do 2 go_on. done.
Qed.

Lemma reading_ReleaseWorkload (now : Z) (c : string) (flavors : list FlavorQuota) (w : wloc) (m : memory) :
  fields_written m -> reading (p_ReleaseWorkload now c flavors w) m.
Proof.
  intros Hw. go_on. apply safe_bind. eapply safe_mono; [|by apply reading_release].
  intros ? m2 Hw2. do 2 go_on. done.
Qed.

(** The elements of a slice that has been written can be read. *)
Lemma reading_find (name namespace : string) (s : slice) (n i : nat) (m : memory) :
  fields_written m -> written (sm_cells m) s -> i + n = sl_len s -> reading (p_find name namespace s i n) m.
Proof.
  revert i m. induction n as [|n IH]; intros i m Hw Hs Hi; cbn [p_find]; [done|].
  apply read_on; [by split|done|]. cbn [do_access fst snd]. intros m1 Hw1 Hc1.
  unfold slice_at. destruct (Nat.ltb_spec i (sl_len s)) as [Hl|]; [|lia]. destruct (Hs i Hl) as [w ->].
  assert (Hs1 : written (sm_cells m1) s) by (eapply written_grow; [apply Hc1|done]). cbn [or_crash prog_bind].
  apply read_on; [by split|done|]. cbn [do_access fst snd]. intros m2 Hw2 Hc2.
  destruct (_ && _); [done|]. apply IH; [done| |lia]. eapply written_grow; [apply Hc2|done].
Qed.

Lemma reading_FinishByName (now : Z) (namespace queueName name : string) (m : memory) :
  fields_written m -> reading (p_FinishByName cfg now namespace queueName name) m.
Proof.
  intros Hw. unfold p_FinishByName. destruct (route _ cfg) as [[lq cq]|e|]; [|done|done].
  apply read_on; [by split|done|]. cbn [do_access fst snd]. intros m1 Hw1 Hc1.
  apply safe_bind. eapply safe_mono; [|apply reading_find; [done| |done]].
  - intros [w|] m2 Hw2; [|done]. apply safe_bind. eapply safe_mono; [|by apply reading_ReleaseWorkload]. done.
  - eapply written_grow; [apply Hc1|apply Hw].
Qed.

Lemma reading_flavor_lines (c : string) (flavors : list FlavorQuota) (i : nat) (m : memory) :
  fields_written m -> reading (p_flavor_lines c i flavors) m.
Proof.
  revert i m. induction flavors as [|fq flavors IH]; intros i m Hw; cbn [p_flavor_lines]; [done|].
  do 2 go_on. apply safe_bind. eapply safe_mono; [|by apply IH]. done.
Qed.

Lemma reading_Status (names : list string) (m : memory) : fields_written m -> reading (p_Status cfg names) m.
Proof.
  revert m. induction names as [|c names IH]; intros m Hw; cbn [p_Status]; [done|].
  destruct (sc_clusterQueues cfg !! c) as [cq|]; [|by apply IH]. apply safe_bind.
  eapply safe_mono; [|by apply reading_flavor_lines]. intros fs m1 Hw1. do 2 go_on.
  apply safe_bind. eapply safe_mono; [|by apply IH]. done.
Qed.

End reading.
End safe.

(** ** Systems with one request at a time on the queues *)

Definition queues_apart (r r' : request) : bool := negb (on_queues r && on_queues r').

(** A pass overlaps with everything but another pass. *)
Definition no_two_passes (r r' : request) : bool := negb (is_pass r && is_pass r').

(** What the others keep while a thread of the request [r] runs, and what it keeps. *)
Definition rely (r : request) : relation memory := if on_queues r then frozen else any_change.
Definition guar (r : request) : relation memory := if on_queues r then any_change else frozen.

(** Only a pass has another iteration. *)
Definition post (r : request) (j : job) : Prop := is_pass r = true \/ answered j = true.

#[global] Instance rely_preorder (r : request) : PreOrder (rely r).
Proof. unfold rely. destruct (on_queues r); apply _. Qed.

#[global] Instance guar_preorder (r : request) : PreOrder (guar r).
Proof. unfold guar. destruct (on_queues r); apply _. Qed.

Lemma rely_written (r : request) (m m' : memory) : rely r m m' -> fields_written m -> fields_written m'.
Proof. unfold rely. destruct (on_queues r); [apply frozen_written|by intros []]. Qed.

Lemma guar_written (r : request) (m m' : memory) : guar r m m' -> fields_written m -> fields_written m'.
Proof. unfold guar. destruct (on_queues r); [by intros []|apply frozen_written]. Qed.

Lemma compat_ok (r r' : request) (m m' : memory) : queues_apart r r' = true -> guar r m m' -> rely r' m m'.
Proof. unfold queues_apart, guar, rely. destruct (on_queues r), (on_queues r'); try done. intros _. apply frozen_change. Qed.

Section systems.
Context (cfg : Scheduler) (grow : nat -> nat).

Abbreviation k_safe := (safe (@do_access grow) False).

Lemma start_ok (r : request) (m : memory) : fields_written m -> thread_ok (@do_access grow) False rely guar post r (start cfg r) m.
Proof.
  intros Hw m' Hr. pose proof (rely_written _ _ _ Hr Hw) as Hw'.
  destruct r as [now req|now order|now name namespace queueName|]; cbn [start]; [|by left| |]; apply safe_bind.
  - eapply safe_mono; [|by apply fine_handleSubmit]. intros a m3 _. by right.
  - eapply safe_mono; [|by apply reading_FinishByName]. intros a m3 _. by right.
  - eapply safe_mono; [|by apply reading_Status]. intros a m3 _. by right.
Qed.

Lemma body_ok (r : request) (j : job) (m : memory) :
  fields_written m -> post r j -> answered j = false ->
  k_safe (rely r) (guar r) (body cfg j) (fun j _ => post r j) m.
Proof.
  intros Hw [Hr|Hj] He; [|congruence]. unfold rely, guar, post, on_queues. rewrite Hr. cbn [orb].
  eapply safe_mono; [|by apply fine_body]. intros j' m2 _. by left.
Qed.

(** Steps of a system in which no two requests are on the queues. *)
Abbreviation apart_on_queues :=
  (apart_steps (@do_access grow) (start cfg) (body cfg) answered (fun r r' => queues_apart r r' = true)).

Lemma queues_apart_no_crash (s s' : k_system) (i : nat) (r : request) (p : program job) :
  fields_written (sys_mem s) -> sys_threads s = ∅ -> apart_on_queues s s' -> sys_threads s' !! i = Some (r, p) -> ~ crashed p.
Proof.
  intros Hw Ht Hs Hi. refine (system_ok_no_crash (@do_access grow) False fields_written rely guar post s' i r p _ id Hi).
  refine (apart_steps_ok (@do_access grow) (start cfg) (body cfg) answered False fields_written rely guar post _
    rely_written guar_written compat_ok start_ok body_ok s s' Hs _).
  split; [done|]. intros j r' p'. by rewrite Ht, lookup_empty.
Qed.

End systems.

(** ** Executions of the configured controller *)

(** The controller as it starts, and what it can reach. *)
Definition main_system : k_system := mkSys ∅ main_memory.
Definition reaches : k_system -> Prop := rtc (k_step main_cfg doubling) main_system.

Definition job_req (name : string) (cpu prio : Z) : SubmitReq :=
  mkSubmitReq name "default" "default" (resources [(ResourceCPU, cpu); (ResourceMemory, 1)]%Z) 1 prio.

Definition pass_req (now : Z) : request := RSchedule now ["dev-queue"; "prod-queue"].

Abbreviation k_act := (@act request).
Abbreviation k_run guard := (run_acts (@do_access doubling) (start main_cfg) (body main_cfg) answered guard).

Definition execution (l : list k_act) : k_system :=
  default main_system (k_run (fun _ => true) l main_system).

Lemma execution_reached (l : list k_act) : reaches (execution l).
Proof.
  unfold execution. destruct (k_run _ l main_system) as [s|] eqn:H; [|apply rtc_refl].
  apply run_acts_steps in H. by eapply rtc_subrel; [|exact H]; intros ?? [].
Qed.

Definition all : nat := 100.

(** Two jobs of six CPUs; two passes that both test the first flavor before
    either reserves. *)
Definition overcommit : list k_act :=
  [Receive 0 (RSubmit 0 (job_req "a" 6 0)); Go 0 all; Receive 1 (RSubmit 1 (job_req "b" 6 0)); Go 1 all;
   Receive 2 (pass_req 2); Receive 3 (pass_req 3); Go 2 8; Go 3 8; Go 2 all; Go 3 all].

(** Two submissions that both read the queue before either writes it; then a
    pass. *)
Definition lost_submission : list k_act :=
  [Receive 0 (RSubmit 0 (job_req "a" 1 0)); Receive 1 (RSubmit 1 (job_req "b" 1 0)); Go 0 4; Go 1 all; Go 0 all;
   Receive 2 (pass_req 2); Go 2 all].

(** A submission reads the queue with one job in it; a pass admits the job; the
    submission goes on; another pass. *)
Definition second_admission : list k_act :=
  [Receive 0 (RSubmit 0 (job_req "a" 4 0)); Go 0 all; Receive 1 (RSubmit 1 (job_req "b" 1 0)); Go 1 4;
   Receive 2 (pass_req 2); Go 2 all; Go 1 all; Receive 3 (pass_req 3); Go 3 all].

(** A submission that has appended its job to a queue with one job, and is about
    to sort; a pass takes both. *)
Definition sort_race_pass : list k_act :=
  [Receive 0 (RSubmit 0 (job_req "a" 1 0)); Go 0 all; Receive 1 (RSubmit 1 (job_req "b" 1 0)); Go 1 7;
   Receive 2 (pass_req 2); Go 2 all; Go 1 all].

(** A submission reads the empty queue; another one is served; a third has
    appended its job and is about to sort two; the first writes a queue of one. *)
Definition sort_race_submission : list k_act :=
  [Receive 0 (RSubmit 0 (job_req "a" 1 0)); Go 0 4; Receive 1 (RSubmit 1 (job_req "b" 1 0)); Go 1 all;
   Receive 2 (RSubmit 2 (job_req "c" 1 0)); Go 2 7; Go 0 all; Go 2 all].

(** A pass that has put the first of two jobs aside sees the second, which
    another pass takes before it does. *)
Definition lost_pass : list k_act :=
  [Receive 0 (RSubmit 0 (job_req "big" 20 1)); Go 0 all; Receive 1 (RSubmit 1 (job_req "small" 1 0)); Go 1 all;
   Receive 2 (pass_req 2); Go 2 11; Receive 3 (pass_req 3); Go 3 all; Go 2 all].

(** The queue "dev-queue" and its first flavor. *)
Definition dev_queue (m : memory) : ClusterQueue := abs_cq (view_of m) "dev-queue" dev.
Definition dev_standard (m : memory) : FlavorQuota :=
  mkFlavor "standard" (resources [(ResourceCPU, 10); (ResourceMemory, 32)]%Z) (sm_used m ("dev-queue", 0)).

Lemma dev_queue_shown (m : memory) : GetClusterQueue "dev-queue" (shown m) = Some (dev_queue m).
Proof. unfold GetClusterQueue, shown. by rewrite abs_cqs. Qed.

Lemma dev_standard_shown (m : memory) : cq_Flavors (dev_queue m) !! 0 = Some (dev_standard m).
Proof. done. Qed.

(** ** Properties *)

(** A state loses a workload when the test says so. *)
Lemma lost_here (l : wloc) (s : k_system) :
  out_b main_cfg l (sys_mem s) && unheld_b l s = true -> lost main_cfg doubling l s.
Proof. intros [Ho Hu]%andb_true_iff. apply out_lost; [by apply out_b_ok|by apply unheld_b_ok]. Qed.

(** Evaluates a decidable closed statement. *)
Ltac decided := apply (bool_decide_unpack _); vm_compute; exact I.

(** C16: quotas do not survive overlapping requests.  The configured controller,
    with two jobs of six CPUs submitted, gets two requests to schedule whose
    passes overlap: both test the flavor of ten CPUs before either reserves, and
    both admit.  When all requests have been answered, the flavor's admitted
    workloads hold more than its quota, as its own books say.  No sequence of
    requests served one at a time can do that ([quota_safety]). *)
Theorem overlapping_passes_overcommit :
  exists s cq fq, reaches s /\ quiet answered s /\
    GetClusterQueue "dev-queue" (shown (sys_mem s)) = Some cq /\ cq_Flavors cq !! 0 = Some fq /\
    let used := usage (sm_heap (sys_mem s)) (cq_Workloads cq) (fq_Name fq) ResourceCPU in
    zr (fq_Used fq) ResourceCPU = used /\ (zr (fq_Resources fq) ResourceCPU < used)%Z.
Proof.
  set (s := execution overcommit). exists s, (dev_queue (sys_mem s)), (dev_standard (sys_mem s)).
  split; [apply execution_reached|]. split; [decided|].
  split; [apply dev_queue_shown|]. split; [apply dev_standard_shown|]. split; vm_compute; reflexivity.
Qed.

(** C17: a submission can be accepted and lost.  Two submissions that overlap
    both read the pending queue before either writes it.  Both are answered 200,
    and the local queue lists both jobs, but no cluster queue has the second one,
    pending or admitted.  It is lost for good: whatever requests come later and
    however they interleave, it stays pending, no cluster queue has it and no
    pass reports it. *)
Theorem accepted_submission_lost :
  exists s l lq, reaches s /\ quiet answered s /\
    sys_threads s !! 1 = Some (RSubmit 1 (job_req "b" 1 0), Ret (JAnswer (AStatus 200))) /\
    w_Name (sm_heap (sys_mem s) l) = "b" /\ w_Status (sm_heap (sys_mem s) l) = StatusPending /\
    lost main_cfg doubling l s /\
    sc_localQueues (shown (sys_mem s)) !! "default/default" = Some lq /\ l ∈ lq_Workloads lq.
Proof.
  set (s := execution lost_submission).
  exists s, 1, (abs_lq (view_of (sys_mem s)) "default/default" (mkLQ "default" "default" "dev-queue" [])).
  split; [apply execution_reached|]. split; [decided|]. split; [vm_compute; reflexivity|]. split; [vm_compute; reflexivity|].
  split; [vm_compute; reflexivity|]. split; [apply lost_here; vm_compute; reflexivity|].
  split; [unfold shown; by rewrite abs_lqs|decided].
Qed.

(** A submission that overlaps with a pass can bring back a workload the pass
    has admitted: the queue it writes still has it, the next pass admits it
    again, and the flavor's books count it twice, although no flavor's workloads
    hold that much. *)
Theorem workload_admitted_twice :
  exists s l a2 a3, reaches s /\ quiet answered s /\
    sys_threads s !! 2 = Some (pass_req 2, Ret (JAnswer (AAdmitted a2))) /\
    sys_threads s !! 3 = Some (pass_req 3, Ret (JAnswer (AAdmitted a3))) /\ l ∈ a2 /\ l ∈ a3 /\
    GetClusterQueue "dev-queue" (shown (sys_mem s)) = Some (dev_queue (sys_mem s)) /\
    (usage (sm_heap (sys_mem s)) (remove_dups (cq_Workloads (dev_queue (sys_mem s)))) "standard" ResourceCPU <
     zr (fq_Used (dev_standard (sys_mem s))) ResourceCPU)%Z.
Proof.
  set (s := execution second_admission). exists s, 0, [0], [0; 1].
  split; [apply execution_reached|]. split; [decided|]. do 2 (split; [vm_compute; reflexivity|]). do 2 (split; [decided|]).
  split; [apply dev_queue_shown|]. vm_compute. reflexivity.
Qed.

(** An execution with at most one pass at a time. *)
Abbreviation one_pass_at_a_time :=
  (apart_steps (@do_access doubling) (start main_cfg) (body main_cfg) answered (fun r r' => no_two_passes r r' = true) main_system).

Lemma one_pass_execution (l : list k_act) :
  k_run (apart_b answered no_two_passes) l main_system = Some (execution l) -> one_pass_at_a_time (execution l).
Proof. intros H. apply run_acts_steps in H. eapply rtc_subrel; [|exact H]. by intros s1 s2 [?%apart_b_ok ?]. Qed.


(** The execution that admits a workload twice has no two passes at a time. *)
Lemma second_admission_apart : one_pass_at_a_time (execution second_admission).
Proof. apply one_pass_execution. vm_compute. reflexivity. Qed.
