(* ===== verification/ContentStore.v ===== *)
(** * The content store: mini-containerd/internal/content/store.go

    Blobs keyed by digest, uploads keyed by reference.  The store owns two Go
    maps and a part of the file system; an upload owns an open temporary file
    and a running hash.  The running hash is modelled by the bytes written to
    it since it was created, [Sum] by [sha256] of these bytes. *)

From S2P Require Import Prelude.
From S2P Require Import GoStrings.
From S2P Require Import Sha256.
From S2P Require Import FileSystem.
Open Scope go_scope.

(** ** Digests and blob paths *)

Definition splitDigest (digest : string) : option (string * string) :=
  match str_index ch_colon digest with
  | Some i => Some (str_take i digest, str_drop (S i) digest)
  | None => None
  end.

Inductive StoreErr : Type :=
| BlobNotExist (digest : string)
| AlreadyCommitted (ref : string)
| UploadNotFound (ref : string)
| SizeMismatch (expected got : Z)
| DigestMismatch (expected got : string)
| IOError.

(** [hash[:2]] panics on a digest whose hash part is shorter than two bytes. *)
Definition blobDir (root digest : string) : res StoreErr string :=
  match splitDigest digest with
  | None => Ok (path_join [root; "blobs"; digest])
  | Some (algo, hash) =>
      res_bind (str_slice_to 2 hash) (fun h2 => Ok (path_join [root; "blobs"; algo; h2]))
  end.

Definition blobPath (root digest : string) : res StoreErr string :=
  match splitDigest digest with
  | None => Ok (path_join [root; "blobs"; digest])
  | Some (algo, hash) =>
      res_bind (str_slice_to 2 hash) (fun h2 => Ok (path_join [root; "blobs"; algo; h2; hash]))
  end.

(** ** State *)

Record BlobInfo : Type := mkBlobInfo {
  b_Digest : string;
  b_Size : Z;
  b_Labels : gmap string string;
  b_CreatedAt : Z;
  b_UpdatedAt : Z
}.

Record uploadState : Type := mkUpload {
  us_Ref : string;
  us_Offset : Z;
  us_Total : Z;
  us_Expected : string;
  us_StartedAt : Z;
  us_UpdatedAt : Z;
  us_Digest : string;
  us_Size : Z;
  us_Committed : bool;
  us_tmpFile : File;
  us_hasher : bytes
}.

Record Store : Type := mkStore {
  s_root : string;
  s_blobs : gmap string BlobInfo;
  s_uploads : gmap string uploadState;
  s_fs : fs
}.

Definition set_blobs (m : gmap string BlobInfo) (s : Store) : Store :=
  mkStore (s_root s) m (s_uploads s) (s_fs s).
Definition set_upload (ref : string) (us : uploadState) (s : Store) : Store :=
  mkStore (s_root s) (s_blobs s) (<[ref := us]> (s_uploads s)) (s_fs s).
Definition set_fs (f : fs) (s : Store) : Store :=
  mkStore (s_root s) (s_blobs s) (s_uploads s) f.

(** ** Reading *)

Definition Info (digest : string) (s : Store) : res StoreErr BlobInfo :=
  match s_blobs s !! digest with
  | Some info => Ok info
  | None => Err (BlobNotExist digest)
  end.

Definition matchFilter (info : BlobInfo) (filter : string) : bool :=
  if String.eqb filter "" then true
  else if (5 <? String.length filter) && String.eqb (str_take 5 filter) "name==" then
    String.eqb (b_Digest info) (str_drop 5 filter)
  else (0 <? String.length filter) && (String.length filter <=? String.length (b_Digest info))
       && String.eqb (str_take (String.length filter) (b_Digest info)) filter.

Definition matchFilters (info : BlobInfo) (filters : list string) : bool :=
  if length filters =? 0 then true else existsb (matchFilter info) filters.

Definition ListBlobs (filters : list string) (s : Store) : list BlobInfo :=
  List.filter (fun info => matchFilters info filters) (map snd (map_to_list (s_blobs s))).

Definition Open (io : faults) (digest : string) (s : Store) : res StoreErr File :=
  match s_blobs s !! digest with
  | None => Err (BlobNotExist digest)
  | Some _ =>
      res_bind (blobPath (s_root s) digest) (fun path =>
        match os_open io path (s_fs s) with Some f => Ok f | None => Err IOError end)
  end.

Definition GetUpload (ref : string) (s : Store) : option uploadState := s_uploads s !! ref.

Definition ListUploads (s : Store) : list uploadState := map snd (map_to_list (s_uploads s)).

(** ** Deleting *)

Definition Delete (io : faults) (digest : string) : GoM Store StoreErr unit := fun s =>
  match s_blobs s !! digest with
  | None => (s, Err (BlobNotExist digest))
  | Some _ =>
      match blobPath (s_root s) digest with
      | Ok path =>
          match os_remove io (path_elems path) (s_fs s) with
          | RemoveFailed => (s, Err IOError)
          | Removed f => (set_blobs (delete digest (s_blobs s)) (set_fs f s), Ok tt)
          | RemoveNotExist => (set_blobs (delete digest (s_blobs s)) s, Ok tt)
          end
      | Err e => (s, Err e)
      | Panic => (s, Panic)
      end
  end.

(** ** Uploads *)

Definition BeginUpload (io : faults) (now : Z) (ref expected : string) : GoM Store StoreErr uploadState :=
  fun s =>
  let ref := if String.eqb ref "" then "upload-" +:+ hex_int64 now else ref in
  match s_uploads s !! ref with
  | Some existing =>
      if us_Committed existing then (s, Err (AlreadyCommitted ref)) else (s, Ok existing)
  | None =>
      let tmpDir := path_join [s_root s; "ingest"] in
      match os_mkdir_all io (path_elems tmpDir) (s_fs s) with
      | None => (s, Err IOError)
      | Some f1 =>
          match os_create io (path_join [tmpDir; ref]) f1 with
          | None => (set_fs f1 s, Err IOError)
          | Some (h, f2) =>
              let us := mkUpload ref 0 0 expected now now "" 0 false h [] in
              (set_upload ref us (set_fs f2 s), Ok us)
          end
      end
  end.

Definition us_seek (h : File) (us : uploadState) : uploadState :=
  mkUpload (us_Ref us) (us_Offset us) (us_Total us) (us_Expected us) (us_StartedAt us)
    (us_UpdatedAt us) (us_Digest us) (us_Size us) (us_Committed us) h [].

(** The file of an upload, with its offset and its state, has changed. *)
Definition us_file (h : File) (us : uploadState) : uploadState :=
  mkUpload (us_Ref us) (us_Offset us) (us_Total us) (us_Expected us) (us_StartedAt us)
    (us_UpdatedAt us) (us_Digest us) (us_Size us) (us_Committed us) h (us_hasher us).

Definition us_wrote (now offset : Z) (data : bytes) (h : File) (us : uploadState) : uploadState :=
  mkUpload (us_Ref us) (wrap64 (offset + Z.of_nat (length data))) (us_Total us) (us_Expected us)
    (us_StartedAt us) now (us_Digest us) (us_Size us) (us_Committed us) h (us_hasher us ++ data).

Definition WriteUpload (io : faults) (now : Z) (ref : string) (offset : Z) (data : bytes) :
    GoM Store StoreErr uploadState := fun s =>
  match s_uploads s !! ref with
  | None => (s, Err (UploadNotFound ref))
  | Some us =>
      let write (us : uploadState) (s : Store) :=
        let '(h, f, ok) := os_write io data (us_tmpFile us) (s_fs s) in
        if negb ok then (set_upload ref (us_file h us) (set_fs f s), Err IOError)
        else
          let us' := us_wrote now offset data h us in
          (set_upload ref us' (set_fs f s), Ok us') in
      if negb (us_Offset us =? offset)%Z then
        match os_seek io offset (us_tmpFile us) with
        | None => (s, Err IOError)
        | Some h => let us' := us_seek h us in write us' (set_upload ref us' s)
        end
      else write us s
  end.

Definition us_commit (digest : string) (size : Z) (us : uploadState) : uploadState :=
  mkUpload (us_Ref us) (us_Offset us) (us_Total us) (us_Expected us) (us_StartedAt us)
    (us_UpdatedAt us) digest size true (us_tmpFile us) (us_hasher us).

(** [os.Remove(tmpPath)] with its error ignored. *)
Definition drop_tmp (io : faults) (us : uploadState) (s : Store) : Store :=
  match os_remove io (path_elems (f_name (us_tmpFile us))) (s_fs s) with
  | Removed f => set_fs f s
  | _ => s
  end.

(** From [MkdirAll] on: the temporary file becomes the blob. *)
Definition commit_move (io : faults) (now : Z) (ref digest destPath : string) (us : uploadState) :
    GoM Store StoreErr unit := fun s =>
  match os_mkdir_all io (path_elems (path_dir destPath)) (s_fs s) with
  | None => (s, Err IOError)
  | Some f1 =>
      let '(h, ok) := os_close io (us_tmpFile us) in
      let us1 := us_file h us in
      if negb ok then (set_upload ref us1 (set_fs f1 s), Err IOError)
      else
        match os_rename io (path_elems (f_name h)) (path_elems destPath) f1 with
        | None => (set_upload ref us1 (set_fs f1 s), Err IOError)
        | Some f2 =>
            let info := mkBlobInfo digest (us_Offset us) ∅ now now in
            let us2 := us_commit digest (us_Offset us) us1 in
            (set_upload ref us2 (set_blobs (<[digest := info]> (s_blobs s)) (set_fs f2 s)), Ok tt)
        end
  end.

Definition CommitUpload (io : faults) (now : Z) (ref : string) (total : Z) : GoM Store StoreErr unit :=
  fun s =>
  match s_uploads s !! ref with
  | None => (s, Err (UploadNotFound ref))
  | Some us =>
      let actualSize := us_Offset us in
      let digest := digest_of (us_hasher us) in
      if (0 <? total)%Z && negb (actualSize =? total)%Z then
        (drop_tmp io us s, Err (SizeMismatch total actualSize))
      else if negb (String.eqb (us_Expected us) "") && negb (String.eqb (us_Expected us) digest) then
        (drop_tmp io us s, Err (DigestMismatch (us_Expected us) digest))
      else
        match blobPath (s_root s) digest with
        | Ok destPath => commit_move io now ref digest destPath us s
        | Err e => (s, Err e)
        | Panic => (s, Panic)
        end
  end.

(** ** Start-up *)

(** The files of one prefix directory. *)
Definition scan_files (io : faults) (mtime : path -> Z) (f : fs) (algo prefix : string) (dir : path)
    (files : list (string * bool)) (m : gmap string BlobInfo) : gmap string BlobInfo :=
  fold_left (fun (m : gmap string BlobInfo) (fd : string * bool) =>
    if fd.2 then m
    else
      let full := dir ++ [fd.1] in
      match os_stat io full f with
      | None => m
      | Some ino =>
          let digest := algo +:+ ":" +:+ prefix +:+ fd.1 in
          <[digest := mkBlobInfo digest (Z.of_nat (length (fs_content f ino))) ∅ (mtime full) (mtime full)]> m
      end) files m.

Definition scan_prefixes (io : faults) (mtime : path -> Z) (f : fs) (algo : string) (algoPath : path)
    (prefixes : list (string * bool)) (m : gmap string BlobInfo) : gmap string BlobInfo :=
  fold_left (fun (m : gmap string BlobInfo) (pd : string * bool) =>
    if pd.2 then
      match fs_read_dir io f (algoPath ++ [pd.1]) with
      | None => m
      | Some files => scan_files io mtime f algo pd.1 (algoPath ++ [pd.1]) files m
      end
    else m) prefixes m.

Definition scan_algos (io : faults) (mtime : path -> Z) (f : fs) (blobsRoot : path)
    (entries : list (string * bool)) (m : gmap string BlobInfo) : gmap string BlobInfo :=
  fold_left (fun (m : gmap string BlobInfo) (ad : string * bool) =>
    if ad.2 then
      match fs_read_dir io f (blobsRoot ++ [ad.1]) with
      | None => m
      | Some prefixes => scan_prefixes io mtime f ad.1 (blobsRoot ++ [ad.1]) prefixes m
      end
    else m) entries m.

(** A missing "blobs" directory is an empty store, any other failure to read
    it is an error. *)
Definition scan (io : faults) (mtime : path -> Z) (s : Store) : res StoreErr Store :=
  let blobsRoot := path_elems (path_join [s_root s; "blobs"]) in
  match fs_read_dir io (s_fs s) blobsRoot with
  | None =>
      if io (SysReadDir blobsRoot) || fs_is_file (s_fs s) blobsRoot then Err IOError else Ok s
  | Some entries => Ok (set_blobs (scan_algos io mtime (s_fs s) blobsRoot entries (s_blobs s)) s)
  end.

Definition NewStore (io : faults) (mtime : path -> Z) (root : string) (f : fs) : res StoreErr Store :=
  match os_mkdir_all io (path_elems root) f with
  | None => Err IOError
  | Some f1 => scan io mtime (mkStore root ∅ ∅ f1)
  end.

(** ** The integrity invariant

    [tmp_elems] and [blob_elems] are the paths of a temporary file and of a
    blob.  In a well-formed store every blob's file holds exactly the bytes the
    digest names, the recorded size is their number, and no open upload shares
    the blob's inode; the file of every open upload that is not [us_torn] holds
    exactly the bytes its hash has seen, at the recorded offset. *)

Definition tmp_elems (root ref : string) : path := path_elems root ++ ["ingest"; ref].

Definition blob_elems (root : string) (content : bytes) : path :=
  let h := hex_encode (sha256 content) in
  path_elems root ++ ["blobs"; "sha256"; str_take 2 h; h].

#[global] Arguments tmp_elems : simpl never.
#[global] Arguments blob_elems : simpl never.

Definition us_ino (us : uploadState) : nat := f_ino (us_tmpFile us).
Definition us_open (us : uploadState) : bool := negb (f_closed (us_tmpFile us)).

(** A write to the upload's file failed after some bytes: the file's offset is
    no longer where the upload says it is. *)
Definition us_torn (us : uploadState) : bool :=
  negb (us_Offset us =? Z.of_nat (f_pos (us_tmpFile us)))%Z.

Lemma us_torn_spec (us : uploadState) :
  us_torn us = false <-> us_Offset us = Z.of_nat (f_pos (us_tmpFile us)).
Proof. unfold us_torn. by rewrite negb_false_iff, Z.eqb_eq. Qed.

Record upload_ok (s : Store) (ref : string) (us : uploadState) : Prop := {
  uo_plain : plain_elem ref = true;
  uo_name : path_elems (f_name (us_tmpFile us)) = tmp_elems (s_root s) ref;
  uo_notdir : tmp_elems (s_root s) ref ∉ fs_dirs (s_fs s);
  uo_ino_lt : us_ino us < fs_next (s_fs s);
  uo_committed : us_Committed us = true -> us_open us = false;
  uo_ahead : us_open us = true -> (us_Offset us <= Z.of_nat (f_pos (us_tmpFile us)))%Z;
  uo_data : us_open us = true -> us_torn us = false ->
    fs_content (s_fs s) (us_ino us) = us_hasher us /\
    f_pos (us_tmpFile us) = length (us_hasher us) /\
    us_Offset us = Z.of_nat (length (us_hasher us));
  uo_link : fs_names (s_fs s) !! tmp_elems (s_root s) ref = None \/
            fs_names (s_fs s) !! tmp_elems (s_root s) ref = Some (us_ino us);
  uo_only : forall p, fs_names (s_fs s) !! p = Some (us_ino us) ->
    p = tmp_elems (s_root s) ref \/
    us_open us = false /\ forall r, p <> tmp_elems (s_root s) r
}.

Definition blob_ok (s : Store) (d : string) (info : BlobInfo) : Prop :=
  exists content ino,
    d = digest_of content /\ b_Digest info = d /\ b_Size info = Z.of_nat (length content) /\
    fs_names (s_fs s) !! blob_elems (s_root s) content = Some ino /\
    fs_content (s_fs s) ino = content.

Record store_inv (s : Store) : Prop := {
  si_root : is_rooted (s_root s) = true;
  si_uploads : forall ref us, s_uploads s !! ref = Some us -> upload_ok s ref us;
  si_distinct : forall r1 r2 u1 u2,
    s_uploads s !! r1 = Some u1 -> s_uploads s !! r2 = Some u2 -> r1 <> r2 -> us_ino u1 <> us_ino u2;
  si_names_lt : forall p ino, fs_names (s_fs s) !! p = Some ino -> ino < fs_next (s_fs s);
  si_names_inj : forall p q ino,
    fs_names (s_fs s) !! p = Some ino -> fs_names (s_fs s) !! q = Some ino -> p = q;
  si_blobs : forall d info, s_blobs s !! d = Some info -> blob_ok s d info;
  si_names : forall p ino, fs_names (s_fs s) !! p = Some ino ->
    (exists r, p = tmp_elems (s_root s) r) \/ (exists c, p = blob_elems (s_root s) c)
}.

(** New labels for a blob. *)
Definition relabel (now : Z) (digest : string) (labels : gmap string string) (s : Store) : Store :=
  match s_blobs s !! digest with
  | Some b =>
      set_blobs (<[digest := mkBlobInfo (b_Digest b) (b_Size b) (gmap_copy labels (b_Labels b)) (b_CreatedAt b) now]>
        (s_blobs s)) s
  | None => s
  end.

(** What clients do: uploads named by a plain file name, written one chunk
    after the other, committed; blobs labelled and deleted; any call may fail
    in any way.  An upload one of whose writes failed after some of its bytes is
    not committed. *)
Inductive store_step (s : Store) : Store -> Prop :=
| step_begin io now ref expected :
    ref = "" \/ plain_elem ref = true ->
    store_step s (BeginUpload io now ref expected s).1
| step_write io now ref data :
    (forall us, s_uploads s !! ref = Some us -> in_int64 (us_Offset us + Z.of_nat (length data))) ->
    store_step s (WriteUpload io now ref
      match s_uploads s !! ref with Some us => us_Offset us | None => 0%Z end data s).1
| step_commit io now ref total :
    (forall us, s_uploads s !! ref = Some us -> us_torn us = false) ->
    store_step s (CommitUpload io now ref total s).1
| step_delete io d : store_step s (Delete io d s).1
| step_relabel now d ls : store_step s (relabel now d ls s).

(** ** Paths of the store *)

Lemma tmp_path_elems (root ref : string) :
  is_rooted root = true -> plain_elem ref = true ->
  path_elems (path_join [path_join [root; "ingest"]; ref]) = tmp_elems root ref.
Proof.
  intros Hr Hp. rewrite path_elems_join; [|by apply is_rooted_join|by constructor|done].
  rewrite path_elems_join by (try done; by constructor). by rewrite <- app_assoc.
Qed.

Lemma hex_sha_plain (content : bytes) :
  plain_elem (hex_encode (sha256 content)) = true /\
  plain_elem (str_take 2 (hex_encode (sha256 content))) = true.
Proof.
  pose proof (hex_encode_length (sha256 content)) as Hl. rewrite sha256_length in Hl.
  pose proof (hex_encode_all (sha256 content)) as Ha.
  destruct (hex_encode (sha256 content)) as [|a [|b s]] eqn:E; [done|done|].
  rewrite <- E in *. split; apply plain_elem_hex; rewrite ?E; try done.
  - by rewrite E in Ha.
  - rewrite E in Ha. by apply (str_all_take _ 2).
Qed.

Lemma splitDigest_digest_of (content : bytes) :
  splitDigest (digest_of content) = Some ("sha256", hex_encode (sha256 content)).
Proof.
  unfold splitDigest. rewrite digest_of_split, str_index_app by done.
  by rewrite str_take_app, str_drop_app_cons.
Qed.

Lemma blobPath_digest_of (root : string) (content : bytes) :
  is_rooted root = true ->
  exists p, blobPath root (digest_of content) = Ok p /\
    path_elems p = blob_elems root content /\
    path_elems (path_dir p) = removelast (blob_elems root content).
Proof.
  intros Hr. unfold blobPath. rewrite splitDigest_digest_of.
  unfold str_slice_to. rewrite hex_encode_length, sha256_length. cbn [Nat.leb Nat.mul Nat.add res_bind].
  eexists. split; [done|]. pose proof (hex_sha_plain content) as [H1 H2].
  assert (He : path_elems (path_join [root; "blobs"; "sha256"; str_take 2 (hex_encode (sha256 content));
    hex_encode (sha256 content)]) = blob_elems root content).
  { rewrite path_elems_join; [done|done| |done]. by repeat constructor. }
  split; [exact He|]. rewrite path_elems_dir by by apply is_rooted_join. by rewrite He.
Qed.

Lemma digest_of_inj_hex (c1 c2 : bytes) :
  digest_of c1 = digest_of c2 <-> hex_encode (sha256 c1) = hex_encode (sha256 c2).
Proof.
  unfold digest_of. split; [apply str_app_inv_head|]. intros H. by f_equal.
Qed.

Lemma blob_elems_inj (root : string) (c1 c2 : bytes) :
  blob_elems root c1 = blob_elems root c2 -> digest_of c1 = digest_of c2.
Proof.
  rewrite digest_of_inj_hex. unfold blob_elems.
  generalize (hex_encode (sha256 c1)) (hex_encode (sha256 c2)).
  intros h1 h2 H%app_inv_head. by injection H.
Qed.

Lemma blob_elems_eq (root : string) (c1 c2 : bytes) :
  digest_of c1 = digest_of c2 -> blob_elems root c1 = blob_elems root c2.
Proof. intros H%digest_of_inj_hex. unfold blob_elems. by rewrite H. Qed.

Lemma tmp_elems_inj (root r1 r2 : string) : tmp_elems root r1 = tmp_elems root r2 -> r1 = r2.
Proof. unfold tmp_elems. intros H%app_inv_head. by injection H. Qed.

Lemma tmp_not_blob (root ref : string) (c : bytes) : tmp_elems root ref <> blob_elems root c.
Proof.
  unfold tmp_elems, blob_elems. generalize (hex_encode (sha256 c)). intros h H%app_inv_head.
  by injection H.
Qed.

(** No temporary file is at or above the directories the store makes. *)
Lemma tmp_not_prefix_ingest (root ref : string) :
  path_prefix (tmp_elems root ref) (path_elems root ++ ["ingest"]) = false.
Proof.
  destruct (path_prefix _ _) eqn:E; [|done]. apply path_prefix_spec in E as [r Hr].
  apply (f_equal length) in Hr. unfold tmp_elems in Hr. rewrite !length_app in Hr. cbn in Hr. lia.
Qed.

Lemma tmp_not_prefix_blobdir (root ref : string) (c : bytes) :
  path_prefix (tmp_elems root ref) (removelast (blob_elems root c)) = false.
Proof.
  destruct (path_prefix _ _) eqn:E; [|done]. apply path_prefix_spec in E as [r Hr].
  unfold blob_elems, tmp_elems in Hr. revert Hr. generalize (hex_encode (sha256 c)). intros h Hr.
  rewrite removelast_app in Hr by done.
  rewrite <- app_assoc in Hr. apply app_inv_head in Hr. by injection Hr.
Qed.

(** ** The invariant is preserved: file-system steps *)

Lemma fs_content_insert_ne (f : fs) (m : gmap nat bytes) (i j : nat) (d : bytes) (dirs : gset path)
    (names : gmap path nat) (n : nat) :
  i <> j -> fs_content (mkFs dirs names (<[i := d]> (fs_data f)) n) j = fs_content f j.
Proof. intros H. unfold fs_content. cbn. by rewrite lookup_insert_ne. Qed.

Lemma fs_content_data (f f' : fs) (i : nat) :
  fs_data f' = fs_data f -> fs_content f' i = fs_content f i.
Proof. intros H. unfold fs_content. by rewrite H. Qed.

(** New directories that are not temporary files. *)
Lemma inv_mkdir (s : Store) (io : faults) (p : path) (f : fs) :
  store_inv s -> os_mkdir_all io p (s_fs s) = Some f ->
  (forall ref, path_prefix (tmp_elems (s_root s) ref) p = false) ->
  store_inv (set_fs f s).
Proof.
  intros [Hroot Hup Hdist Hlt Hinj Hbl Hnm] (Hn & Hd & Hx & Hdir)%os_mkdir_all_frame Hp.
  constructor; cbn; rewrite ?Hn, ?Hx; try done.
  - intros ref us Hus. destruct (Hup ref us Hus). constructor; cbn; rewrite ?Hn, ?Hx; try done.
    + intros [H|H]%Hdir; [|done]. exact (eq_true_false_abs _ H (Hp ref)).
    + intros Ho Ht. by rewrite (fs_content_data (s_fs s)) by done; auto.
  - intros d info (c & ino & H)%Hbl. exists c, ino. cbn. rewrite Hn.
    by rewrite (fs_content_data (s_fs s)).
Qed.

(** A name that is no longer linked, and no blob's. *)
Lemma inv_unlink (s : Store) (p : path) (dirs : gset path) :
  store_inv s -> dirs ⊆ fs_dirs (s_fs s) ->
  (forall d info c, s_blobs s !! d = Some info -> d = digest_of c -> blob_elems (s_root s) c <> p) ->
  store_inv (set_fs (mkFs dirs (delete p (fs_names (s_fs s))) (fs_data (s_fs s))
                          (fs_next (s_fs s))) s).
Proof.
  intros [Hroot Hup Hdist Hlt Hinj Hbl Hnm] Hsub Hp.
  constructor; cbn; try done.
  - intros ref us Hus. destruct (Hup ref us Hus). constructor; cbn; try done.
    + intros Hd. by apply Hsub in Hd.
    + destruct (decide (p = tmp_elems (s_root s) ref)) as [->|Hne].
      * left. apply lookup_delete_eq.
      * by rewrite lookup_delete_ne.
    + intros q [_ Hq]%lookup_delete_Some. auto.
  - intros q ino [_ Hq]%lookup_delete_Some. eauto.
  - intros q1 q2 ino [_ H1]%lookup_delete_Some [_ H2]%lookup_delete_Some. eauto.
  - intros d info Hd. destruct (Hbl d info Hd) as (c & ino & H1 & H2 & H3 & H4 & H5).
    exists c, ino. cbn. split_and!; try done. rewrite lookup_delete_ne; [done|].
    intros ->. by eapply Hp.
  - intros q ino [_ Hq]%lookup_delete_Some. eauto.
Qed.

Lemma inv_drop_tmp (io : faults) (ref : string) (us : uploadState) (s : Store) :
  store_inv s -> s_uploads s !! ref = Some us -> store_inv (drop_tmp io us s).
Proof.
  intros Hinv Hus. unfold drop_tmp. case_step; try done.
  apply os_remove_removed in Heqr as (dirs & Hd & ->). apply inv_unlink; [done|done|].
  intros d info c _ _ Heq. rewrite (uo_name _ _ _ (si_uploads _ Hinv _ _ Hus)) in Heq.
  symmetry in Heq. by apply tmp_not_blob in Heq.
Qed.

Lemma Delete_inv (io : faults) (d : string) (s : Store) :
  store_inv s -> store_inv (Delete io d s).1.
Proof.
  intros Hinv. unfold Delete. destruct (s_blobs s !! d) as [info|] eqn:Hd; [|done].
  destruct (si_blobs _ Hinv _ _ Hd) as (c & ino & -> & _).
  destruct (blobPath_digest_of (s_root s) c (si_root _ Hinv)) as (p & -> & Hp & _).
  assert (Hdel : store_inv (set_blobs (delete (digest_of c) (s_blobs s)) s)).
  { destruct Hinv as [Hroot Hup Hdist Hlt Hinj Hbl Hnm]. constructor; try done.
    - intros ref us Hus. by destruct (Hup ref us Hus).
    - intros d' i' Hd'. cbn in Hd'. apply lookup_delete_Some in Hd' as [_ Hd']. exact (Hbl _ _ Hd'). }
  case_step; [|done|done]. cbn.
  match goal with H : os_remove _ _ _ = Removed _ |- _ => apply os_remove_removed in H as (dirs & Hsub & ->) end.
  apply (inv_unlink (set_blobs (delete (digest_of c) (s_blobs s)) s) (path_elems p) dirs Hdel Hsub).
  cbn. intros d' i' c' [Hne _]%lookup_delete_Some -> Heq. rewrite Hp in Heq.
  by apply blob_elems_inj in Heq.
Qed.

(** ** The invariant is preserved: uploads *)

Lemma hex_nat_plain (fuel : nat) (n : N) : str_all is_hexdigit (hex_nat fuel n) = true.
Proof.
  assert (Happ : forall s t, str_all is_hexdigit s = true -> str_all is_hexdigit t = true ->
    str_all is_hexdigit (s +:+ t) = true).
  { intros s t Hs Ht. induction s as [|a s IH]; [done|]. cbn in *. bool_simp.
    apply andb_true_iff. auto. }
  assert (Hd : forall m, (m < 16)%N -> str_all is_hexdigit (str1 (hex_digit m)) = true).
  { intros m Hm. cbn. by rewrite hex_digit_ok. }
  revert n. induction fuel as [|fuel IH]; intros n; [done|]. cbn [hex_nat].
  destruct (N.ltb_spec n 16); [by apply Hd|]. apply Happ; [apply IH|].
  apply Hd, N.mod_lt. done.
Qed.

Lemma upload_name_plain (now : Z) : plain_elem ("upload-" +:+ hex_int64 now) = true.
Proof.
  assert (Hh : forall s, str_all is_hexdigit s = true -> str_has ch_dot s = false /\ str_has ch_slash s = false).
  { intros s Hs. split; by apply (str_all_notin _ is_hexdigit). }
  unfold hex_int64. destruct (now <? 0)%Z; apply plain_elem_intro; try done;
    rewrite !str_has_app; cbn [str_has orb Ascii.eqb];
    destruct (Hh _ (hex_nat_plain 16 (Z.to_N (- now)))) as [H1 H2];
    destruct (Hh _ (hex_nat_plain 16 (Z.to_N now))) as [H3 H4];
    by rewrite ?H1, ?H2, ?H3, ?H4.
Qed.

(** A file created for a reference without an upload: no other name and no
    other upload has its inode. *)
Lemma create_fresh (io : faults) (s : Store) (r name : string) (h : File) (f2 : fs) :
  store_inv s -> s_uploads s !! r = None -> path_elems name = tmp_elems (s_root s) r ->
  os_create io name (s_fs s) = Some (h, f2) ->
  (forall p, fs_names (s_fs s) !! p = Some (f_ino h) -> p = tmp_elems (s_root s) r) /\
  (forall r' us, s_uploads s !! r' = Some us -> r' <> r /\ us_ino us <> f_ino h) /\
  fs_next (s_fs s) <= fs_next f2 /\ f_ino h < fs_next f2.
Proof.
  intros [_ Hup Hdist Hlt Hinj Hbl Hnm] Hex Hname Hcr.
  apply os_create_spec in Hcr as (_ & _ & _ & _ & _ & _ & _ & Hcase). rewrite Hname in Hcase.
  split_and!.
  - intros p Hp. destruct Hcase as [[Hc _]|(_ & Hc & _)]; [by eapply Hinj|].
    apply Hlt in Hp. lia.
  - intros r' us Hus. assert (r' <> r) by congruence. split; [done|]. intros Heq.
    destruct (Hup _ _ Hus) as [_ _ _ Hil _ _ _ _ Honly].
    destruct Hcase as [[Hc _]|(_ & Hc & _)]; [|lia].
    rewrite <- Heq in Hc. destruct (Honly _ Hc) as [Ht|[_ Ht]]; [|by eapply Ht].
    by apply tmp_elems_inj in Ht.
  - destruct Hcase as [[_ ->]|(_ & _ & ->)]; lia.
  - destruct Hcase as [[Hc ->]|(_ & -> & ->)]; [by eapply Hlt|lia].
Qed.

Lemma inv_create (io : faults) (now : Z) (s : Store) (r name expected : string) (h : File) (f2 : fs) :
  store_inv s -> s_uploads s !! r = None -> plain_elem r = true ->
  path_elems name = tmp_elems (s_root s) r -> os_create io name (s_fs s) = Some (h, f2) ->
  store_inv (set_upload r (mkUpload r 0 0 expected now now "" 0 false h []) (set_fs f2 s)).
Proof.
  intros Hinv Hex Hr Hname Hcr.
  destruct (create_fresh _ _ _ _ _ _ Hinv Hex Hname Hcr) as (Hfresh & Hother & Hnext & Hino).
  apply os_create_spec in Hcr as (Hn & Hpos & Hcl & Hnd & Hdirs & Hnames & Hdata & _).
  rewrite Hname in *. destruct Hinv as [Hroot Hup Hdist Hlt Hinj Hbl Hnm].
  assert (Hcont : forall i, i <> f_ino h -> fs_content f2 i = fs_content (s_fs s) i).
  { intros i Hi. unfold fs_content. rewrite Hdata. by rewrite lookup_insert_ne. }
  constructor; cbn; [done| | | | | |].
  - intros ref us [[<- <-]|[Hne Hus]]%lookup_insert_Some.
    + constructor; cbn; rewrite ?Hdirs, ?Hnames; try done.
      * by rewrite Hn, Hname.
      * rewrite Hpos. lia.
      * intros _ _. unfold fs_content, us_ino. cbn. by rewrite Hdata, lookup_insert_eq, Hpos.
      * right. by rewrite lookup_insert_eq.
      * intros p [[<- _]|[_ Hp]]%lookup_insert_Some; [by left|]. left. by eapply Hfresh.
    + destruct (Hother _ _ Hus) as [_ Hi]. destruct (Hup _ _ Hus).
      constructor; cbn in *; rewrite ?Hdirs, ?Hnames; try done; [lia| | |].
      * intros Ho Ht. rewrite Hcont by done. auto.
      * rewrite lookup_insert_ne; [done|]. intros Ht%tmp_elems_inj. congruence.
      * intros p [[<- Hq]|[_ Hp]]%lookup_insert_Some; [congruence|auto].
  - intros r1 r2 u1 u2 [[<- <-]|[Hn1 H1]]%lookup_insert_Some [[<- <-]|[Hn2 H2]]%lookup_insert_Some Hne;
      [done| | |by eapply Hdist]; unfold us_ino at 1; cbn.
    + intros Heq. destruct (Hother _ _ H2) as [_ Hi]. by apply Hi.
    + by destruct (Hother _ _ H1) as [_ Hi].
  - intros p ino. rewrite Hnames. intros [[<- <-]|[_ Hp]]%lookup_insert_Some; [done|].
    apply Hlt in Hp. lia.
  - intros p q ino. rewrite Hnames.
    intros [[<- <-]|[Hp Hp']]%lookup_insert_Some [[<- Hq]|[Hq Hq']]%lookup_insert_Some; try done.
    + symmetry. apply Hfresh. congruence.
    + apply Hfresh. congruence.
    + by eapply Hinj.
  - intros d info Hd. destruct (Hbl _ _ Hd) as (c & ino & H1 & H2 & H3 & H4 & H5).
    exists c, ino. cbn in *. rewrite Hnames. split_and!; try done.
    + rewrite lookup_insert_ne; [done|]. apply tmp_not_blob.
    + rewrite Hcont; [done|]. intros ->. pose proof (Hfresh _ H4) as Ht.
      symmetry in Ht. by apply tmp_not_blob in Ht.
  - intros p ino. rewrite Hnames. intros [[<- _]|[_ Hp]]%lookup_insert_Some; eauto.
Qed.

Lemma BeginUpload_inv (io : faults) (now : Z) (ref expected : string) (s : Store) :
  ref = "" \/ plain_elem ref = true -> store_inv s -> store_inv (BeginUpload io now ref expected s).1.
Proof.
  intros Href Hinv. unfold BeginUpload.
  set (r := if String.eqb ref "" then "upload-" +:+ hex_int64 now else ref).
  assert (Hr : plain_elem r = true).
  { subst r. destruct Href as [->|Href]; [apply upload_name_plain|].
    apply plain_elem_spec in Href as Href'. destruct Href' as (-> & _). done. }
  clearbody r. clear Href ref.
  destruct (s_uploads s !! r) as [ex|] eqn:Hex; [by destruct (us_Committed ex)|].
  destruct (os_mkdir_all _ _ _) as [f1|] eqn:Hmk; [|done].
  pose proof (si_root _ Hinv) as Hroot.
  assert (Hinv1 : store_inv (set_fs f1 s)).
  { eapply inv_mkdir; [done|done|]. intros ref.
    rewrite path_elems_join by (try done; by constructor). apply tmp_not_prefix_ingest. }
  destruct (os_create _ _ _) as [[h f2]|] eqn:Hcr; [|done].
  apply (inv_create io now (set_fs f1 s) r (path_join [path_join [s_root s; "ingest"]; r]));
    try done.
  by apply tmp_path_elems.
Qed.

(** Replacing the record of an upload by one with the same file, and the file
    system by one that differs in that file's content only. *)
Lemma inv_update_upload (s : Store) (ref : string) (us us' : uploadState) (f : fs) :
  store_inv s -> s_uploads s !! ref = Some us ->
  us_ino us' = us_ino us ->
  f_name (us_tmpFile us') = f_name (us_tmpFile us) ->
  (us_open us' = true -> us_open us = true) ->
  (us_Committed us' = true -> us_open us' = false) ->
  (us_open us' = true -> (us_Offset us' <= Z.of_nat (f_pos (us_tmpFile us')))%Z) ->
  fs_dirs f = fs_dirs (s_fs s) -> fs_names f = fs_names (s_fs s) -> fs_next f = fs_next (s_fs s) ->
  (forall i, i <> us_ino us \/ us_open us = false -> fs_content f i = fs_content (s_fs s) i) ->
  (us_open us' = true -> us_torn us' = false ->
     fs_content f (us_ino us) = us_hasher us' /\
     f_pos (us_tmpFile us') = length (us_hasher us') /\
     us_Offset us' = Z.of_nat (length (us_hasher us'))) ->
  store_inv (set_upload ref us' (set_fs f s)).
Proof.
  intros [Hroot Hup Hdist Hlt Hinj Hbl Hnm] Hus Hi Hn Ho Hc Hah Hfd Hfn Hfx Hcont Hdata.
  constructor; cbn; rewrite ?Hfn, ?Hfx; try done.
  - intros r u [[<- <-]|[Hne Hu]]%lookup_insert_Some.
    + destruct (Hup _ _ Hus). constructor; cbn; rewrite ?Hfn, ?Hfx, ?Hfd, ?Hi, ?Hn; try done.
      intros p [?|[Hop ?]]%uo_only0; [by left|right]. split; [|done].
      destruct (us_open us') eqn:E; [|done]. by rewrite (Ho eq_refl) in Hop.
    + destruct (Hup _ _ Hu). constructor; cbn; rewrite ?Hfn, ?Hfx, ?Hfd; try done.
      intros Hop Ht. rewrite Hcont; auto. left. by eapply Hdist.
  - intros r1 r2 u1 u2 [[<- <-]|[Hn1 H1]]%lookup_insert_Some [[<- <-]|[Hn2 H2]]%lookup_insert_Some Hne;
      rewrite ?Hi; try done; by eapply Hdist.
  - intros d info Hd. destruct (Hbl _ _ Hd) as (c & ino & H1 & H2 & H3 & H4 & H5).
    exists c, ino. cbn. rewrite Hfn. split_and!; try done. rewrite <- H5.
    apply Hcont. destruct (us_open us) eqn:Hop; [left|by right]. intros ->.
    destruct (uo_only _ _ _ (Hup _ _ Hus) _ H4) as [Ht|[Ht _]]; [|congruence].
    symmetry in Ht. by apply tmp_not_blob in Ht.
Qed.

(** An in-order write that fails may tear the upload; if it does not, nothing
    was written.  A torn upload stays torn. *)
Lemma WriteUpload_inv (io : faults) (now : Z) (ref : string) (data : bytes) (s : Store) (us : uploadState) :
  store_inv s -> s_uploads s !! ref = Some us ->
  in_int64 (us_Offset us + Z.of_nat (length data)) ->
  store_inv (WriteUpload io now ref (us_Offset us) data s).1.
Proof.
  intros Hinv Hus Hrange. unfold WriteUpload. rewrite Hus, Z.eqb_refl. cbn [negb].
  destruct (os_write _ _ _ _) as [[h f] ok] eqn:Hw.
  destruct (si_uploads _ Hinv _ _ Hus) as [_ _ _ _ Hcom Hahead Hdata _ _].
  pose proof (os_write_frame _ _ _ _ _ _ _ Hw) as (Hn & Hd & Hx & Hc & Hnm & Hi & Hcl & Hok & Hpos).
  specialize (fun H => Hdata H ∘ proj2 (us_torn_spec us)) as Hdata'. unfold compose in Hdata'.
  assert (Hcont : us_open us = true -> us_Offset us = Z.of_nat (f_pos (us_tmpFile us)) ->
    fs_content f (us_ino us) = us_hasher us ++ firstn (f_pos h - f_pos (us_tmpFile us)) data).
  { intros Hop Ht. destruct (Hdata' Hop Ht) as (H1 & H2 & _). rewrite <- H1.
    by apply (os_write_append io data (us_tmpFile us) h (s_fs s) f ok); [rewrite H2, <- H1|]. }
  assert (Hall : ok = true -> f_pos h = f_pos (us_tmpFile us) + length data).
  { intros ->. apply os_write_ok in Hw. by injection Hw as -> _. }
  unfold us_open, us_ino in *.
  destruct ok; cbn [negb fst]; eapply inv_update_upload; try done; rewrite ?us_torn_spec; unfold us_open, us_ino; cbn;
    rewrite ?Hcl, ?wrap64_id, ?Hall by done; try done;
    try (intros i [Hi'|Hi']; apply Hc; [by left|right; by apply negb_false_iff]);
    intros Hop; specialize (Hahead Hop); [lia| |lia|]; intros Ht.
  - destruct (Hdata' Hop ltac:(lia)) as (H3 & H4 & H5).
    rewrite (Hcont Hop ltac:(lia)), H5, H4, length_app, Hall, H4 by done.
    rewrite Nat.add_comm, Nat.add_sub, firstn_all. split_and!; [done|lia|lia].
  - destruct (Hdata' Hop ltac:(lia)) as (H3 & H4 & H5).
    assert (Hp : f_pos h = f_pos (us_tmpFile us)) by lia.
    rewrite (Hcont Hop ltac:(lia)), Hp, Nat.sub_diag, app_nil_r. by split_and!.
Qed.

(** A closed temporary file, renamed to the blob its content names. *)
Lemma inv_publish (s : Store) (ref : string) (us : uploadState) (info : BlobInfo) (f : fs) :
  store_inv s -> s_uploads s !! ref = Some us -> us_open us = false ->
  fs_names (s_fs s) !! tmp_elems (s_root s) ref = Some (us_ino us) ->
  let c := fs_content (s_fs s) (us_ino us) in
  b_Digest info = digest_of c -> b_Size info = Z.of_nat (length c) ->
  fs_dirs f = fs_dirs (s_fs s) -> fs_next f = fs_next (s_fs s) -> fs_data f = fs_data (s_fs s) ->
  fs_names f = <[blob_elems (s_root s) c := us_ino us]>
                 (delete (tmp_elems (s_root s) ref) (fs_names (s_fs s))) ->
  store_inv (set_blobs (<[digest_of c := info]> (s_blobs s)) (set_fs f s)).
Proof.
  intros [Hroot Hup Hdist Hlt Hinj Hbl Hnm] Hus Hop Hsrc c Hdg Hsz Hfd Hfx Hfdt Hfn.
  assert (Hcont : forall i, fs_content f i = fs_content (s_fs s) i) by (intros; by apply fs_content_data).
  constructor; cbn; rewrite ?Hfx; try done.
  - intros r u Hu. destruct (Hup _ _ Hu).
    constructor; cbn; rewrite ?Hfd, ?Hfx; try done.
    + rewrite Hcont. done.
    + rewrite Hfn, lookup_insert_ne by (symmetry; apply tmp_not_blob).
      destruct (decide (tmp_elems (s_root s) ref = tmp_elems (s_root s) r)) as [->|Hne];
        [left; apply lookup_delete_eq|by rewrite lookup_delete_ne].
    + intros p. rewrite Hfn. intros [[<- Hi]|[_ [_ Hp]%lookup_delete_Some]]%lookup_insert_Some; [|auto].
      right. split; [|intros r' Heq; symmetry in Heq; by apply tmp_not_blob in Heq].
      destruct (decide (ref = r)) as [->|Hne]; [congruence|].
      by destruct (Hdist _ _ _ _ Hus Hu Hne).
  - intros p ino. rewrite Hfn.
    intros [[<- <-]|[_ [_ Hp]%lookup_delete_Some]]%lookup_insert_Some; by eapply Hlt.
  - assert (Honly : forall p, tmp_elems (s_root s) ref <> p -> fs_names (s_fs s) !! p <> Some (us_ino us)).
    { intros p Hp Hs. apply Hp. by eapply Hinj. }
    intros p q ino. rewrite Hfn.
    intros [[<- <-]|[_ [Hp1 Hp]%lookup_delete_Some]]%lookup_insert_Some
           [[<- Hi]|[_ [Hq1 Hq]%lookup_delete_Some]]%lookup_insert_Some; try done.
    + by apply Honly in Hq.
    + subst ino. by apply Honly in Hp.
    + by eapply Hinj.
  - intros d i [[<- <-]|[Hne Hd]]%lookup_insert_Some.
    + exists c, (us_ino us). cbn. rewrite Hfn, lookup_insert_eq, Hcont. by split_and!.
    + destruct (Hbl _ _ Hd) as (c' & ino & -> & H2 & H3 & H4 & H5).
      exists c', ino. cbn. rewrite Hcont, Hfn. split_and!; try done.
      rewrite lookup_insert_ne by (intros Heq%blob_elems_inj; congruence).
      by rewrite lookup_delete_ne by apply tmp_not_blob.
  - intros p ino. rewrite Hfn.
    intros [[<- _]|[_ [_ Hp]%lookup_delete_Some]]%lookup_insert_Some; eauto.
Qed.

(** Publishing an upload: make the directory, close, rename, record. *)
Lemma commit_move_inv (io : faults) (now : Z) (ref destPath : string) (us : uploadState) (s : Store) :
  store_inv s -> s_uploads s !! ref = Some us -> us_torn us = false ->
  path_elems destPath = blob_elems (s_root s) (us_hasher us) ->
  path_elems (path_dir destPath) = removelast (blob_elems (s_root s) (us_hasher us)) ->
  store_inv (commit_move io now ref (digest_of (us_hasher us)) destPath us s).1.
Proof.
  intros Hinv Hus Htorn Hdest Hdir. unfold commit_move. rewrite Hdest, Hdir.
  destruct (os_mkdir_all _ _ _) as [f1|] eqn:Hmk; [|done].
  assert (Hinv1 : store_inv (set_fs f1 s)).
  { eapply inv_mkdir; [done|done|]. intros r. apply tmp_not_prefix_blobdir. }
  clear Hmk Hinv. unfold os_close. cbv zeta. cbn [negb]. set (us1 := us_file _ us).
  assert (Hinv2 : store_inv (set_upload ref us1 (set_fs f1 s))).
  { apply (inv_update_upload (set_fs f1 s) ref us us1 f1); done. }
  destruct (f_closed (us_tmpFile us) || _) eqn:Hcl; [done|]. cbn [negb].
  apply orb_false_iff in Hcl as [Hcl _].
  destruct (si_uploads _ Hinv1 _ _ Hus) as [Hpl Hname Hnd Hil _ _ Hdata Hlink _]. cbn in *.
  destruct Hdata as (Hc & _ & Hoff); [unfold us_open; by rewrite Hcl|done|].
  cbn [f_name]. rewrite Hname. destruct (os_rename _ _ _ _) as [f2|] eqn:Hrn; [|done]. cbn.
  assert (Hsrc : fs_names f1 !! tmp_elems (s_root s) ref = Some (us_ino us)).
  { destruct Hlink as [Hl|Hl]; [|done]. rewrite os_rename_missing in Hrn; [done|done|].
    unfold fs_is_dir. by apply bool_decide_eq_false. }
  destruct (os_rename_file _ _ _ _ _ _ Hsrc Hrn) as (Hn & Hd & Hx & Hdirs).
  pose proof (inv_publish (set_upload ref us1 (set_fs f1 s)) ref us1
    (mkBlobInfo (digest_of (us_hasher us)) (us_Offset us) ∅ now now) f2 Hinv2) as Hpub.
  cbv zeta in Hpub.
  rewrite (Hc : fs_content (s_fs (set_upload ref us1 (set_fs f1 s))) (us_ino us1) = us_hasher us) in Hpub.
  specialize (Hpub (lookup_insert_eq _ _ _) eq_refl Hsrc eq_refl Hoff Hdirs Hx Hd Hn).
  eapply (inv_update_upload _ ref us1 (us_commit (digest_of (us_hasher us)) (us_Offset us) us1) f2) in Hpub;
    try done; [|apply lookup_insert_eq].
  unfold set_upload, set_blobs, set_fs in *. cbn in *. by rewrite insert_insert_eq in Hpub.
Qed.

Lemma CommitUpload_inv (io : faults) (now : Z) (ref : string) (total : Z) (s : Store) :
  store_inv s -> (forall us, s_uploads s !! ref = Some us -> us_torn us = false) ->
  store_inv (CommitUpload io now ref total s).1.
Proof.
  intros Hinv Htorn. unfold CommitUpload. destruct (s_uploads s !! ref) as [us|] eqn:Hus; [|done].
  destruct ((0 <? total)%Z && _); [by apply (inv_drop_tmp io ref us)|].
  destruct (negb _ && _); [by apply (inv_drop_tmp io ref us)|].
  destruct (blobPath_digest_of (s_root s) (us_hasher us) (si_root _ Hinv)) as (p & -> & Hp & Hpd).
  apply commit_move_inv; auto.
Qed.

(** ** Start-up and reachability *)

(** A store opened where there are no files and no blobs directory. *)
Lemma NewStore_fresh (io : faults) (mtime : path -> Z) (root : string) (f : fs) (s : Store) :
  is_rooted root = true -> fs_names f = ∅ -> path_elems root ++ ["blobs"] ∉ fs_dirs f ->
  NewStore io mtime root f = Ok s ->
  store_inv s /\ s_root s = root /\ s_blobs s = ∅ /\ s_uploads s = ∅.
Proof.
  intros Hr Hf Hb. unfold NewStore. destruct (os_mkdir_all _ _ _) as [f1|] eqn:Hmk; [|done].
  apply os_mkdir_all_frame in Hmk as (Hn & _ & _ & Hdir). rewrite Hf in Hn.
  unfold scan, fs_read_dir, fs_is_dir. cbn [s_root s_fs].
  destruct (io (SysReadDir _)); [done|]. rewrite bool_decide_eq_false_2.
  2: { rewrite path_elems_join by (try done; by constructor).
       intros [Hp|Hp]%Hdir; [|done]. apply path_prefix_spec in Hp as [r Hp]. apply (f_equal length) in Hp.
       rewrite !length_app in Hp. cbn in Hp. lia. }
  cbn [orb]. case_match; [done|]. intros [= <-]. split_and!; try done.
  constructor; cbn; rewrite ?Hn; try done; intros *; by rewrite lookup_empty.
Qed.

Lemma NewStore_empty (io : faults) (mtime : path -> Z) (root : string) (s : Store) :
  is_rooted root = true -> NewStore io mtime root fs_empty = Ok s ->
  store_inv s /\ s_root s = root /\ s_blobs s = ∅ /\ s_uploads s = ∅.
Proof.
  intros Hr. apply NewStore_fresh; [done|done|]. cbn. rewrite elem_of_singleton. by destruct (path_elems root).
Qed.

Lemma relabel_inv (now : Z) (d : string) (ls : gmap string string) (s : Store) :
  store_inv s -> store_inv (relabel now d ls s).
Proof.
  intros Hinv. unfold relabel. destruct (s_blobs s !! d) as [b|] eqn:Hb; [|done].
  pose proof (si_blobs _ Hinv _ _ Hb) as (c & ino & H1 & H2 & H3 & H4 & H5).
  destruct Hinv as [Hroot Hup Hdist Hlt Hinj Hbl Hnm]. constructor; cbn; try done.
  - intros ref us Hus. by destruct (Hup ref us Hus).
  - intros d' i [[<- <-]|[_ Hi]]%lookup_insert_Some; [|exact (Hbl _ _ Hi)]. exists c, ino. by split_and!.
Qed.

Lemma store_step_inv (s s' : Store) : store_inv s -> store_step s s' -> store_inv s'.
Proof.
  intros Hinv [| io now ref data Hw | | |];
    [by apply BeginUpload_inv| |by apply CommitUpload_inv|by apply Delete_inv|by apply relabel_inv].
  destruct (s_uploads s !! ref) as [us|] eqn:Hus.
  - apply WriteUpload_inv; auto.
  - unfold WriteUpload. by rewrite Hus.
Qed.

Lemma store_steps_inv (s s' : Store) : rtc store_step s s' -> store_inv s -> store_inv s'.
Proof. induction 1; eauto using store_step_inv. Qed.

(** The keys a scan adds. *)
Definition scanned (f : fs) (blobsRoot : path) (d : string) : Prop :=
  exists algo prefix name ino,
    fs_names f !! (blobsRoot ++ [algo; prefix; name]) = Some ino /\
    d = algo +:+ ":" +:+ prefix +:+ name.

Lemma scan_files_keys (io : faults) (mtime : path -> Z) (f : fs) (algo prefix d : string) (br : path)
    (files : list (string * bool)) (m : gmap string BlobInfo) :
  is_Some (scan_files io mtime f algo prefix ((br ++ [algo]) ++ [prefix]) files m !! d) ->
  is_Some (m !! d) \/ scanned f br d.
Proof.
  revert m. induction files as [|[n dir] files IH]; intros m; [by left|]. cbn.
  destruct dir; [apply IH|]. destruct (os_stat _ _ _) as [ino|] eqn:Hn; [|apply IH].
  apply os_stat_some in Hn.
  intros [H|H]%IH; [|by right].
  destruct (decide (d = algo +:+ ":" +:+ prefix +:+ n)) as [->|Hne].
  - right. exists algo, prefix, n, ino. by rewrite <- !app_assoc in Hn.
  - left. by rewrite lookup_insert_ne in H.
Qed.

Lemma scan_prefixes_keys (io : faults) (mtime : path -> Z) (f : fs) (algo d : string) (br : path)
    (ps : list (string * bool)) (m : gmap string BlobInfo) :
  is_Some (scan_prefixes io mtime f algo (br ++ [algo]) ps m !! d) ->
  is_Some (m !! d) \/ scanned f br d.
Proof.
  revert m. induction ps as [|[n dir] ps IH]; intros m; [by left|]. cbn.
  destruct dir; [|apply IH]. destruct (fs_read_dir io f _) as [files|]; [|apply IH].
  intros [H|H]%IH; [|by right]. by apply scan_files_keys in H.
Qed.

Lemma scan_algos_keys (io : faults) (mtime : path -> Z) (f : fs) (d : string) (br : path)
    (entries : list (string * bool)) (m : gmap string BlobInfo) :
  is_Some (scan_algos io mtime f br entries m !! d) -> is_Some (m !! d) \/ scanned f br d.
Proof.
  revert m. induction entries as [|[n dir] es IH]; intros m; [by left|]. cbn.
  destruct dir; [|apply IH]. destruct (fs_read_dir io f _) as [ps|]; [|apply IH].
  intros [H|H]%IH; [|by right]. by apply scan_prefixes_keys in H.
Qed.

(** What a scan of a well-formed store's directory finds has a digest two
    characters too long. *)
Lemma scanned_length (s : Store) (d : string) :
  store_inv s -> scanned (s_fs s) (path_elems (path_join [s_root s; "blobs"])) d ->
  String.length d = 73.
Proof.
  intros Hinv (algo & prefix & name & ino & Hn & ->).
  rewrite path_elems_join in Hn by (try apply Hinv; try done; by constructor).
  rewrite <- app_assoc in Hn.
  destruct (si_names _ Hinv _ _ Hn) as [[r Hp]|[c Hp]].
  - unfold tmp_elems in Hp. apply app_inv_head in Hp. by injection Hp.
  - pose proof (hex_encode_length (sha256 c)) as Hl. rewrite sha256_length in Hl.
    unfold blob_elems in Hp. revert Hp Hl. generalize (hex_encode (sha256 c)). intros h Hp Hl.
    apply app_inv_head in Hp. injection Hp as -> -> ->. rewrite !str_app_length, Hl.
    destruct h as [|a [|b h]]; done.
Qed.

(** ** Properties *)

(** C21: Every blob the store answers for is intact.  Start from an empty data
    directory and take any uploads whose references are plain file names and
    whose chunks are written in order, commits and deletions.  Any system call
    may fail, a write after any number of its bytes, as long as an upload is not
    committed after one of its writes failed between its first and its last
    byte.  Then each recorded digest can be opened, the file holds bytes whose
    SHA-256 is that digest, and the recorded size is their number. *)
Theorem store_integrity (mtime : path -> Z) (root : string) (s0 s : Store) (d : string) (info : BlobInfo) :
  is_rooted root = true -> NewStore no_faults mtime root fs_empty = Ok s0 ->
  rtc store_step s0 s -> s_blobs s !! d = Some info ->
  exists h content,
    Open no_faults d s = Ok h /\ fs_content (s_fs s) (f_ino h) = content /\
    digest_of content = d /\ b_Digest info = d /\ b_Size info = Z.of_nat (length content).
Proof.
  intros Hr Hnew Hsteps Hd. destruct (NewStore_empty _ _ _ _ Hr Hnew) as (Hinv & _).
  apply (store_steps_inv _ _ Hsteps) in Hinv.
  destruct (si_blobs _ Hinv _ _ Hd) as (c & ino & -> & Hdig & Hsz & Hn & Hc).
  destruct (blobPath_digest_of (s_root s) c (si_root _ Hinv)) as (p & Hp & Hpe & _).
  unfold Open. rewrite Hd, Hp. cbn [res_bind]. unfold os_open. rewrite Hpe, Hn. cbn.
  exists (mkFile p ino 0 false), c. by split_and!.
Qed.

(** A commit publishes only what it has verified.  A successful commit
    means the requested size (when positive) is the upload's size and the
    expected digest (when given) is the hash's, and records exactly that
    digest; a failing commit leaves the recorded blobs alone; no commit
    panics. *)
Theorem CommitUpload_verifies (io : faults) (now : Z) (ref : string) (total : Z) (s : Store) :
  match CommitUpload io now ref total s with
  | (s', Ok _) =>
      exists us, s_uploads s !! ref = Some us /\
        ((total <= 0)%Z \/ us_Offset us = total) /\
        (us_Expected us = "" \/ us_Expected us = digest_of (us_hasher us)) /\
        s_blobs s' = <[digest_of (us_hasher us) :=
          mkBlobInfo (digest_of (us_hasher us)) (us_Offset us) ∅ now now]> (s_blobs s)
  | (s', Err _) => s_blobs s' = s_blobs s
  | (_, Panic) => False
  end.
Proof.
  unfold CommitUpload. destruct (s_uploads s !! ref) as [us|]; [|done].
  assert (Hdrop : s_blobs (drop_tmp io us s) = s_blobs s) by (unfold drop_tmp; by case_step).
  destruct ((0 <? total)%Z && _) eqn:Ht; [done|].
  destruct (negb (us_Expected us =? "")%string && _) eqn:He; [done|].
  unfold blobPath. rewrite splitDigest_digest_of. unfold str_slice_to.
  rewrite hex_encode_length, sha256_length. cbn [Nat.leb Nat.mul Nat.add res_bind].
  unfold commit_move. destruct (os_mkdir_all _ _ _) as [f1|]; [|done].
  destruct (os_close _ _) as [h []]; [|done]. cbn [negb]. destruct (os_rename _ _ _ _) as [f2|]; [|done].
  exists us. split_and!; [done| | |done].
  - apply andb_false_iff in Ht as [Ht|Ht]; [left; by apply Z.ltb_ge|].
    right. apply negb_false_iff in Ht. by apply Z.eqb_eq.
  - apply andb_false_iff in He as [He|He]; apply negb_false_iff, String.eqb_eq in He; auto.
Qed.

(** C32: A restart loses every blob.  The start-up scan builds the digest of a
    file from its directory and its name, although the name already holds the
    whole hash, so a store re-opened on the directory of a well-formed store
    finds no content under its digest. *)
Theorem restart_forgets (io : faults) (mtime : path -> Z) (s s' : Store) (content : bytes) :
  store_inv s -> NewStore io mtime (s_root s) (s_fs s) = Ok s' ->
  Info (digest_of content) s' = Err (BlobNotExist (digest_of content)).
Proof.
  intros Hinv. unfold NewStore. destruct (os_mkdir_all _ _ _) as [f|] eqn:Hmk; [|done].
  intros Hscan. apply os_mkdir_all_frame in Hmk as (Hn & _).
  unfold Info. destruct (s_blobs _ !! _) as [info|] eqn:Hd; [|done]. exfalso.
  assert (Hs : scanned (s_fs s) (path_elems (path_join [s_root s; "blobs"])) (digest_of content)).
  { unfold scan in Hscan. cbn [s_root s_fs] in Hscan.
    destruct (fs_read_dir io f _) as [es|]; [|destruct (_ || _); [done|]; by injection Hscan as <-].
    injection Hscan as <-. cbn in Hd. assert (His : is_Some (scan_algos io mtime f (path_elems (path_join [s_root s; "blobs"])) es ∅
      !! digest_of content)) by eauto.
    apply scan_algos_keys in His as [[? H]|(a & p & n & ino & Hf & He)]; [by rewrite lookup_empty in H|].
    exists a, p, n, ino. by rewrite <- Hn. }
  apply scanned_length in Hs; [|done]. by rewrite digest_of_length in Hs.
Qed.

(** A write at another offset than the upload's resets the running hash to
    the written chunk, while the file keeps its other bytes: the digest a later
    commit computes and records is that of the last chunk, not that of the
    file. *)
Theorem WriteUpload_resets_hash (now : Z) (ref : string) (offset : Z) (data : bytes) (s : Store)
    (us : uploadState) :
  s_uploads s !! ref = Some us -> us_open us = true -> us_Offset us <> offset -> (0 <= offset)%Z ->
  exists s' us', WriteUpload no_faults now ref offset data s = (s', Ok us') /\
    us_hasher us' = data /\ us_ino us' = us_ino us /\
    fs_content (s_fs s') (us_ino us') =
      splice (fs_content (s_fs s) (us_ino us)) (Z.to_nat offset) data.
Proof.
  intros Hus Hop Hne Hpos. unfold us_open in Hop. apply negb_true_iff in Hop.
  unfold WriteUpload. rewrite Hus. apply Z.eqb_neq in Hne. rewrite Hne. cbn [negb].
  unfold os_seek. rewrite Hop. apply Z.ltb_ge in Hpos. rewrite Hpos. cbn [no_faults orb].
  unfold os_write. cbn [f_closed]. rewrite write_stops_never. cbn. do 2 eexists. split_and!; [done|done|done|].
  unfold fs_content, us_ino. cbn. by rewrite lookup_insert_eq.
Qed.

(** A filter is a digest prefix.  The branch for "name==" filters is never
    taken (it compares five bytes with a six-byte literal), so such a filter
    is matched as a prefix of the digest like any other. *)
Theorem matchFilter_prefix (info : BlobInfo) (filter : string) :
  matchFilter info filter = has_prefix (b_Digest info) filter.
Proof.
  unfold matchFilter, has_prefix. destruct (String.eqb_spec filter "") as [->|Hne]; [done|].
  assert (Hlen : forall s, String.eqb (str_take 5 s) "name==" = false).
  { intros s. apply String.eqb_neq. intros H.
    assert (Hl : String.length (str_take 5 s) <= 5).
    { clear H. do 6 (destruct s as [|? s]; [cbn; lia|]). cbn. lia. }
    rewrite H in Hl. cbn in Hl. lia. }
  rewrite Hlen, andb_false_r. destruct filter; done.
Qed.

(** An upload is started once per reference.  Starting it again before
    the commit returns the same upload and changes nothing, whatever the
    expected digest; after the commit it is refused for good, since committed
    uploads are never removed. *)
Theorem BeginUpload_again (io : faults) (now : Z) (ref expected : string) (s : Store) (us : uploadState) :
  s_uploads s !! ref = Some us -> ref <> "" ->
  BeginUpload io now ref expected s =
    (s, if us_Committed us then Err (AlreadyCommitted ref) else Ok us).
Proof.
  intros Hus Hne%String.eqb_neq. unfold BeginUpload. rewrite Hne, Hus. by destruct (us_Committed us).
Qed.

(** ** Witnesses: one upload of "hello" *)

Definition demo_hello : bytes := bytes_of_string "hello".

Definition demo_new : Store :=
  match NewStore no_faults (fun _ => 0%Z) "/d" fs_empty with
  | Ok s => s
  | _ => mkStore "" ∅ ∅ fs_empty
  end.
Definition demo_begun : Store := (BeginUpload no_faults 1 "r" "" demo_new).1.
Definition demo_written : Store :=
  (WriteUpload no_faults 2 "r"
     match s_uploads demo_begun !! "r" with Some us => us_Offset us | None => 0%Z end
     demo_hello demo_begun).1.
Definition demo_committed : Store := (CommitUpload no_faults 3 "r" 5 demo_written).1.
Definition demo_info : BlobInfo := mkBlobInfo (digest_of demo_hello) 5 ∅ 3 3.

Lemma demo_steps : rtc store_step demo_new demo_committed.
Proof.
  eapply rtc_l; [apply (step_begin demo_new no_faults 1 "r" ""); by right|].
  eapply rtc_l; [apply (step_write demo_begun no_faults 2 "r" demo_hello)|].
  - intros us Hus. assert (us_Offset us = 0%Z) as ->.
    { assert (Ho : (us_Offset <$> s_uploads demo_begun !! "r") = Some 0%Z) by (vm_compute; reflexivity).
      rewrite Hus in Ho. by injection Ho. }
    unfold in_int64. cbn. lia.
  - eapply rtc_l; [apply (step_commit demo_written no_faults 3 "r" 5)|apply rtc_refl].
    intros us Hus. assert (Ht : (us_torn <$> s_uploads demo_written !! "r") = Some false) by (vm_compute; reflexivity).
    rewrite Hus in Ht. by injection Ht.
Qed.

Lemma demo_new_ok : NewStore no_faults (fun _ => 0%Z) "/d" fs_empty = Ok demo_new.
Proof. vm_compute. reflexivity. Qed.

Lemma demo_committed_inv : store_inv demo_committed.
Proof.
  apply (store_steps_inv _ _ demo_steps).
  by apply (NewStore_empty no_faults (fun _ => 0%Z) "/d" demo_new eq_refl demo_new_ok).
Qed.

Lemma store_integrity_witness :
  exists h content,
    Open no_faults (digest_of demo_hello) demo_committed = Ok h /\
    fs_content (s_fs demo_committed) (f_ino h) = content /\
    digest_of content = digest_of demo_hello /\ b_Digest demo_info = digest_of demo_hello /\
    b_Size demo_info = Z.of_nat (length content).
Proof.
  apply (store_integrity (fun _ => 0%Z) "/d" demo_new demo_committed (digest_of demo_hello) demo_info).
  - reflexivity.
  - exact demo_new_ok.
  - exact demo_steps.
  - vm_compute. reflexivity.
Defined.

Definition demo_restarted : Store :=
  match NewStore no_faults (fun _ => 4%Z) (s_root demo_committed) (s_fs demo_committed) with
  | Ok s => s
  | _ => demo_new
  end.

Lemma restart_forgets_witness :
  Info (digest_of demo_hello) demo_committed = Ok demo_info /\
  Info (digest_of demo_hello) demo_restarted = Err (BlobNotExist (digest_of demo_hello)).
Proof.
  split; [vm_eq|].
  apply (restart_forgets no_faults (fun _ => 4%Z) demo_committed demo_restarted demo_hello).
  - exact demo_committed_inv.
  - vm_eq.
Defined.

(** The upload is rewritten from offset 0 by a shorter chunk: the file becomes
    "HEllo", the hash that of "HE", and the commit with size 2 succeeds. *)
Lemma WriteUpload_resets_hash_witness :
  exists s' us',
    WriteUpload no_faults 3 "r" 0 (bytes_of_string "HE") demo_written = (s', Ok us') /\
    us_hasher us' = bytes_of_string "HE" /\
    fs_content (s_fs s') (us_ino us') =
      splice (fs_content (s_fs demo_written) 0) 0 (bytes_of_string "HE") /\
    fs_content (s_fs demo_written) 0 = demo_hello.
Proof.
  assert (H : exists us, s_uploads demo_written !! "r" = Some us /\ us_open us = true /\
    us_Offset us <> 0%Z /\ us_ino us = 0).
  { eexists. split; [vm_compute; reflexivity|]. split_and!; [reflexivity|discriminate|reflexivity]. }
  destruct H as (us & Hus & Ho & Hoff & Hi).
  destruct (WriteUpload_resets_hash 3 "r" 0 (bytes_of_string "HE") demo_written us Hus Ho)
    as (s' & us' & H1 & H2 & H3 & H4); [done|lia|].
  exists s', us'. rewrite Hi in H4. by split_and!.
Defined.

Example retry_commits_corrupt_blob :
  let '(s, r) := go_bind (WriteUpload no_faults 3 "r" 0 (bytes_of_string "HE"))
                         (fun _ => CommitUpload no_faults 4 "r" 2) demo_written in
  r = Ok tt /\
  match Open no_faults (digest_of (bytes_of_string "HE")) s with
  | Ok h => fs_content (s_fs s) (f_ino h) = bytes_of_string "HEllo"
  | _ => False
  end.
Proof. vm_compute. by split. Qed.

Lemma BeginUpload_again_witness :
  (BeginUpload no_faults 9 "r" "" demo_committed).2 = Err (AlreadyCommitted "r").
Proof.
  destruct (s_uploads demo_committed !! "r") as [us|] eqn:Hus.
  - rewrite (BeginUpload_again no_faults 9 "r" "" demo_committed us Hus) by discriminate.
    assert (Hc : (us_Committed <$> s_uploads demo_committed !! "r") = Some true) by (vm_compute; reflexivity).
    rewrite Hus in Hc. injection Hc as ->. reflexivity.
  - exfalso. vm_compute in Hus. discriminate.
Defined.
