(* ===== verification/ContentService.v ===== *)
(** * The content gRPC service: mini-containerd/internal/content/service.go

    The handlers over the store.  [Write] runs a client stream: it receives
    requests until the end of the stream, a commit or an error, and answers
    each; [Read] sends a blob in chunks. *)

From S2P Require Import Prelude.
From S2P Require Import GoStrings.
From S2P Require Import Sha256.
From S2P Require Import FileSystem.
From S2P Require Import Grpc.
From S2P Require Import ContentStore.
Open Scope go_scope.

Abbreviation svc_error := (rpc_error StoreErr).

(** ** Metadata *)

Record BlobInfoPb : Type := mkBlobInfoPb {
  bp_Digest : string;
  bp_Size : Z;
  bp_CreatedAt : Z;
  bp_UpdatedAt : Z;
  bp_Labels : gmap string string
}.

Definition ToProto (b : BlobInfo) : BlobInfoPb :=
  mkBlobInfoPb (b_Digest b) (b_Size b) (b_CreatedAt b) (b_UpdatedAt b) (b_Labels b).

Definition svc_Info (digest : string) (s : Store) : res svc_error BlobInfoPb :=
  res_bind (rpc_of NotFound (Info digest s)) (fun info => Ok (ToProto info)).

(** The request's info: its digest and its labels, nil when it has none. *)
Definition svc_Update (now : Z) (req : option (string * option (gmap string string))) :
    GoM Store svc_error BlobInfoPb := fun s =>
  match req with
  | None => (s, rpc_fail InvalidArgument)
  | Some (digest, labels) =>
      match Info digest s with
      | Err e => (s, Err (RpcStatus NotFound (Some e)))
      | Panic => (s, Panic)
      | Ok info =>
          match labels with
          | None => (s, Ok (ToProto info))
          | Some ls =>
              let info' := mkBlobInfo (b_Digest info) (b_Size info) (gmap_copy ls (b_Labels info))
                             (b_CreatedAt info) now in
              (set_blobs (<[digest := info']> (s_blobs s)) s, Ok (ToProto info'))
          end
      end
  end.

Definition svc_List (ok : nat -> bool) (filters : list string) (s : Store) :
    list BlobInfoPb * res svc_error unit :=
  send_all ok 0 (map ToProto (ListBlobs filters s)).

Definition svc_Delete (io : faults) (digest : string) : GoM Store svc_error unit :=
  go_wrap (fun e => RpcStatus NotFound (Some e)) (Delete io digest).

Record StatusPb : Type := mkStatusPb {
  st_Ref : string;
  st_Offset : Z;
  st_Total : Z;
  st_Expected : string;
  st_StartedAt : Z;
  st_UpdatedAt : Z
}.

Definition status_of (us : uploadState) : StatusPb :=
  mkStatusPb (us_Ref us) (us_Offset us) (us_Total us) (us_Expected us) (us_StartedAt us) (us_UpdatedAt us).

(** An unknown reference is looked up among the digests. *)
Definition svc_Status (ref : string) (s : Store) : res svc_error StatusPb :=
  match GetUpload ref s with
  | Some us => Ok (status_of us)
  | None => if res_is_ok (Info ref s) then rpc_fail AlreadyExists else rpc_fail NotFound
  end.

Definition svc_ListStatuses (s : Store) : list StatusPb := map status_of (ListUploads s).

(** ** Reading *)

Definition chunk_size : nat := 32 * 1024.

(** The loop of [Read] on an open file with content [data]: [pos] is the
    position in the file, [sent] the number of bytes sent.  A read of a regular
    file fills the buffer or reaches the end.  The result is the list of
    messages (offset and data). *)
Fixpoint read_loop (io : faults) (ok : nat -> bool) (p : path) (fuel : nat) (data : bytes)
    (offset size : Z) (pos sent i : nat) : option (list (Z * bytes) * res svc_error unit) :=
  match fuel with
  | 0 => None
  | S fuel' =>
      if io (SysRead p) then Some ([], rpc_fail Internal)
      else
        let buf := firstn chunk_size (skipn pos data) in
        let n := length buf in
        if n =? 0 then Some ([], Ok tt)
        else if negb (ok i) then Some ([], Err RpcStream)
        else
          let msg := (offset + Z.of_nat sent, buf)%Z in
          if (0 <? size)%Z && (size <=? Z.of_nat (sent + n))%Z then Some ([msg], Ok tt)
          else
            match read_loop io ok p fuel' data offset size (pos + n) (sent + n) (S i) with
            | Some (msgs, r) => Some (msg :: msgs, r)
            | None => None
            end
  end.

Definition svc_Read (io : faults) (ok : nat -> bool) (fuel : nat) (digest : string) (offset size : Z)
    (s : Store) : option (list (Z * bytes) * res svc_error unit) :=
  match Open io digest s with
  | Err e => Some ([], Err (RpcStatus NotFound (Some e)))
  | Panic => Some ([], Panic)
  | Ok f =>
      let p := path_elems (f_name f) in
      let data := fs_content (s_fs s) (f_ino f) in
      if (0 <? offset)%Z then
        match os_seek io offset f with
        | None => Some ([], rpc_fail Internal)
        | Some f' => read_loop io ok p fuel data offset size (f_pos f') 0 0
        end
      else read_loop io ok p fuel data offset size (f_pos f) 0 0
  end.

(** ** Writing *)

Inductive WriteAction : Type := ActionSTAT | ActionWRITE | ActionCOMMIT | ActionUnknown.

Record WriteReq : Type := mkWriteReq {
  q_Action : WriteAction;
  q_Ref : string;
  q_Expected : string;
  q_Total : Z;
  q_Offset : Z;
  q_Data : bytes
}.

Record WriteResp : Type := mkWriteResp {
  a_Action : WriteAction;
  a_Offset : Z;
  a_Digest : string;
  a_Total : Z;
  a_StartedAt : Z;
  a_UpdatedAt : Z
}.

(** The variables of the handler. *)
Record WriteVars : Type := mkVars {
  v_ref : string;
  v_expected : string;
  v_uploaded : bool
}.

Definition internal {A : Type} (m : GoM Store StoreErr A) : GoM Store svc_error A :=
  go_wrap (fun e => RpcStatus Internal (Some e)) m.

(** The first request with a reference starts the upload. *)
Definition auto_init (io : faults) (now : Z) (req : WriteReq) (v : WriteVars) : GoM Store svc_error WriteVars :=
  if String.eqb (v_ref v) "" && negb (String.eqb (q_Ref req) "") then
    _ <-! internal (BeginUpload io now (q_Ref req) (q_Expected req)) ;
    go_ret (mkVars (q_Ref req) (q_Expected req) (v_uploaded v))
  else go_ret v.

Definition on_stat (io : faults) (now : Z) (req : WriteReq) (v : WriteVars) :
    GoM Store svc_error (WriteResp * WriteVars) :=
  us <-! internal (BeginUpload io now (q_Ref req) (q_Expected req)) ;
  go_ret (mkWriteResp ActionSTAT (us_Offset us) "" (us_Total us) (us_StartedAt us) (us_UpdatedAt us),
          mkVars (q_Ref req) (q_Expected req) (v_uploaded v)).

Definition on_write (io : faults) (now : Z) (req : WriteReq) (v : WriteVars) :
    GoM Store svc_error (WriteResp * WriteVars) :=
  v <-! auto_init io now req v ;
  if String.eqb (v_ref v) "" then go_err (RpcStatus InvalidArgument None)
  else
    us <-! internal (WriteUpload io now (v_ref v) (q_Offset req) (q_Data req)) ;
    go_ret (mkWriteResp ActionWRITE (us_Offset us) "" 0 0 0, mkVars (v_ref v) (v_expected v) true).

(** Data in the commit request is written only when nothing was written before.
    After a successful commit the upload is there, so [GetUpload] is not nil. *)
Definition on_commit (io : faults) (now : Z) (req : WriteReq) (v : WriteVars) : GoM Store svc_error WriteResp :=
  if String.eqb (v_ref v) "" then go_err (RpcStatus InvalidArgument None)
  else
    (if negb (v_uploaded v) && (0 <? length (q_Data req)) then
       _ <-! internal (WriteUpload io now (v_ref v) (q_Offset req) (q_Data req)) ; go_ret tt
     else go_ret tt) ;;!
    _ <-! internal (CommitUpload io now (v_ref v) (q_Total req)) ;
    fun s =>
      match GetUpload (v_ref v) s with
      | Some us => (s, Ok (mkWriteResp ActionCOMMIT (us_Offset us) (us_Digest us) (us_Size us)
                             (us_StartedAt us) (us_UpdatedAt us)))
      | None => (s, Panic)
      end.

(** One request: the answer, and the variables for the next request unless the
    stream ends with this answer. *)
Definition on_request (io : faults) (now : Z) (req : WriteReq) (v : WriteVars) :
    GoM Store svc_error (WriteResp * option WriteVars) :=
  v <-! auto_init io now req v ;
  match q_Action req with
  | ActionSTAT => r <-! on_stat io now req v ; go_ret (r.1, Some r.2)
  | ActionWRITE => r <-! on_write io now req v ; go_ret (r.1, Some r.2)
  | ActionCOMMIT => r <-! on_commit io now req v ; go_ret (r, None)
  | ActionUnknown => go_err (RpcStatus InvalidArgument None)
  end.

(** What [stream.Recv] returns: a request or an error; the end of the list is
    the end of the stream. *)
Inductive recv : Type := RecvReq (req : WriteReq) | RecvErr.

Fixpoint write_loop (io : faults) (ok : nat -> bool) (now : Z) (stream : list recv) (i : nat) (v : WriteVars)
    (s : Store) : Store * list WriteResp * res svc_error unit :=
  match stream with
  | [] => (s, [], Ok tt)
  | RecvErr :: _ => (s, [], Err RpcStream)
  | RecvReq req :: stream' =>
      match on_request io now req v s with
      | (s', Err e) => (s', [], Err e)
      | (s', Panic) => (s', [], Panic)
      | (s', Ok (resp, next)) =>
          if negb (ok i) then (s', [], Err RpcStream)
          else
            match next with
            | None => (s', [resp], Ok tt)
            | Some v' =>
                let '(s2, resps, r) := write_loop io ok now stream' (S i) v' s' in (s2, resp :: resps, r)
            end
      end
  end.

Definition svc_Write (io : faults) (ok : nat -> bool) (now : Z) (stream : list recv) (s : Store) :
    Store * list WriteResp * res svc_error unit :=
  write_loop io ok now stream 0 (mkVars "" "" false) s.

(** ** Lemmas: an upload that meets no failure *)

Lemma mkdir_no_files (s : Store) (p : path) :
  store_inv s ->
  (forall r, path_prefix (tmp_elems (s_root s) r) p = false) ->
  length p <= length (path_elems (s_root s)) + 3 ->
  exists f, os_mkdir_all no_faults p (s_fs s) = Some f.
Proof.
  intros Hinv Ht Hl. unfold os_mkdir_all. cbn [no_faults].
  destruct (existsb _ _) eqn:He; [|by eexists]. exfalso.
  apply existsb_exists in He as (q & Hq%list_elem_of_In & Hf). apply path_prefixes_spec in Hq.
  unfold fs_is_file in Hf. destruct (fs_names (s_fs s) !! q) as [ino|] eqn:Hn; [|done].
  destruct (si_names _ Hinv _ _ Hn) as [[r ->]|[c ->]]; [by rewrite Ht in Hq|].
  apply path_prefix_spec in Hq as [x Hx]. apply (f_equal length) in Hx.
  unfold blob_elems in Hx. rewrite !length_app in Hx. cbn in Hx. lia.
Qed.

Record upload_at (s : Store) (ref expected : string) (data : bytes) (us : uploadState) : Prop := {
  ua_us : s_uploads s !! ref = Some us;
  ua_open : us_open us = true;
  ua_whole : us_torn us = false;
  ua_hash : us_hasher us = data;
  ua_expected : us_Expected us = expected;
  ua_committed : us_Committed us = false;
  ua_link : fs_names (s_fs s) !! tmp_elems (s_root s) ref = Some (us_ino us)
}.

Lemma upload_at_data (s : Store) (ref expected : string) (data : bytes) (us : uploadState) :
  store_inv s -> upload_at s ref expected data us ->
  fs_content (s_fs s) (us_ino us) = data /\ f_pos (us_tmpFile us) = length data /\
  us_Offset us = Z.of_nat (length data).
Proof. intros Hinv [Hus Hop Hw <- _ _ _]. by apply (uo_data _ _ _ (si_uploads _ Hinv _ _ Hus)). Qed.

Lemma begin_ok (now : Z) (ref expected : string) (s : Store) :
  store_inv s -> plain_elem ref = true -> s_uploads s !! ref = None ->
  tmp_elems (s_root s) ref ∉ fs_dirs (s_fs s) ->
  exists s' us, BeginUpload no_faults now ref expected s = (s', Ok us) /\ store_inv s' /\
    upload_at s' ref expected [] us /\ s_root s' = s_root s /\
    (forall c, blob_elems (s_root s) c ∉ fs_dirs (s_fs s) -> blob_elems (s_root s) c ∉ fs_dirs (s_fs s')).
Proof.
  intros Hinv Hpl Hnone Hnd. pose proof (si_root _ Hinv) as Hroot.
  pose proof (BeginUpload_inv no_faults now ref expected s (or_intror Hpl) Hinv) as Hinv'.
  unfold BeginUpload in *. apply plain_elem_spec in Hpl as Hpl'. destruct Hpl' as (Hne & _). rewrite Hne, Hnone in *.
  assert (Hdir : path_elems (path_join [s_root s; "ingest"]) = path_elems (s_root s) ++ ["ingest"]).
  { rewrite path_elems_join; [done|done|by repeat constructor|done]. }
  rewrite Hdir in *.
  destruct (mkdir_no_files s (path_elems (s_root s) ++ ["ingest"]) Hinv) as [f1 Hmk].
  { intros r. apply tmp_not_prefix_ingest. }
  { rewrite length_app. cbn. lia. }
  rewrite Hmk in *. apply os_mkdir_all_frame in Hmk as (Hn & _ & _ & Hd).
  destruct (os_create _ _ _) as [[h f2]|] eqn:Hcr.
  - eexists _, _. split; [done|]. split; [exact Hinv'|]. split_and!; try done.
    + apply os_create_spec in Hcr as (_ & Hpos & Hcl & _ & _ & Hnames & _). constructor; cbn; try done.
      * by rewrite lookup_insert_eq.
      * unfold us_open. cbn. by rewrite Hcl.
      * apply us_torn_spec. cbn. by rewrite Hpos.
      * rewrite Hnames, tmp_path_elems by done. by rewrite lookup_insert_eq.
    + intros c Hc. apply os_create_spec in Hcr as (_ & _ & _ & _ & Hdirs & _). cbn. rewrite Hdirs.
      intros [Hp|Hp]%Hd; [|done]. apply path_prefix_spec in Hp as [x Hx]. apply (f_equal length) in Hx.
      unfold blob_elems in Hx. rewrite !length_app in Hx. cbn in Hx. lia.
  - exfalso. unfold os_create in Hcr. rewrite tmp_path_elems in Hcr by done. cbn [no_faults] in Hcr.
    unfold fs_is_dir in Hcr. rewrite bool_decide_eq_false_2 in Hcr.
    2: { intros [Hp|Hp]%Hd; [by rewrite tmp_not_prefix_ingest in Hp|done]. }
    rewrite bool_decide_eq_true_2 in Hcr.
    2: { unfold tmp_elems, path_parent.
         replace (path_elems (s_root s) ++ ["ingest"; ref])
           with ((path_elems (s_root s) ++ ["ingest"]) ++ [ref]) by (by rewrite <- app_assoc).
         rewrite removelast_last. apply Hd. left. apply path_prefix_refl. }
    cbn in Hcr. by destruct (fs_names f1 !! _).
Qed.

Lemma write_ok (now : Z) (ref expected : string) (s : Store) (us : uploadState) (old data : bytes) :
  store_inv s -> upload_at s ref expected old us ->
  in_int64 (Z.of_nat (length old + length data)) ->
  exists s' us', WriteUpload no_faults now ref (Z.of_nat (length old)) data s = (s', Ok us') /\
    store_inv s' /\ upload_at s' ref expected (old ++ data) us' /\ s_root s' = s_root s /\
    us_Offset us' = Z.of_nat (length (old ++ data)) /\ fs_dirs (s_fs s') = fs_dirs (s_fs s).
Proof.
  intros Hinv [Hus Hop Hw Hh He Hc Hlink] Hr.
  destruct (upload_at_data s ref expected old us Hinv ltac:(by constructor)) as (_ & Hpos & Hoff). rewrite Nat2Z.inj_add in Hr.
  pose proof (WriteUpload_inv no_faults now ref data s us Hinv Hus) as Hinv'.
  rewrite Hoff in Hinv'. specialize (Hinv' Hr).
  unfold WriteUpload in *. rewrite Hus, Hoff, Z.eqb_refl in *. cbn [negb] in *.
  unfold os_write in *. unfold us_open in Hop. apply negb_true_iff in Hop. rewrite Hop in *.
  rewrite write_stops_never in *. cbn [negb file_put] in *. eexists _, _. split; [done|]. split; [exact Hinv'|].
  split_and!; try done.
  - constructor; cbn; try done; [by rewrite lookup_insert_eq|unfold us_open; cbn; by rewrite Hop| |by rewrite Hh].
    apply us_torn_spec. cbn. rewrite Hpos, wrap64_id by done. lia.
  - cbn. rewrite length_app, wrap64_id by done. lia.
Qed.

(** The data of a stored blob: the bytes of the file [Open] opens. *)
Definition stored (s : Store) (c : bytes) : Prop :=
  exists h, Open no_faults (digest_of c) s = Ok h /\ fs_content (s_fs s) (f_ino h) = c /\ f_pos h = 0.

(** A commit that meets no failure publishes the file of the upload, whatever
    is in it, under the digest of the bytes its hash has seen. *)
Lemma hashed_upload_publishes (now : Z) (ref : string) (s : Store) (us : uploadState) (total : Z) :
  store_inv s -> s_uploads s !! ref = Some us -> us_open us = true ->
  fs_names (s_fs s) !! tmp_elems (s_root s) ref = Some (us_ino us) ->
  (total <= 0)%Z \/ us_Offset us = total ->
  us_Expected us = "" \/ us_Expected us = digest_of (us_hasher us) ->
  blob_elems (s_root s) (us_hasher us) ∉ fs_dirs (s_fs s) ->
  exists s' us' h, CommitUpload no_faults now ref total s = (s', Ok tt) /\
    s_uploads s' !! ref = Some us' /\ us_Digest us' = digest_of (us_hasher us) /\ us_Offset us' = us_Offset us /\
    Open no_faults (digest_of (us_hasher us)) s' = Ok h /\ f_pos h = 0 /\
    fs_content (s_fs s') (f_ino h) = fs_content (s_fs s) (us_ino us).
Proof.
  intros Hinv Hus Hop Hlink Htot Hexp Hnd. set (c := us_hasher us) in *. unfold CommitUpload. rewrite Hus. fold c.
  assert (Hsz : (0 <? total)%Z && negb (us_Offset us =? total)%Z = false).
  { destruct Htot as [Ht| ->]; [|by rewrite Z.eqb_refl, andb_false_r]. by apply Z.ltb_ge in Ht as ->. }
  assert (Hchk : negb (String.eqb (us_Expected us) "") && negb (String.eqb (us_Expected us) (digest_of c)) = false).
  { destruct Hexp as [->| ->]; [done|]. by rewrite String.eqb_refl, andb_false_r. }
  rewrite Hsz, Hchk. destruct (blobPath_digest_of (s_root s) c (si_root _ Hinv)) as (p & Hbp & Hp & Hpd).
  rewrite Hbp. unfold commit_move. rewrite Hp, Hpd.
  pose proof (uo_name _ _ _ (si_uploads _ Hinv _ _ Hus)) as Hname.
  destruct (mkdir_no_files s (removelast (blob_elems (s_root s) c)) Hinv) as [f1 Hmk].
  { intros r. apply tmp_not_prefix_blobdir. }
  { unfold blob_elems. rewrite removelast_app by done. rewrite length_app. cbn. lia. }
  rewrite Hmk. apply os_mkdir_all_frame in Hmk as (Hn & Hdt & Hx & Hd).
  unfold us_open in Hop. apply negb_true_iff in Hop. unfold os_close. rewrite Hop. cbn [no_faults orb negb f_name].
  rewrite Hname. unfold os_rename, fs_is_dir. cbn [no_faults].
  rewrite bool_decide_eq_false_2.
  2: { intros [Hq|Hq]%Hd; [|done]. apply path_prefix_spec in Hq as [x Hq]. apply (f_equal length) in Hq.
       revert Hq. unfold blob_elems. rewrite removelast_app by done. rewrite !length_app. cbn. lia. }
  rewrite bool_decide_eq_true_2 by (apply Hd; left; apply path_prefix_refl). cbn [negb].
  rewrite Hn, Hlink. eexists _, _, _. split; [done|]. cbn. rewrite lookup_insert_eq. split; [done|].
  split; [done|]. split; [done|].
  unfold Open. cbn. rewrite lookup_insert_eq, Hbp. cbn [res_bind]. unfold os_open. cbn [no_faults fs_names].
  rewrite Hp, lookup_insert_eq. split; [done|]. cbn. split; [done|]. unfold fs_content. cbn. by rewrite Hdt.
Qed.

Lemma commit_ok (now : Z) (ref expected : string) (s : Store) (us : uploadState) (c : bytes) :
  store_inv s -> upload_at s ref expected c us -> us_Offset us = Z.of_nat (length c) ->
  expected = "" \/ expected = digest_of c ->
  blob_elems (s_root s) c ∉ fs_dirs (s_fs s) ->
  exists s' us', CommitUpload no_faults now ref (Z.of_nat (length c)) s = (s', Ok tt) /\
    s_uploads s' !! ref = Some us' /\ us_Digest us' = digest_of c /\ us_Offset us' = Z.of_nat (length c) /\
    stored s' c.
Proof.
  intros Hinv [Hus Hop Hw <- <- Hc Hlink] Hoff Hexp Hnd.
  destruct (hashed_upload_publishes now ref s us (Z.of_nat (length (us_hasher us))) Hinv Hus Hop Hlink (or_intror Hoff) Hexp Hnd)
    as (s' & us' & h & H1 & H2 & H3 & H4 & H5 & H6 & H7).
  exists s', us'. rewrite H4. split_and!; try done. exists h. split; [done|]. split; [|done].
  rewrite H7. by apply (uo_data _ _ _ (si_uploads _ Hinv _ _ Hus)).
Qed.

(** ** Lemmas: an upload whose write fails part-way *)

(** A write that stops after [n] bytes: the file has them, the offset is behind
    them, and the upload knows nothing of it. *)
Lemma write_stopped (io : faults) (now : Z) (ref expected : string) (s : Store) (us : uploadState)
    (old data : bytes) (n : nat) :
  store_inv s -> upload_at s ref expected old us ->
  write_stops io (tmp_elems (s_root s) ref) (length data) = Some n ->
  let s' := (WriteUpload io now ref (Z.of_nat (length old)) data s).1 in
  let us' := us_file (file_put (firstn n data) (us_tmpFile us) (s_fs s)).1 us in
  WriteUpload io now ref (Z.of_nat (length old)) data s = (s', Err IOError) /\
  s_root s' = s_root s /\ s_uploads s' !! ref = Some us' /\ fs_names (s_fs s') = fs_names (s_fs s) /\
  fs_dirs (s_fs s') = fs_dirs (s_fs s) /\
  fs_content (s_fs s') (us_ino us) = old ++ firstn n data /\ f_pos (us_tmpFile us') = length old + length (firstn n data).
Proof.
  intros Hinv Hua Hst. destruct (upload_at_data s ref expected old us Hinv Hua) as (Hcont & Hpos & Hoff).
  destruct Hua as [Hus Hop _ _ _ _ _]. pose proof (uo_name _ _ _ (si_uploads _ Hinv _ _ Hus)) as Hname. unfold WriteUpload. rewrite Hus, Hoff, Z.eqb_refl. cbn [negb].
  unfold us_open in Hop. apply negb_true_iff in Hop. unfold os_write. rewrite Hop, Hname, Hst. cbn.
  pose proof (file_put_end (firstn n data) (us_tmpFile us) (s_fs s)) as Hput. unfold us_ino in *.
  rewrite Hcont, Hpos in Hput. specialize (Hput eq_refl).
  rewrite lookup_insert_eq. split_and!; try done. by rewrite Hpos.
Qed.

(** The same data written again, without a failure. *)
Lemma write_again (now : Z) (ref : string) (s : Store) (us : uploadState) (data : bytes) :
  s_uploads s !! ref = Some us -> us_open us = true -> in_int64 (us_Offset us + Z.of_nat (length data)) ->
  f_pos (us_tmpFile us) = length (fs_content (s_fs s) (us_ino us)) ->
  exists s' us', WriteUpload no_faults now ref (us_Offset us) data s = (s', Ok us') /\
    s_root s' = s_root s /\ s_uploads s' !! ref = Some us' /\ us_open us' = true /\ us_ino us' = us_ino us /\
    us_hasher us' = us_hasher us ++ data /\ us_Offset us' = (us_Offset us + Z.of_nat (length data))%Z /\
    us_Expected us' = us_Expected us /\ fs_names (s_fs s') = fs_names (s_fs s) /\
    fs_dirs (s_fs s') = fs_dirs (s_fs s) /\
    fs_content (s_fs s') (us_ino us) = fs_content (s_fs s) (us_ino us) ++ data.
Proof.
  intros Hus Hop Hr Hpos. unfold WriteUpload. rewrite Hus, Z.eqb_refl. cbn [negb].
  unfold us_open in Hop. apply negb_true_iff in Hop. unfold os_write. rewrite Hop, write_stops_never.
  eexists _, _. split; [done|]. cbn. rewrite lookup_insert_eq, wrap64_id by done. unfold us_open. cbn. rewrite Hop.
  split_and!; try done. by apply (file_put_end data (us_tmpFile us) (s_fs s)).
Qed.

(** C26: A retry after a partial write commits a corrupt blob.  A client has
    written [old] and sends [data]; the write stops after [n] of its bytes and
    the store answers with an error, its offset as before.  The client sends
    [data] again at that offset: the store does not seek, the file gets it
    behind the [n] bytes, but the hash and the offset count it once, so a commit
    with the right size and the right digest succeeds, and the blob it publishes
    under that digest holds [n] bytes more. *)
Theorem retry_after_partial_write_corrupts (io : faults) (now : Z) (ref expected : string) (s : Store)
    (us : uploadState) (old data : bytes) (n : nat) :
  store_inv s -> upload_at s ref expected old us ->
  write_stops io (tmp_elems (s_root s) ref) (length data) = Some n -> 0 < n ->
  in_int64 (Z.of_nat (length old) + Z.of_nat (length data)) ->
  expected = "" \/ expected = digest_of (old ++ data) -> blob_elems (s_root s) (old ++ data) ∉ fs_dirs (s_fs s) ->
  exists s1 s2 us2 s3 h,
    WriteUpload io now ref (Z.of_nat (length old)) data s = (s1, Err IOError) /\
    us_Offset <$> s_uploads s1 !! ref = Some (Z.of_nat (length old)) /\
    WriteUpload no_faults now ref (Z.of_nat (length old)) data s1 = (s2, Ok us2) /\
    CommitUpload no_faults now ref (Z.of_nat (length (old ++ data))) s2 = (s3, Ok tt) /\
    Open no_faults (digest_of (old ++ data)) s3 = Ok h /\
    fs_content (s_fs s3) (f_ino h) = old ++ firstn n data ++ data /\
    length (fs_content (s_fs s3) (f_ino h)) = n + length (old ++ data).
Proof.
  intros Hinv Hua Hst Hn Hr Hexp Hnd. pose proof Hua as [Hus Hop Hw Hh He Hc Hlink].
  destruct (write_stopped io now ref expected s us old data n Hinv Hua Hst) as (Hf & Hroot & Hus1 & Hn1 & Hd1 & Hc1 & Hp1).
  set (s1 := (WriteUpload io now ref _ data s).1) in *. set (us1 := us_file _ us) in *.
  destruct (upload_at_data s ref expected old us Hinv Hua) as (_ & _ & Hoff).
  assert (Hoff1 : us_Offset us1 = Z.of_nat (length old)) by exact Hoff.
  assert (Hinv1 : store_inv s1).
  { unfold s1. rewrite <- Hoff. apply WriteUpload_inv; [done|done|by rewrite Hoff]. }
  destruct (write_again now ref s1 us1 data Hus1 Hop) as (s2 & us2 & Hw2 & Hr2 & Hus2 & Hop2 & Hi2 & Hh2 & Ho2 & He2 & Hn2 & Hd2 & Hc2).
  { by rewrite Hoff1. } { change (us_ino us1) with (us_ino us). by rewrite Hc1, Hp1, length_app. }
  assert (Hinv2 : store_inv s2).
  { pose proof (WriteUpload_inv no_faults now ref data s1 us1 Hinv1 Hus1) as Hi. rewrite Hw2, Hoff1 in Hi. by apply Hi. }
  change (us_hasher us1) with (us_hasher us) in Hh2. change (us_Expected us1) with (us_Expected us) in He2.
  change (us_ino us1) with (us_ino us) in *. rewrite Hh in Hh2. rewrite He in He2. rewrite Hoff1 in Ho2.
  assert (Hlen : n <= length data).
  { unfold write_stops in Hst. apply List.find_some in Hst as [Hin%in_seq _]. lia. }
  destruct (hashed_upload_publishes now ref s2 us2 (Z.of_nat (length (old ++ data))) Hinv2 Hus2 Hop2)
    as (s3 & us3 & h & Hcm & _ & _ & _ & Hopen & _ & Hcont).
  { by rewrite Hi2, Hr2, Hroot, Hn2, Hn1. } { right. rewrite Ho2, length_app. lia. }
  { by rewrite He2, Hh2. } { by rewrite Hh2, Hr2, Hroot, Hd2, Hd1. }
  rewrite Hi2, Hc2, Hc1, <- app_assoc in Hcont. rewrite Hh2 in Hopen. rewrite Hoff1 in Hw2.
  exists s1, s2, us2, s3, h. split_and!; try done.
  - by rewrite Hus1, <- Hoff1.
  - rewrite Hcont, !length_app, length_firstn. lia.
Qed.

(** ** Lemmas: reading *)

(** The number of bytes [Read] sends when they are there: all of them, or the
    requested size rounded up to whole chunks. *)
Definition read_length (size : Z) (avail : nat) : nat :=
  if (size <=? 0)%Z then avail
  else Nat.min avail (chunk_size * Z.to_nat ((size + Z.of_nat chunk_size - 1) / Z.of_nat chunk_size)).

Lemma chunk_pos : 0 < chunk_size.
Proof. apply Nat.ltb_lt. by vm_compute. Qed.

Opaque chunk_size.

Lemma rounded_bounds (size : Z) (j : nat) :
  (Z.of_nat (chunk_size * j) < size)%Z ->
  let r := chunk_size * Z.to_nat ((size + Z.of_nat chunk_size - 1) / Z.of_nat chunk_size) in
  (size <= Z.of_nat r)%Z /\ chunk_size * S j <= r /\ ((size <= Z.of_nat (chunk_size * S j))%Z -> r = chunk_size * S j).
Proof.
  pose proof chunk_pos as Hp. intros Hj r. set (c := Z.of_nat chunk_size) in *.
  assert (Hc : (0 < c)%Z) by lia.
  pose proof (Z.div_mod (size + c - 1) c ltac:(lia)) as Hdm. pose proof (Z.mod_pos_bound (size + c - 1) c Hc) as Hm.
  set (q := ((size + c - 1) / c)%Z) in *. set (m := ((size + c - 1) mod c)%Z) in *.
  assert (Hq : (Z.of_nat j < q)%Z) by nia.
  assert (Hr : Z.of_nat r = (c * q)%Z) by (unfold r; rewrite Nat2Z.inj_mul, Z2Nat.id by lia; done).
  split_and!; [lia|nia|]. intros Hle. apply Nat2Z.inj. rewrite Hr.
  assert (Hcj : Z.of_nat (chunk_size * S j) = (c * (Z.of_nat j + 1))%Z) by (rewrite Nat2Z.inj_mul; fold c; lia).
  assert (Hq2 : (q < Z.of_nat j + 2)%Z) by nia. assert (Hqj : q = (Z.of_nat j + 1)%Z) by lia.
  by rewrite Hcj, Hqj.
Qed.

(** The chunk that reaches the requested size is the rest of the answer. *)
Lemma chunk_last (size : Z) (sent j : nat) (rem : bytes) :
  sent = chunk_size * j -> (Z.of_nat sent < size)%Z -> (size <= Z.of_nat (sent + length (firstn chunk_size rem)))%Z ->
  firstn chunk_size rem = firstn (read_length size (sent + length rem) - sent) rem.
Proof.
  intros Hsent Hlt Hstop. rewrite length_firstn in Hstop. pose proof chunk_pos as Hc. unfold read_length.
  replace (size <=? 0)%Z with false by lia.
  destruct (rounded_bounds size j) as (Hr1 & Hr2 & Hr3); [lia|]. cbv zeta in *.
  set (r := chunk_size * Z.to_nat _) in *. destruct (decide (chunk_size <= length rem)) as [Hle|Hle].
  - f_equal. assert (r = chunk_size * S j) by (apply Hr3; lia). lia.
  - rewrite !firstn_all2; [done| |]; lia.
Qed.

(** The answer is a chunk and the answer after it. *)
Lemma chunk_more (size : Z) (sent j : nat) (rem : bytes) :
  sent = chunk_size * j -> (0 < size)%Z \/ size = 0%Z -> (size <= 0)%Z \/ (Z.of_nat sent < size)%Z ->
  let buf := firstn chunk_size rem in
  firstn (read_length size (sent + length rem) - sent) rem =
  buf ++ firstn (read_length size (sent + length rem) - sent - length buf) (skipn (length buf) rem).
Proof.
  intros Hsent Hsize Hlt buf. pose proof chunk_pos as Hc.
  assert (Hbuf : length buf = Nat.min chunk_size (length rem)) by (apply length_firstn).
  assert (Hge : length buf <= read_length size (sent + length rem) - sent).
  { unfold read_length. destruct (size <=? 0)%Z eqn:Hz; [lia|].
    destruct (rounded_bounds size j) as (Hr1 & Hr2 & _); [lia|]. cbv zeta in *.
    set (r := chunk_size * Z.to_nat _) in *. clearbody r. rewrite Nat.mul_succ_r in Hr2. lia. }
  assert (Hb : firstn (length buf) rem = buf).
  { unfold buf. rewrite length_firstn. destruct (decide (chunk_size <= length rem)).
    - f_equal. lia.
    - rewrite !firstn_all2; [done| |]; lia. }
  rewrite <- Hb at 1. rewrite take_take_drop. f_equal. lia.
Qed.

Lemma read_loop_spec (p : path) (fuel : nat) (data : bytes) (offset size : Z) (pos sent i j : nat) :
  length data - pos < fuel -> (0 < size)%Z \/ size = 0%Z ->
  skipn pos data = [] \/ (sent = chunk_size * j /\ ((size <= 0)%Z \/ (Z.of_nat sent < size)%Z)) ->
  exists msgs, read_loop no_faults (fun _ => true) p fuel data offset size pos sent i = Some (msgs, Ok tt) /\
    concat (map snd msgs) =
      match skipn pos data with
      | [] => []
      | rest => firstn (read_length size (sent + length rest) - sent) rest
      end.
Proof.
  pose proof chunk_pos as Hc. revert pos sent i j.
  induction fuel as [|fuel IH]; intros pos sent i j Hf Hsize Hst; [lia|]. cbn [read_loop no_faults].
  destruct (skipn pos data) as [|b rest] eqn:Hrest.
  { rewrite firstn_nil. cbn. by exists []. }
  destruct Hst as [?|[Hsent Hlt]]; [done|].
  assert (Hlen : length (b :: rest) = length data - pos) by (rewrite <- Hrest, length_skipn; lia).
  set (buf := firstn chunk_size (b :: rest)).
  assert (Hbuf : length buf = Nat.min chunk_size (length (b :: rest))) by (apply length_firstn).
  assert (Hn : 0 < length buf) by (rewrite Hbuf; cbn [length]; lia).
  replace (length buf =? 0) with false by (symmetry; apply Nat.eqb_neq; lia). cbn [negb].
  set (rem := b :: rest) in *.
  (* what is left after this chunk *)
  assert (Hskip : skipn (pos + length buf) data = skipn (length buf) rem).
  { rewrite <- Hrest, skipn_skipn. f_equal. lia. }
  destruct ((0 <? size)%Z && (size <=? Z.of_nat (sent + length buf))%Z) eqn:Hstop.
  - bool_simp. apply Z.ltb_lt in H. apply Z.leb_le in H0.
    eexists. split; [done|]. cbn [map concat snd]. rewrite app_nil_r.
    apply (chunk_last _ _ j); [done|lia|exact H0].
  - destruct (IH (pos + length buf) (sent + length buf) (S i) (S j)) as (msgs & Hmsgs & Hcat); [lia|done| |].
    { rewrite Hskip. destruct (decide (chunk_size <= length rem)) as [Hle|Hle].
      - right. split; [lia|]. apply andb_false_iff in Hstop as [Hs%Z.ltb_ge|Hs%Z.leb_gt]; [left; lia|by right].
      - left. apply skipn_all2. lia. }
    rewrite Hmsgs. eexists. split; [done|]. cbn [map concat snd]. rewrite Hcat, Hskip.
    pose proof (chunk_more size sent j rem Hsent Hsize Hlt) as Hsplit. cbv zeta in Hsplit. fold buf in Hsplit.
    fold rem in Hsplit. rewrite Hsplit. f_equal.
    destruct (skipn (length buf) rem) as [|x xs] eqn:Hrem; [by rewrite firstn_nil|].
    assert (Hl2 : length (x :: xs) = length rem - length buf) by (rewrite <- Hrem, length_skipn; lia).
    cbv zeta. rewrite Hl2. f_equal. replace (sent + length buf + (length rem - length buf)) with (sent + length rem) by lia.
    lia.
Qed.

(** ** A complete upload *)

Fixpoint write_reqs (ref : string) (off : nat) (chunks : list bytes) : list recv :=
  match chunks with
  | [] => []
  | c :: cs =>
      RecvReq (mkWriteReq ActionWRITE ref "" 0 (Z.of_nat off) c) :: write_reqs ref (off + length c) cs
  end.

(** Everything from the start of a file. *)
Lemma read_whole (p : path) (fuel : nat) (data : bytes) :
  length data < fuel ->
  exists msgs, read_loop no_faults (fun _ => true) p fuel data 0 0 0 0 0 = Some (msgs, Ok tt) /\ concat (map snd msgs) = data.
Proof.
  intros Hfuel. destruct (read_loop_spec p fuel data 0 0 0 0 0 0) as (msgs & Hm & Hcat); [lia|by right| |].
  { right. split; [lia|by left]. }
  exists msgs. split; [done|]. rewrite Hcat. change (skipn 0 data) with data. destruct data as [|b rest]; [done|].
  rewrite firstn_all2; [done|]. unfold read_length. cbn [Z.leb Z.compare]. lia.
Qed.

(** What a client sends to upload [chunks]: a STAT, the chunks one after the
    other, a COMMIT with their total length. *)
Definition commit_req (ref expected : string) (total : nat) : WriteReq :=
  mkWriteReq ActionCOMMIT ref expected (Z.of_nat total) (Z.of_nat total) [].

Definition upload_stream (ref expected : string) (chunks : list bytes) : list recv :=
  RecvReq (mkWriteReq ActionSTAT ref expected 0 0 []) :: write_reqs ref 0 chunks ++
  [RecvReq (commit_req ref expected (length (concat chunks)))].

Lemma begin_again_ok (io : faults) (now : Z) (ref expected e : string) (data : bytes) (s : Store) (us : uploadState) :
  ref <> "" -> upload_at s ref e data us -> BeginUpload io now ref expected s = (s, Ok us).
Proof.
  intros Hr [Hus _ _ _ _ Hc _]. unfold BeginUpload. apply String.eqb_neq in Hr. by rewrite Hr, Hus, Hc.
Qed.

Lemma auto_init_set (io : faults) (now : Z) (req : WriteReq) (v : WriteVars) (s : Store) :
  v_ref v <> "" -> auto_init io now req v s = (s, Ok v).
Proof. intros H. unfold auto_init. apply String.eqb_neq in H. by rewrite H. Qed.

(** The chunks of the stream arrive in the upload. *)
Lemma write_chunks (now : Z) (ref expected : string) (chunks : list bytes) (tail : list recv)
    (i : nat) (up : bool) (s : Store) (us : uploadState) (old : bytes) :
  ref <> "" -> store_inv s -> upload_at s ref expected old us ->
  us_Offset us = Z.of_nat (length old) ->
  in_int64 (Z.of_nat (length old + length (concat chunks))) ->
  exists s' us' up' resps i',
    write_loop no_faults (fun _ => true) now (write_reqs ref (length old) chunks ++ tail) i
      (mkVars ref expected up) s =
    (let '(s2, r2, e2) := write_loop no_faults (fun _ => true) now tail i' (mkVars ref expected up') s' in
     (s2, resps ++ r2, e2)) /\
    store_inv s' /\ upload_at s' ref expected (old ++ concat chunks) us' /\ s_root s' = s_root s /\
    us_Offset us' = Z.of_nat (length (old ++ concat chunks)) /\ fs_dirs (s_fs s') = fs_dirs (s_fs s).
Proof.
  intros Hr. revert i up s us old. induction chunks as [|c cs IH]; intros i up s us old Hinv Hua Hoff Hlen.
  - exists s, us, up, [], i. cbn. rewrite !app_nil_r. split_and!; try done.
    by destruct (write_loop _ _ _ _ _ _ _) as [[s2 r2] e2].
  - cbn [concat] in *. rewrite length_app in Hlen.
    destruct (write_ok now ref expected s us old c Hinv Hua) as (s1 & us1 & Hw & Hinv1 & Hua1 & Hroot1 & Hoff1 & Hd1).
    { unfold in_int64 in *. lia. }
    destruct (IH (S i) true s1 us1 (old ++ c)) as (s' & us' & up' & resps & i' & Hl & Hinv' & Hua' & Hroot' & Hoff' & Hd').
    { done. } { done. } { done. } { rewrite length_app. unfold in_int64 in *. lia. }
    exists s', us', up', (mkWriteResp ActionWRITE (us_Offset us1) "" 0 0 0 :: resps), i'.
    rewrite <- app_assoc in Hua', Hoff'. split_and!; try done; [|by rewrite Hroot'|by rewrite Hd'].
    cbn [write_reqs app write_loop]. unfold on_request, go_bind.
    rewrite auto_init_set by done. cbn [q_Action]. unfold on_write, go_bind. rewrite auto_init_set by done.
    cbn [v_ref]. apply String.eqb_neq in Hr as Hr'. rewrite Hr'. unfold internal, go_wrap. cbn [q_Offset q_Data].
    rewrite Hw. cbn [res_wrap go_ret negb fst snd v_ref v_expected].
    rewrite length_app in Hl. rewrite Hl.
    by destruct (write_loop _ _ _ tail _ _ _) as [[s2 r2] e2].
Qed.

(** A complete upload, then a read of the digest. *)
Lemma upload_read (now : Z) (ref expected : string) (chunks : list bytes) (s : Store) (fuel : nat) :
  let c := concat chunks in
  store_inv s -> plain_elem ref = true -> s_uploads s !! ref = None ->
  tmp_elems (s_root s) ref ∉ fs_dirs (s_fs s) -> blob_elems (s_root s) c ∉ fs_dirs (s_fs s) ->
  in_int64 (Z.of_nat (length c)) -> expected = "" \/ expected = digest_of c ->
  length c < fuel ->
  exists s' resps last msgs,
    svc_Write no_faults (fun _ => true) now (upload_stream ref expected chunks) s = (s', resps ++ [last], Ok tt) /\
    a_Action last = ActionCOMMIT /\ a_Digest last = digest_of c /\
    svc_Read no_faults (fun _ => true) fuel (digest_of c) 0 0 s' = Some (msgs, Ok tt) /\
    concat (map snd msgs) = c.
Proof.
  intros c Hinv Hpl Hnone Hnt Hnb Hlen Hexp Hfuel.
  assert (Hr : ref <> "") by (intros ->; done). apply String.eqb_neq in Hr as Hr'.
  destruct (begin_ok now ref expected s Hinv Hpl Hnone Hnt) as (s1 & us1 & Hb & Hinv1 & Hua1 & Hroot1 & Hd1).
  assert (Hoff1 : us_Offset us1 = Z.of_nat (length ([] : bytes))).
  { by apply (upload_at_data s1 ref expected). }
  destruct (write_chunks now ref expected chunks
    [RecvReq (commit_req ref expected (length c))] 1 false s1 us1 [] Hr Hinv1 Hua1 Hoff1)
    as (s2 & us2 & up2 & resps & i2 & Hl & Hinv2 & Hua2 & Hroot2 & Hoff2 & Hd2); [done|]. cbn [app] in *.
  destruct (commit_ok now ref expected s2 us2 c Hinv2 Hua2 Hoff2 Hexp) as (s3 & us3 & Hc & Hus3 & Hdg & _ & Hst).
  { rewrite Hd2, Hroot2, Hroot1. apply Hd1. done. }
  destruct Hst as (h & Hopen & Hcont & Hpos).
  destruct (read_whole (path_elems (f_name h)) fuel c Hfuel) as (msgs & Hm & Hcat).
  eexists s3, (_ :: resps), _, msgs. split_and!.
  - unfold svc_Write, upload_stream. cbn [write_loop app]. unfold on_request, go_bind, auto_init, on_stat, go_bind.
    cbn [v_ref q_Ref q_Expected q_Action String.eqb andb]. rewrite Hr'. cbn [negb].
    unfold internal, go_wrap, go_bind. rewrite Hb. cbn [res_wrap go_ret v_ref q_Ref q_Expected].
    rewrite (begin_again_ok _ _ _ _ expected [] s1 us1) by done. cbn [res_wrap go_ret fst snd negb v_uploaded].
    cbn [length] in Hl. fold c. rewrite Hl. cbn [write_loop]. unfold on_request, go_bind. rewrite auto_init_set by done.
    unfold commit_req. cbn [q_Action]. unfold on_commit, go_bind. cbn [v_ref q_Data length Nat.ltb Nat.leb]. rewrite Hr', andb_false_r.
    cbn [go_ret]. unfold internal, go_wrap. cbn [q_Total]. rewrite Hc. cbn [res_wrap].
    unfold GetUpload. rewrite Hus3. cbn [negb]. done.
  - done.
  - done.
  - unfold svc_Read. rewrite Hopen, Hcont, Hpos. done.
  - exact Hcat.
Qed.

(** ** Properties *)

(** C24: What is uploaded is what is read.  Without I/O failures, a client that
    uploads any chunks (of less than 2^63 bytes together) under a fresh plain
    reference, expecting nothing or the right digest, gets the digest of their
    concatenation in the last answer, and a read of that digest then returns
    exactly the concatenation, in however many messages. *)
Theorem write_then_read (now : Z) (ref expected : string) (chunks : list bytes) (s : Store) (fuel : nat) :
  let c := concat chunks in
  store_inv s -> plain_elem ref = true -> s_uploads s !! ref = None ->
  tmp_elems (s_root s) ref ∉ fs_dirs (s_fs s) -> blob_elems (s_root s) c ∉ fs_dirs (s_fs s) ->
  in_int64 (Z.of_nat (length c)) -> expected = "" \/ expected = digest_of c ->
  length c < fuel ->
  exists s' resps last msgs,
    svc_Write no_faults (fun _ => true) now (upload_stream ref expected chunks) s = (s', resps ++ [last], Ok tt) /\
    a_Action last = ActionCOMMIT /\ a_Digest last = digest_of c /\
    svc_Read no_faults (fun _ => true) fuel (digest_of c) 0 0 s' = Some (msgs, Ok tt) /\
    concat (map snd msgs) = c.
Proof. apply upload_read. Qed.

(** What [Read] sends.  On an intact store, a read from a valid offset sends
    the bytes of the blob from that offset: all of them when no size is asked
    for, and otherwise the size rounded up to whole 32 KB chunks, never cut at
    the requested size. *)
Theorem Read_spec (fuel : nat) (digest : string) (offset size : Z) (s : Store) (h : File) :
  Open no_faults digest s = Ok h -> f_pos h = 0 -> f_closed h = false ->
  (0 <= offset)%Z -> (0 <= size)%Z -> length (fs_content (s_fs s) (f_ino h)) < fuel ->
  let rest := skipn (Z.to_nat offset) (fs_content (s_fs s) (f_ino h)) in
  exists msgs, svc_Read no_faults (fun _ => true) fuel digest offset size s = Some (msgs, Ok tt) /\
    concat (map snd msgs) = firstn (read_length size (length rest)) rest.
Proof.
  intros Hopen Hpos Hcl Hoff Hsize Hfuel rest.
  set (data := fs_content (s_fs s) (f_ino h)) in *.
  destruct (read_loop_spec (path_elems (f_name h)) fuel data offset size (Z.to_nat offset) 0 0 0)
    as (msgs & Hm & Hcat); [lia|lia|right; lia|].
  exists msgs. split.
  - unfold svc_Read. rewrite Hopen. fold data. destruct (0 <? offset)%Z eqn:Ho.
    + unfold os_seek. rewrite Hcl. cbn [no_faults orb]. replace (offset <? 0)%Z with false by lia. exact Hm.
    + replace offset with 0%Z in * by lia. by rewrite Hpos.
  - rewrite Hcat. fold rest. clearbody rest. destruct rest as [|b r]; [by rewrite firstn_nil|].
    cbv iota zeta. by rewrite Nat.sub_0_r.
Qed.

(** ** Witnesses *)

Definition demo_chunks : list bytes := [bytes_of_string "hel"; bytes_of_string "lo"].

Lemma demo_new_inv : store_inv demo_new.
Proof. exact (proj1 (NewStore_empty no_faults (fun _ => 0%Z) "/d" demo_new eq_refl demo_new_ok)). Qed.

Lemma write_then_read_witness :
  exists s' resps last msgs,
    svc_Write no_faults (fun _ => true) 5 (upload_stream "up" "" demo_chunks) demo_new
      = (s', resps ++ [last], Ok tt) /\
    svc_Read no_faults (fun _ => true) 9 (digest_of demo_hello) 0 0 s' = Some (msgs, Ok tt) /\
    concat (map snd msgs) = demo_hello.
Proof.
  destruct (write_then_read 5 "up" "" demo_chunks demo_new 9 demo_new_inv)
    as (s' & resps & last & msgs & H1 & _ & _ & H2 & H3).
  - reflexivity.
  - reflexivity.
  - assert (H : bool_decide (tmp_elems (s_root demo_new) "up" ∈ fs_dirs (s_fs demo_new)) = false) by vm_eq.
    by apply bool_decide_eq_false in H.
  - assert (H : bool_decide (blob_elems (s_root demo_new) (concat demo_chunks) ∈ fs_dirs (s_fs demo_new)) = false)
      by vm_eq.
    by apply bool_decide_eq_false in H.
  - unfold in_int64. vm_compute. by split.
  - by left.
  - apply Nat.ltb_lt. reflexivity.
  - exists s', resps, last, msgs. split; [exact H1|split; [exact H2|exact H3]].
Defined.

(** A disk that takes three bytes of every write. *)
Definition demo_full_disk : faults := fun c => match c with SysWrite _ 3 => true | _ => false end.

Lemma retry_after_partial_write_corrupts_witness :
  exists s3 h, Open no_faults (digest_of demo_hello) s3 = Ok h /\
    fs_content (s_fs s3) (f_ino h) = bytes_of_string "helhello".
Proof.
  assert (Hinv : store_inv demo_begun) by (apply (BeginUpload_inv no_faults 1 "r" ""); [by right|exact demo_new_inv]).
  destruct (begin_ok 1 "r" "" demo_new demo_new_inv) as (s' & us & Hb & _ & Hua & _); [reflexivity|reflexivity| |].
  { assert (H : bool_decide (tmp_elems (s_root demo_new) "r" ∈ fs_dirs (s_fs demo_new)) = false) by vm_eq.
    by apply bool_decide_eq_false in H. }
  assert (Hs : s' = demo_begun) by (unfold demo_begun; by rewrite Hb). rewrite Hs in Hua.
  destruct (retry_after_partial_write_corrupts demo_full_disk 2 "r" "" demo_begun us [] demo_hello 3 Hinv Hua)
    as (s1 & s2 & us2 & s3 & h & _ & _ & _ & _ & Ho & Hc & _).
  - vm_eq.
  - lia.
  - unfold in_int64. vm_compute. by split.
  - by left.
  - assert (H : bool_decide (blob_elems (s_root demo_begun) ([] ++ demo_hello) ∈ fs_dirs (s_fs demo_begun)) = false)
      by vm_eq.
    by apply bool_decide_eq_false in H.
  - exists s3, h. split; [exact Ho|]. rewrite Hc. vm_compute. reflexivity.
Defined.

Lemma Read_spec_witness :
  exists msgs, svc_Read no_faults (fun _ => true) 9 (digest_of demo_hello) 1 2 demo_committed = Some (msgs, Ok tt) /\
    concat (map snd msgs) = bytes_of_string "ello".
Proof.
  destruct (Open no_faults (digest_of demo_hello) demo_committed) as [h|e|] eqn:Hopen;
    [|exfalso; vm_compute in Hopen; discriminate|exfalso; vm_compute in Hopen; discriminate].
  assert (H : match Open no_faults (digest_of demo_hello) demo_committed with
    | Ok h => (f_pos h, f_closed h, fs_content (s_fs demo_committed) (f_ino h)) = (0, false, demo_hello)
    | _ => False
    end) by by vm_compute.
  rewrite Hopen in H. apply pair_equal_spec in H as [[H1 H2]%pair_equal_spec H3].
  destruct (Read_spec 9 (digest_of demo_hello) 1 2 demo_committed h Hopen H1 H2) as (msgs & Hm & Hcat);
    [lia|lia|rewrite H3; apply Nat.ltb_lt; reflexivity|].
  exists msgs. split; [exact Hm|]. rewrite Hcat, H3. vm_compute. reflexivity.
Defined.

(** Data in the commit request is dropped after a WRITE. *)
Example commit_data_dropped :
  let stream :=
    [RecvReq (mkWriteReq ActionWRITE "up" "" 0 0 (bytes_of_string "hel"));
     RecvReq (mkWriteReq ActionCOMMIT "up" "" 0 3 (bytes_of_string "lo"))] in
  map a_Digest (svc_Write no_faults (fun _ => true) 5 stream demo_new).1.2 =
    [""; digest_of (bytes_of_string "hel")].
Proof. cbv zeta. vm_eq. Qed.

(** Uploads that have been committed are still listed as active. *)
Example committed_upload_still_listed : map st_Ref (svc_ListStatuses demo_committed) = ["r"].
Proof. vm_eq. Qed.
