(* ===== verification/Reference.v ===== *)
(** * Image references: mini-nerdctl/pkg/reference/reference.go

    [Parse] takes what a user types ("alpine", "ghcr.io/foo/bar:v1",
    "localhost:5000/app") apart into registry, repository and tag, and
    [Normalize] prints the fully qualified form.  The specification is
    [resolve]: a user reference is an optional host, a path and an optional
    tag, and what it denotes is the Docker default for every missing part. *)

From S2P Require Import Prelude.
From S2P Require Import GoStrings.

(** ** The code *)

Definition defaultRegistry : string := "docker.io".
Definition defaultTag : string := "latest".
Definition officialPrefix : string := "library".

Record ParseResult : Type := mkParseResult {
  Registry : string;
  Repo : string;
  Tag : string
}.

(** [func (r ParseResult) String() string]. *)
Definition ParseResult_String (r : ParseResult) : string :=
  Registry r +:+ "/" +:+ Repo r +:+ ":" +:+ Tag r.

Definition isPort (s : string) : bool :=
  if (String.length s =? 0) || (5 <? String.length s) then false
  else str_all is_digit s.

Definition lastNonPortColon (s : string) : option nat :=
  match str_last_index ch_colon s with
  | None => None
  | Some lastColon =>
      let after := str_drop (S lastColon) s in
      match str_index ch_slash after with
      | Some slashIdx =>
          let portStr := str_take slashIdx after in
          if isPort portStr
          then str_last_index ch_colon (str_take lastColon s)
          else Some lastColon
      | None => Some lastColon
      end
  end.

Definition splitTag (raw : string) : option nat * string :=
  match str_index ch_at raw with
  | Some idx =>
      let before := str_take idx raw in
      match lastNonPortColon before with
      | Some tagIdx => (Some tagIdx, str_drop (S tagIdx) before)
      | None => (None, "")
      end
  | None =>
      match lastNonPortColon raw with
      | Some idx => if idx =? String.length raw - 1 then (None, "") else (Some idx, "")
      | None => (None, "")
      end
  end.

Definition Parse (raw : string) : ParseResult :=
  let '(repo, tag) :=
    match (splitTag raw).1 with
    | Some tagIdx => (str_take tagIdx raw, str_drop (S tagIdx) raw)
    | None => (raw, defaultTag)
    end in
  let parts := str_splitN 3 ch_slash repo in
  let p0 := str_hd parts in
  let '(registry, repo) :=
    if (2 <=? length parts) && (str_has ch_dot p0 || str_has ch_colon p0)
    then (p0, str_join "/" (tail parts))
    else if length parts =? 1 then (defaultRegistry, officialPrefix +:+ "/" +:+ p0)
    else (defaultRegistry, str_join "/" parts) in
  let repo :=
    if String.eqb registry defaultRegistry && negb (str_has ch_slash repo)
    then officialPrefix +:+ "/" +:+ repo else repo in
  mkParseResult registry repo tag.

Definition Normalize (raw : string) : string := ParseResult_String (Parse raw).

(** ** The specification: what a user reference denotes *)

Record UserRef : Type := mkUserRef {
  u_host : option string;
  u_path : string;
  u_tag : option string
}.

Definition render (u : UserRef) : string :=
  match u_host u with Some h => h +:+ "/" | None => "" end +:+ u_path u +:+
  match u_tag u with Some t => ":" +:+ t | None => "" end.

Definition plain (s : string) : bool :=
  negb (str_has ch_colon s) && negb (str_has ch_at s).

(** A host name, or a host name and a port number. *)
Definition host_ok (h : string) : bool :=
  negb (str_has ch_slash h) && negb (str_has ch_at h) &&
  match str_last_index ch_colon h with
  | None => str_has ch_dot h
  | Some i => negb (str_has ch_colon (str_take i h)) && isPort (str_drop (S i) h)
  end.

Definition tag_ok (t : string) : bool :=
  negb (String.eqb t "") && plain t && negb (str_has ch_slash t).

(** Without a host, the first path element must not look like one. *)
Definition first_elem (p : string) : string :=
  match str_index ch_slash p with Some i => str_take i p | None => "" end.

Definition user_ref_ok (u : UserRef) : bool :=
  plain (u_path u) &&
  match u_host u with
  | Some h => host_ok h
  | None => negb (str_has ch_dot (first_elem (u_path u)))
  end &&
  match u_tag u with Some t => tag_ok t | None => true end.

Definition resolve (u : UserRef) : ParseResult :=
  let reg := default defaultRegistry (u_host u) in
  mkParseResult reg
    (if String.eqb reg defaultRegistry && negb (str_has ch_slash (u_path u))
     then officialPrefix +:+ "/" +:+ u_path u else u_path u)
    (default defaultTag (u_tag u)).

(** ** Helper lemmas *)

Lemma plain_spec (s : string) :
  plain s = true <-> str_has ch_colon s = false /\ str_has ch_at s = false.
Proof. unfold plain. rewrite andb_true_iff, !negb_true_iff. done. Qed.

Lemma tag_ok_spec (t : string) :
  tag_ok t = true ->
  t <> "" /\ str_has ch_colon t = false /\ str_has ch_at t = false /\ str_has ch_slash t = false.
Proof.
  unfold tag_ok. intros H. bool_simp.
  match goal with H : plain _ = true |- _ => apply plain_spec in H as [? ?] end.
  split_and!; try done. by apply String.eqb_neq.
Qed.

Lemma is_digit_not_colon (s : string) : str_all is_digit s = true -> str_has ch_colon s = false.
Proof. by apply str_all_notin. Qed.

Lemma isPort_digits (s : string) : isPort s = true -> str_all is_digit s = true.
Proof. unfold isPort. by case_step. Qed.

(** A host is a name without a colon, or name, colon and port. *)
Lemma host_ok_cases (h : string) :
  host_ok h = true ->
  str_has ch_slash h = false /\ str_has ch_at h = false /\
  (str_has ch_colon h = false /\ str_has ch_dot h = true \/
   exists n p, h = n +:+ String ch_colon p /\ str_has ch_colon n = false /\ isPort p = true /\
     str_has ch_colon p = false).
Proof.
  unfold host_ok. intros H. bool_simp. split_and!; try done.
  destruct (str_last_index ch_colon h) as [i|] eqn:Hi.
  - right. bool_simp. pose proof (str_last_index_Some _ _ _ Hi) as (Hs & Hn & _).
    exists (str_take i h), (str_drop (S i) h). by split_and!.
  - left. split; [|done]. by apply str_last_index_None.
Qed.

Lemma host_ok_looks (h : string) :
  host_ok h = true -> str_has ch_dot h || str_has ch_colon h = true.
Proof.
  intros (_ & _ & [[_ ->]|(n & p & -> & _)])%host_ok_cases; [done|].
  rewrite (str_has_app ch_colon), str_has_cons_eq. by rewrite !orb_true_r.
Qed.

Lemma length_nonempty (s : string) : s <> "" -> 0 < String.length s.
Proof. destruct s; [done|]. cbn. lia. Qed.

(** The tag is found: [body:tag] without a digest. *)
Lemma splitTag_tag (body t : string) :
  str_has ch_at body = false -> tag_ok t = true ->
  (splitTag (body +:+ String ch_colon t)).1 = Some (String.length body).
Proof.
  intros Hat (Hne & Hc & Hat' & Hs)%tag_ok_spec. unfold splitTag.
  replace (str_index ch_at _) with (@None nat).
  2: { symmetry. apply str_index_None. rewrite str_has_app, Hat. cbn. by rewrite Hat'. }
  unfold lastNonPortColon. rewrite str_last_index_app by done.
  rewrite str_drop_app_cons. rewrite (proj1 (str_index_None _ _) Hs).
  rewrite str_app_length. cbn [String.length].
  pose proof (length_nonempty t Hne). case_step; [|done].
  apply Nat.eqb_eq in Heqb. lia.
Qed.

(** No tag is found in a path without colons. *)
Lemma splitTag_none (body : string) :
  str_has ch_at body = false -> str_has ch_colon body = false -> (splitTag body).1 = None.
Proof.
  intros Hat Hc. unfold splitTag, lastNonPortColon.
  rewrite (proj1 (str_index_None _ _) Hat). by rewrite (proj1 (str_last_index_None _ _) Hc).
Qed.

(** The colon of a port is not a tag separator. *)
Lemma splitTag_port (n p path : string) :
  str_has ch_at (n +:+ p +:+ path) = false ->
  str_has ch_colon n = false -> isPort p = true -> str_has ch_slash p = false ->
  str_has ch_colon path = false ->
  (splitTag (n +:+ String ch_colon (p +:+ String ch_slash path))).1 = None.
Proof.
  intros Hat Hn Hp Hsl Hpath. rewrite !str_has_app in Hat. bool_simp. unfold splitTag.
  replace (str_index ch_at _) with (@None nat).
  2: { symmetry. apply str_index_None. rewrite str_has_app. cbn. rewrite str_has_app. cbn.
       by repeat match goal with H : str_has ch_at _ = false |- _ => rewrite H; clear H end. }
  unfold lastNonPortColon. rewrite str_last_index_app.
  2: { rewrite str_has_app. cbn. rewrite Hpath, orb_false_r.
       by apply is_digit_not_colon, isPort_digits. }
  rewrite str_drop_app_cons, str_index_app by done. rewrite str_take_app, Hp, str_take_app.
  by rewrite (proj1 (str_last_index_None _ _) Hn).
Qed.

(** The parts of [host/path] with a bound of three, whatever the path. *)
Lemma splitN3_host (h path : string) :
  str_has ch_slash h = false ->
  str_splitN 3 ch_slash (h +:+ String ch_slash path) = h :: str_splitN 2 ch_slash path.
Proof. apply (str_splitN_app 1). Qed.

Lemma str_app_has_false (c : ascii) (s t : string) :
  str_has c (s +:+ t) = false <-> str_has c s = false /\ str_has c t = false.
Proof. by rewrite str_has_app, orb_false_iff. Qed.

(** Registry and repository of a body [h/path] whose first element looks like
    a registry. *)
Lemma Parse_host (raw h path t : string) :
  (match (splitTag raw).1 with
   | Some i => (str_take i raw, str_drop (S i) raw)
   | None => (raw, defaultTag)
   end) = (h +:+ String ch_slash path, t) ->
  host_ok h = true ->
  Parse raw = resolve (mkUserRef (Some h) path (Some t)).
Proof.
  intros H Hh. pose proof (host_ok_cases h Hh) as (Hsl & _ & _).
  pose proof (host_ok_looks h Hh) as Hl.
  unfold Parse. rewrite H, splitN3_host by done.
  pose proof (str_splitN_nonempty 1 ch_slash path) as Hne.
  pose proof (str_join_splitN 1 ch_slash path) as Hj. change (str1 ch_slash) with "/" in Hj.
  destruct (str_splitN 2 ch_slash path) as [|w ws] eqn:E; [done|].
  cbn [str_hd tail length]. rewrite Hl. cbn [Nat.leb andb].
  rewrite Hj. done.
Qed.

Lemma Parse_nohost (raw path t : string) :
  (match (splitTag raw).1 with
   | Some i => (str_take i raw, str_drop (S i) raw)
   | None => (raw, defaultTag)
   end) = (path, t) ->
  str_has ch_colon path = false ->
  str_has ch_dot (first_elem path) = false ->
  Parse raw = resolve (mkUserRef None path (Some t)).
Proof.
  intros H Hc Hd. unfold Parse. rewrite H. unfold first_elem in Hd.
  destruct (str_index ch_slash path) as [i|] eqn:Hi.
  - pose proof (str_index_Some _ _ _ Hi) as (Hs & Hn & Hlen).
    assert (Hc1 : str_has ch_colon (str_take i path) = false).
    { rewrite Hs in Hc. by apply str_app_has_false in Hc as [? _]. }
    pose proof (str_splitN_SS 1 ch_slash path) as Hsp. rewrite Hi in Hsp.
    pose proof (str_join_splitN 2 ch_slash path) as Hj. change (str1 ch_slash) with "/" in Hj.
    pose proof (str_splitN_nonempty 1 ch_slash (str_drop (S i) path)) as Hne.
    rewrite Hsp in *. cbn [str_hd tail]. rewrite Hd, Hc1, andb_false_r.
    destruct (str_splitN 2 ch_slash (str_drop (S i) path)) as [|w ws] eqn:E; [done|].
    cbn [length Nat.eqb]. by rewrite Hj.
  - pose proof (proj2 (str_index_None _ _) Hi) as Hn.
    rewrite str_splitN_notin by done. cbn. unfold resolve. cbn. by rewrite Hn.
Qed.

(** [Parse] computes what a user reference denotes. *)
Lemma Parse_resolve (u : UserRef) :
  user_ref_ok u = true -> Parse (render u) = resolve u.
Proof.
  destruct u as [host path tag]. unfold user_ref_ok, render. cbn. intros H. bool_simp.
  match goal with H : plain _ = true |- _ => apply plain_spec in H as [Hc Hat] end.
  destruct host as [h|], tag as [t|]; bool_simp.
  - pose proof (host_ok_cases h ltac:(done)) as (_ & Hhat & _).
    apply Parse_host; [|done]. change (":" +:+ t) with (String ch_colon t).
    rewrite str_app_assoc. change ("/" +:+ ?x) with (String ch_slash x).
    change (h +:+ String ch_slash (path +:+ ?y)) with (h +:+ String ch_slash path +:+ y).
    rewrite <- str_app_assoc, splitTag_tag, str_take_app, str_drop_app_cons; [done| |done].
    apply str_app_has_false. by split.
  - pose proof (host_ok_cases h ltac:(done)) as (Hsl & Hhat & Hcase).
    change (resolve _) with (resolve (mkUserRef (Some h) path (Some defaultTag))).
    apply Parse_host; [|done]. rewrite str_app_nil_r, str_app_assoc.
    change ("/" +:+ ?x) with (String ch_slash x).
    replace (splitTag (h +:+ String ch_slash path)).1 with (@None nat); [done|]. symmetry.
    destruct Hcase as [[Hnc _]|(n & p & -> & Hnc & Hp & Hpc)].
    + apply splitTag_none; by apply str_app_has_false.
    + rewrite str_app_assoc. cbn [String.append].
      apply str_app_has_false in Hsl as [_ Hsl]. apply str_app_has_false in Hhat as [Hn Hpat].
      apply splitTag_port; try done. rewrite !str_has_app. cbn in Hpat. by rewrite Hn, Hpat, Hat.
  - apply Parse_nohost; try done.
    change (":" +:+ t) with (String ch_colon t). cbn [String.append].
    by rewrite splitTag_tag, str_take_app, str_drop_app_cons.
  - change (resolve _) with (resolve (mkUserRef None path (Some defaultTag))).
    apply Parse_nohost; try done. cbn [String.append]. rewrite str_app_nil_r.
    by rewrite splitTag_none.
Qed.

(** ** Properties *)

(** C34: [Parse] computes what a user reference denotes.  For every well-formed
    reference (an optional host with an optional port, a path, an optional
    tag) the result has the given host or docker.io, the path with "library/"
    added exactly for a one-element path on docker.io, and the given tag or
    "latest"; a port's colon is never taken for a tag separator. *)
Theorem Parse_render (u : UserRef) :
  user_ref_ok u = true -> Parse (render u) = resolve u.
Proof. apply Parse_resolve. Qed.

Lemma Parse_render_witness :
  Parse "localhost:5000/team/app:v2" = mkParseResult "localhost:5000" "team/app" "v2" /\
  Parse "localhost:5000/app" = mkParseResult "localhost:5000" "app" "latest" /\
  Parse "alpine:3.18" = mkParseResult "docker.io" "library/alpine" "3.18".
Proof.
  split_and!.
  - apply (Parse_render (mkUserRef (Some "localhost:5000") "team/app" (Some "v2"))). reflexivity.
  - apply (Parse_render (mkUserRef (Some "localhost:5000") "app" None)). reflexivity.
  - apply (Parse_render (mkUserRef None "alpine" (Some "3.18"))). reflexivity.
Defined.

(** The qualified form of a user reference, as a user reference. *)
Definition qualified (r : ParseResult) : UserRef :=
  mkUserRef (Some (Registry r)) (Repo r) (Some (Tag r)).

Lemma render_qualified (r : ParseResult) : render (qualified r) = ParseResult_String r.
Proof.
  destruct r. unfold render, qualified, ParseResult_String. cbn. by rewrite str_app_assoc.
Qed.

Lemma resolve_ok (u : UserRef) : user_ref_ok u = true -> user_ref_ok (qualified (resolve u)) = true.
Proof.
  destruct u as [host path tag]. unfold user_ref_ok, qualified, resolve. cbn. intros H. bool_simp.
  rewrite !andb_true_iff. split_and!.
  - match goal with H : plain _ = true |- _ => apply plain_spec in H as [Hc Hat] end.
    apply plain_spec. case_step; [|done]. unfold officialPrefix. cbn. by rewrite Hc, Hat.
  - by destruct host.
  - by destruct tag.
Qed.

Lemma resolve_qualified (u : UserRef) : resolve (qualified (resolve u)) = resolve u.
Proof.
  destruct u as [host path tag]. unfold qualified, resolve. cbn. f_equal.
  destruct (String.eqb _ _) eqn:E; cbn [andb]; [|done].
  destruct (str_has ch_slash path) eqn:Hs; cbn [negb]; by rewrite ?Hs.
Qed.

(** Normalising is idempotent on well-formed references: the fully
    qualified form of a reference parses back to the same registry, repository
    and tag, and is its own fully qualified form. *)
Theorem Normalize_idempotent (u : UserRef) :
  user_ref_ok u = true ->
  Parse (Normalize (render u)) = Parse (render u) /\
  Normalize (Normalize (render u)) = Normalize (render u).
Proof.
  intros H. unfold Normalize. rewrite (Parse_resolve u H), <- render_qualified.
  rewrite Parse_resolve by by apply resolve_ok. rewrite resolve_qualified.
  split; [done|]. by rewrite render_qualified.
Qed.

Lemma Normalize_idempotent_witness :
  Normalize "user/img" = "docker.io/user/img:latest" /\
  Normalize (Normalize "user/img") = Normalize "user/img".
Proof.
  split; [reflexivity|].
  apply (Normalize_idempotent (mkUserRef None "user/img" None)). reflexivity.
Defined.

(** A reference by digest is not recognised as one: for every short image
    name [n] and digest [d], [Normalize] files [n@d] whole as the repository
    and adds the tag "latest", so the request made for it asks for the tag
    "latest" of a repository that cannot exist. *)
Theorem Normalize_digest (n d : string) :
  plain n = true -> str_has ch_slash n = false -> str_has ch_slash d = false ->
  Normalize (n +:+ String ch_at d) = "docker.io/library/" +:+ n +:+ "@" +:+ d +:+ ":latest".
Proof.
  intros [Hc Hat]%plain_spec Hn Hd.
  assert (Hs : str_has ch_slash (n +:+ String ch_at d) = false).
  { apply str_app_has_false. by split. }
  unfold Normalize, Parse, splitTag. rewrite str_index_app, str_take_app by done.
  unfold lastNonPortColon. rewrite (proj1 (str_last_index_None _ _) Hc). cbn [fst].
  rewrite str_splitN_notin by done. unfold ParseResult_String. cbn.
  by rewrite str_app_assoc.
Qed.

Lemma Normalize_digest_witness :
  Normalize "alpine@sha256:c5b1261d6d3e43071626931fc004f70149baeba2c8ec672bd4f27761f8e1ad6b"
  = "docker.io/library/alpine@sha256:c5b1261d6d3e43071626931fc004f70149baeba2c8ec672bd4f27761f8e1ad6b:latest".
Proof.
  apply (Normalize_digest "alpine"
    "sha256:c5b1261d6d3e43071626931fc004f70149baeba2c8ec672bd4f27761f8e1ad6b"); reflexivity.
Defined.

(** The examples of the doc comment of [Normalize]. *)
Example Normalize_doc_examples :
  map Normalize ["alpine"; "alpine:3.18"; "nginx:latest"; "ghcr.io/foo/bar:v1"; "docker.io/user/img"]
  = ["docker.io/library/alpine:latest"; "docker.io/library/alpine:3.18";
     "docker.io/library/nginx:latest"; "ghcr.io/foo/bar:v1"; "docker.io/user/img:latest"].
Proof. reflexivity. Qed.
