(* ===== verification/World.v ===== *)
(** * The outside world of the clients

    mini-nerdctl and mini-docker talk to registries over HTTP, to the daemon
    through the containerd client library, to the shell and to the file system.
    What these answer is not in the repository: a [World] gives, for the history
    of a run and a call, the answer of that call, and every result below holds
    for every [World].  The history is the state of the monad, so a theorem can
    speak of what was asked, in order, with its answers. *)

From S2P Require Import Prelude.
From S2P Require Import GoStrings.
From S2P Require Import Sha256.
From S2P Require Import FileSystem.
From S2P Require Import ContentService.
Open Scope go_scope.

(** An error, as the contexts its [fmt.Errorf("...: %w", err)] calls put in
    front, outermost first; an error of a library has no context. *)
Definition error : Type := list string.

Record Request : Type := mkRequest {
  r_url : string;
  r_accept : string;
  r_auth : string
}.

(** [p_header] is [resp.Header.Get] on canonical keys; [io.ReadAll(resp.Body)]
    reads [p_body], with an error unless [p_complete]. *)
Record Response : Type := mkResponse {
  p_status : Z;
  p_header : string -> string;
  p_body : bytes;
  p_complete : bool
}.

Definition read_all (p : Response) : option bytes := if p_complete p then Some (p_body p) else None.

(** [stream.Recv()]: a response, [io.EOF] or another error. *)
Inductive RecvAns : Type := AnsResp | AnsEOF | AnsErr.

(** [ocispec.Descriptor] and containerd's [images.Image]. *)
Record Descriptor : Type := mkDescriptor {
  d_MediaType : string;
  d_Digest : string;
  d_Size : Z
}.

Record Image : Type := mkImage {
  im_Name : string;
  im_Labels : option (gmap string string);
  im_Target : Descriptor;
  im_CreatedAt : Z;
  im_UpdatedAt : Z
}.

(** The Go types the clients decode JSON into. *)
Inductive JsonType : Type := JDockerManifest | JNerdctlManifest.

(** The config's digest and the layers' digests. *)
Record Manifest : Type := mkManifest {
  m_Config : string;
  m_Layers : list string
}.

(** [containerd.ProcessStatus]. *)
Inductive ProcStatus : Type := PRunning | PCreated | PStopped | PPaused | PPausing | PUnknown.

#[global] Instance ProcStatus_eq_dec : EqDecision ProcStatus.
Proof. solve_decision. Defined.

Inductive Signal : Type := SIGTERM | SIGKILL.

(** A container specification: the image it is made from, the process
    arguments (nil leaves the image's default) and the environment options. *)
Record Spec : Type := mkSpec {
  sp_Image : string;
  sp_Args : option (list string);
  sp_Env : list string
}.

(** The calls, with the type of their answers.  [false] and [None] are errors. *)
Inductive Call : Type -> Type :=
(* net/http *)
| HttpDo (r : Request) : Call (option Response)
(* the content stream of the daemon *)
| StreamOpen : Call bool
| StreamSend (q : WriteReq) : Call bool
| StreamRecv : Call RecvAns
| StreamClose : Call bool
(* the image service of the client library *)
| ImageCreate (img : Image) : Call bool
| ImageList (filters : list string) : Call (option (list Image))
| ImageDelete (name : string) : Call bool
(* containers and tasks of the client library *)
| GetImage (ref : string) : Call bool
| ClientPull (ref : string) : Call bool
| ImageUnpack (ref : string) : Call bool
| Containers : Call (option (list string))
| NewContainer (id : string) (spec : Spec) : Call bool
| LoadContainer (id : string) : Call bool
| ContainerLabels (id : string) : Call (option (gmap string string))
| ContainerDelete (id : string) : Call bool
| NewTask (id : string) : Call bool
| GetTask (id : string) : Call bool
| TaskStart (id : string) : Call bool
| TaskStatus (id : string) : Call (option ProcStatus)
| TaskPid (id : string) : Call Z
| TaskKill (id : string) (sig : Signal) : Call bool
| TaskWait (id : string) : Call bool
| TaskDelete (id : string) : Call bool
| TaskExec (id exec : string) (args : list string) (tty : bool) : Call bool
| ProcessWait (id exec : string) : Call bool
| ProcessStart (id exec : string) : Call bool
| ProcessDelete (id exec : string) : Call bool
(* receiving from the channel of a wait: the exit code, or an error *)
| WaitExit (id : string) : Call (option Z)
(* select on that channel and a timer: true when the process exits first *)
| WaitExitOrTimeout (id : string) (timeout : Z) : Call bool
(* the machine the client runs on *)
| Now : Call Z
| Getpid : Call Z
| RandomBytes (n : nat) : Call (option (list Byte.byte))
| RandomInts (n bound : nat) : Call (list nat)
| OpenFile (p : string) : Call bool
| MkdirTemp : Call string
| RunShell (dir cmd : string) : Call bool
| RunCp (src dst : string) : Call bool
| RemoveAll (dir : string) : Call unit
(* the command line: the connection to the daemon, the log file and the tables *)
| ContainerdNew (addr ns : string) : Call bool
| ClientClose : Call bool
| CopyToStdout (p : string) : Call bool
| CloseFile (p : string) : Call unit
| Flush (text : string) : Call bool
| Printf (line : string) : Call unit.

(** A call with its answer. *)
Inductive event : Type :=
| Ev {T : Type} (c : Call T) (a : T).

(** The answers of a machine on which everything fails. *)
Definition failing {T : Type} (c : Call T) : T :=
  match c in Call T return T with
  | HttpDo _ => None | StreamOpen => false | StreamSend _ => false | StreamRecv => AnsErr
  | StreamClose => false | ImageCreate _ => false | ImageList _ => None | ImageDelete _ => false
  | GetImage _ => false | ClientPull _ => false | ImageUnpack _ => false | Containers => None
  | NewContainer _ _ => false | LoadContainer _ => false | ContainerLabels _ => None
  | ContainerDelete _ => false | NewTask _ => false | GetTask _ => false | TaskStart _ => false
  | TaskStatus _ => None | TaskPid _ => 0%Z | TaskKill _ _ => false | TaskWait _ => false
  | TaskDelete _ => false | TaskExec _ _ _ _ => false | ProcessWait _ _ => false
  | ProcessStart _ _ => false | ProcessDelete _ _ => false | WaitExit _ => None
  | WaitExitOrTimeout _ _ => false | Now => 0%Z | Getpid => 0%Z | RandomBytes _ => None
  | RandomInts _ _ => [] | OpenFile _ => false | MkdirTemp => "" | RunShell _ _ => false
  | RunCp _ _ => false | RemoveAll _ => tt | ContainerdNew _ _ => false | ClientClose => false
  | CopyToStdout _ => false | CloseFile _ => tt | Flush _ => false | Printf _ => tt
  end.

Class World : Type := {
  answer : forall T : Type, list event -> Call T -> T;
  url_ok : string -> bool;
  json_manifest : JsonType -> bytes -> option Manifest;
  json_token : Response -> string * bool;
  conn_ok : bool
}.

Abbreviation Client := (GoM (list event) error).

Section world.
Context {W : World}.

Definition do_call {T : Type} (c : Call T) : Client T := fun h =>
  let a := answer T h c in (h ++ [Ev c a], Ok a).

(** A call whose error is returned with [ctx] in front. *)
Definition try_call (ctx : error) (c : Call bool) : Client unit :=
  ok <-! do_call c ; if (ok : bool) then go_ret tt else go_err ctx.

(** A call whose error is ignored. *)
Definition ignore_call {T : Type} (c : Call T) : Client unit := _ <-! do_call c ; go_ret tt.

Definition printf (line : string) : Client unit := ignore_call (Printf line).

(** [x, err := m()]: the caller looks at the error. *)
Definition attempt {A : Type} (m : Client A) : Client (option A) := fun h =>
  match m h with
  | (h', Ok a) => (h', Ok (Some a))
  | (h', Err _) => (h', Ok None)
  | (h', Panic) => (h', Panic)
  end.

(** ** A program logic for clients

    [wp m Q]: from every history, [m] adds events and ends with an outcome that
    satisfy [Q]. *)

Definition wp {A : Type} (m : Client A) (Q : list event -> res error A -> Prop) : Prop :=
  forall h, exists evs r, m h = (h ++ evs, r) /\ Q evs r.

Lemma wp_elim {A : Type} (m : Client A) (Q : list event -> res error A -> Prop) (h h' : list event)
    (r : res error A) :
  wp m Q -> m h = (h', r) -> exists evs, h' = h ++ evs /\ Q evs r.
Proof. intros H Hm. destruct (H h) as (evs & r' & Hr & HQ). rewrite Hr in Hm. injection Hm as <- <-. eauto. Qed.

Lemma wp_mono {A : Type} (m : Client A) (P Q : list event -> res error A -> Prop) :
  wp m P -> (forall evs r, P evs r -> Q evs r) -> wp m Q.
Proof. intros H HPQ h. destruct (H h) as (evs & r & Hr & HP). eauto. Qed.

Lemma wp_lift {A : Type} (r : res error A) (Q : list event -> res error A -> Prop) :
  Q [] r -> wp (go_lift r) Q.
Proof. intros H h. exists [], r. by rewrite app_nil_r. Qed.

Lemma wp_ret {A : Type} (a : A) (Q : list event -> res error A -> Prop) : Q [] (Ok a) -> wp (go_ret a) Q.
Proof. apply (wp_lift (Ok a)). Qed.

Lemma wp_err {A : Type} (e : error) (Q : list event -> res error A -> Prop) : Q [] (Err e) -> wp (go_err e) Q.
Proof. apply (wp_lift (Err e)). Qed.

Lemma wp_panic {A : Type} (Q : list event -> res error A -> Prop) : Q [] Panic -> wp go_panic Q.
Proof. apply (wp_lift Panic). Qed.

Lemma wp_call {T : Type} (c : Call T) (Q : list event -> res error T -> Prop) :
  (forall a, Q [Ev c a] (Ok a)) -> wp (do_call c) Q.
Proof. intros H h. unfold do_call. eauto. Qed.

Lemma wp_bind {A B : Type} (m : Client A) (k : A -> Client B) (Q : list event -> res error B -> Prop) :
  wp m (fun e1 r =>
    match r with
    | Ok a => wp (k a) (fun e2 r2 => Q (e1 ++ e2) r2)
    | Err e => Q e1 (Err e)
    | Panic => Q e1 Panic
    end) ->
  wp (go_bind m k) Q.
Proof.
  intros H h. unfold go_bind. destruct (H h) as (e1 & r & -> & Hr).
  destruct r as [a|e|]; cbn in Hr; [|exists e1, (Err e); split; [reflexivity|exact Hr]|by exists e1, Panic].
  destruct (Hr (h ++ e1)) as (e2 & r2 & -> & HQ).
  exists (e1 ++ e2), r2. by rewrite (assoc_L (++)).
Qed.

Lemma wp_wrap {A : Type} (f : error -> error) (m : Client A) (Q : list event -> res error A -> Prop) :
  wp m (fun evs r => Q evs (res_wrap f r)) -> wp (go_wrap f m) Q.
Proof. intros H h. unfold go_wrap. destruct (H h) as (evs & r & -> & HQ). eauto. Qed.

Lemma wp_try_call (ctx : error) (c : Call bool) (Q : list event -> res error unit -> Prop) :
  Q [Ev c true] (Ok tt) -> Q [Ev c false] (Err ctx) -> wp (try_call ctx c) Q.
Proof. intros H1 H2. apply wp_bind, wp_call. intros [|]; [by apply wp_ret|by apply wp_err]. Qed.

Lemma wp_ignore {T : Type} (c : Call T) (Q : list event -> res error unit -> Prop) :
  (forall a, Q [Ev c a] (Ok tt)) -> wp (ignore_call c) Q.
Proof. intros H. apply wp_bind, wp_call. intros a. apply wp_ret, H. Qed.

Lemma wp_attempt {A : Type} (m : Client A) (Q : list event -> res error (option A) -> Prop) :
  wp m (fun evs r =>
    match r with Ok a => Q evs (Ok (Some a)) | Err _ => Q evs (Ok None) | Panic => Q evs Panic end) ->
  wp (attempt m) Q.
Proof.
  intros H h. unfold attempt. destruct (H h) as (evs & r & -> & HQ).
  destruct r; by eauto.
Qed.

(** [m] only makes calls that satisfy [P]. *)
Definition emits (P : event -> Prop) {A : Type} (m : Client A) : Prop :=
  wp m (fun evs _ => Forall P evs).

Lemma emits_lift (P : event -> Prop) {A : Type} (r : res error A) : emits P (go_lift r).
Proof. by apply wp_lift. Qed.

Lemma emits_call (P : event -> Prop) {T : Type} (c : Call T) : (forall a, P (Ev c a)) -> emits P (do_call c).
Proof. intros H. apply wp_call. intros a. by constructor. Qed.

Lemma emits_bind (P : event -> Prop) {A B : Type} (m : Client A) (k : A -> Client B) :
  emits P m -> (forall a, emits P (k a)) -> emits P (go_bind m k).
Proof.
  intros Hm Hk. apply wp_bind. eapply wp_mono; [exact Hm|]. intros e1 [a|e|] H1; [|done..].
  eapply wp_mono; [apply Hk|]. intros e2 r H2. by apply Forall_app.
Qed.

Lemma emits_wrap (P : event -> Prop) {A : Type} (f : error -> error) (m : Client A) :
  emits P m -> emits P (go_wrap f m).
Proof. intros H. apply wp_wrap. exact H. Qed.

Lemma emits_attempt (P : event -> Prop) {A : Type} (m : Client A) : emits P m -> emits P (attempt m).
Proof. intros H. apply wp_attempt. eapply wp_mono; [exact H|]. by intros evs [a|e|]. Qed.

Lemma emits_wp (P : event -> Prop) {A : Type} (m : Client A) (Q : list event -> res error A -> Prop) :
  emits P m -> wp m Q -> wp m (fun evs r => Forall P evs /\ Q evs r).
Proof.
  intros H1 H2 h. destruct (H1 h) as (e1 & r1 & Hm & HP), (H2 h) as (e2 & r2 & Hm' & HQ).
  rewrite Hm in Hm'. injection Hm' as He <-. apply app_inv_head in He as <-. eauto.
Qed.

(** [m] never panics. *)
Definition no_panic {A : Type} (m : Client A) : Prop := wp m (fun _ r => r <> Panic).

Lemma no_panic_bind {A B : Type} (m : Client A) (k : A -> Client B) :
  no_panic m -> (forall a, no_panic (k a)) -> no_panic (go_bind m k).
Proof.
  intros Hm Hk. apply wp_bind. eapply wp_mono; [exact Hm|]. intros evs [a|e|] Hr; [apply Hk|done..].
Qed.

Lemma no_panic_call {T : Type} (c : Call T) : no_panic (do_call c).
Proof. by apply wp_call. Qed.

Lemma no_panic_ret {A : Type} (a : A) : no_panic (go_ret a).
Proof. by apply wp_ret. Qed.

Lemma no_panic_err {A : Type} (e : error) : no_panic (@go_err _ _ A e).
Proof. by apply wp_err. Qed.

End world.

(** Goes through the code down to its calls. *)
Ltac emits_step :=
  cbv zeta;
  match goal with
  | |- emits _ (go_lift _) => apply emits_lift
  | |- emits _ (go_ret ?a) => apply (emits_lift _ (Ok a))
  | |- emits _ (go_err ?e) => apply (emits_lift _ (Err e))
  | |- emits _ go_panic => apply (emits_lift _ Panic)
  | |- emits _ (go_bind _ _) => apply emits_bind; [|intros ?]
  | |- emits _ (go_wrap _ _) => apply emits_wrap
  | |- emits _ (attempt _) => apply emits_attempt
  | |- emits _ (do_call _) => apply emits_call; intros ?; done
  | |- emits _ (try_call _ _) => unfold try_call
  | |- emits _ (ignore_call _) => unfold ignore_call
  | |- emits _ (printf _) => unfold printf
  | |- emits _ (match ?x with _ => _ end) => destruct x
  end.
Ltac emits := repeat emits_step.

(** The same for panics; the database has the operations called. *)
Create HintDb no_panic.
Ltac no_panic_step :=
  match goal with
  | |- no_panic (go_bind _ _) => apply no_panic_bind; [|intros ?]
  | |- no_panic (do_call _) => apply no_panic_call
  | |- no_panic (go_ret _) => apply no_panic_ret
  | |- no_panic (go_err _) => apply no_panic_err
  | |- no_panic (try_call _ _) => unfold try_call
  | |- no_panic (ignore_call _) => unfold ignore_call
  | |- no_panic (printf _) => unfold printf
  | |- no_panic (match ?x with _ => _ end) => destruct x
  end.
Ltac no_panic := repeat no_panic_step; eauto with no_panic.

Definition wrapf (ctx : string) : error -> error := cons ctx.

(** ** What a history shows *)

(** The requests sent on content streams. *)
Definition sent_req (e : event) : list WriteReq :=
  match e with @Ev _ c _ => match c with StreamSend q => [q] | _ => [] end end.

Definition sent (h : list event) : list WriteReq := flat_map sent_req h.

(** The images the daemon was asked to register. *)
Definition created_image (e : event) : list Image :=
  match e with @Ev _ c _ => match c with ImageCreate img => [img] | _ => [] end end.

Definition created (h : list event) : list Image := flat_map created_image h.

(** The bodies that successful downloads returned, with their addresses. *)
Definition fetched_body (e : event) : list (string * bytes) :=
  match e with
  | @Ev T c a =>
      match c in Call T return T -> list (string * bytes) with
      | HttpDo r => fun a =>
          match a with
          | Some p => if (p_status p =? 200)%Z then match read_all p with Some b => [(r_url r, b)] | None => [] end else []
          | None => []
          end
      | _ => fun _ => []
      end a
  end.

Definition fetched (h : list event) : list (string * bytes) := flat_map fetched_body h.

Lemma sent_app (h1 h2 : list event) : sent (h1 ++ h2) = sent h1 ++ sent h2.
Proof. apply flat_map_app. Qed.

Lemma created_app (h1 h2 : list event) : created (h1 ++ h2) = created h1 ++ created h2.
Proof. apply flat_map_app. Qed.

Lemma fetched_app (h1 h2 : list event) : fetched (h1 ++ h2) = fetched h1 ++ fetched h2.
Proof. apply flat_map_app. Qed.

(** ** Uploads *)

(** The bound of the loop [for off := 0; off < len(data); off += n]. *)
Fixpoint chunks_from (fuel n : nat) (data : bytes) : list bytes :=
  match fuel with
  | 0 => []
  | S fuel' =>
      match data with
      | [] => []
      | _ => firstn n data :: chunks_from fuel' n (skipn n data)
      end
  end.

(** [data] in pieces of [n] bytes, the last one shorter. *)
Definition chunks_of (n : nat) (data : bytes) : list bytes := chunks_from (length data) n data.

Lemma chunks_from_concat (fuel n : nat) (data : bytes) :
  0 < n -> length data <= fuel -> concat (chunks_from fuel n data) = data.
Proof.
  intros Hn. revert data. induction fuel as [|fuel IH]; intros data Hl.
  - by destruct data; [|cbn in Hl; lia].
  - destruct data as [|b data]; [done|]. cbn [chunks_from concat].
    rewrite IH; [by rewrite firstn_skipn|]. rewrite length_skipn. cbn [length] in *. lia.
Qed.

Lemma chunks_of_concat (n : nat) (data : bytes) : 0 < n -> concat (chunks_of n data) = data.
Proof. intros Hn. by apply chunks_from_concat. Qed.
