(* ===== verification/RegistryRef.v ===== *)
(** * Where an image is fetched from

    The three packages that pull images (mini-docker/pkg/registry/pull.go,
    mini-nerdctl/pkg/image/image.go, mini-containerd/internal/image/image.go)
    each split a reference into registry, repository and tag and read the
    challenge of a registry's 401 answer; mini-docker's API server
    (internal/api/server.go) normalizes references first, mini-nerdctl's
    [reference] package does.  A [Module] per package, then how they agree. *)

From S2P Require Import Prelude.
From S2P Require Import GoStrings.
From S2P Require Import Reference.

Definition hub : string := "registry-1.docker.io".

(** [tag := "latest"; if idx := strings.LastIndex(ref, ":"); ...]: the tag and
    the reference without it. *)
Definition strip_tag (ref : string) : string * string :=
  match str_last_index ch_colon ref with
  | Some idx =>
      let a := str_drop (S idx) ref in
      if negb (str_has ch_slash a) then (a, str_take idx ref) else ("latest", ref)
  | None => ("latest", ref)
  end.

(** One part of the challenge. *)
Definition auth_part (acc : string * string) (p : string) : string * string :=
  let p := trim_space p in
  let acc := if has_prefix p "realm=" then (trim_byte (str_drop 6 p) ch_dquote, acc.2) else acc in
  if has_prefix p "service=" then (acc.1, trim_byte (str_drop 8 p) ch_dquote) else acc.

Definition auth_parts (header : string) : string * string :=
  fold_left auth_part (str_split ch_comma header) ("", "").

Module Docker.

Definition parseRef (ref : string) : string * string * string :=
  let '(tag, ref) := strip_tag ref in
  let parts := str_splitN 3 ch_slash ref in
  if length parts =? 1 then (hub, "library/" +:+ str_hd parts, tag)
  else if (length parts =? 2) && negb (str_has ch_dot (str_hd parts)) then (hub, str_join "/" parts, tag)
  else
    let r := str_hd parts in
    let r := if String.eqb r "docker.io" then hub else r in
    (r, str_join "/" (tail parts), tag).

(** server.go. *)
Definition normalizeRef (raw : string) : string :=
  let '(tag, raw) := strip_tag raw in
  let parts := str_splitN 3 ch_slash raw in
  if length parts =? 1 then "docker.io/library/" +:+ str_hd parts +:+ ":" +:+ tag
  else if (length parts =? 2) && negb (str_has ch_dot (str_hd parts)) then
    "docker.io/" +:+ str_join "/" parts +:+ ":" +:+ tag
  else
    let reg := str_hd parts in
    let reg := if String.eqb reg "docker.io" then hub else reg in
    reg +:+ "/" +:+ str_join "/" (tail parts) +:+ ":" +:+ tag.

(** The loop of [getAuthToken]. *)
Definition challenge (header : string) : string * string := auth_parts (trim_prefix header "Bearer ").

End Docker.

Module Nerdctl.

Definition parseRef (ref : string) : string * string * string :=
  let '(tag, ref) := strip_tag ref in
  let parts := str_splitN 3 ch_slash ref in
  if length parts =? 1 then (hub, "library/" +:+ str_hd parts, tag)
  else if (length parts =? 2) && negb (str_has ch_dot (str_hd parts)) then (hub, str_join "/" parts, tag)
  else
    let reg := str_hd parts in
    let reg := if String.eqb reg "docker.io" then hub else reg in
    (reg, str_join "/" (tail parts), tag).

Definition parseAuthHeader (header : string) : string * string := auth_parts (trim_prefix header "Bearer ").

End Nerdctl.

Module Containerd.

(** The part of [parseRef] after the tag is known. *)
Definition split_repo (ref : string) : string * string :=
  let parts := str_splitN 3 ch_slash ref in
  let '(registry, repo) :=
    if length parts =? 1 then (hub, "library/" +:+ str_hd parts)
    else if (length parts =? 2) && negb (str_has ch_dot (str_hd parts)) then (hub, str_join "/" parts)
    else if length parts =? 2 then (str_hd parts, str_hd (tail parts))
    else (str_hd parts, str_join "/" (tail parts)) in
  (if String.eqb registry "docker.io" then hub else registry, repo).

Definition parseRef (ref : string) : string * string * string :=
  let '(tag, ref) := strip_tag ref in
  let '(tag, ref) :=
    match str_index ch_at ref with
    | Some idx => (str_drop (S idx) ref, str_take idx ref)
    | None => (tag, ref)
    end in
  (split_repo ref, tag).

Definition parseAuthHeader (header : string) : string * string := auth_parts header.

End Containerd.

(** ** Lemmas: splitting a reference *)

(** [strings.SplitN(s, "/", 3)]: one, two or three parts. *)
Lemma splitN3_cases (s : string) :
  let ns := fun p => str_has ch_slash p = false in
  (str_splitN 3 ch_slash s = [s] /\ ns s) \/
  (exists p0 p1, s = p0 +:+ String ch_slash p1 /\ ns p0 /\ ns p1 /\ str_splitN 3 ch_slash s = [p0; p1]) \/
  (exists p0 p1 p2, s = p0 +:+ String ch_slash (p1 +:+ String ch_slash p2) /\ ns p0 /\ ns p1 /\
     str_splitN 3 ch_slash s = [p0; p1; p2]).
Proof.
  intros ns. destruct (str_has ch_slash s) eqn:Hs.
  - right. apply str_has_true_split in Hs as (p0 & s' & -> & H0).
    destruct (str_has ch_slash s') eqn:Hs'.
    + right. apply str_has_true_split in Hs' as (p1 & p2 & -> & H1). exists p0, p1, p2.
      by rewrite !str_splitN_app by done.
    + left. exists p0, s'. by rewrite str_splitN_app, str_splitN_notin by done.
  - left. by rewrite str_splitN_notin.
Qed.

Lemma str_last_index_drop (c : ascii) (s : string) (i : nat) :
  str_last_index c s = Some i -> str_has c (str_drop (S i) s) = false.
Proof. intros H. by apply str_last_index_Some in H as (_ & H & _). Qed.

(** The tag has neither a slash nor a colon. *)
Lemma strip_tag_plain (s : string) :
  str_has ch_slash (strip_tag s).1 = false /\ str_has ch_colon (strip_tag s).1 = false.
Proof.
  unfold strip_tag. destruct (str_last_index ch_colon s) as [i|] eqn:Hi; [|done].
  destruct (str_has ch_slash (str_drop (S i) s)) eqn:Hs; [done|]. cbn [negb fst].
  split; [done|]. by apply str_last_index_drop.
Qed.

Lemma strip_tag_app (s t : string) :
  str_has ch_slash t = false -> str_has ch_colon t = false ->
  strip_tag (s +:+ ":" +:+ t) = (t, s).
Proof.
  intros Hs Hc. unfold strip_tag. change (":" +:+ t) with (String ch_colon t).
  rewrite str_last_index_app by done. by rewrite str_drop_app_cons, Hs, str_take_app.
Qed.

Lemma hub_facts : str_has ch_slash hub = false /\ str_has ch_dot hub = true /\ String.eqb hub "docker.io" = false.
Proof. done. Qed.

Definition hubify (r : string) : string := if String.eqb r "docker.io" then hub else r.

Lemma hubify_idem (r : string) : hubify (hubify r) = hubify r.
Proof. unfold hubify. destruct (String.eqb r "docker.io") eqn:E; [done|]. by rewrite E. Qed.

Lemma hubify_host (r : string) :
  str_has ch_slash (hubify r) = false <-> str_has ch_slash r = false.
Proof. unfold hubify. destruct (String.eqb r "docker.io") eqn:E; [|done]. by apply String.eqb_eq in E as ->. Qed.

Lemma hubify_dot (r : string) : str_has ch_dot (hubify r) = str_has ch_dot r.
Proof. unfold hubify. destruct (String.eqb r "docker.io") eqn:E; [|done]. by apply String.eqb_eq in E as ->. Qed.

(** A reference [host/path:tag] whose first element is taken for a registry. *)
Lemma parseRef_host (h p t : string) :
  str_has ch_slash h = false -> str_has ch_slash t = false -> str_has ch_colon t = false ->
  str_has ch_dot h || str_has ch_slash p = true ->
  Docker.parseRef (h +:+ "/" +:+ p +:+ ":" +:+ t) = (hubify h, p, t).
Proof.
  intros Hh Hs Hc Hd. unfold Docker.parseRef.
  replace (h +:+ "/" +:+ p +:+ ":" +:+ t) with ((h +:+ "/" +:+ p) +:+ ":" +:+ t) by by rewrite !str_app_assoc.
  rewrite strip_tag_app by done. change ("/" +:+ p) with (String ch_slash p).
  destruct (str_has ch_slash p) eqn:Hp.
  - apply str_has_true_split in Hp as (p0 & p1 & -> & H0).
    by rewrite !str_splitN_app by done.
  - rewrite str_splitN_app, str_splitN_notin by done. rewrite orb_false_r in Hd.
    cbn [length Nat.eqb str_hd tail str_join andb]. by rewrite Hd.
Qed.

(** One whose first element is not. *)
Lemma parseRef_nohost (h p t : string) :
  str_has ch_slash h = false -> str_has ch_slash t = false -> str_has ch_colon t = false ->
  str_has ch_dot h || str_has ch_slash p = false ->
  Docker.parseRef (h +:+ "/" +:+ p +:+ ":" +:+ t) = (hub, h +:+ "/" +:+ p, t).
Proof.
  intros Hh Hs Hc [Hd Hp]%orb_false_iff. unfold Docker.parseRef.
  replace (h +:+ "/" +:+ p +:+ ":" +:+ t) with ((h +:+ "/" +:+ p) +:+ ":" +:+ t) by by rewrite !str_app_assoc.
  rewrite strip_tag_app by done. change ("/" +:+ p) with (String ch_slash p).
  rewrite str_splitN_app, str_splitN_notin by done.
  cbn [length Nat.eqb str_hd tail str_join andb]. by rewrite Hd.
Qed.

Lemma split_repo_eq (s : string) :
  Containerd.split_repo s =
  let parts := str_splitN 3 ch_slash s in
  if length parts =? 1 then (hub, "library/" +:+ str_hd parts)
  else if (length parts =? 2) && negb (str_has ch_dot (str_hd parts)) then (hub, str_join "/" parts)
  else (hubify (str_hd parts), str_join "/" (tail parts)).
Proof.
  unfold Containerd.split_repo.
  destruct (splitN3_cases s) as [[-> Hn]|[(p0 & p1 & -> & H0 & H1 & ->)|(p0 & p1 & p2 & -> & H0 & H1 & ->)]];
    cbn [length Nat.eqb str_hd tail str_join andb]; [done| |done].
  by destruct (str_has ch_dot p0).
Qed.

(** The two copies of the function. *)
Lemma Nerdctl_parseRef_eq (ref : string) : Nerdctl.parseRef ref = Docker.parseRef ref.
Proof. done. Qed.

(** *** The challenge *)

Lemma trim_byte_quoted (c : ascii) (s : string) :
  str_has c s = false -> trim_byte (String c s +:+ str1 c) c = s.
Proof.
  intros H. unfold trim_byte. cbn [String.append trim_left]. rewrite ascii_eqb_refl.
  assert (Hsym : forall a, Ascii.eqb c a = Ascii.eqb a c) by apply Ascii.eqb_sym.
  assert (Hr : forall t, str_has c t = false -> trim_right (Ascii.eqb c) (t +:+ str1 c) = t).
  { intros t Ht. induction t as [|a t IH]; cbn [String.append trim_right str1].
    - by rewrite ascii_eqb_refl.
    - cbn in Ht. apply orb_false_iff in Ht as [Ha Ht]. rewrite IH by done.
      destruct t; [by rewrite Hsym, Ha|done]. }
  destruct s as [|a s]; cbn [String.append str1 trim_left].
  - by rewrite ascii_eqb_refl.
  - cbn in H. apply orb_false_iff in H as [Ha Hs]. rewrite Hsym, Ha.
    apply (Hr (String a s)). cbn. by rewrite Ha, Hs.
Qed.

Lemma strip_tag_false_notag (s : string) : str_has ch_colon s = false -> strip_tag s = ("latest", s).
Proof. intros H. unfold strip_tag. by rewrite (proj1 (str_last_index_None _ _) H). Qed.

(** The challenge of a registry. *)
Definition bearer (prefix realm service : string) : string :=
  prefix +:+ "realm=" +:+ dq +:+ realm +:+ dq +:+ ",service=" +:+ dq +:+ service +:+ dq.

Lemma bearer_split (prefix realm service : string) :
  str_has ch_comma prefix = false -> str_has ch_comma realm = false -> str_has ch_comma service = false ->
  str_split ch_comma (bearer prefix realm service) =
  [prefix +:+ "realm=" +:+ dq +:+ realm +:+ dq; "service=" +:+ dq +:+ service +:+ dq].
Proof.
  intros Hp Hr Hs. unfold bearer. change (",service=" +:+ ?x) with (String ch_comma ("service=" +:+ x)).
  replace (prefix +:+ "realm=" +:+ dq +:+ realm +:+ dq +:+ String ch_comma ("service=" +:+ dq +:+ service +:+ dq))
    with ((prefix +:+ "realm=" +:+ dq +:+ realm +:+ dq) +:+ String ch_comma ("service=" +:+ dq +:+ service +:+ dq))
    by (by rewrite !str_app_assoc).
  rewrite str_split_app, str_split_notin; [done| |]; rewrite !str_has_app, ?Hp, ?Hr, ?Hs; reflexivity.
Qed.

Lemma trim_space_quoted (a : ascii) (key v : string) :
  is_space a = false -> trim_space (String a key +:+ dq +:+ v +:+ dq) = String a key +:+ dq +:+ v +:+ dq.
Proof.
  intros Ha. replace (String a key +:+ dq +:+ v +:+ dq) with (String a (key +:+ dq +:+ v) +:+ str1 ch_dquote).
  - by apply trim_space_id.
  - cbn [String.append]. by rewrite !str_app_assoc.
Qed.

(** A prefix test that fails at the first byte. *)
Lemma has_prefix_ne (a b : ascii) (s p : string) :
  Ascii.eqb a b = false -> has_prefix (String a s) (String b p) = false.
Proof. intros H. unfold has_prefix. cbn. by rewrite H, andb_false_r. Qed.

Lemma auth_part_realm (v : string) (acc : string * string) :
  str_has ch_dquote v = false -> auth_part acc ("realm=" +:+ dq +:+ v +:+ dq) = (v, acc.2).
Proof.
  intros Hv. unfold auth_part. rewrite trim_space_quoted, has_prefix_app by done.
  cbn [String.append]. rewrite has_prefix_ne by done. cbn [str_drop].
  f_equal. by apply (trim_byte_quoted ch_dquote).
Qed.

Lemma auth_part_service (v : string) (acc : string * string) :
  str_has ch_dquote v = false -> auth_part acc ("service=" +:+ dq +:+ v +:+ dq) = (acc.1, v).
Proof.
  intros Hv. unfold auth_part. rewrite trim_space_quoted, (has_prefix_app "service=") by done.
  cbn [String.append]. rewrite has_prefix_ne by done. cbn [str_drop].
  f_equal. by apply (trim_byte_quoted ch_dquote).
Qed.

Lemma auth_part_bearer (v : string) (acc : string * string) :
  auth_part acc ("Bearer realm=" +:+ dq +:+ v +:+ dq) = acc.
Proof.
  unfold auth_part. rewrite trim_space_quoted by done.
  cbn [String.append]. by rewrite !has_prefix_ne by done.
Qed.

Lemma auth_parts_bearer (prefix realm service : string) :
  str_has ch_comma prefix = false -> str_has ch_comma realm = false -> str_has ch_comma service = false ->
  str_has ch_dquote service = false ->
  auth_parts (bearer prefix realm service) =
  ((auth_part ("", "") (prefix +:+ "realm=" +:+ dq +:+ realm +:+ dq)).1, service).
Proof.
  intros Hp Hr Hs Hq. unfold auth_parts. rewrite bearer_split by done. cbn [fold_left].
  by rewrite auth_part_service.
Qed.

(** ** Properties *)

(** mini-docker's API server normalizes a reference and the registry client
    takes it apart again: for every string, the normalized reference names the
    same registry, repository and tag as the string itself. *)
Theorem normalizeRef_parseRef (raw : string) :
  Docker.parseRef (Docker.normalizeRef raw) = Docker.parseRef raw.
Proof.
  destruct (strip_tag raw) as [t body] eqn:Ht.
  pose proof (strip_tag_plain raw) as [Hs Hc]. rewrite Ht in Hs, Hc. cbn [fst] in Hs, Hc.
  unfold Docker.normalizeRef, Docker.parseRef at 2. rewrite Ht.
  destruct (splitN3_cases body) as [[-> Hn]|[(p0 & p1 & -> & H0 & H1 & ->)|(p0 & p1 & p2 & -> & H0 & H1 & ->)]];
    cbn [length Nat.eqb str_hd tail str_join andb].
  - apply (parseRef_host "docker.io" ("library/" +:+ body) t); done.
  - destruct (str_has ch_dot p0) eqn:Hd; cbn [negb].
    + fold (hubify p0). rewrite parseRef_host; [by rewrite hubify_idem|by apply hubify_host|done|done|].
      by rewrite hubify_dot, Hd.
    + apply (parseRef_host "docker.io" (p0 +:+ "/" +:+ p1) t); done.
  - fold (hubify p0). rewrite parseRef_host; [by rewrite hubify_idem|by apply hubify_host|done|done|].
    rewrite str_has_app. cbn. by rewrite !orb_true_r.
Qed.

(** where mini-nerdctl fetches a well-formed reference from: the registry
    the reference names (Docker Hub for docker.io), except that a host without a
    dot, such as localhost:5000, followed by a one-element repository is taken
    for a Docker Hub repository. *)
Theorem nerdctl_pull_target (u : UserRef) :
  user_ref_ok u = true ->
  Nerdctl.parseRef (Normalize (render u)) =
  let r := resolve u in
  if str_has ch_dot (Registry r) || str_has ch_slash (Repo r)
  then (hubify (Registry r), Repo r, Tag r)
  else (hub, Registry r +:+ "/" +:+ Repo r, Tag r).
Proof.
  intros Hu. unfold Normalize. rewrite Parse_resolve, Nerdctl_parseRef_eq by done. cbv zeta.
  assert (Hf : str_has ch_slash (Registry (resolve u)) = false /\
    str_has ch_slash (Tag (resolve u)) = false /\ str_has ch_colon (Tag (resolve u)) = false).
  { unfold user_ref_ok in Hu. destruct u as [host path tag]. cbn in *. bool_simp. split.
    - destruct host as [h|]; [|done]. by destruct (host_ok_cases h ltac:(done)) as (? & _ & _).
    - destruct tag as [t|]; [|done]. by destruct (tag_ok_spec t ltac:(done)) as (_ & Hc & _ & Hs). }
  destruct Hf as (H1 & H2 & H3). unfold ParseResult_String. destruct (_ || _) eqn:Hb.
  - by apply parseRef_host.
  - by apply parseRef_nohost.
Qed.

Lemma nerdctl_pull_target_witness :
  Nerdctl.parseRef (Normalize "ghcr.io/foo/bar:v1") = ("ghcr.io", "foo/bar", "v1") /\
  Nerdctl.parseRef (Normalize "localhost:5000/app") = ("registry-1.docker.io", "localhost:5000/app", "latest").
Proof.
  split.
  - refine (eq_trans (nerdctl_pull_target (mkUserRef (Some "ghcr.io") "foo/bar" (Some "v1")) _) _); reflexivity.
  - refine (eq_trans (nerdctl_pull_target (mkUserRef (Some "localhost:5000") "app" None) _) _); reflexivity.
Defined.

(** mini-containerd's client agrees with the other two on references without
    a digest, and asks for the tag "sha256" (or whatever the algorithm is) when
    the reference has one: the digest itself is lost. *)
Theorem containerd_parseRef (name alg d : string) :
  str_has ch_at name = false ->
  Containerd.parseRef name = Docker.parseRef name /\
  (str_has ch_slash d = false -> str_has ch_colon d = false -> str_has ch_colon name = false ->
   Containerd.parseRef (name +:+ "@" +:+ alg +:+ ":" +:+ d) =
   ((Docker.parseRef name).1.1, (Docker.parseRef name).1.2, alg)).
Proof.
  intros Hat. split.
  - unfold Containerd.parseRef, Docker.parseRef. destruct (strip_tag name) as [t s] eqn:Ht.
    assert (Hs : str_has ch_at s = false).
    { unfold strip_tag in Ht. destruct (str_last_index ch_colon name) as [i|] eqn:Hi; [|congruence].
      destruct (negb _); [|congruence]. injection Ht as <- <-.
      apply str_last_index_Some in Hi as (Hsplit & _ & _). rewrite Hsplit in Hat.
      by apply str_app_has_false in Hat as [Hat _]. }
    rewrite (proj1 (str_index_None _ _) Hs), split_repo_eq. cbv zeta. unfold hubify. by repeat case_match.
  - intros Hd Hc Hn. unfold Containerd.parseRef.
    replace (name +:+ "@" +:+ alg +:+ ":" +:+ d) with ((name +:+ "@" +:+ alg) +:+ ":" +:+ d)
      by (by rewrite !str_app_assoc).
    rewrite strip_tag_app by done. change ("@" +:+ alg) with (String ch_at alg).
    rewrite str_index_app, str_drop_app_cons, str_take_app by done.
    rewrite split_repo_eq. unfold Docker.parseRef. rewrite strip_tag_false_notag by done.
    cbv zeta. unfold hubify. by repeat case_match.
Qed.

Lemma containerd_parseRef_witness :
  Containerd.parseRef "ghcr.io/foo/bar:v1" = ("ghcr.io", "foo/bar", "v1") /\
  Containerd.parseRef "alpine@sha256:c5b1" = ("registry-1.docker.io", "library/alpine", "sha256").
Proof.
  split.
  - refine (eq_trans (proj1 (containerd_parseRef "ghcr.io/foo/bar:v1" "" "" _)) _); reflexivity.
  - refine (eq_trans (proj2 (containerd_parseRef "alpine" "sha256" "c5b1" _) _ _ _) _); reflexivity.
Defined.

(** The challenge a registry sends, [Bearer realm="R",service="S"]:
    mini-docker and mini-nerdctl find the realm, mini-containerd finds none
    (and cannot get a token), because it does not remove the scheme. *)
Theorem challenge_realm (realm service : string) :
  str_has ch_comma realm = false -> str_has ch_dquote realm = false ->
  str_has ch_comma service = false -> str_has ch_dquote service = false ->
  Docker.challenge (bearer "Bearer " realm service) = (realm, service) /\
  Nerdctl.parseAuthHeader (bearer "Bearer " realm service) = (realm, service) /\
  Containerd.parseAuthHeader (bearer "Bearer " realm service) = ("", service).
Proof.
  intros Hr Hrq Hs Hsq.
  assert (Hb : trim_prefix (bearer "Bearer " realm service) "Bearer " = bearer "" realm service).
  { unfold bearer. by rewrite trim_prefix_app. }
  unfold Docker.challenge, Nerdctl.parseAuthHeader, Containerd.parseAuthHeader. rewrite Hb.
  rewrite !auth_parts_bearer by done. cbn [String.append].
  pose proof (auth_part_realm realm ("", "") Hrq) as H1. pose proof (auth_part_bearer realm ("", "")) as H2.
  cbn [String.append] in H1, H2. by rewrite H1, H2.
Qed.

Lemma challenge_realm_witness :
  Docker.challenge (bearer "Bearer " "https://auth.docker.io/token" "registry.docker.io") =
    ("https://auth.docker.io/token", "registry.docker.io") /\
  Containerd.parseAuthHeader (bearer "Bearer " "https://auth.docker.io/token" "registry.docker.io") =
    ("", "registry.docker.io").
Proof.
  pose proof (challenge_realm "https://auth.docker.io/token" "registry.docker.io") as H.
  destruct H as (H1 & _ & H2); [reflexivity..|]. by split.
Defined.
