(* ===== verification/DockerRegistry.v ===== *)
(** * mini-docker's registry client: mini-docker/pkg/registry/pull.go

    [Pull] fetches a manifest and its blobs, checks every blob against its
    digest, sends the blobs to the daemon's content store and registers the
    image.  The store's answers are never read. *)

From S2P Require Import Prelude.
From S2P Require Import GoStrings.
From S2P Require Import Sha256.
From S2P Require Import FileSystem.
From S2P Require Import ContentStore.
From S2P Require Import ContentService.
From S2P Require Import RegistryRef.
From S2P Require Import World.
Open Scope go_scope.

Definition accept : string :=
  "application/vnd.oci.image.manifest.v1+json,application/vnd.docker.distribution.manifest.v2+json".

Definition manifest_type : string := "application/vnd.oci.image.manifest.v1+json".

Definition mib : nat := N.to_nat 1048576.

Definition manifest_url (registry repo tag : string) : string :=
  "https://" +:+ registry +:+ "/v2/" +:+ repo +:+ "/manifests/" +:+ tag.

Definition blob_url (registry repo d : string) : string :=
  "https://" +:+ registry +:+ "/v2/" +:+ repo +:+ "/blobs/" +:+ d.

Definition token_url (realm service repo : string) : string :=
  realm +:+ "?service=" +:+ service +:+ "&scope=repository:" +:+ repo +:+ ":pull".

(** The requests of one upload. *)
Fixpoint chunk_reqs (ref : string) (off : nat) (chunks : list bytes) : list WriteReq :=
  match chunks with
  | [] => []
  | c :: cs => mkWriteReq ActionWRITE ref "" 0 (Z.of_nat off) c :: chunk_reqs ref (off + length c) cs
  end.

Definition upload_reqs (ref digest : string) (data : bytes) : list WriteReq :=
  mkWriteReq ActionSTAT ref digest 0 0 [] :: chunk_reqs ref 0 (chunks_of mib data) ++
  [commit_req ref digest (length data)].

Definition manifest_image (name : string) (data : bytes) : Image :=
  mkImage name None (mkDescriptor manifest_type (digest_of data) (Z.of_nat (length data))) 0 0.

Section docker.
Context {W : World}.

Definition httpGet (url auth : string) : Client bytes :=
  if negb (url_ok url) then go_err []
  else
    resp <-! do_call (HttpDo (mkRequest url accept (if String.eqb auth "" then "" else "Bearer " +:+ auth))) ;
    match resp with
    | None => go_err []
    | Some p =>
        if negb (p_status p =? 200)%Z then go_err ["HTTP"]
        else match read_all p with Some b => go_ret b | None => go_err [] end
    end.

Definition getAuthToken (registry repo : string) : Client string :=
  let url0 := "https://" +:+ registry +:+ "/v2/" in
  if negb (url_ok url0) then go_err []
  else
    resp <-! do_call (HttpDo (mkRequest url0 "" "")) ;
    match resp with
    | None => go_err []
    | Some p =>
        let '(realm, service) := Docker.challenge (p_header p "Www-Authenticate") in
        if String.eqb realm "" then go_err ["no realm"]
        else
          let url := token_url realm service repo in
          if negb (url_ok url) then go_err []
          else
            resp2 <-! do_call (HttpDo (mkRequest url "" "")) ;
            match resp2 with
            | None => go_err []
            | Some p2 =>
                let '(token, ok) := json_token p2 in
                if negb ok then go_err ["decode token"] else go_ret token
            end
    end.

(** [writeContent]: [ref] is the first 32 bytes of the digest, and a shorter
    digest panics.  No send is checked and no answer is received. *)
Fixpoint send_all_reqs (qs : list WriteReq) : Client unit :=
  match qs with
  | [] => go_ret tt
  | q :: qs' => ignore_call (StreamSend q) ;;! send_all_reqs qs'
  end.

Definition writeContent (digest : string) (data : bytes) : Client unit :=
  try_call ["create write stream"] StreamOpen ;;!
  d32 <-! go_lift (str_slice_to 32 digest) ;
  send_all_reqs (upload_reqs ("pull-" +:+ d32) digest data) ;;!
  ignore_call StreamClose.

(** The body of the loop over the digests. *)
Definition pull_blob (registry repo token d : string) : Client unit :=
  blob <-! go_wrap (wrapf ("download " +:+ d)) (httpGet (blob_url registry repo d) token) ;
  if negb (String.eqb (digest_of blob) d) then go_err ["digest mismatch: " +:+ d]
  else go_wrap (wrapf ("store " +:+ d)) (writeContent d blob).

Fixpoint pull_blobs (registry repo token : string) (ds : list string) : Client unit :=
  match ds with
  | [] => go_ret tt
  | d :: ds' => pull_blob registry repo token d ;;! pull_blobs registry repo token ds'
  end.

(** The manifest, with a token when the first request fails. *)
Definition fetch_manifest (registry repo tag : string) : Client bytes :=
  first <-! attempt (httpGet (manifest_url registry repo tag) "") ;
  match first with
  | Some data => go_ret data
  | None =>
      token <-! go_wrap (wrapf "fetch manifest") (getAuthToken registry repo) ;
      go_wrap (wrapf "fetch manifest (auth)") (httpGet (manifest_url registry repo tag) token)
  end.

(** After the manifest is parsed. *)
Definition pull_rest (rawRef registry repo token : string) (data : bytes) (mf : Manifest) : Client unit :=
  pull_blobs registry repo token (m_Config mf :: m_Layers mf) ;;!
  _ <-! attempt (writeContent (digest_of data) data) ;
  ignore_call (ImageCreate (manifest_image rawRef data)).

Definition Pull (rawRef : string) : Client unit :=
  let '(registry, repo, tag) := Docker.parseRef rawRef in
  data <-! fetch_manifest registry repo tag ;
  match json_manifest JDockerManifest data with
  | None => go_err ["parse manifest"]
  | Some mf =>
      if negb conn_ok then go_err ["containerd client has no active connection"]
      else
        token <-! attempt (getAuthToken registry repo) ;
        pull_rest rawRef registry repo (default "" token) data mf
  end.

End docker.

(** ** Lemmas *)

(** The upload of a blob under its own digest. *)
Definition blob_upload (b : bytes) : list WriteReq :=
  upload_reqs ("pull-" +:+ str_take 32 (digest_of b)) (digest_of b) b.

(** Neither the content store nor the image service is called. *)
Definition quiet (evs : list event) : Prop := sent evs = [] /\ created evs = [].

Lemma quiet_app (e1 e2 : list event) : quiet e1 -> quiet e2 -> quiet (e1 ++ e2).
Proof. intros [H1 H2] [H3 H4]. split; [by rewrite sent_app, H1, H3|by rewrite created_app, H2, H4]. Qed.

Lemma quiet_http (r : Request) (a : option Response) : quiet [Ev (HttpDo r) a].
Proof. done. Qed.

Section lemmas.
Context {W : World}.

Lemma httpGet_wp (url auth : string) :
  wp (httpGet url auth) (fun evs r =>
    quiet evs /\ match r with Ok b => (url, b) ∈ fetched evs | Err _ => True | Panic => False end).
Proof.
  unfold httpGet. destruct (url_ok url); cbn [negb]; [|by apply wp_err].
  apply wp_bind, wp_call. intros [p|]; [|by apply wp_err].
  destruct (p_status p =? 200)%Z eqn:Hs; cbn [negb]; [|by apply wp_err].
  destruct (read_all p) as [b|] eqn:Hb; [|by apply wp_err]. apply wp_ret. split; [done|].
  unfold fetched. cbn. rewrite Hs, Hb. by apply list_elem_of_singleton.
Qed.

Lemma getAuthToken_wp (registry repo : string) :
  wp (getAuthToken registry repo) (fun evs r => quiet evs /\ r <> Panic).
Proof.
  unfold getAuthToken. cbv zeta. destruct (url_ok _); cbn [negb]; [|by apply wp_err].
  apply wp_bind, wp_call. intros [p|]; [|by apply wp_err].
  destruct (Docker.challenge _) as [realm service]. destruct (String.eqb realm ""); [by apply wp_err|].
  destruct (url_ok _); cbn [negb]; [|by apply wp_err].
  apply wp_bind, wp_call. intros [p2|]; [|by apply wp_err].
  destruct (json_token _) as [token [|]]; cbn [negb]; [by apply wp_ret|by apply wp_err].
Qed.

Lemma fetch_manifest_wp (registry repo tag : string) :
  wp (fetch_manifest registry repo tag) (fun evs r =>
    quiet evs /\
    match r with Ok b => (manifest_url registry repo tag, b) ∈ fetched evs | Err _ => True | Panic => False end).
Proof.
  unfold fetch_manifest. apply wp_bind, wp_attempt. eapply wp_mono; [apply httpGet_wp|].
  intros e1 r1 [Hq1 H1]. destruct r1 as [b|e|]; cbn; [| |done].
  - apply wp_ret. by rewrite app_nil_r.
  - apply wp_bind, wp_wrap. eapply wp_mono; [apply getAuthToken_wp|]. intros e2 r2 [Hq2 H2].
    destruct r2 as [token|e2'|]; cbn; [| |done].
    + apply wp_wrap. eapply wp_mono; [apply httpGet_wp|]. intros e3 r3 [Hq3 H3].
      split; [by repeat apply quiet_app|]. destruct r3; cbn; [|done|done].
      rewrite !fetched_app, !elem_of_app. auto.
    + split; [by apply quiet_app|done].
Qed.

Lemma send_all_reqs_wp (qs : list WriteReq) :
  wp (send_all_reqs qs) (fun evs r => sent evs = qs /\ created evs = [] /\ fetched evs = [] /\ r = Ok tt).
Proof.
  induction qs as [|q qs IH]; cbn [send_all_reqs]; [by apply wp_ret|].
  apply wp_bind, wp_ignore. intros a. eapply wp_mono; [apply IH|].
  intros evs r (H1 & H2 & H3 & ->). rewrite sent_app, created_app, fetched_app, H1, H2, H3. done.
Qed.

Lemma writeContent_wp (b : bytes) :
  wp (writeContent (digest_of b) b) (fun evs r =>
    created evs = [] /\ fetched evs = [] /\
    match r with Ok _ => sent evs = blob_upload b | Err _ => sent evs = [] | Panic => False end).
Proof.
  unfold writeContent. apply wp_bind, wp_try_call; [|done].
  apply wp_bind, wp_lift. unfold str_slice_to. rewrite digest_of_length. cbn [Nat.leb].
  apply wp_bind. eapply wp_mono; [apply send_all_reqs_wp|]. intros e r (H1 & H2 & H3 & ->).
  apply wp_ignore. intros a. rewrite !created_app, !fetched_app, !sent_app, H1, H2, H3.
  by rewrite !app_nil_r.
Qed.

(** What a completed loop over the digests [ds] leaves: every blob was fetched
    from its address, has its digest, and was sent. *)
Definition pulled (registry repo : string) (ds : list string) (evs : list event) : Prop :=
  exists blobs, map digest_of blobs = ds /\
    sent evs = concat (map blob_upload blobs) /\
    Forall (fun b => (blob_url registry repo (digest_of b), b) ∈ fetched evs) blobs.

Lemma pull_blob_wp (registry repo token d : string) :
  wp (pull_blob registry repo token d) (fun evs r =>
    created evs = [] /\
    match r with Ok _ => pulled registry repo [d] evs | Err _ => True | Panic => False end).
Proof.
  unfold pull_blob. apply wp_bind, wp_wrap. eapply wp_mono; [apply httpGet_wp|].
  intros e1 r1 [[Hs1 Hc1] H1]. destruct r1 as [b|e|]; cbn; [|done|done].
  destruct (String.eqb (digest_of b) d) eqn:Hd; cbn [negb]; [|apply wp_err; by rewrite app_nil_r].
  apply String.eqb_eq in Hd as <-. apply wp_wrap. eapply wp_mono; [apply writeContent_wp|].
  intros e2 r2 (Hc2 & Hf2 & H2). rewrite created_app, Hc1, Hc2. split; [done|].
  destruct r2 as [[]|e|]; cbn; [|done|done]. exists [b]. cbn [map concat]. rewrite app_nil_r.
  split_and!; [done|by rewrite sent_app, Hs1, H2|]. constructor; [|done].
  rewrite fetched_app, elem_of_app. by left.
Qed.

Lemma pull_blobs_wp (registry repo token : string) (ds : list string) :
  wp (pull_blobs registry repo token ds) (fun evs r =>
    created evs = [] /\
    match r with Ok _ => pulled registry repo ds evs | Err _ => True | Panic => False end).
Proof.
  induction ds as [|d ds IH]; cbn [pull_blobs].
  - apply wp_ret. split; [done|]. by exists [].
  - apply wp_bind. eapply wp_mono; [apply pull_blob_wp|]. intros e1 r1 [Hc1 H1].
    destruct r1 as [[]|e|]; [|done|done]. eapply wp_mono; [apply IH|]. intros e2 r2 [Hc2 H2].
    rewrite created_app, Hc1, Hc2. split; [done|]. destruct r2 as [[]|e|]; [|done|done].
    destruct H1 as (b1 & Hb1 & Hs1 & Hf1), H2 as (b2 & Hb2 & Hs2 & Hf2). exists (b1 ++ b2).
    rewrite map_app, sent_app, Hb1, Hb2, Hs1, Hs2, map_app, concat_app. split_and!; [done|done|].
    apply Forall_app. rewrite fetched_app.
      split; [eapply Forall_impl; [exact Hf1|]|eapply Forall_impl; [exact Hf2|]]; intros b Hb; apply elem_of_app; auto.
Qed.

(** [Pull] only talks to the registry and to the daemon. *)
Definition remote (e : event) : Prop :=
  match e with
  | @Ev _ c _ =>
      match c with
      | HttpDo _ | StreamOpen | StreamSend _ | StreamClose | ImageCreate _ => True
      | _ => False
      end
  end.

Lemma httpGet_remote (url auth : string) : emits remote (httpGet url auth).
Proof. unfold httpGet. emits. Qed.

Lemma getAuthToken_remote (registry repo : string) : emits remote (getAuthToken registry repo).
Proof. unfold getAuthToken. emits. Qed.

Lemma send_all_reqs_remote (qs : list WriteReq) : emits remote (send_all_reqs qs).
Proof. induction qs as [|q qs IH]; cbn [send_all_reqs]; emits. apply IH. Qed.

Lemma writeContent_remote (d : string) (b : bytes) : emits remote (writeContent d b).
Proof. unfold writeContent. emits. apply send_all_reqs_remote. Qed.

Lemma pull_blobs_remote (registry repo token : string) (ds : list string) :
  emits remote (pull_blobs registry repo token ds).
Proof.
  induction ds as [|d ds IH]; cbn [pull_blobs]; unfold pull_blob; emits.
  - apply httpGet_remote.
  - apply writeContent_remote.
  - apply IH.
Qed.

Lemma Pull_remote (rawRef : string) : emits remote (Pull rawRef).
Proof.
  unfold Pull, fetch_manifest, pull_rest. emits;
    first [apply httpGet_remote|apply getAuthToken_remote|apply pull_blobs_remote|apply writeContent_remote].
Qed.

(** What a completed pull leaves after the manifest [data]: the blobs of [mf],
    perhaps the manifest itself, and the image. *)
Definition stored_as (rawRef registry repo : string) (data : bytes) (mf : Manifest) (evs : list event) : Prop :=
  exists blobs,
    map digest_of blobs = m_Config mf :: m_Layers mf /\
    Forall (fun b => (blob_url registry repo (digest_of b), b) ∈ fetched evs) blobs /\
    (sent evs = concat (map blob_upload blobs) \/ sent evs = concat (map blob_upload (blobs ++ [data]))) /\
    created evs = [manifest_image rawRef data].

Lemma stored_as_quiet (rawRef registry repo : string) (data : bytes) (mf : Manifest) (e1 e2 : list event) :
  quiet e1 -> stored_as rawRef registry repo data mf e2 -> stored_as rawRef registry repo data mf (e1 ++ e2).
Proof.
  intros [Hs Hc] (blobs & Hb & Hf & Hsent & Hcr). exists blobs.
  rewrite sent_app, created_app, fetched_app, Hs, Hc. split_and!; try done.
  eapply Forall_impl; [exact Hf|]. intros b Hin. apply elem_of_app. by right.
Qed.

Lemma pull_rest_wp (rawRef registry repo token : string) (data : bytes) (mf : Manifest) :
  wp (pull_rest rawRef registry repo token data mf) (fun evs r =>
    match r with
    | Ok _ => stored_as rawRef registry repo data mf evs
    | Err _ => created evs = []
    | Panic => False
    end).
Proof.
  unfold pull_rest. apply wp_bind. eapply wp_mono; [apply pull_blobs_wp|]. intros e1 r1 [Hc1 H1].
  destruct r1 as [[]|e|]; [|done|done]. destruct H1 as (blobs & Hb & Hs1 & Hf1).
  apply wp_bind, wp_attempt. eapply wp_mono; [apply writeContent_wp|]. intros e2 r2 (Hc2 & Hf2 & H2).
  assert (Hfin : sent e2 = [] \/ sent e2 = blob_upload data ->
    wp (ignore_call (ImageCreate (manifest_image rawRef data))) (fun e3 r =>
      match r with
      | Ok _ => stored_as rawRef registry repo data mf (e1 ++ e2 ++ e3)
      | Err _ => created (e1 ++ e2 ++ e3) = []
      | Panic => False
      end)).
  { intros Hsent. apply wp_ignore. intros a. exists blobs.
    rewrite !sent_app, !created_app, !fetched_app, Hs1, Hc1, Hc2, Hf2.
    cbn [sent flat_map sent_req app]. rewrite !app_nil_r. split_and!; [done| | |done].
    - by eapply Forall_impl.
    - destruct Hsent as [-> | ->]; [left; by rewrite app_nil_r|right].
      rewrite map_app, concat_app. cbn [map concat]. by rewrite app_nil_r. }
  destruct r2 as [[]|e|]; [apply Hfin; by right|apply Hfin; by left|done].
Qed.

End lemmas.

Lemma chunk_reqs_write_reqs (ref : string) (off : nat) (chunks : list bytes) :
  map RecvReq (chunk_reqs ref off chunks) = write_reqs ref off chunks.
Proof.
  revert off. induction chunks as [|c cs IH]; intros off; [done|].
  cbn [chunk_reqs map write_reqs]. by rewrite IH.
Qed.

Lemma mib_pos : 0 < mib.
Proof. unfold mib. lia. Qed.

(** What the client sends is an upload in the sense of the content service. *)
Lemma upload_reqs_stream (ref digest : string) (data : bytes) :
  map RecvReq (upload_reqs ref digest data) = upload_stream ref digest (chunks_of mib data).
Proof.
  unfold upload_reqs, upload_stream. cbn [map]. rewrite map_app, chunk_reqs_write_reqs.
  by rewrite chunks_of_concat by apply mib_pos.
Qed.

Lemma str_has_take (c : ascii) (n : nat) (s : string) : str_has c s = false -> str_has c (str_take n s) = false.
Proof.
  revert s. induction n as [|n IH]; intros [|a s] H; [done..|]. cbn in *.
  apply orb_false_iff in H as [-> H]. by apply IH.
Qed.

Lemma digest_of_plain (c : ascii) (b : bytes) :
  is_hexdigit c = false -> str_has c "sha256:" = false -> str_has c (digest_of b) = false.
Proof.
  intros Hc Hp. unfold digest_of. rewrite str_has_app, Hp.
  apply (str_all_notin c is_hexdigit); [done|]. apply hex_encode_all.
Qed.

Lemma pull_ref_plain (b : bytes) : plain_elem ("pull-" +:+ str_take 32 (digest_of b)) = true.
Proof.
  apply plain_elem_intro; try done; rewrite str_has_app; apply str_has_take, digest_of_plain; done.
Qed.

(** The whole of [Pull]. *)
Lemma Pull_wp {W : World} (rawRef : string) :
  let '(registry, repo, tag) := Docker.parseRef rawRef in
  wp (Pull rawRef) (fun evs r =>
    match r with
    | Ok _ =>
        exists data mf,
          (manifest_url registry repo tag, data) ∈ fetched evs /\
          json_manifest JDockerManifest data = Some mf /\
          stored_as rawRef registry repo data mf evs
    | Err _ => created evs = []
    | Panic => False
    end).
Proof.
  unfold Pull. destruct (Docker.parseRef rawRef) as [[registry repo] tag].
  apply wp_bind. eapply wp_mono; [apply fetch_manifest_wp|]. intros e1 r1 [[Hs1 Hc1] H1].
  destruct r1 as [data|e|]; [|done|done].
  destruct (json_manifest JDockerManifest data) as [mf|] eqn:Hmf; [|apply wp_err; by rewrite app_nil_r].
  destruct conn_ok; cbn [negb]; [|apply wp_err; by rewrite app_nil_r].
  apply wp_bind, wp_attempt. eapply wp_mono; [apply getAuthToken_wp|]. intros e2 r2 [[Hs2 Hc2] H2].
  destruct r2 as [token|e|]; [| |done];
    (eapply wp_mono; [apply pull_rest_wp|]; intros e3 [[]|e'|] H3;
     [exists data, mf; split_and!; [rewrite fetched_app; by apply elem_of_app; left|done|]
     |by rewrite !created_app, Hc1, Hc2|done]);
    by repeat apply stored_as_quiet.
Qed.

Lemma Pull_no_panic {W : World} (rawRef : string) : wp (Pull rawRef) (fun _ r => r <> Panic).
Proof.
  pose proof (Pull_wp rawRef) as H. destruct (Docker.parseRef rawRef) as [[registry repo] tag].
  eapply wp_mono; [exact H|]. by intros evs [[]|e|] HQ.
Qed.

(** ** Properties *)

(** C22: what mini-docker's [Pull] does, whatever the network and the daemon
    answer.  It never panics, and when it succeeds the manifest came from the
    registry the reference names, every blob of the manifest was fetched from
    that registry and has its digest, exactly these uploads were sent, in the
    manifest's order, followed at most by the manifest's, and one image was
    registered, under the reference and the manifest's digest.  When it fails,
    no image is registered. *)
Theorem docker_Pull_verified {W : World} (rawRef : string) :
  let '(registry, repo, tag) := Docker.parseRef rawRef in
  wp (Pull rawRef) (fun evs r =>
    match r with
    | Ok _ =>
        exists data mf,
          (manifest_url registry repo tag, data) ∈ fetched evs /\
          json_manifest JDockerManifest data = Some mf /\
          stored_as rawRef registry repo data mf evs
    | Err _ => created evs = []
    | Panic => False
    end).
Proof. apply Pull_wp. Qed.

(** what is pulled is what the daemon serves: mini-containerd's content
    service, given the upload that mini-docker and mini-nerdctl send for a blob
    (in 1 MiB pieces, under a reference made of the digest), ends it with the
    blob's digest and then serves exactly the blob. *)
Theorem pulled_blob_readable (now : Z) (b : bytes) (s : Store) (fuel : nat) :
  let ref := "pull-" +:+ str_take 32 (digest_of b) in
  store_inv s -> s_uploads s !! ref = None ->
  tmp_elems (s_root s) ref ∉ fs_dirs (s_fs s) -> blob_elems (s_root s) b ∉ fs_dirs (s_fs s) ->
  in_int64 (Z.of_nat (length b)) -> length b < fuel ->
  exists s' resps last msgs,
    svc_Write no_faults (fun _ => true) now (map RecvReq (blob_upload b)) s = (s', resps ++ [last], Ok tt) /\
    a_Digest last = digest_of b /\
    svc_Read no_faults (fun _ => true) fuel (digest_of b) 0 0 s' = Some (msgs, Ok tt) /\
    concat (map snd msgs) = b.
Proof.
  intros ref Hinv Hnone Hnt Hnb Hlen Hfuel.
  pose proof (chunks_of_concat mib b mib_pos) as Hcat.
  destruct (upload_read now ref (digest_of b) (chunks_of mib b) s fuel)
    as (s' & resps & last & msgs & Hw & _ & Hd & Hr & Hm);
    rewrite ?Hcat in *; try done; [apply pull_ref_plain|by right|].
  exists s', resps, last, msgs. unfold blob_upload. by rewrite upload_reqs_stream.
Qed.

Lemma pulled_blob_readable_witness :
  exists s' resps last msgs,
    svc_Write no_faults (fun _ => true) 7 (map RecvReq (blob_upload demo_hello)) demo_new = (s', resps ++ [last], Ok tt) /\
    a_Digest last = digest_of demo_hello /\
    svc_Read no_faults (fun _ => true) 9 (digest_of demo_hello) 0 0 s' = Some (msgs, Ok tt) /\
    concat (map snd msgs) = demo_hello.
Proof.
  apply (pulled_blob_readable 7 demo_hello demo_new 9 demo_new_inv).
  - reflexivity.
  - apply (bool_decide_eq_false_1 (tmp_elems (s_root demo_new) _ ∈ fs_dirs (s_fs demo_new))). vm_eq.
  - apply (bool_decide_eq_false_1 (blob_elems (s_root demo_new) demo_hello ∈ fs_dirs (s_fs demo_new))). vm_eq.
  - unfold in_int64. vm_compute. by split.
  - apply Nat.ltb_lt. reflexivity.
Defined.

(** ** A registry that answers and a daemon whose stream breaks *)

Definition demo_layer : bytes := bytes_of_string "layer".
Definition demo_manifest : Manifest := mkManifest (digest_of demo_hello) [digest_of demo_layer].

(** The registry of one public image, "registry-1.docker.io/library/demo". *)
Definition demo_registry (url : string) : option Response :=
  let ok b := Some (mkResponse 200 (fun _ => "") b true) in
  if String.eqb url (manifest_url hub "library/demo" "latest") then ok (bytes_of_string "manifest")
  else if String.eqb url (blob_url hub "library/demo" (digest_of demo_hello)) then ok demo_hello
  else if String.eqb url (blob_url hub "library/demo" (digest_of demo_layer)) then ok demo_layer
  else None.

(** [up]: whether sends on the content stream succeed. *)
Definition demo_world (up : bool) : World := {|
  answer := fun T _ c =>
    match c in Call T return T with
    | HttpDo r => demo_registry (r_url r)
    | StreamOpen => true
    | StreamSend _ => up
    | StreamRecv => if up then AnsResp else AnsErr
    | StreamClose => up
    | c => failing c
    end;
  url_ok := fun _ => true;
  json_manifest := fun _ _ => Some demo_manifest;
  json_token := fun _ => ("", false);
  conn_ok := true
|}.

(** Every send fails, and the pull succeeds. *)
Example Pull_ignores_failed_sends :
  (Pull (W := demo_world false) "demo" []).2 = Ok tt.
Proof. vm_compute. reflexivity. Qed.

Example Pull_registers :
  map im_Name (created (Pull (W := demo_world true) "demo" []).1) = ["demo"].
Proof. vm_compute. reflexivity. Qed.
