(* ===== verification/ContainerdImage.v ===== *)
(** * mini-containerd's images: mini-containerd/internal/image/image.go, service.go

    The image records with their gRPC service, and the daemon's own [Pull],
    which stores blobs in the content store and makes one snapshot of every
    layer. *)

From S2P Require Import Prelude.
From S2P Require Import GoStrings.
From S2P Require Import Sha256.
From S2P Require Import FileSystem.
From S2P Require Import Grpc.
From S2P Require Import Snapshot.
From S2P Require Import ContentStore.
From S2P Require Import RegistryRef.
From S2P Require Import World.
Open Scope go_scope.

(** ** The store *)

Inductive ImageErr : Type := ImageNotFound (name : string) | ImageExists (name : string).

(** The images by name. *)
Abbreviation Images := (gmap string Image).

Definition Get (name : string) (m : Images) : res ImageErr Image :=
  match m !! name with Some img => Ok img | None => Err (ImageNotFound name) end.

(** [ord]: the order of this loop over the map. *)
Definition List_images (ord : go_order) (m : Images) : list Image := go_range ord m.

Definition Create (now : Z) (img : Image) : GoM Images ImageErr Image := fun m =>
  match m !! im_Name img with
  | Some _ => (m, Err (ImageExists (im_Name img)))
  | None =>
      let img' := mkImage (im_Name img) (im_Labels img) (im_Target img) now now in
      (<[im_Name img := img']> m, Ok img')
  end.

Definition Delete (name : string) : GoM Images ImageErr unit := fun m =>
  match m !! name with
  | Some _ => (delete name m, Ok tt)
  | None => (m, Err (ImageNotFound name))
  end.

(** ** The service *)

(** [types.Descriptor] and [imagesv1.Image] have the same fields. *)
Definition descToProto (d : Descriptor) : Descriptor := mkDescriptor (d_MediaType d) (d_Digest d) (d_Size d).

Definition ToGRPC (img : Image) : Image :=
  mkImage (im_Name img) (im_Labels img) (descToProto (im_Target img)) (im_CreatedAt img) (im_UpdatedAt img).

(** The zero value of Go's [Descriptor]. *)
Definition no_target : Descriptor := mkDescriptor "" "" 0.

(** Only the name and the labels are taken over. *)
Definition fromGRPC (proto : Image) : Image := mkImage (im_Name proto) (im_Labels proto) no_target 0 0.

Abbreviation img_error := (rpc_error ImageErr).

Definition svc_Get (name : string) (m : Images) : res img_error Image :=
  res_bind (rpc_of NotFound (Get name m)) (fun img => Ok (ToGRPC img)).

(** The request's filters are not looked at. *)
Definition svc_List (ord : go_order) (filters : list string) (m : Images) : list Image := map ToGRPC (List_images ord m).

Definition svc_Create (now : Z) (req : option Image) : GoM Images img_error Image :=
  match req with
  | None => go_err (RpcStatus InvalidArgument None)
  | Some proto =>
      img <-! go_wrap (fun e => RpcStatus AlreadyExists (Some e)) (Create now (fromGRPC proto)) ;
      go_ret (ToGRPC img)
  end.

(** The labels of the request are merged into the record; a request without an
    image is a nil dereference. *)
Definition svc_Update (req : option Image) : GoM Images img_error Image := fun m =>
  match req with
  | None => (m, Panic)
  | Some proto =>
      match Get (im_Name proto) m with
      | Err e => (m, Err (RpcStatus NotFound (Some e)))
      | Panic => (m, Panic)
      | Ok existing =>
          match im_Labels proto with
          | None => (m, Ok (ToGRPC existing))
          | Some ls =>
              let existing' := mkImage (im_Name existing) (Some (gmap_copy ls (default ∅ (im_Labels existing))))
                (im_Target existing) (im_CreatedAt existing) (im_UpdatedAt existing) in
              (<[im_Name proto := existing']> m, Ok (ToGRPC existing'))
          end
      end
  end.

Definition svc_Delete (name : string) : GoM Images img_error unit :=
  go_wrap (fun e => RpcStatus NotFound (Some e)) (Delete name).

(** ** Pulling *)

Definition mt_manifest : string := "application/vnd.oci.image.manifest.v1+json".
Definition mt_index : string := "application/vnd.oci.image.index.v1+json".
Definition mt_docker : string := "application/vnd.docker.distribution.manifest.v2+json".
Definition mt_docker_list : string := "application/vnd.docker.distribution.manifest.list.v2+json".

(** [json.Unmarshal] into the OCI types, and [digest.Digest.Encoded], which
    panics without a separator. *)
Class Oci : Type := {
  oci_manifest : bytes -> option (Descriptor * list Descriptor);
  oci_index : bytes -> option (list Descriptor);
  digest_encoded : string -> option string
}.

(** The daemon's stores; [dm_hist] is the history of its HTTP client. *)
Record Daemon : Type := mkDaemon {
  dm_hist : list event;
  dm_images : Images;
  dm_content : Store;
  dm_snap : Snapshotter
}.

Definition net {A : Type} (m : Client A) : GoM Daemon error A := fun s =>
  let '(h, r) := m (dm_hist s) in (mkDaemon h (dm_images s) (dm_content s) (dm_snap s), r).

Definition in_content {A : Type} (m : GoM Store StoreErr A) : GoM Daemon error A := fun s =>
  let '(c, r) := m (dm_content s) in
  (mkDaemon (dm_hist s) (dm_images s) c (dm_snap s), res_wrap (fun _ => []) r).

Definition in_snap {A : Type} (ctx : error) (m : GoM Snapshotter SnapErr A) : GoM Daemon error A := fun s =>
  let '(n, r) := m (dm_snap s) in
  (mkDaemon (dm_hist s) (dm_images s) (dm_content s) n, res_wrap (fun _ => ctx) r).

(** [storeContent]: a digest of less than 19 bytes panics. *)
Definition storeContent (io : faults) (now : Z) (digest : string) (data : bytes) : GoM Store StoreErr unit :=
  d19 <-! go_lift (str_slice_to 19 digest) ;
  let ref := "upload-" +:+ d19 in
  _ <-! BeginUpload io now ref digest ;
  _ <-! WriteUpload io now ref 0 data ;
  CommitUpload io now ref (Z.of_nat (length data)).

(** [unpackLayer]: the layer's data is not looked at. *)
Definition unpackLayer (io : faults) (fuel : nat) (now : Z) (key parent : string) (data : bytes) :
    GoM Daemon error unit :=
  _ <-! in_snap ["prepare snapshot"] (Prepare io fuel now key parent) ;
  in_snap [] (Commit io now key key).

Section pull.
Context {W : World} {O : Oci} (io : faults) (fuel : nat) (now : Z).

(** [http.DefaultClient.Do(req)] where [req] is nil for a bad address. *)
Definition do_nil (url accept auth : string) : Client (option Response) :=
  if negb (url_ok url) then go_panic else do_call (HttpDo (mkRequest url accept auth)).

Definition manifest_accept : string := str_join ", " [mt_manifest; mt_docker; mt_index; mt_docker_list].

Definition fetchBearerToken (registry repo : string) : Client string :=
  resp <-! do_nil ("https://" +:+ registry +:+ "/v2/") "" "" ;
  match resp with
  | None => go_err []
  | Some p =>
      let authHeader := p_header p "Www-Authenticate" in
      if String.eqb authHeader "" then go_err ["no WWW-Authenticate header"]
      else
        let '(realm, service) := Containerd.parseAuthHeader authHeader in
        if String.eqb realm "" then go_err ["cannot parse auth header"]
        else
          resp2 <-! do_nil (realm +:+ "?service=" +:+ service +:+ "&scope=repository:" +:+ repo +:+ ":pull") "" "" ;
          match resp2 with
          | None => go_err []
          | Some p2 => let '(token, ok) := json_token p2 in
                       if (ok : bool) then go_ret token else go_err ["decode token response"]
          end
  end.

(** The body of a 200 answer, its digest and its content type. *)
Definition manifest_of (p : Response) : Client (bytes * string * string) :=
  if negb (p_status p =? 200)%Z then go_err ["fetch manifest"]
  else match read_all p with
       | Some body => go_ret (body, digest_of body, p_header p "Content-Type")
       | None => go_err []
       end.

Definition fetchManifest (registry repo tag : string) : Client (bytes * string * string) :=
  let url := "https://" +:+ registry +:+ "/v2/" +:+ repo +:+ "/manifests/" +:+ tag in
  if negb (url_ok url) then go_err []
  else
    resp <-! do_call (HttpDo (mkRequest url manifest_accept "")) ;
    match resp with
    | None => go_err ["GET"]
    | Some p =>
        if (p_status p =? 401)%Z then
          token <-! go_wrap (wrapf "auth required and token fetch failed") (fetchBearerToken registry repo) ;
          resp2 <-! do_call (HttpDo (mkRequest url manifest_accept ("Bearer " +:+ token))) ;
          match resp2 with
          | None => go_err []
          | Some p2 => if negb (p_status p2 =? 200)%Z then go_err ["fetch manifest after auth"] else manifest_of p2
          end
        else manifest_of p
    end.

(** No token is sent for a blob. *)
Definition fetchBlob (registry repo digest : string) : Client bytes :=
  let url := "https://" +:+ registry +:+ "/v2/" +:+ repo +:+ "/blobs/" +:+ digest in
  if negb (url_ok url) then go_err []
  else
    let finish (p : Response) : Client bytes :=
      if negb (p_status p =? 200)%Z then go_err ["fetch blob"]
      else match read_all p with Some b => go_ret b | None => go_err [] end in
    resp <-! do_call (HttpDo (mkRequest url "" "")) ;
    match resp with
    | None => go_err ["GET"]
    | Some p =>
        let location := p_header p "Location" in
        if ((p_status p =? 307) || (p_status p =? 302))%Z && negb (String.eqb location "") then
          resp2 <-! do_nil location "" "" ;
          match resp2 with None => go_err [] | Some p2 => finish p2 end
        else finish p
    end.

Definition parseOCIManifest (data : bytes) : res error (Descriptor * list Descriptor) :=
  match oci_manifest data with Some m => Ok m | None => Err [] end.

Definition parseDockerManifest (data : bytes) : res error (Descriptor * list Descriptor) := parseOCIManifest data.

(** An index never gives a manifest. *)
Definition parseImageIndex (data : bytes) : res error (Descriptor * list Descriptor) :=
  match oci_index data with
  | None => Err []
  | Some [] => Err ["empty image index"]
  | Some (_ :: _) => Err ["image index requires manifest resolution (not yet implemented)"]
  end.

Definition parseManifest (data : bytes) (mediaType : string) : res error (Descriptor * list Descriptor) :=
  if String.eqb mediaType mt_manifest then parseOCIManifest data
  else if String.eqb mediaType mt_docker then parseDockerManifest data
  else if String.eqb mediaType mt_index || String.eqb mediaType mt_docker_list then parseImageIndex data
  else Err ["unsupported manifest type"].

(** The snapshot of a layer: "layer-" and 12 digits of its digest. *)
Definition snap_key (digest : string) : res error string :=
  match digest_encoded digest with
  | None => Panic
  | Some e => res_bind (str_slice_to 12 e) (fun e12 => Ok ("layer-" +:+ e12))
  end.

Definition pull_layer (registry repo chainID : string) (layer : Descriptor) : GoM Daemon error string :=
  let d := d_Digest layer in
  layerData <-! go_wrap (wrapf "fetch layer") (net (fetchBlob registry repo d)) ;
  go_wrap (wrapf "store layer") (in_content (storeContent io now d layerData)) ;;!
  snapKey <-! go_lift (snap_key d) ;
  go_wrap (wrapf "unpack layer") (unpackLayer io fuel now snapKey chainID layerData) ;;!
  go_ret snapKey.

Fixpoint pull_layers (registry repo chainID : string) (layers : list Descriptor) : GoM Daemon error string :=
  match layers with
  | [] => go_ret chainID
  | l :: ls => snapKey <-! pull_layer registry repo chainID l ; pull_layers registry repo snapKey ls
  end.

(** From step 4 on: the blobs, the snapshots and the record. *)
Definition pull_parsed (ref registry repo : string) (body : bytes) (digest mediaType : string)
    (config : Descriptor) (layers : list Descriptor) : GoM Daemon error Image :=
  configData <-! go_wrap (wrapf "fetch config") (net (fetchBlob registry repo (d_Digest config))) ;
  go_wrap (wrapf "store config") (in_content (storeContent io now (d_Digest config) configData)) ;;!
  _ <-! pull_layers registry repo "" layers ;
  let img := mkImage ref (Some {["containerd.io/unpacked" := "true"]})
               (mkDescriptor mediaType digest (Z.of_nat (length body))) now now in
  fun s => (mkDaemon (dm_hist s) (<[ref := img]> (dm_images s)) (dm_content s) (dm_snap s), Ok img).

Definition Pull (ref : string) : GoM Daemon error Image :=
  let '(registry, repo, tag) := Containerd.parseRef ref in
  mf <-! go_wrap (wrapf "fetch manifest") (net (fetchManifest registry repo tag)) ;
  let '(body, digest, mediaType) := mf in
  parsed <-! go_wrap (wrapf "parse manifest") (go_lift (parseManifest body mediaType)) ;
  let '(config, layers) := parsed in
  pull_parsed ref registry repo body digest mediaType config layers.

End pull.

(** ** Lemmas: the monad *)

Lemma go_bind_Ok {S E A B : Type} (m : GoM S E A) (k : A -> GoM S E B) (s s' : S) (b : B) :
  go_bind m k s = (s', Ok b) -> exists s1 a, m s = (s1, Ok a) /\ k a s1 = (s', Ok b).
Proof. unfold go_bind. destruct (m s) as [s1 [a|e|]]; [|done..]. eauto. Qed.

Lemma go_wrap_Ok {S E F A : Type} (f : E -> F) (m : GoM S E A) (s s' : S) (a : A) :
  go_wrap f m s = (s', Ok a) -> m s = (s', Ok a).
Proof. unfold go_wrap. destruct (m s) as [s1 [b|e|]]; cbn; congruence. Qed.

Lemma net_Ok {A : Type} (m : Client A) (s s' : Daemon) (a : A) :
  net m s = (s', Ok a) ->
  dm_images s' = dm_images s /\ dm_content s' = dm_content s /\ dm_snap s' = dm_snap s.
Proof. unfold net. destruct (m (dm_hist s)) as [h r]. intros [= <- _]. done. Qed.

Lemma in_content_Ok {A : Type} (m : GoM Store StoreErr A) (s s' : Daemon) (a : A) :
  in_content m s = (s', Ok a) ->
  m (dm_content s) = (dm_content s', Ok a) /\ dm_images s' = dm_images s /\ dm_snap s' = dm_snap s.
Proof. unfold in_content. destruct (m (dm_content s)) as [c [b|e|]]; intros [= <- <-]. done. Qed.

Lemma in_snap_Ok {A : Type} (ctx : error) (m : GoM Snapshotter SnapErr A) (s s' : Daemon) (a : A) :
  in_snap ctx m s = (s', Ok a) ->
  m (dm_snap s) = (dm_snap s', Ok a) /\ dm_images s' = dm_images s /\ dm_content s' = dm_content s.
Proof. unfold in_snap. destruct (m (dm_snap s)) as [c [b|e|]]; intros [= <- <-]. done. Qed.

(** Takes a successful run apart. *)
Ltac go_run H :=
  repeat match type of H with
  | go_bind _ _ _ = (_, Ok _) =>
      let s := fresh "s" in let a := fresh "a" in let H1 := fresh "Hrun" in
      apply go_bind_Ok in H as (s & a & H1 & H);
      repeat first [apply go_wrap_Ok in H1]
  | go_wrap _ _ _ = (_, Ok _) => apply go_wrap_Ok in H
  end.

(** ** Lemmas: storing a blob *)

Definition upload_ref (d : string) : string := "upload-" +:+ str_take 19 d.

Definition committed (s : Store) (ref : string) : Prop :=
  exists us, s_uploads s !! ref = Some us /\ us_Committed us = true.

(** No upload is under way. *)
Definition all_committed (s : Store) : Prop :=
  forall ref us, s_uploads s !! ref = Some us -> us_Committed us = true.

Definition has_blob (s : Store) (d : string) : Prop := is_Some (s_blobs s !! d).

Lemma storeContent_Ok (io : faults) (now : Z) (d : string) (data : bytes) (s s' : Store) :
  storeContent io now d data s = (s', Ok tt) ->
  exists s1 us1 s2 us2,
    BeginUpload io now (upload_ref d) d s = (s1, Ok us1) /\
    WriteUpload io now (upload_ref d) 0 data s1 = (s2, Ok us2) /\
    CommitUpload io now (upload_ref d) (Z.of_nat (length data)) s2 = (s', Ok tt) /\ 19 <= String.length d.
Proof.
  unfold storeContent. intros H. go_run H.
  unfold go_lift, str_slice_to in Hrun. destruct (19 <=? String.length d) eqn:Hl; [|done].
  apply Nat.leb_le in Hl. injection Hrun as <- <-. unfold upload_ref. by eauto 10.
Qed.

Lemma BeginUpload_Ok (io : faults) (now : Z) (ref expected : string) (s s' : Store) (us : uploadState) :
  ref <> "" -> BeginUpload io now ref expected s = (s', Ok us) ->
  s_blobs s' = s_blobs s /\ us_Committed us = false /\ s_uploads s' = <[ref := us]> (s_uploads s) /\
  (s_uploads s !! ref = Some us \/
   (s_uploads s !! ref = None /\ us_Expected us = expected /\ us_Offset us = 0%Z /\ us_hasher us = [] /\ us_torn us = false)).
Proof.
  intros Hr%String.eqb_neq. unfold BeginUpload. rewrite Hr. intros H.
  destruct (s_uploads s !! ref) as [ex|] eqn:Hex.
  - destruct (us_Committed ex) eqn:Hc; simplify_eq/=. split_and!; [done|done|by rewrite insert_id|by left].
  - destruct (os_mkdir_all _ _ _) as [f1|]; [|done]. destruct (os_create _ _ _) as [[h f2]|] eqn:Hcr; [|done].
    apply os_create_spec in Hcr as (_ & Hp & _). simplify_eq/=. split_and!; [done|done|done|right].
    split_and!; try done. apply us_torn_spec. cbn. by rewrite Hp.
Qed.

Lemma WriteUpload_Ok (io : faults) (now : Z) (ref : string) (offset : Z) (data : bytes) (s s' : Store)
    (us us' : uploadState) :
  s_uploads s !! ref = Some us -> WriteUpload io now ref offset data s = (s', Ok us') ->
  s_blobs s' = s_blobs s /\ us_Committed us' = us_Committed us /\ us_Expected us' = us_Expected us /\
  us_hasher us' = (if (us_Offset us =? offset)%Z then us_hasher us ++ data else data) /\
  s_uploads s' = <[ref := us']> (s_uploads s).
Proof.
  intros Hus. unfold WriteUpload. rewrite Hus.
  destruct (us_Offset us =? offset)%Z; cbn [negb].
  - destruct (os_write _ _ _ _) as [[h f] []]; intros H; simplify_eq/=. done.
  - destruct (os_seek _ _ _) as [h0|]; [|done]. destruct (os_write _ _ _ _) as [[h f] []]; intros H; simplify_eq/=.
    by rewrite insert_insert_eq.
Qed.

Lemma CommitUpload_Ok (io : faults) (now : Z) (ref : string) (total : Z) (s s' : Store) (us : uploadState) :
  s_uploads s !! ref = Some us -> CommitUpload io now ref total s = (s', Ok tt) ->
  (us_Expected us = "" \/ us_Expected us = digest_of (us_hasher us)) /\
  (exists info, s_blobs s' = <[digest_of (us_hasher us) := info]> (s_blobs s)) /\
  exists us', s_uploads s' = <[ref := us']> (s_uploads s) /\ us_Committed us' = true.
Proof.
  intros Hus. unfold CommitUpload. rewrite Hus. set (d := digest_of (us_hasher us)).
  destruct ((0 <? total)%Z && _); [done|].
  destruct (negb (String.eqb (us_Expected us) "") && _) eqn:Hexp; [done|].
  destruct (blobPath (s_root s) d) as [destPath|e|]; [|done|done]. unfold commit_move.
  destruct (os_mkdir_all _ _ _) as [f1|]; [|done]. destruct (os_close _ _) as [h []]; [|done]. cbn [negb].
  destruct (os_rename _ _ _ _) as [f2|]; [|done]. intros H. injection H as <-. split_and!.
  - apply andb_false_iff in Hexp as [H|H]; apply negb_false_iff, String.eqb_eq in H; auto.
  - by eexists.
  - by eexists.
Qed.

(** What a stored blob leaves in the content store. *)
Record stored (d : string) (data : bytes) (s s' : Store) : Prop := {
  st_committed : committed s' (upload_ref d);
  st_keeps : forall ref, committed s ref -> committed s' ref;
  st_blobs : forall d0, has_blob s d0 -> has_blob s' d0;
  st_fresh : ~ committed s (upload_ref d);
  st_all : all_committed s -> all_committed s' /\ d = digest_of data /\ has_blob s' d
}.

Lemma storeContent_stored (io : faults) (now : Z) (d : string) (data : bytes) (s s' : Store) :
  storeContent io now d data s = (s', Ok tt) -> stored d data s s'.
Proof.
  intros H. apply storeContent_Ok in H as (s1 & us1 & s2 & us2 & Hb & Hw & Hc & Hlen).
  apply BeginUpload_Ok in Hb as (Hbl1 & Hcm1 & Hu1 & Hcase); [|done].
  assert (Hl1 : s_uploads s1 !! upload_ref d = Some us1) by by rewrite Hu1, lookup_insert_eq.
  destruct (WriteUpload_Ok _ _ _ _ _ _ _ _ _ Hl1 Hw) as (Hbl2 & Hcm2 & He2 & Hh2 & Hu2).
  assert (Hl2 : s_uploads s2 !! upload_ref d = Some us2) by by rewrite Hu2, lookup_insert_eq.
  destruct (CommitUpload_Ok _ _ _ _ _ _ _ Hl2 Hc) as (Hexp & [info Hbl3] & us3 & Hu3 & Hcm3).
  assert (Hup : s_uploads s' = <[upload_ref d := us3]> (s_uploads s)).
  { by rewrite Hu3, Hu2, Hu1, !insert_insert_eq. }
  assert (Hbl : s_blobs s' = <[digest_of (us_hasher us2) := info]> (s_blobs s)) by by rewrite Hbl3, Hbl2, Hbl1.
  assert (Hne : ~ committed s (upload_ref d)).
  { intros (us & Hus & Hcmt). destruct Hcase as [Hx|(Hx & _)]; congruence. }
  split.
  - exists us3. by rewrite Hup, lookup_insert_eq.
  - intros ref (us & Hus & Hcmt). destruct (decide (ref = upload_ref d)) as [->|Hn].
    + exists us3. by rewrite Hup, lookup_insert_eq.
    + exists us. by rewrite Hup, lookup_insert_ne by done.
  - intros d0 H0. unfold has_blob. rewrite Hbl. destruct (decide (digest_of (us_hasher us2) = d0)) as [->|Hn].
    + by rewrite lookup_insert_eq.
    + by rewrite lookup_insert_ne.
  - exact Hne.
  - intros Hall. destruct Hcase as [Hx|(Hx & Hex & Hoff & Hha & _)].
    { exfalso. apply Hne. exists us1. split; [done|]. by apply (Hall (upload_ref d)). }
    rewrite Hoff, Hha in Hh2. cbn in Hh2. rewrite He2, Hex, Hh2 in Hexp.
    assert (Hd : d = digest_of data) by (destruct Hexp as [->|?]; [cbn in Hlen; lia|done]).
    split_and!; [|exact Hd|].
    + intros ref us. rewrite Hup. intros [[<- <-]|[Hn Hus]]%lookup_insert_Some; [done|]. by apply (Hall ref).
    + unfold has_blob. rewrite Hbl, Hh2, <- Hd. by rewrite lookup_insert_eq.
Qed.

(** What storing the blobs [ds], one after the other, leaves. *)
Record stores (ds : list string) (s s' : Store) : Prop := {
  ss_committed : forall d, d ∈ ds -> committed s' (upload_ref d);
  ss_keeps : forall ref, committed s ref -> committed s' ref;
  ss_blobs : forall d, has_blob s d -> has_blob s' d;
  ss_fresh : forall d, d ∈ ds -> ~ committed s (upload_ref d);
  ss_all : all_committed s -> all_committed s' /\ forall d, d ∈ ds -> has_blob s' d
}.

Lemma stores_nil (s : Store) : stores [] s s.
Proof. split; auto; try (intros d Hd; by apply not_elem_of_nil in Hd). intros H. split; [done|].
  intros d Hd. by apply not_elem_of_nil in Hd. Qed.

Lemma stores_cons (d : string) (data : bytes) (ds : list string) (s s1 s' : Store) :
  stored d data s s1 -> stores ds s1 s' -> stores (d :: ds) s s'.
Proof.
  intros [C1 K1 B1 F1 A1] [C2 K2 B2 F2 A2]. split.
  - intros x [->|Hx]%elem_of_cons; auto.
  - auto.
  - auto.
  - intros x [->|Hx]%elem_of_cons; [done|]. intros Hc. by apply (F2 x Hx), K1.
  - intros H. destruct (A1 H) as (H1 & _ & Hd). destruct (A2 H1) as [H2 Hds]. split; [done|].
    intros x [->|Hx]%elem_of_cons; auto.
Qed.

(** ** Lemmas: unpacking a layer *)

Lemma unpackLayer_Ok (io : faults) (fuel : nat) (now : Z) (key parent : string) (data : bytes) (s s' : Daemon) :
  unpackLayer io fuel now key parent data s = (s', Ok tt) ->
  sn_snapshots (dm_snap s) !! key = None /\
  (exists i, sn_snapshots (dm_snap s') = <[key := i]> (sn_snapshots (dm_snap s)) /\
     si_Parent i = parent /\ si_Kind i = KindCommitted) /\
  dm_images s' = dm_images s /\ dm_content s' = dm_content s.
Proof.
  unfold unpackLayer. intros H. go_run H.
  apply in_snap_Ok in Hrun as (Hp & Him1 & Hct1). apply in_snap_Ok in H as (Hc & Him2 & Hct2).
  rewrite Prepare_eq in Hp. destruct (if String.eqb parent "" then _ else _) as [[]|e|]; [|done|done].
  destruct (check_absent _ key) as [[]|e|] eqn:Habs; [|done|done]. apply check_absent_ok in Habs.
  pose proof (make_dirs_frame io [getSnapFSPath (dm_snap s) key; path_join [getSnapDir (dm_snap s) key; "work"]] (dm_snap s)) as Hmk.
  destruct (make_dirs _ _ _) as [n1 r]. destruct Hmk as (f & -> & _). destruct r as [[]|e|]; [|done|done].
  cbv zeta in Hp. injection Hp as Hs0 _. unfold Commit in Hc. rewrite <- Hs0 in Hc. cbn in Hc.
  rewrite lookup_insert_eq in Hc. cbn in Hc. rewrite String.eqb_refl in Hc.
  injection Hc as Hs'. rewrite <- Hs'. cbn. rewrite insert_insert_eq.
  split_and!; [done| |congruence|congruence]. by eexists.
Qed.

(** The snapshots of the layers, each on the one before. *)
Fixpoint layer_chain {O : Oci} (m : gmap string SnapshotInfo) (parent : string) (layers : list Descriptor) : Prop :=
  match layers with
  | [] => True
  | l :: ls =>
      exists key i, snap_key (d_Digest l) = Ok key /\ m !! key = Some i /\
        si_Parent i = parent /\ si_Kind i = KindCommitted /\ layer_chain m key ls
  end.

Lemma layer_chain_mono {O : Oci} (m m' : gmap string SnapshotInfo) (parent : string) (layers : list Descriptor) :
  m ⊆ m' -> layer_chain m parent layers -> layer_chain m' parent layers.
Proof.
  intros Hsub. revert parent. induction layers as [|l ls IH]; intros parent; [done|].
  intros (key & i & Hk & Hi & Hp & Hkind & Hc). exists key, i. split_and!; auto.
  by apply (lookup_weaken m).
Qed.

Section pull_lemmas.
Context {W : World} {O : Oci} (io : faults) (fuel : nat) (now : Z).

Lemma pull_layer_Ok (registry repo chainID : string) (layer : Descriptor) (s s' : Daemon) (key : string) :
  pull_layer io fuel now registry repo chainID layer s = (s', Ok key) ->
  snap_key (d_Digest layer) = Ok key /\ sn_snapshots (dm_snap s) !! key = None /\
  (exists i, sn_snapshots (dm_snap s') = <[key := i]> (sn_snapshots (dm_snap s)) /\
     si_Parent i = chainID /\ si_Kind i = KindCommitted) /\
  (exists data, stored (d_Digest layer) data (dm_content s) (dm_content s')) /\
  dm_images s' = dm_images s.
Proof.
  unfold pull_layer. intros H. go_run H.
  apply net_Ok in Hrun as (Him1 & Hct1 & Hsn1). destruct a0. apply in_content_Ok in Hrun0 as (Hst & Him2 & Hsn2).
  apply storeContent_stored in Hst. unfold go_lift in Hrun1. injection Hrun1 as -> Hk.
  destruct a2. apply unpackLayer_Ok in Hrun2 as (Habs & Hi & Him3 & Hct3).
  unfold go_ret in H. injection H as -> ->.
  rewrite Hct3, Him3, Him2, <- Him1, <- Hct1, <- Hsn1, <- Hsn2. eauto 8.
Qed.

Lemma pull_layers_Ok (registry repo chainID : string) (layers : list Descriptor) (s s' : Daemon) (key : string) :
  pull_layers io fuel now registry repo chainID layers s = (s', Ok key) ->
  sn_snapshots (dm_snap s) ⊆ sn_snapshots (dm_snap s') /\
  layer_chain (sn_snapshots (dm_snap s')) chainID layers /\
  stores (map d_Digest layers) (dm_content s) (dm_content s') /\
  dm_images s' = dm_images s.
Proof.
  revert chainID s. induction layers as [|l ls IH]; intros chainID s H; cbn [pull_layers] in H.
  - unfold go_ret in H. injection H as <- _. split_and!; [done|done|apply stores_nil|done].
  - go_run H. apply pull_layer_Ok in Hrun as (Hk & Habs & (i & Hi & Hp & Hkind) & (data & Hst) & Him).
    apply IH in H as (Hsub & Hch & Hss & Him').
    assert (Hsub1 : sn_snapshots (dm_snap s) ⊆ sn_snapshots (dm_snap s0)).
    { rewrite Hi. by apply insert_subseteq. }
    split_and!; [by etrans| |by eapply stores_cons|congruence].
    exists a, i. split_and!; try done. apply (lookup_weaken _ _ _ _ (eq_trans (f_equal (lookup a) Hi) (lookup_insert_eq _ _ _)) Hsub).
Qed.

Lemma pull_parsed_Ok (ref registry repo : string) (body : bytes) (digest mediaType : string)
    (config : Descriptor) (layers : list Descriptor) (s s' : Daemon) (img : Image) :
  pull_parsed io fuel now ref registry repo body digest mediaType config layers s = (s', Ok img) ->
  stores (d_Digest config :: map d_Digest layers) (dm_content s) (dm_content s') /\
  sn_snapshots (dm_snap s) ⊆ sn_snapshots (dm_snap s') /\
  layer_chain (sn_snapshots (dm_snap s')) "" layers /\
  dm_images s' = <[ref := img]> (dm_images s) /\
  im_Target img = mkDescriptor mediaType digest (Z.of_nat (length body)).
Proof.
  unfold pull_parsed. intros H. go_run H.
  apply net_Ok in Hrun as (Him1 & Hct1 & Hsn1). destruct a0. apply in_content_Ok in Hrun0 as (Hst & Him2 & Hsn2).
  apply storeContent_stored in Hst. apply pull_layers_Ok in Hrun1 as (Hsub & Hch & Hss & Him3).
  cbv zeta in H. injection H as <- <-. cbn. rewrite Him3, Him2, Him1, <- Hct1, <- Hsn1, <- Hsn2.
  split_and!; try done. by eapply stores_cons.
Qed.

End pull_lemmas.

Lemma fetchManifest_digest {W : World} (registry repo tag : string) (s s' : Daemon)
    (body : bytes) (digest mediaType : string) :
  net (fetchManifest registry repo tag) s = (s', Ok (body, digest, mediaType)) -> digest = digest_of body.
Proof.
  unfold net. destruct (fetchManifest _ _ _ _) as [h r] eqn:Hf. intros [= _ ->].
  assert (Hm : forall p h1 h2, manifest_of p h1 = (h2, Ok (body, digest, mediaType)) -> digest = digest_of body).
  { intros p h1 h2. unfold manifest_of. destruct (negb _); [done|]. destruct (read_all p); [|done].
    unfold go_ret. congruence. }
  unfold fetchManifest in Hf. cbv zeta in Hf. destruct (negb _); [done|]. go_run Hf.
  destruct a as [p|]; [|done]. destruct (p_status p =? 401)%Z; [|by eapply Hm]. go_run Hf.
  destruct a0 as [p2|]; [|done]. destruct (negb _); [done|]. by eapply Hm.
Qed.

(** ** Properties *)

(** C28: a pull of the daemon that succeeds has recorded the image under the
    reference, with the digest of the manifest it parsed; each layer of the
    manifest is a committed snapshot whose parent is the layer before (none for
    the first); and when no upload was under way, the config and every layer
    are in the content store. *)
Theorem containerd_Pull_spec {W : World} {O : Oci} (io : faults) (fuel : nat) (now : Z) (ref : string)
    (s s' : Daemon) (img : Image) :
  Pull io fuel now ref s = (s', Ok img) ->
  exists body mediaType config layers,
    parseManifest body mediaType = Ok (config, layers) /\
    im_Target img = mkDescriptor mediaType (digest_of body) (Z.of_nat (length body)) /\
    dm_images s' = <[ref := img]> (dm_images s) /\
    sn_snapshots (dm_snap s) ⊆ sn_snapshots (dm_snap s') /\
    layer_chain (sn_snapshots (dm_snap s')) "" layers /\
    (all_committed (dm_content s) ->
     forall d, d ∈ d_Digest config :: map d_Digest layers -> has_blob (dm_content s') d).
Proof.
  unfold Pull. destruct (Containerd.parseRef ref) as [[registry repo] tag]. intros H.
  apply go_bind_Ok in H as (s1 & [[body digest] mediaType] & Hf & H). apply go_wrap_Ok in Hf.
  pose proof (fetchManifest_digest _ _ _ _ _ _ _ _ Hf) as ->. apply net_Ok in Hf as (Him & Hct & Hsn).
  apply go_bind_Ok in H as (s2 & [config layers] & Hp & H). apply go_wrap_Ok in Hp.
  unfold go_lift in Hp. injection Hp as -> Hp.
  apply pull_parsed_Ok in H as (Hss & Hsub & Hch & Him' & Ht). rewrite Him, Hsn, Hct in *.
  exists body, mediaType, config, layers. split_and!; try done. intros Hall. by apply (ss_all _ _ _ Hss).
Qed.

(** images that share a blob cannot both be pulled.  After a pull that
    stored a blob, a pull of a manifest that has the same blob, the same image
    included, never succeeds, whatever the network and the disk do and whatever
    happened in between, since a committed upload stays in the store and the
    upload's reference is made of the digest. *)
Theorem shared_blob_unpullable {W1 W2 : World} {O : Oci} (io1 io2 : faults) (fuel1 fuel2 : nat) (t1 t2 : Z)
    (ref1 reg1 repo1 ref2 reg2 repo2 : string) (body1 body2 : bytes) (dig1 mt1 dig2 mt2 : string)
    (config1 config2 : Descriptor) (layers1 layers2 : list Descriptor) (s s1 s2 : Daemon) (img : Image) (d : string) :
  pull_parsed (W := W1) io1 fuel1 t1 ref1 reg1 repo1 body1 dig1 mt1 config1 layers1 s = (s1, Ok img) ->
  d ∈ d_Digest config1 :: map d_Digest layers1 -> d ∈ d_Digest config2 :: map d_Digest layers2 ->
  (forall ref, committed (dm_content s1) ref -> committed (dm_content s2) ref) ->
  forall s3 img', pull_parsed (W := W2) io2 fuel2 t2 ref2 reg2 repo2 body2 dig2 mt2 config2 layers2 s2 <> (s3, Ok img').
Proof.
  intros H1 Hd1 Hd2 Hk s3 img' H2. apply pull_parsed_Ok in H1 as (Hss1 & _). apply pull_parsed_Ok in H2 as (Hss2 & _).
  apply (ss_fresh _ _ _ Hss2 d Hd2), Hk, (ss_committed _ _ _ Hss1 d Hd1).
Qed.

(** what creating an image over gRPC records.  A fresh name gets a record
    with the request's name and labels and the time, but with no target: the
    digest, the size and the media type of the request are dropped, so nothing
    read back afterwards can name the image's manifest.  A taken name is
    refused and changes nothing. *)
Theorem Create_drops_target (now : Z) (p : Image) (m : Images) :
  match m !! im_Name p with
  | Some _ => exists e, svc_Create now (Some p) m = (m, Err (RpcStatus AlreadyExists (Some e)))
  | None =>
      let img := mkImage (im_Name p) (im_Labels p) no_target now now in
      svc_Create now (Some p) m = (<[im_Name p := img]> m, Ok img) /\
      svc_Get (im_Name p) (<[im_Name p := img]> m) = Ok img /\
      forall name, name <> im_Name p -> svc_Get name (<[im_Name p := img]> m) = svc_Get name m
  end.
Proof.
  unfold svc_Create, go_bind, go_wrap, Create, fromGRPC. cbn.
  destruct (m !! im_Name p) as [img|]; cbn; [by eexists|]. split_and!; [done| |].
  - unfold svc_Get, Get. by rewrite lookup_insert_eq.
  - intros name Hn. unfold svc_Get, Get. by rewrite lookup_insert_ne.
Qed.

(** ** Witnesses *)

Definition demo_config : bytes := bytes_of_string "config".
Definition demo_layer1 : bytes := bytes_of_string "layer 1".
Definition demo_layer2 : bytes := bytes_of_string "layer 2".

Definition demo_desc (b : bytes) : Descriptor := mkDescriptor "" (digest_of b) (Z.of_nat (length b)).

Definition demo_answer (url : string) : option Response :=
  let ok b := Some (mkResponse 200 (fun _ => mt_manifest) b true) in
  if has_suffix url "/manifests/latest" then ok (bytes_of_string "manifest")
  else if has_suffix url (digest_of demo_config) then ok demo_config
  else if has_suffix url (digest_of demo_layer1) then ok demo_layer1
  else if has_suffix url (digest_of demo_layer2) then ok demo_layer2
  else None.

Definition demo_hub : World := {|
  answer := fun T _ c => match c in Call T return T with HttpDo r => demo_answer (r_url r) | c => failing c end;
  url_ok := fun _ => true;
  json_manifest := fun _ _ => None;
  json_token := fun _ => ("", false);
  conn_ok := true
|}.

Definition demo_oci : Oci := {|
  oci_manifest := fun _ => Some (demo_desc demo_config, [demo_desc demo_layer1; demo_desc demo_layer2]);
  oci_index := fun _ => None;
  digest_encoded := fun d => match str_index ch_colon d with Some i => Some (str_drop (S i) d) | None => None end
|}.

Definition demo_dm : Daemon := mkDaemon [] ∅ demo_new demo_snap0.

Definition demo_pull : Daemon * res error Image := Pull (W := demo_hub) (O := demo_oci) no_faults 9 7 "demo" demo_dm.

Example demo_pull_ok : (match demo_pull.2 with Ok img => im_Name img | _ => "" end) = "demo".
Proof. vm_compute. reflexivity. Qed.

Lemma containerd_Pull_spec_witness :
  exists s' img body mediaType config layers,
    demo_pull = (s', Ok img) /\ parseManifest (O := demo_oci) body mediaType = Ok (config, layers) /\
    layer_chain (O := demo_oci) (sn_snapshots (dm_snap s')) "" layers /\
    forall d, d ∈ d_Digest config :: map d_Digest layers -> has_blob (dm_content s') d.
Proof.
  assert (Hok : match demo_pull.2 with Ok _ => True | _ => False end) by by vm_compute.
  destruct demo_pull as [s' [img|e|]] eqn:Hp; [|exfalso; exact Hok|exfalso; exact Hok]. exists s', img.
  destruct (containerd_Pull_spec (W := demo_hub) (O := demo_oci) no_faults 9 7 "demo" demo_dm s' img Hp)
    as (body & mt & config & layers & H1 & _ & _ & _ & H2 & H3).
  exists body, mt, config, layers. split; [reflexivity|split; [exact H1|split; [exact H2|]]]. apply H3.
  intros r us Hr. assert (He : s_uploads (dm_content demo_dm) = ∅) by by vm_compute.
  by rewrite He, lookup_empty in Hr.
Defined.

Definition demo_parsed (s : Daemon) : Daemon * res error Image :=
  pull_parsed (W := demo_hub) (O := demo_oci) no_faults 9 7 "demo" "r" "demo" [] "" mt_manifest
    (demo_desc demo_config) [demo_desc demo_layer1] s.

Lemma shared_blob_unpullable_witness :
  exists s1 img, demo_parsed demo_dm = (s1, Ok img) /\
    forall s3 img', demo_parsed s1 <> (s3, Ok img').
Proof.
  assert (Hok : match (demo_parsed demo_dm).2 with Ok _ => True | _ => False end) by by vm_compute.
  destruct (demo_parsed demo_dm) as [s1 [img|e|]] eqn:Hp; [|exfalso; exact Hok|exfalso; exact Hok].
  exists s1, img. split; [reflexivity|].
  refine (shared_blob_unpullable (W1 := demo_hub) (W2 := demo_hub) (O := demo_oci) no_faults no_faults 9 9 7 7
    "demo" "r" "demo" "demo" "r" "demo" [] [] "" mt_manifest "" mt_manifest _ _ _ _ demo_dm s1 s1 img
    (digest_of demo_config) Hp _ _ _); [apply list_elem_of_here|apply list_elem_of_here|intros r Hr; exact Hr].
Defined.
