(* ===== verification/ImageThreads.v ===== *)
(** * Image requests as threads: mini-containerd/internal/image/service.go, image.go

    The image store runs its operations under its lock, but [Update] writes the
    labels of the record it got outside of it, and every answer is encoded, by
    ranging over the labels, after the handler has returned.  Here a request is a
    program of the sections of the lock and of the accesses to records and label
    maps that follow.  A Go map keeps a flag while it is written: the runtime ends
    the process, which no handler can prevent, when a write or a range finds the
    flag set.

    A request that nothing interferes with does what its handler in
    [ContainerdImage] does; two updates of one image can end the daemon. *)

From S2P Require Import Prelude.
From S2P Require Import Grpc.
From S2P Require Import GoThreads.
From S2P Require Import World.
From S2P Require Import ContainerdImage.
From Stdlib Require Import FunctionalExtensionality.
Open Scope go_scope.

(** ** The memory *)

(** An image record; its labels are a pointer to a map, or nil. *)
Record irecord : Type := mkRec { ir_image : Image; ir_labels : option nat }.

(** A map, with the flag of a write under way. *)
Record gomap : Type := mkMap { gm_entries : gmap string string; gm_writing : bool }.

Record imem : Type := mkIMem {
  ix_images : gmap string nat;
  ix_recs : nat -> irecord;
  ix_rnext : nat;
  ix_maps : nat -> gomap;
  ix_mnext : nat;
  ix_fatal : bool          (* the runtime has ended the process *)
}.

Definition with_images (x : gmap string nat) (m : imem) : imem :=
  mkIMem x (ix_recs m) (ix_rnext m) (ix_maps m) (ix_mnext m) (ix_fatal m).
Definition with_recs (x : nat -> irecord) (n : nat) (m : imem) : imem :=
  mkIMem (ix_images m) x n (ix_maps m) (ix_mnext m) (ix_fatal m).
Definition with_maps (x : nat -> gomap) (n : nat) (m : imem) : imem :=
  mkIMem (ix_images m) (ix_recs m) (ix_rnext m) x n (ix_fatal m).
Definition with_fatal (b : bool) (m : imem) : imem :=
  mkIMem (ix_images m) (ix_recs m) (ix_rnext m) (ix_maps m) (ix_mnext m) b.

(** ** Accesses *)

Inductive iaccess : Type -> Type :=
| LkGet (name : string) : iaccess (option nat)
| LkList (ord : go_order) : iaccess (list nat)
| LkCreate (now : Z) (img : Image) (labels : option nat) : iaccess (option nat)
| LkDelete (name : string) : iaccess bool
| RdRec (l : nat) : iaccess irecord
| WrLabels (l mp : nat) : iaccess unit
| NewMap (entries : gmap string string) : iaccess nat
| BeginWrite (mp : nat) : iaccess unit
| EndWrite (mp : nat) (k v : string) : iaccess unit
| RangeMap (mp : nat) : iaccess (gmap string string).

Definition i_access (X : Type) (e : iaccess X) (m : imem) : imem * X :=
  match e in iaccess T return imem * T with
  | LkGet name => (m, ix_images m !! name)
  | LkList ord => (m, go_range ord (ix_images m))
  | LkCreate now img labels =>
      match ix_images m !! im_Name img with
      | Some _ => (m, None)
      | None =>
          let l := ix_rnext m in
          let r := mkRec (mkImage (im_Name img) None (im_Target img) now now) labels in
          (with_images (<[im_Name img := l]> (ix_images m)) (with_recs (<[l := r]> (ix_recs m)) (S l) m), Some l)
      end
  | LkDelete name =>
      match ix_images m !! name with
      | Some _ => (with_images (delete name (ix_images m)) m, true)
      | None => (m, false)
      end
  | RdRec l => (m, ix_recs m l)
  | WrLabels l mp => (with_recs (<[l := mkRec (ir_image (ix_recs m l)) (Some mp)]> (ix_recs m)) (ix_rnext m) m, tt)
  | NewMap entries => (with_maps (<[ix_mnext m := mkMap entries false]> (ix_maps m)) (S (ix_mnext m)) m, ix_mnext m)
  | BeginWrite mp =>
      (with_maps (<[mp := mkMap (gm_entries (ix_maps m mp)) true]> (ix_maps m)) (ix_mnext m)
         (with_fatal (ix_fatal m || gm_writing (ix_maps m mp)) m), tt)
  | EndWrite mp k v =>
      (with_maps (<[mp := mkMap (<[k := v]> (gm_entries (ix_maps m mp))) false]> (ix_maps m)) (ix_mnext m)
         (with_fatal (ix_fatal m || negb (gm_writing (ix_maps m mp))) m), tt)
  | RangeMap mp => (with_fatal (ix_fatal m || gm_writing (ix_maps m mp)) m, gm_entries (ix_maps m mp))
  end.

(** ** The handlers *)

Abbreviation iprog := (prog iaccess).

(** [ToGRPC], and the encoding of the answer. *)
Definition p_marshal (l : nat) : iprog Image :=
  r <-~ acc (RdRec l);
  let img := ir_image r in
  match ir_labels r with
  | None => Ret (ToGRPC (mkImage (im_Name img) None (im_Target img) (im_CreatedAt img) (im_UpdatedAt img)))
  | Some mp =>
      g <-~ acc (RangeMap mp);
      Ret (ToGRPC (mkImage (im_Name img) (Some g) (im_Target img) (im_CreatedAt img) (im_UpdatedAt img)))
  end.

Fixpoint p_marshal_all (ls : list nat) : iprog (list Image) :=
  match ls with
  | [] => Ret []
  | l :: ls => x <-~ p_marshal l; xs <-~ p_marshal_all ls; Ret (x :: xs)
  end.

Definition p_Get (name : string) : iprog (res img_error Image) :=
  o <-~ acc (LkGet name);
  match o with
  | None => Ret (Err (RpcStatus NotFound (Some (ImageNotFound name))))
  | Some l => x <-~ p_marshal l; Ret (Ok x)
  end.

Definition p_List (ord : go_order) : iprog (list Image) := ls <-~ acc (LkList ord); p_marshal_all ls.

(** The decoded request has a map of its own, or nil. *)
Definition p_request_labels (o : option (gmap string string)) : iprog (option nat) :=
  match o with None => Ret None | Some g => mp <-~ acc (NewMap g); Ret (Some mp) end.

Definition p_Create (now : Z) (req : option Image) : iprog (res img_error Image) :=
  match req with
  | None => Ret (Err (RpcStatus InvalidArgument None))
  | Some proto =>
      labels <-~ p_request_labels (im_Labels proto);
      o <-~ acc (LkCreate now (fromGRPC proto) labels);
      match o with
      | None => Ret (Err (RpcStatus AlreadyExists (Some (ImageExists (im_Name proto)))))
      | Some l => x <-~ p_marshal l; Ret (Ok x)
      end
  end.

(** [existing.Labels[k] = v] for the entries of the request; a write to a nil map
    panics. *)
Fixpoint p_merge (l : nat) (kvs : list (string * string)) : iprog unit :=
  match kvs with
  | [] => Ret tt
  | (k, v) :: kvs =>
      r <-~ acc (RdRec l);
      mp <-~ or_crash (ir_labels r);
      acc (BeginWrite mp) ;;~ acc (EndWrite mp k v) ;;~ p_merge l kvs
  end.

(** Before the labels are written the record has a map. *)
Definition p_ensure (l : nat) : iprog unit :=
  r <-~ acc (RdRec l);
  match ir_labels r with None => mp <-~ acc (NewMap ∅); acc (WrLabels l mp) | Some _ => Ret tt end.

Definition p_Update (req : option Image) : iprog (res img_error Image) :=
  match req with
  | None => Crash
  | Some proto =>
      o <-~ acc (LkGet (im_Name proto));
      match o with
      | None => Ret (Err (RpcStatus NotFound (Some (ImageNotFound (im_Name proto)))))
      | Some l =>
          match im_Labels proto with
          | None => Ret tt
          | Some ls => p_ensure l ;;~ p_merge l (map_to_list ls)
          end ;;~
          x <-~ p_marshal l; Ret (Ok x)
      end
  end.

Definition p_Delete (name : string) : iprog (res img_error unit) :=
  b <-~ acc (LkDelete name);
  Ret (if b : bool then Ok tt else Err (RpcStatus NotFound (Some (ImageNotFound name)))).

(** ** Requests *)

(** [ord]: the order of the loop over the images that serves the list. *)
Inductive irequest : Type :=
| IGet (name : string)
| IList (ord : go_order) (filters : list string)
| ICreate (now : Z) (req : option Image)
| IUpdate (req : option Image)
| IDelete (name : string).

Inductive ianswer : Type :=
| AImage (r : res img_error Image)
| AImages (l : list Image)
| AEmpty (r : res img_error unit).

Definition i_start (r : irequest) : iprog ianswer :=
  match r with
  | IGet name => x <-~ p_Get name; Ret (AImage x)
  | IList ord _ => x <-~ p_List ord; Ret (AImages x)
  | ICreate now req => x <-~ p_Create now req; Ret (AImage x)
  | IUpdate req => x <-~ p_Update req; Ret (AImage x)
  | IDelete name => x <-~ p_Delete name; Ret (AEmpty x)
  end.

(** The handlers of [ContainerdImage]; [None] when the handler panics. *)
Definition i_serve (r : irequest) (s : Images) : option (Images * ianswer) :=
  match r with
  | IGet name => Some (s, AImage (svc_Get name s))
  | IList ord filters => Some (s, AImages (svc_List ord filters s))
  | ICreate now req => let '(s', a) := svc_Create now req s in Some (s', AImage a)
  | IUpdate req =>
      match svc_Update req s with (_, Panic) => None | (s', a) => Some (s', AImage a) end
  | IDelete name => let '(s', a) := svc_Delete name s in Some (s', AEmpty a)
  end.

(** ** Lemmas: a request by itself *)

Abbreviation i_exec := (exec i_access).

(** The record [l] as a value. *)
Definition img_at (m : imem) (l : nat) : Image :=
  let r := ix_recs m l in
  mkImage (im_Name (ir_image r)) ((fun mp => gm_entries (ix_maps m mp)) <$> ir_labels r) (im_Target (ir_image r))
    (im_CreatedAt (ir_image r)) (im_UpdatedAt (ir_image r)).

(** What the memory shows as a state of [ContainerdImage]. *)
Definition i_shown (m : imem) : Images := img_at m <$> ix_images m.

(** The process runs, no map is being written, and no two records in the store
    share a map. *)
Record imem_ok (m : imem) : Prop := {
  io_alive : ix_fatal m = false;
  io_idle : forall mp, gm_writing (ix_maps m mp) = false;
  io_recs : forall n l, ix_images m !! n = Some l -> l < ix_rnext m;
  io_maps : forall n l mp, ix_images m !! n = Some l -> ir_labels (ix_recs m l) = Some mp -> mp < ix_mnext m;
  io_inj : forall n n' l, ix_images m !! n = Some l -> ix_images m !! n' = Some l -> n = n';
  io_apart : forall n n' l l' mp, ix_images m !! n = Some l -> ix_images m !! n' = Some l' ->
    ir_labels (ix_recs m l) = Some mp -> ir_labels (ix_recs m l') = Some mp -> l = l'
}.

Lemma i_shown_lookup (m : imem) (n : string) : i_shown m !! n = img_at m <$> ix_images m !! n.
Proof. apply lookup_fmap. Qed.

Lemma exec_marshal (m : imem) (l : nat) : imem_ok m -> i_exec (p_marshal l) m = (m, Some (ToGRPC (img_at m l))).
Proof.
  intros [Ha Hi _ _ _ _]. unfold p_marshal, img_at. rewrite (exec_read i_access) by done. cbn [i_access snd].
  destruct (ir_labels (ix_recs m l)) as [mp|]; [|done].
  rewrite (exec_read i_access); [done|]. cbn. rewrite Hi, orb_false_r. by destruct m.
Qed.

Lemma exec_marshal_all (m : imem) (ls : list nat) :
  imem_ok m -> i_exec (p_marshal_all ls) m = (m, Some (map (fun l => ToGRPC (img_at m l)) ls)).
Proof.
  intros Hm. induction ls as [|l ls IH]; [done|]. cbn [p_marshal_all map].
  by rewrite (exec_bind i_access), exec_marshal, (exec_bind i_access), IH by done.
Qed.

(** The store with the entries of one record's map changed. *)
Definition with_entries (mp : nat) (g : gmap string string) (m : imem) : imem :=
  with_maps (<[mp := mkMap g false]> (ix_maps m)) (ix_mnext m) m.

Lemma with_entries_ok (mp : nat) (g : gmap string string) (m : imem) : imem_ok m -> imem_ok (with_entries mp g m).
Proof.
  intros [H1 H2 H3 H4 H5 H6]. split; cbn; try done. intros mp'. destruct (decide (mp = mp')) as [<-|Hne].
  - by rewrite fn_lookup_insert.
  - by rewrite fn_lookup_insert_ne.
Qed.

Lemma exec_assign {A : Type} (mp : nat) (k v : string) (q : iprog A) (m : imem) :
  imem_ok m ->
  i_exec (acc (BeginWrite mp) ;;~ acc (EndWrite mp k v) ;;~ q) m = i_exec q (with_entries mp (<[k := v]> (gm_entries (ix_maps m mp))) m).
Proof.
  intros Hm. rewrite (exec_acc i_access), (exec_acc i_access). f_equal. cbn. rewrite fn_lookup_insert, fn_insert_twice. cbn.
  rewrite (io_idle _ Hm mp), (io_alive _ Hm). unfold with_entries, with_maps, with_fatal. cbn. by rewrite (io_alive _ Hm).
Qed.

Lemma exec_merge (l mp : nat) (kvs : list (string * string)) (m : imem) :
  imem_ok m -> ir_labels (ix_recs m l) = Some mp ->
  i_exec (p_merge l kvs) m = (with_entries mp (assign_all kvs (gm_entries (ix_maps m mp))) m, Some tt).
Proof.
  revert m. induction kvs as [|[k v] kvs IH]; intros m Hm Hl; cbn [p_merge assign_all fold_left].
  - cbn. do 2 f_equal. unfold with_entries, with_maps. rewrite fn_insert_same; [by destruct m|].
    pose proof (io_idle _ Hm mp) as Hi. destruct (ix_maps m mp). cbn in *. by subst.
  - rewrite (exec_read i_access) by done. cbn [i_access snd]. rewrite Hl. cbn [or_crash prog_bind].
    rewrite exec_assign by done. rewrite IH; [|by apply with_entries_ok|done]. unfold with_entries, with_maps. cbn.
    by rewrite fn_lookup_insert, fn_insert_twice.
Qed.

(** One record of the store has changed. *)
Lemma shown_update (m m' : imem) (n : string) (l : nat) (img : Image) :
  ix_images m' = ix_images m -> (forall n n' l, ix_images m !! n = Some l -> ix_images m !! n' = Some l -> n = n') ->
  ix_images m !! n = Some l -> img_at m' l = img ->
  (forall n' l', ix_images m !! n' = Some l' -> l' <> l -> img_at m' l' = img_at m l') ->
  i_shown m' = <[n := img]> (i_shown m).
Proof.
  intros Hi Hinj Hn <- Hf. apply map_eq. intros n'. rewrite i_shown_lookup, Hi. destruct (decide (n = n')) as [<-|Hne].
  - by rewrite lookup_insert_eq, Hn.
  - rewrite lookup_insert_ne, i_shown_lookup by done. destruct (ix_images m !! n') as [l'|] eqn:Hn'; [|done]. cbn. f_equal.
    apply (Hf n'); [done|]. intros ->. by apply Hne, (Hinj n n' l).
Qed.

(** By itself [p] ends with [a] and leaves the store [s]. *)
Definition i_runs {A : Type} (p : iprog A) (m : imem) (a : A) (s : Images) : Prop :=
  exists m', i_exec p m = (m', Some a) /\ imem_ok m' /\ i_shown m' = s.

Lemma i_runs_bind {A B : Type} (p : iprog A) (f : A -> B) (m : imem) (a : A) (s : Images) :
  i_runs p m a s -> i_runs (x <-~ p; Ret (f x)) m (f a) s.
Proof. intros (m' & He & Hr). exists m'. by rewrite (exec_bind i_access), He. Qed.

Lemma runs_Get (name : string) (m : imem) : imem_ok m -> i_runs (p_Get name) m (svc_Get name (i_shown m)) (i_shown m).
Proof.
  intros Hm. exists m. split; [|done]. unfold p_Get, svc_Get, Get. rewrite (exec_read i_access), i_shown_lookup by done. cbn [i_access snd].
  destruct (ix_images m !! name) as [l|]; [|done]. by rewrite (exec_bind i_access), exec_marshal.
Qed.

Lemma go_range_fmap {V V' : Type} (f : V -> V') (ord : go_order) (x : gmap string V) :
  go_range ord (f <$> x) = f <$> go_range ord x.
Proof.
  unfold go_range, map_keys. rewrite map_to_list_fmap. change (@map) with (fun A B => @fmap list list_fmap A B). cbv beta.
  rewrite <- list_fmap_compose. rewrite (list_fmap_ext (fst ∘ prod_map id f) fst) by done.
  generalize (ord (fst <$> map_to_list x)). intros ks. induction ks as [|k ks IH]; [done|]. cbn.
  rewrite lookup_fmap, IH. by destruct (x !! k).
Qed.

Lemma runs_List (ord : go_order) (filters : list string) (m : imem) :
  imem_ok m -> i_runs (p_List ord) m (svc_List ord filters (i_shown m)) (i_shown m).
Proof.
  intros Hm. exists m. split; [|done]. unfold p_List. rewrite (exec_read i_access) by done. cbn [i_access snd].
  rewrite exec_marshal_all by done. unfold svc_List, List_images, i_shown. rewrite go_range_fmap. do 2 f_equal.
  change (@fmap list list_fmap) with map. by rewrite map_map.
Qed.

Lemma runs_Delete (name : string) (m : imem) :
  imem_ok m -> i_runs (p_Delete name) m (svc_Delete name (i_shown m)).2 (svc_Delete name (i_shown m)).1.
Proof.
  intros Hm. unfold i_runs, p_Delete, svc_Delete, Delete, go_wrap. rewrite i_shown_lookup. cbn.
  destruct (ix_images m !! name) as [l|] eqn:Hl; cbn.
  - eexists. split; [done|]. split; [|apply fmap_delete].
    destruct Hm as [H1 H2 H3 H4 H5 H6]. split; cbn; try done; intros *; rewrite ?lookup_delete_Some; intuition eauto.
  - by exists m.
Qed.

(** The map of a new request or record, which nothing else has. *)
Lemma new_map_ok (g : gmap string string) (m : imem) : imem_ok m -> imem_ok (i_access _ (NewMap g) m).1.
Proof.
  intros [H1 H2 H3 H4 H5 H6]. split; cbn; try done.
  - intros mp. destruct (decide (ix_mnext m = mp)) as [<-|Hne]; [by rewrite fn_lookup_insert|by rewrite fn_lookup_insert_ne].
  - intros n l mp Hn Hl. specialize (H4 _ _ _ Hn Hl). lia.
Qed.

Lemma new_map_shown (g : gmap string string) (m : imem) : imem_ok m -> i_shown (i_access _ (NewMap g) m).1 = i_shown m.
Proof.
  intros Hm. apply map_eq. intros n. rewrite !i_shown_lookup. cbn. destruct (ix_images m !! n) as [l|] eqn:Hn; [|done].
  cbn. f_equal. unfold img_at. cbn. destruct (ir_labels (ix_recs m l)) as [mp|] eqn:Hl; [|done]. cbn.
  rewrite fn_lookup_insert_ne; [done|]. pose proof (io_maps _ Hm _ _ _ Hn Hl). lia.
Qed.

Lemma create_ok (now : Z) (img : Image) (labels : option nat) (m m' : imem) (o : option nat) :
  imem_ok m -> (forall mp, labels = Some mp -> mp < ix_mnext m /\
    forall n l, ix_images m !! n = Some l -> ir_labels (ix_recs m l) <> Some mp) ->
  i_access _ (LkCreate now img labels) m = (m', o) ->
  let img' := mkImage (im_Name img) ((fun mp => gm_entries (ix_maps m mp)) <$> labels) (im_Target img) now now in
  match o with
  | None => m' = m /\ is_Some (ix_images m !! im_Name img)
  | Some l => ix_images m !! im_Name img = None /\ imem_ok m' /\ img_at m' l = img' /\
      i_shown m' = <[im_Name img := img']> (i_shown m)
  end.
Proof.
  intros Hm Hlab. cbn. destruct (ix_images m !! im_Name img) as [l0|] eqn:Hn; intros [= <- <-]; [by split|].
  split; [done|]. set (l := ix_rnext m). pose proof Hm as [H1 H2 H3 H4 H5 H6].
  assert (Hne : forall n l', ix_images m !! n = Some l' -> l <> l') by (intros n l' Hl; specialize (H3 _ _ Hl); unfold l; lia).
  assert (Hl : img_at (with_images (<[im_Name img := l]> (ix_images m))
    (with_recs (<[l := mkRec (mkImage (im_Name img) None (im_Target img) now now) labels]> (ix_recs m)) (S l) m)) l =
    mkImage (im_Name img) ((fun mp => gm_entries (ix_maps m mp)) <$> labels) (im_Target img) now now).
  { unfold img_at. cbn. by rewrite fn_lookup_insert. }
  split; [|split; [exact Hl|]].
  - split; cbn; try done.
    + intros n l'. rewrite lookup_insert_Some. intros [[_ <-]|[_ Hl']]; [lia|]. specialize (H3 _ _ Hl'). lia.
    + intros n l' mp. rewrite lookup_insert_Some. intros [[_ <-]|[_ Hl']].
      * rewrite fn_lookup_insert. intros Hmp. by apply Hlab.
      * rewrite fn_lookup_insert_ne by eauto. eauto.
    + intros n n' l'. rewrite !lookup_insert_Some. intros [[<- <-]|[? Ha]] [[<- Hb]|[? Hb]]; [done|by apply Hne in Hb|by apply Hne in Ha|eauto].
    + intros n n' l1 l2 mp. rewrite !lookup_insert_Some. intros [[<- <-]|[? Ha]] [[<- <-]|[? Hb]]; [done|..];
        rewrite ?fn_lookup_insert; try rewrite (fn_lookup_insert_ne _ _ l1) by eauto; try rewrite (fn_lookup_insert_ne _ _ l2) by eauto; cbn.
      * intros Hmp Hc. exfalso. by apply (proj2 (Hlab _ Hmp) _ _ Hb).
      * intros Hc Hmp. exfalso. by apply (proj2 (Hlab _ Hmp) _ _ Ha).
      * eauto.
  - apply map_eq. intros n. rewrite i_shown_lookup. cbn. destruct (decide (im_Name img = n)) as [<-|Hnn].
    + rewrite !lookup_insert_eq. cbn. by rewrite Hl.
    + rewrite !lookup_insert_ne, i_shown_lookup by done. destruct (ix_images m !! n) as [l'|] eqn:Hl'; [|done]. cbn. f_equal.
      unfold img_at. cbn. by rewrite fn_lookup_insert_ne by eauto.
Qed.

(** The request's labels, in a map no record has. *)
Lemma request_labels (o : option (gmap string string)) (m : imem) :
  imem_ok m ->
  exists m' labels, i_exec (p_request_labels o) m = (m', Some labels) /\ imem_ok m' /\ i_shown m' = i_shown m /\
    (fun mp => gm_entries (ix_maps m' mp)) <$> labels = o /\
    forall mp, labels = Some mp -> mp < ix_mnext m' /\
      forall n l, ix_images m' !! n = Some l -> ir_labels (ix_recs m' l) <> Some mp.
Proof.
  intros Hm. destruct o as [g|]; [|by exists m, None]. eexists _, _. split; [done|].
  split; [by apply new_map_ok|]. split; [by apply new_map_shown|]. split.
  - cbn. by rewrite fn_lookup_insert.
  - intros mp [= <-]. cbn. split; [lia|]. intros n l Hn Hl. pose proof (io_maps _ Hm _ _ _ Hn Hl). lia.
Qed.

Lemma runs_Create (now : Z) (req : option Image) (m : imem) :
  imem_ok m -> i_runs (p_Create now req) m (svc_Create now req (i_shown m)).2 (svc_Create now req (i_shown m)).1.
Proof.
  intros Hm. destruct req as [proto|]; [|by exists m]. cbn [p_Create svc_Create].
  destruct (request_labels (im_Labels proto) m Hm) as (m1 & labels & He1 & Hm1 & Hs1 & Hg & Hl).
  unfold i_runs. rewrite (exec_bind i_access), He1, (exec_acc i_access).
  destruct (i_access _ (LkCreate now (fromGRPC proto) labels) m1) as [m2 o] eqn:Ha.
  pose proof (create_ok now (fromGRPC proto) labels m1 m2 o Hm1 Hl Ha) as Hc. cbn [fst snd].
  unfold go_bind, go_wrap, Create. rewrite <- Hs1, i_shown_lookup. cbn [fromGRPC im_Name] in *. destruct o as [l|].
  - destruct Hc as (Hn & Hm2 & Hi & Hs2). exists m2. rewrite (exec_bind i_access), exec_marshal, Hi, Hn by done.
    cbn. rewrite Hs2. cbn. by rewrite Hg.
  - destruct Hc as [-> [l0 Hn]]. rewrite Hn. by exists m1.
Qed.

Lemma exec_ensure (l : nat) (n : string) (m : imem) :
  imem_ok m -> ix_images m !! n = Some l ->
  exists m1 mp, i_exec (p_ensure l) m = (m1, Some tt) /\ imem_ok m1 /\ ix_images m1 = ix_images m /\
    ir_labels (ix_recs m1 l) = Some mp /\ ir_image (ix_recs m1 l) = ir_image (ix_recs m l) /\
    gm_entries (ix_maps m1 mp) = default ∅ (im_Labels (img_at m l)) /\
    forall n' l', ix_images m !! n' = Some l' -> l' <> l -> img_at m1 l' = img_at m l'.
Proof.
  intros Hm Hn. unfold p_ensure. rewrite (exec_read i_access) by done. cbn [i_access snd].
  destruct (ir_labels (ix_recs m l)) as [mp|] eqn:Hl.
  - exists m, mp. unfold img_at. rewrite Hl. by split_and!.
  - eexists _, (ix_mnext m). split; [done|]. pose proof Hm as [H1 H2 H3 H4 H5 H6].
    assert (Hfresh : forall n l', ix_images m !! n = Some l' -> ir_labels (ix_recs m l') <> Some (ix_mnext m)).
    { intros n' l' Hn' Hl'. specialize (H4 _ _ _ Hn' Hl'). lia. }
    assert (Hrec : forall l', l <> l' -> (<[l := mkRec (ir_image (ix_recs m l)) (Some (ix_mnext m))]> (ix_recs m)) l' = ix_recs m l')
      by (intros l' Hne; by rewrite fn_lookup_insert_ne).
    split_and!; cbn; try done; rewrite ?fn_lookup_insert; try done.
    + split; cbn; try done.
      * intros mp. destruct (decide (ix_mnext m = mp)) as [<-|Hne]; [by rewrite fn_lookup_insert|by rewrite fn_lookup_insert_ne].
      * intros n' l' mp Hn'. destruct (decide (l = l')) as [<-|Hne]; [rewrite fn_lookup_insert; intros [= <-]; lia|].
        rewrite Hrec by done. intros Hl'. specialize (H4 _ _ _ Hn' Hl'). lia.
      * intros n1 n2 l1 l2 mp Hn1 Hn2. destruct (decide (l = l1)) as [<-|Hne1], (decide (l = l2)) as [<-|Hne2]; [done|..];
          rewrite ?fn_lookup_insert, ?Hrec by done; cbn.
        -- intros [= <-] Hl2. by destruct (Hfresh _ _ Hn2 Hl2).
        -- intros Hl1 [= <-]. by destruct (Hfresh _ _ Hn1 Hl1).
        -- eauto.
    + unfold img_at. by rewrite Hl.
    + intros n' l' Hn' Hne. unfold img_at. cbn. rewrite Hrec by done. f_equal.
      destruct (ir_labels (ix_recs m l')) as [mp|] eqn:Hl'; [|done]. cbn. rewrite fn_lookup_insert_ne; [done|].
      intros <-. by destruct (Hfresh _ _ Hn' Hl').
Qed.

Lemma runs_Update (proto : Image) (m : imem) :
  imem_ok m -> exists s a, svc_Update (Some proto) (i_shown m) = (s, a) /\ a <> Panic /\ i_runs (p_Update (Some proto)) m a s.
Proof.
  intros Hm. unfold svc_Update, Get, i_runs. rewrite i_shown_lookup. cbn [p_Update].
  rewrite (exec_read i_access) by done. cbn [i_access snd].
  destruct (ix_images m !! im_Name proto) as [l|] eqn:Hn; cbn [fmap option_fmap option_map];
    [|eexists _, _; split; [done|]; split; [done|]; by exists m].
  destruct (im_Labels proto) as [ls|]; (eexists _, _; split; [done|]; split; [done|]).
  - destruct (exec_ensure l (im_Name proto) m Hm Hn) as (m1 & mp & He & Hm1 & Hi & Hl & Hr & Hg & Hf).
    rewrite (exec_bind i_access), (exec_bind i_access), He, (exec_merge l mp _ m1 Hm1 Hl), assign_all_copy, Hg.
    set (m2 := with_entries _ _ m1). assert (Hm2 : imem_ok m2) by by apply with_entries_ok.
    assert (Himg : img_at m2 l = mkImage (im_Name (img_at m l)) (Some (gmap_copy ls (default ∅ (im_Labels (img_at m l)))))
      (im_Target (img_at m l)) (im_CreatedAt (img_at m l)) (im_UpdatedAt (img_at m l))).
    { unfold img_at at 1. cbn. rewrite Hl, Hr. cbn. by rewrite fn_lookup_insert. }
    exists m2. rewrite (exec_bind i_access), exec_marshal, Himg by done. split; [done|]. split; [done|].
    eapply shown_update; [done|apply (io_inj _ Hm)|done|done|]. intros n' l' Hn' Hne. rewrite <- (Hf n' l') by done.
    unfold img_at. cbn. f_equal. destruct (ir_labels (ix_recs m1 l')) as [mp'|] eqn:Hl'; [|done]. cbn.
    rewrite fn_lookup_insert_ne; [done|]. intros <-. apply Hne, (io_apart _ Hm1 n' (im_Name proto) l' l mp); by rewrite ?Hi.
  - exists m. cbn [prog_bind]. by rewrite (exec_bind i_access), exec_marshal.
Qed.

(** Every request by itself is its handler. *)
Lemma i_request_alone (r : irequest) (m : imem) :
  imem_ok m ->
  match i_serve r (i_shown m) with
  | Some (s, a) => i_runs (i_start r) m a s
  | None => crashed (i_start r)
  end.
Proof.
  intros Hm. destruct r as [name|ord filters|now req|req|name]; cbn [i_serve i_start].
  - by apply i_runs_bind, runs_Get.
  - by apply i_runs_bind, runs_List.
  - pose proof (runs_Create now req m Hm) as H. destruct (svc_Create now req (i_shown m)) as [s a]. by apply i_runs_bind.
  - destruct req as [proto|]; [|done]. destruct (runs_Update proto m Hm) as (s & a & -> & Ha & Hr).
    destruct a as [x|e|]; [by apply i_runs_bind..|done].
  - pose proof (runs_Delete name m Hm) as H. destruct (svc_Delete name (i_shown m)) as [s a]. by apply i_runs_bind.
Qed.

(** ** The image service as a system of threads *)

Abbreviation i_step := (sys_step i_access i_start (fun a => Ret a) (fun _ => true)).
Abbreviation i_alone := (alone i_access (fun a : ianswer => Ret a) (fun _ => true)).

Definition empty_imem : imem :=
  mkIMem ∅ (fun _ => mkRec (mkImage "" None no_target 0 0) None) 0 (fun _ => mkMap ∅ false) 0 false.

(** Each request is received when the one before it is answered. *)
Inductive i_one_at_a_time : imem -> Prop :=
| i_one_empty : i_one_at_a_time empty_imem
| i_one_more m m' r a : i_one_at_a_time m -> i_alone (i_start r, m) (Ret a, m') -> i_one_at_a_time m'.

Lemma empty_imem_ok : imem_ok empty_imem.
Proof. by split. Qed.

(** A program that panics at once gets nowhere. *)
Lemma crashed_alone (p : iprog ianswer) (m m' : imem) (a : ianswer) : crashed p -> ~ i_alone (p, m) (Ret a, m').
Proof.
  destruct p as [x| |X e k]; try done. intros _ H. remember (Crash, m) as y eqn:Hy. remember (Ret a, m') as z eqn:Hz.
  destruct H as [y|y y1 z [He _] _]; subst; [done|]. done.
Qed.

Lemma i_one_at_a_time_ok (m : imem) : i_one_at_a_time m -> imem_ok m.
Proof.
  induction 1 as [|m m' r a _ Hm Ha]; [apply empty_imem_ok|]. pose proof (i_request_alone r m Hm) as Hr.
  destruct (i_serve r (i_shown m)) as [[s a']|]; [|by apply crashed_alone in Ha].
  destruct Hr as (m1 & He & Hm1 & _). apply (alone_exec i_access (fun a => Ret a) (fun _ => true)) in He.
  by pose proof (alone_unique _ _ _ _ _ _ Ha He eq_refl eq_refl) as [= _ <-].
Qed.

(** ** Lemmas: a write that is looked at *)

Lemma i_serve_some (r : irequest) (s : Images) :
  match r with IUpdate None => False | _ => True end -> is_Some (i_serve r s).
Proof.
  intros Hr. destruct r as [name|ord fs|now req|[proto|]|name]; cbn [i_serve]; [by eexists|by eexists| | |done|].
  - destruct (svc_Create now req s). by eexists.
  - unfold svc_Update, Get. destruct (s !! _); [destruct (im_Labels proto)|]; by eexists.
  - destruct (svc_Delete name s). by eexists.
Qed.

(** The requests that read or write the labels of the image [n]. *)
Definition looks_at (n : string) (r : irequest) : Prop :=
  match r with
  | IGet name => name = n
  | IList ord _ => GoOrder ord
  | IUpdate (Some proto) => im_Name proto = n
  | _ => False
  end.

(** The record's labels are being written. *)
Definition caught (l : nat) (m : imem) : Prop :=
  exists mp, ir_labels (ix_recs m l) = Some mp /\ gm_writing (ix_maps m mp) = true.

Ltac i_go := eapply rtc_l; [split; [reflexivity|reflexivity]|]; cbn [thread_step fst snd i_access].

Lemma update_begins (proto : Image) (ls : gmap string string) (l : nat) (m : imem) :
  im_Labels proto = Some ls -> ls <> ∅ -> ix_images m !! im_Name proto = Some l ->
  exists p m', i_alone (i_start (IUpdate (Some proto)), m) (p, m') /\ ix_images m' = ix_images m /\ caught l m'.
Proof.
  intros Hl Hls Hi. destruct (map_to_list ls) as [|[k v] kvs] eqn:Hkv; [by apply map_to_list_empty_iff in Hkv|].
  assert (Hwrite : forall (q : unit -> iprog ianswer) m0 mp, ir_labels (ix_recs m0 l) = Some mp -> ix_images m0 = ix_images m ->
    exists p m', i_alone (prog_bind (p_merge l ((k, v) :: kvs)) q, m0) (p, m') /\ ix_images m' = ix_images m /\ caught l m').
  { intros q m0 mp Hmp Hi0. eexists _, _. split; [|split].
    - cbn [p_merge prog_bind acc]. i_go. rewrite Hmp. cbn [or_crash prog_bind]. i_go. apply rtc_refl.
    - exact Hi0.
    - exists mp. cbn. by rewrite fn_lookup_insert. }
  cbn [i_start p_Update]. rewrite Hl, Hkv. cbn [prog_bind acc]. unfold p_ensure.
  destruct (ir_labels (ix_recs m l)) as [mp|] eqn:Hmp.
  - destruct (Hwrite (fun _ => x <-~ (x <-~ p_marshal l; Ret (Ok x)); Ret (AImage x)) m mp Hmp eq_refl) as (p & m' & H & Hc).
    exists p, m'. split; [|exact Hc]. i_go. rewrite Hi. cbn [prog_bind acc]. i_go. rewrite Hmp. cbn [prog_bind]. rewrite prog_bind_assoc. exact H.
  - set (m0 := (i_access _ (WrLabels l (ix_mnext m)) (i_access _ (NewMap ∅) m).1).1).
    destruct (Hwrite (fun _ => x <-~ (x <-~ p_marshal l; Ret (Ok x)); Ret (AImage x)) m0 (ix_mnext m)) as (p & m' & H & Hc);
      [by cbn; rewrite fn_lookup_insert|done|].
    exists p, m'. split; [|exact Hc]. i_go. rewrite Hi. cbn [prog_bind acc]. i_go. rewrite Hmp. cbn [prog_bind acc].
    i_go. i_go. rewrite prog_bind_assoc. exact H.
Qed.

(** Encoding the record, alone or among others, finds the write. *)
Lemma marshal_finds (l : nat) (q : Image -> iprog ianswer) (m : imem) :
  caught l m -> exists p m', i_alone (prog_bind (p_marshal l) q, m) (p, m') /\ ix_fatal m' = true.
Proof.
  intros (mp & Hl & Hw). eexists _, _. split.
  - cbn [p_marshal prog_bind acc]. i_go. rewrite Hl. cbn [prog_bind acc]. i_go. apply rtc_refl.
  - cbn. by rewrite Hw, orb_true_r.
Qed.

Lemma marshal_all_finds (l : nat) (ls : list nat) (q : list Image -> iprog ianswer) (m : imem) :
  caught l m -> l ∈ ls -> exists p m', i_alone (prog_bind (p_marshal_all ls) q, m) (p, m') /\ ix_fatal m' = true.
Proof.
  intros Hc. revert q. induction ls as [|l0 ls IH]; intros q Hin; [by apply not_elem_of_nil in Hin|].
  cbn [p_marshal_all]. rewrite !prog_bind_assoc.
  apply elem_of_cons in Hin as [<-|Hin]; [by apply marshal_finds|].
  specialize (fun x => IH (fun xs => q (x :: xs)) Hin) as IH'.
  destruct (ir_labels (ix_recs m l0)) as [mp|] eqn:Hl0.
  - destruct (gm_writing (ix_maps m mp)) eqn:Hw; [apply marshal_finds; by exists mp|].
    edestruct IH' as (p & m' & H & Hf). exists p, m'. split; [|exact Hf].
    cbn [p_marshal prog_bind acc]. i_go. rewrite Hl0. cbn [prog_bind acc]. i_go. rewrite Hw, orb_false_r.
    replace (with_fatal (ix_fatal m) m) with m by by destruct m. rewrite prog_bind_assoc. exact H.
  - edestruct IH' as (p & m' & H & Hf). exists p, m'. split; [|exact Hf].
    cbn [p_marshal prog_bind acc]. i_go. rewrite Hl0. cbn [prog_bind acc]. rewrite prog_bind_assoc. exact H.
Qed.

Lemma looks_finds (n : string) (l : nat) (m : imem) (r : irequest) :
  ix_images m !! n = Some l -> caught l m -> looks_at n r ->
  exists p m', i_alone (i_start r, m) (p, m') /\ ix_fatal m' = true.
Proof.
  intros Hi Hc Hr. pose proof Hc as (mp & Hl & Hw).
  destruct r as [name|ord fs|now req|[proto|]|name]; cbn [looks_at] in Hr; try done; [subst name| |].
  - edestruct (marshal_finds l) as (p & m' & H & Hf); [exact Hc|]. exists p, m'. split; [|exact Hf].
    cbn [i_start]. unfold p_Get. rewrite prog_bind_assoc. cbn [prog_bind acc]. i_go. rewrite Hi, prog_bind_assoc. exact H.
  - edestruct (marshal_all_finds l (go_range ord (ix_images m))) as (p & m' & H & Hf);
      [exact Hc|apply elem_of_go_range; eauto|]. exists p, m'. split; [|exact Hf].
    cbn [i_start]. unfold p_List. rewrite prog_bind_assoc. cbn [prog_bind acc]. i_go. exact H.
  - subst n. destruct (im_Labels proto) as [ls|] eqn:Hls; [destruct (map_to_list ls) as [|[k v] kvs] eqn:Hkv|].
    + edestruct (marshal_finds l) as (p & m' & H & Hf); [exact Hc|]. exists p, m'. split; [|exact Hf].
      cbn [i_start p_Update]. rewrite Hls, Hkv. cbn [prog_bind acc]. i_go. rewrite Hi. unfold p_ensure. cbn [prog_bind acc]. i_go.
      rewrite Hl. cbn [prog_bind p_merge]. rewrite prog_bind_assoc. exact H.
    + eexists _, _. split.
      * cbn [i_start p_Update]. rewrite Hls, Hkv. cbn [prog_bind acc]. i_go. rewrite Hi. unfold p_ensure. cbn [prog_bind acc]. i_go.
        rewrite Hl. cbn [prog_bind p_merge acc]. i_go. rewrite Hl. cbn [or_crash prog_bind acc]. i_go. apply rtc_refl.
      * cbn. by rewrite Hw, orb_true_r.
    + edestruct (marshal_finds l) as (p & m' & H & Hf); [exact Hc|]. exists p, m'. split; [|exact Hf].
      cbn [i_start p_Update]. rewrite Hls. cbn [prog_bind acc]. i_go. rewrite Hi. cbn [prog_bind].
      rewrite prog_bind_assoc. exact H.
Qed.

(** ** Properties *)

(** C19: image requests that do not overlap are served as [ContainerdImage]
    serves them.  In every memory the service gets to when each request comes
    after the answer to the last, the process runs, and every request, taken
    section by section and access by access through shared records and label
    maps, its encoded answer included, ends with its handler's answer and leaves
    its handler's store; one the handler panics on panics at once. *)
Theorem image_requests_one_at_a_time (m : imem) (r : irequest) :
  i_one_at_a_time m ->
  ix_fatal m = false /\
  match i_serve r (i_shown m) with
  | Some (s, a) => exists m', i_alone (i_start r, m) (Ret a, m') /\ i_shown m' = s
  | None => crashed (i_start r)
  end.
Proof.
  intros Hm%i_one_at_a_time_ok. split; [apply Hm|]. pose proof (i_request_alone r m Hm) as Hr.
  destruct (i_serve r (i_shown m)) as [[s a]|]; [|done]. destruct Hr as (m' & He & _ & Hs). exists m'.
  split; [by apply (alone_exec i_access (fun a => Ret a) (fun _ => true))|done].
Qed.

(** C20: label updates can end the daemon.  Take any memory of the service
    between requests, an image in its store, an update of this image with at
    least one label, and a second request that looks at the image: a get or
    another update of it, or a list.  Each of the two has an answer by itself,
    and yet they can overlap so that the runtime ends the process of the daemon,
    and all its services with it. *)
Theorem overlapping_label_update_is_fatal (m : imem) (n : string) (proto : Image) (ls : gmap string string) (r : irequest) :
  i_one_at_a_time m -> is_Some (i_shown m !! n) ->
  im_Name proto = n -> im_Labels proto = Some ls -> ls <> ∅ -> looks_at n r ->
  is_Some (i_serve (IUpdate (Some proto)) (i_shown m)) /\ is_Some (i_serve r (i_shown m)) /\
  exists s p p', rtc i_step (mkSys ∅ m) s /\ sys_threads s = {[0 := (IUpdate (Some proto), p); 1 := (r, p')]} /\
    ix_fatal (sys_mem s) = true.
Proof.
  intros Hm%i_one_at_a_time_ok [img Hn] <- Hl Hls Hr. rewrite i_shown_lookup in Hn.
  destruct (ix_images m !! im_Name proto) as [l|] eqn:Hi; [|done]. split_and!.
  - by apply i_serve_some.
  - apply i_serve_some. destruct r as [| | |[]|]; done.
  - destruct (update_begins proto ls l m Hl Hls Hi) as (p & m1 & H1 & Hi1 & Hc).
    destruct (looks_finds (im_Name proto) l m1 r ltac:(by rewrite Hi1) Hc Hr) as (p' & m2 & H2 & Hf).
    exists (mkSys {[0 := (IUpdate (Some proto), p); 1 := (r, p')]} m2), p, p'. split_and!; [|done|done].
    pose proof (alone_steps i_access i_start (fun a => Ret a) (fun _ => true)) as Hsteps.
    pose proof (step_receive i_access i_start (fun a => Ret a) (fun _ => true)) as Hrec.
    eapply rtc_l; [by apply (Hrec (mkSys ∅ m) 0 (IUpdate (Some proto)))|].
    etrans; [apply (Hsteps 0 (IUpdate (Some proto)) _ _ _ H1), lookup_insert_eq|]. cbn [sys_threads sys_mem fst snd].
    rewrite insert_insert_eq.
    eapply rtc_l; [by apply (Hrec (mkSys (<[0 := (IUpdate (Some proto), p)]> ∅) m1) 1 r)|].
    etrans; [apply (Hsteps 1 r _ _ _ H2), lookup_insert_eq|]. cbn [sys_threads sys_mem fst snd].
    rewrite insert_insert_eq, insert_insert_ne by done. apply rtc_refl.
Qed.

(** ** Witnesses *)

Definition labelled (name k v : string) : Image := mkImage name (Some {[k := v]}) no_target 0 0.

(** An image is created; then its labels are updated. *)
Definition after_create : imem := (i_exec (i_start (ICreate 1 (Some (labelled "a" "x" "1")))) empty_imem).1.

Lemma after_create_reached : i_one_at_a_time after_create.
Proof.
  eapply (i_one_more empty_imem _ (ICreate 1 (Some (labelled "a" "x" "1")))); [constructor|].
  apply (alone_exec i_access (fun a => Ret a) (fun _ => true)). vm_compute. reflexivity.
Qed.

Lemma image_requests_one_at_a_time_witness :
  exists m' a, i_alone (i_start (IUpdate (Some (labelled "a" "y" "2"))), after_create) (Ret a, m') /\
    (im_Labels <$> i_shown m' !! "a") = Some (Some (<["y" := "2"]> {["x" := "1"]})).
Proof.
  destruct (image_requests_one_at_a_time after_create (IUpdate (Some (labelled "a" "y" "2"))) after_create_reached) as [_ H].
  destruct (i_serve (IUpdate (Some (labelled "a" "y" "2"))) (i_shown after_create)) as [[s a]|] eqn:Hs;
    [|exfalso; vm_compute in Hs; discriminate].
  destruct H as (m' & Ha & Hm'). exists m', a. split; [exact Ha|]. rewrite Hm'.
  assert (Hl : (fun x => im_Labels <$> x.1 !! "a") <$> i_serve (IUpdate (Some (labelled "a" "y" "2"))) (i_shown after_create) =
    Some (Some (Some (<["y" := "2"]> {["x" := "1"]})))) by (vm_compute; reflexivity).
  rewrite Hs in Hl. cbn in Hl. by injection Hl.
Defined.

(** Two updates of the labels of that image. *)
Lemma overlapping_label_update_is_fatal_witness :
  exists s p p', rtc i_step (mkSys ∅ after_create) s /\
    sys_threads s = {[0 := (IUpdate (Some (labelled "a" "y" "2")), p); 1 := (IUpdate (Some (labelled "a" "z" "3")), p')]} /\
    ix_fatal (sys_mem s) = true.
Proof.
  refine (proj2 (proj2 (overlapping_label_update_is_fatal after_create "a" (labelled "a" "y" "2") {["y" := "2"]}
    (IUpdate (Some (labelled "a" "z" "3"))) after_create_reached _ eq_refl eq_refl _ eq_refl))).
  - assert (H : match i_shown after_create !! "a" with Some _ => true | None => false end = true) by (vm_compute; reflexivity).
    destruct (i_shown after_create !! "a"); [by eexists|discriminate].
  - apply map_non_empty_singleton.
Defined.
