(* ===== verification/NerdctlImage.v ===== *)
(** * mini-nerdctl's image commands: mini-nerdctl/pkg/image/image.go

    [Pull] fetches a manifest and its blobs and uploads the blobs, waiting for
    every answer of the daemon; [List] and [Remove] use the daemon's image
    service.  The last part runs [Remove] against mini-containerd's own image
    service. *)

From S2P Require Import Prelude.
From S2P Require Import GoStrings.
From S2P Require Import Sha256.
From S2P Require Import FileSystem.
From S2P Require Import ContentService.
From S2P Require Import Reference.
From S2P Require Import RegistryRef.
From S2P Require Import World.
From S2P Require Import ContainerdImage.
From S2P Require Import DockerRegistry.
Open Scope go_scope.

Record ImageInfo : Type := mkImageInfo {
  ii_Name : string;
  ii_Digest : string;
  ii_Size : Z;
  ii_CreatedAt : Z
}.

Section nerdctl.
Context {W : World}.

(** A bad address makes a nil request: setting its headers, or sending it, is a
    nil dereference. *)
Definition httpGet (url authToken : string) : Client Response :=
  if negb (url_ok url) then go_panic
  else
    resp <-! do_call (HttpDo (mkRequest url accept
               (if String.eqb authToken "" then "" else "Bearer " +:+ authToken))) ;
    match resp with Some p => go_ret p | None => go_err [] end.

Definition httpGetBody (url authToken : string) : Client bytes :=
  p <-! httpGet url authToken ;
  if negb (p_status p =? 200)%Z then go_err ["HTTP"]
  else match read_all p with Some b => go_ret b | None => go_err [] end.

Definition downloadBlob (url authToken : string) : Client bytes := httpGetBody url authToken.

(** An error of the JSON decoder is ignored. *)
Definition fetchAuthToken (registry repo : string) : Client string :=
  resp <-! do_nil ("https://" +:+ registry +:+ "/v2/") "" "" ;
  match resp with
  | None => go_err []
  | Some p =>
      let authHdr := p_header p "Www-Authenticate" in
      if String.eqb authHdr "" then go_err ["no WWW-Authenticate header"]
      else
        let '(realm, service) := Nerdctl.parseAuthHeader authHdr in
        if String.eqb realm "" then go_err ["cannot parse auth header"]
        else
          resp2 <-! do_nil (token_url realm service repo) "" "" ;
          match resp2 with
          | None => go_err []
          | Some p2 => go_ret (json_token p2).1
          end
  end.

(** One request and its answer; [eof_ok] for the last one. *)
Definition exchange (what : string) (eof_ok : bool) (q : WriteReq) : Client unit :=
  try_call [what] (StreamSend q) ;;!
  a <-! do_call StreamRecv ;
  match a with
  | AnsResp => go_ret tt
  | AnsEOF => if eof_ok then go_ret tt else go_err [what +:+ " recv"]
  | AnsErr => go_err [what +:+ " recv"]
  end.

Fixpoint exchange_all (what : string) (qs : list WriteReq) : Client unit :=
  match qs with
  | [] => go_ret tt
  | q :: qs' => exchange what false q ;;! exchange_all what qs'
  end.

Definition writeContent (digest : string) (data : bytes) : Client unit :=
  try_call [] StreamOpen ;;!
  d32 <-! go_lift (str_slice_to 32 digest) ;
  let ref := "pull-" +:+ d32 in
  exchange "stat" false (mkWriteReq ActionSTAT ref digest 0 0 []) ;;!
  exchange_all "write" (chunk_reqs ref 0 (chunks_of mib data)) ;;!
  exchange "commit" true (commit_req ref digest (length data)) ;;!
  try_call [] StreamClose.

Definition pull_blob (registry repo token d : string) (i n : nat) : Client unit :=
  d30 <-! go_lift (str_slice_to 30 d) ;
  printf ("[" +:+ pretty (S i) +:+ "/" +:+ pretty n +:+ "] " +:+ d30) ;;!
  data <-! go_wrap (wrapf ("download " +:+ d)) (downloadBlob (blob_url registry repo d) token) ;
  go_wrap (wrapf ("store " +:+ d)) (writeContent d data).

Fixpoint pull_blobs (registry repo token : string) (i n : nat) (ds : list string) : Client unit :=
  match ds with
  | [] => go_ret tt
  | d :: ds' => pull_blob registry repo token d i n ;;! pull_blobs registry repo token (S i) n ds'
  end.

(** The manifest's response, and the token that was needed for it; when the
    second request fails its nil response is dereferenced. *)
Definition fetch_manifest (registry repo tag : string) : Client (Response * string) :=
  let url := manifest_url registry repo tag in
  resp <-! go_wrap (wrapf "fetch manifest") (httpGet url "") ;
  if (p_status resp =? 401)%Z then
    token <-! go_wrap (wrapf "auth") (fetchAuthToken registry repo) ;
    again <-! attempt (httpGet url token) ;
    match again with Some resp2 => go_ret (resp2, token) | None => go_panic end
  else go_ret (resp, "").

(** From the manifest on. *)
Definition pull_rest (ref registry repo token : string) (data : bytes) (m : Manifest) : Client unit :=
  if negb conn_ok then go_panic
  else
    let allDigests := m_Config m :: m_Layers m in
    pull_blobs registry repo token 0 (length allDigests) allDigests ;;!
    printf ("Digest: " +:+ digest_of data) ;;!
    printf ("Status: pull complete (" +:+ pretty (length allDigests) +:+ " layers)") ;;!
    created <-! do_call Now ;
    updated <-! do_call Now ;
    ok <-! do_call (ImageCreate (mkImage ref None
             (mkDescriptor manifest_type (digest_of data) (Z.of_nat (length data))) created updated)) ;
    if (ok : bool) then go_ret tt else printf "Note: image already registered".

Definition Pull (rawRef : string) : Client unit :=
  let ref := Normalize rawRef in
  printf ("Pulling " +:+ ref +:+ "...") ;;!
  let '(registry, repo, tag) := Nerdctl.parseRef ref in
  rt <-! fetch_manifest registry repo tag ;
  let '(resp, token) := rt in
  if negb (p_status resp =? 200)%Z then go_err ["fetch manifest"]
  else
    let data := p_body resp in
    match json_manifest JNerdctlManifest data with
    | None => go_err ["parse manifest"]
    | Some m => pull_rest ref registry repo token data m
    end.

Definition List : Client (list ImageInfo) :=
  all <-! do_call (ImageList []) ;
  match all with
  | None => go_err ["list images"]
  | Some l =>
      go_ret (map (fun img =>
        mkImageInfo (im_Name img) (d_Digest (im_Target img)) (d_Size (im_Target img)) (im_CreatedAt img)) l)
  end.

Definition Remove (rawRef : string) : Client unit :=
  let ref := Normalize rawRef in
  all <-! do_call (ImageList ["name==" +:+ ref]) ;
  match all with
  | None => go_err ["lookup image " +:+ ref]
  | Some [] => go_err ["image " +:+ ref +:+ " not found"]
  | Some (img :: _) => try_call [] (ImageDelete (im_Name img))
  end.

End nerdctl.

(** ** Lemmas: what a pull sends *)

(** The upload of [b] under the digest [d] of the manifest. *)
Definition digest_upload (d : string) (b : bytes) : list WriteReq :=
  upload_reqs ("pull-" +:+ str_take 32 d) d b.

Section lemmas.
Context {W : World}.

Lemma wp_quiet {A : Type} (P : event -> Prop) (m : Client A) (Q : list event -> res error A -> Prop) :
  emits P m -> (forall e, P e -> quiet [e]) -> wp m Q -> wp m (fun evs r => quiet evs /\ Q evs r).
Proof.
  intros He HP HQ. eapply wp_mono; [apply (emits_wp _ _ _ He HQ)|]. intros evs r [HF H]. split; [|done].
  clear -HF HP. induction HF as [|e evs He _ IH]; [done|]. apply (quiet_app [e]); auto.
Qed.

Definition is_http (e : event) : Prop :=
  match e with @Ev _ c _ => match c with HttpDo _ | Printf _ => True | _ => False end end.

Lemma is_http_quiet (e : event) : is_http e -> quiet [e].
Proof. destruct e as [T c a]. by destruct c. Qed.

Lemma httpGet_emits (url token : string) : emits is_http (httpGet url token).
Proof. unfold httpGet. emits. Qed.

Lemma fetch_manifest_emits (registry repo tag : string) : emits is_http (fetch_manifest registry repo tag).
Proof. unfold fetch_manifest, fetchAuthToken, do_nil. emits; apply httpGet_emits. Qed.

Lemma downloadBlob_wp (url token : string) :
  wp (downloadBlob url token) (fun evs r =>
    quiet evs /\ match r with Ok b => (url, b) ∈ fetched evs | _ => True end).
Proof.
  unfold downloadBlob, httpGetBody, httpGet. destruct (url_ok url); cbn [negb].
  - apply wp_bind, wp_bind, wp_call. intros [p|]; [apply wp_ret|by apply wp_err].
    destruct (p_status p =? 200)%Z eqn:Hs; cbn [negb]; [|by apply wp_err].
    destruct (read_all p) as [b|] eqn:Hb; [|by apply wp_err]. apply wp_ret. split; [done|].
    unfold fetched. cbn. rewrite Hs, Hb. by apply list_elem_of_singleton.
  - apply wp_bind. by apply wp_panic.
Qed.

(** A call that only talks over the content stream: an upload of [qs]. *)
Definition sends (qs : list WriteReq) (evs : list event) (r : res error unit) : Prop :=
  created evs = [] /\ fetched evs = [] /\ (r = Ok tt -> sent evs = qs).

Lemma wp_sends_bind (q1 q2 : list WriteReq) (m k : Client unit) :
  wp m (sends q1) -> wp k (sends q2) -> wp (go_bind m (fun _ => k)) (sends (q1 ++ q2)).
Proof.
  intros Hm Hk. apply wp_bind. eapply wp_mono; [exact Hm|]. intros e1 r1 (Hc1 & Hf1 & Hs1).
  destruct r1 as [[]|e|]; [|by split_and!..]. eapply wp_mono; [exact Hk|]. intros e2 r2 (Hc2 & Hf2 & Hs2).
  unfold sends. rewrite created_app, fetched_app, sent_app, Hc1, Hc2, Hf1, Hf2, Hs1 by done.
  split_and!; [done|done|]. by intros ->%Hs2.
Qed.

Lemma exchange_wp (what : string) (eof_ok : bool) (q : WriteReq) : wp (exchange what eof_ok q) (sends [q]).
Proof.
  unfold exchange. apply wp_bind, wp_try_call; [|done].
  apply wp_bind, wp_call. intros a. destruct a; [by apply wp_ret| |by apply wp_err].
  destruct eof_ok; [by apply wp_ret|by apply wp_err].
Qed.

Lemma exchange_all_wp (what : string) (qs : list WriteReq) : wp (exchange_all what qs) (sends qs).
Proof.
  induction qs as [|q qs IH]; cbn [exchange_all]; [by apply wp_ret|].
  apply (wp_sends_bind [q] qs); [apply exchange_wp|done].
Qed.

Lemma nerdctl_writeContent_wp (d : string) (b : bytes) : wp (writeContent d b) (sends (digest_upload d b)).
Proof.
  unfold writeContent. apply (wp_sends_bind [] (digest_upload d b)); [by apply wp_try_call|].
  apply wp_bind, wp_lift. unfold str_slice_to. destruct (32 <=? String.length d); [|done]. cbn [app].
  unfold digest_upload, upload_reqs. set (ref := "pull-" +:+ str_take 32 d).
  apply (wp_sends_bind [_] (chunk_reqs ref 0 (chunks_of mib b) ++ [commit_req ref d (length b)])); [apply exchange_wp|].
  apply wp_sends_bind; [apply exchange_all_wp|].
  apply (wp_sends_bind [_] []); [apply exchange_wp|]. by apply wp_try_call.
Qed.

(** What a completed loop over the digests leaves. *)
Definition uploaded (registry repo : string) (ds : list string) (evs : list event) : Prop :=
  exists blobs,
    Forall2 (fun d b => (blob_url registry repo d, b) ∈ fetched evs) ds blobs /\
    sent evs = concat (zip_with digest_upload ds blobs).

Lemma nerdctl_pull_blob_wp (registry repo token d : string) (i n : nat) :
  wp (pull_blob registry repo token d i n) (fun evs r =>
    created evs = [] /\
    (r = Ok tt -> exists b, (blob_url registry repo d, b) ∈ fetched evs /\ sent evs = digest_upload d b)).
Proof.
  unfold pull_blob. apply wp_bind, wp_lift. unfold str_slice_to.
  destruct (30 <=? String.length d); [|done]. apply wp_bind, wp_ignore. intros a0.
  apply wp_bind, wp_wrap. eapply wp_mono; [apply downloadBlob_wp|]. intros e1 r1 [[Hs1 Hc1] H1].
  assert (Hc : forall e, created ([] ++ [Ev (Printf e) a0] ++ e1) = []) by (intros e; by rewrite !created_app, Hc1).
  destruct r1 as [b|e|]; cbn [res_wrap]; [|split; [apply Hc|done]|split; [apply Hc|done]].
  apply wp_wrap. eapply wp_mono; [apply nerdctl_writeContent_wp|]. intros e2 r2 (Hc2 & Hf2 & Hs2).
  split; [by rewrite !created_app, Hc1, Hc2|]. intros Hr. exists b. rewrite !fetched_app, !sent_app, Hs1.
  split; [rewrite !elem_of_app; auto|]. destruct r2 as [[]|e|]; [|done|done]. by rewrite Hs2.
Qed.

Lemma nerdctl_pull_blobs_wp (registry repo token : string) (i n : nat) (ds : list string) :
  wp (pull_blobs registry repo token i n ds) (fun evs r =>
    created evs = [] /\ (r = Ok tt -> uploaded registry repo ds evs)).
Proof.
  revert i. induction ds as [|d ds IH]; intros i; cbn [pull_blobs].
  - apply wp_ret. split; [done|]. intros _. exists []. by split.
  - apply wp_bind. eapply wp_mono; [apply nerdctl_pull_blob_wp|]. intros e1 r1 [Hc1 H1].
    destruct r1 as [[]|e|]; [|done|done]. destruct (H1 eq_refl) as (b & Hf & Hs).
    eapply wp_mono; [apply IH|]. intros e2 r2 [Hc2 H2]. rewrite created_app, Hc1, Hc2. split; [done|].
    intros (blobs & HF & Hs2)%H2. exists (b :: blobs). rewrite sent_app, Hs, Hs2, fetched_app. split; [|done].
    constructor; [by apply elem_of_app; left|]. eapply Forall2_impl; [exact HF|].
    intros x y Hin. apply elem_of_app. by right.
Qed.

End lemmas.

(** What a completed pull leaves after the manifest [data]. *)
Definition pull_post (ref registry repo : string) (data : bytes) (m : Manifest) (evs : list event) : Prop :=
  uploaded registry repo (m_Config m :: m_Layers m) evs /\
  exists img, created evs = [img] /\ im_Name img = ref /\
    im_Target img = mkDescriptor manifest_type (digest_of data) (Z.of_nat (length data)).

(** Events that send nothing do not change what was uploaded. *)
Lemma uploaded_frame (A B : list event) (registry repo : string) (ds : list string) (evs : list event) :
  sent A = [] -> sent B = [] -> uploaded registry repo ds evs -> uploaded registry repo ds (A ++ evs ++ B).
Proof.
  intros HA HB (blobs & HF & Hs). exists blobs. rewrite !sent_app, HA, HB, app_nil_r. split; [|done].
  eapply Forall2_impl; [exact HF|]. intros x y Hin. rewrite !fetched_app, !elem_of_app. auto.
Qed.

Lemma nerdctl_pull_rest_wp {W : World} (ref registry repo token : string) (data : bytes) (m : Manifest) :
  wp (pull_rest ref registry repo token data m) (fun evs r =>
    match r with Ok _ => pull_post ref registry repo data m evs | _ => created evs = [] end).
Proof.
  unfold pull_rest. destruct conn_ok; cbn [negb]; [|by apply wp_panic].
  apply wp_bind. eapply wp_mono; [apply nerdctl_pull_blobs_wp|]. intros e1 r1 [Hc1 H1].
  destruct r1 as [[]|e|]; [|done|done]. specialize (H1 eq_refl).
  apply wp_bind, wp_ignore. intros a1. apply wp_bind, wp_ignore. intros a2.
  apply wp_bind, wp_call. intros t1. apply wp_bind, wp_call. intros t2. apply wp_bind, wp_call. intros ok.
  destruct ok; [apply wp_ret|apply wp_ignore; intros a3];
    (split; [apply (uploaded_frame []); done|]; rewrite created_app, Hc1; by eexists).
Qed.

(** ** Removing an image of mini-containerd *)

(** The images after a history, on a daemon that runs mini-containerd's image
    service; [now] is its clock. *)
Definition image_event (now : Z) (m : Images) (e : event) : Images :=
  match e with
  | @Ev _ c _ =>
      match c with
      | ImageCreate img => (svc_Create now (Some img) m).1
      | ImageDelete name => (svc_Delete name m).1
      | _ => m
      end
  end.

Definition images_after (now : Z) (m0 : Images) (h : list event) : Images := fold_left (image_event now) h m0.

Lemma images_after_snoc (now : Z) (m0 : Images) (h : list event) (e : event) :
  images_after now m0 (h ++ [e]) = image_event now (images_after now m0 h) e.
Proof. unfold images_after. by rewrite fold_left_app. Qed.

(** The client library passes the calls on to the service; [ord h] is the order
    of the loop over the images when a list is asked for after the history. *)
Record image_daemon (W : World) (now : Z) (m0 : Images) (ord : list event -> go_order) : Prop := {
  id_order : forall h, GoOrder (ord h);
  id_list : forall h fs, answer _ h (ImageList fs) = Some (svc_List (ord h) fs (images_after now m0 h));
  id_delete : forall h name,
    answer _ h (ImageDelete name) = res_is_ok (svc_Delete name (images_after now m0 h)).2
}.

Definition names_ok (m : Images) : Prop := forall k img, m !! k = Some img -> im_Name img = k.

(** ** Properties *)

(** C25: what mini-nerdctl's [Pull] does when it succeeds, whatever is answered:
    it uploaded the config and every layer of the manifest, in order, each
    fetched from the registry of the reference and sent under the manifest's
    digest, and nothing else; and it registered the normalized reference under
    the digest of the manifest, which itself was not uploaded.  When it fails
    or panics no image is registered. *)
Theorem nerdctl_Pull_spec {W : World} (rawRef : string) :
  let ref := Normalize rawRef in
  let '(registry, repo, tag) := Nerdctl.parseRef ref in
  wp (Pull rawRef) (fun evs r =>
    match r with
    | Ok _ => exists data m, json_manifest JNerdctlManifest data = Some m /\
                pull_post ref registry repo data m evs
    | _ => created evs = []
    end).
Proof.
  cbv zeta. unfold Pull. destruct (Nerdctl.parseRef (Normalize rawRef)) as [[registry repo] tag].
  apply wp_bind, wp_ignore. intros a0. apply wp_bind.
  eapply wp_mono; [apply (wp_quiet _ _ (fun _ _ => True) (fetch_manifest_emits registry repo tag) is_http_quiet)|].
  { intros h. unfold wp in *. destruct (fetch_manifest_emits registry repo tag h) as (evs & r & H & _). eauto. }
  intros e1 r1 [[Hs1 Hc1] _]. set (ev0 := [Ev (Printf _) a0]).
  assert (Hcr : forall e, created e = [] -> created (ev0 ++ e1 ++ e) = []) by (intros e He; by rewrite !created_app, Hc1, He).
  destruct r1 as [[resp token]|e|]; [|by rewrite created_app..].
  destruct (negb _); [apply wp_err; by apply Hcr|].
  destruct (json_manifest _ _) as [m|] eqn:Hm; [|apply wp_err; by apply Hcr].
  eapply wp_mono; [apply nerdctl_pull_rest_wp|]. intros e2 r2 H2. destruct r2 as [[]|e|]; [|by apply Hcr..].
  exists (p_body resp), m. split; [done|]. destruct H2 as (Hu & img & Hcre & Hi). split.
  - replace (ev0 ++ e1 ++ e2) with ((ev0 ++ e1) ++ e2 ++ []) by by rewrite app_nil_r, (assoc_L (++)).
    apply uploaded_frame; [by rewrite sent_app, Hs1|done|done].
  - exists img. by rewrite !created_app, Hc1, Hcre.
Qed.

(** C23: on mini-containerd, removing an image does not remove that image.  The
    service does not look at the filter of a list, so as soon as the daemon has
    any image every [Remove] succeeds and deletes the image that the loop over
    the map of images happened to visit first: for the same order the same image
    whatever reference it is given, and for some order any of the images; every
    other image stays. *)
Theorem Remove_ignores_reference {W : World} (now : Z) (m0 : Images) (ord : list event -> go_order) (h : list event) :
  image_daemon W now m0 ord ->
  let m := images_after now m0 h in
  names_ok m -> m <> ∅ ->
  (exists name, head (ord h (map_keys m)) = Some name /\ is_Some (m !! name) /\
    forall rawRef, exists h', Remove rawRef h = (h', Ok tt) /\ images_after now m0 h' = delete name m) /\
  (forall name, is_Some (m !! name) -> exists o, GoOrder o /\ head (o (map_keys m)) = Some name).
Proof.
  intros [Hord Hlist Hdel] m Hn Hne. split.
  - destruct (go_range_head (ord h) m Hne) as (name & img & imgs & Hhead & Hi & Hr).
    exists name. split; [done|]. split; [by eexists|].
    intros rawRef. unfold Remove, go_bind, do_call. rewrite Hlist. fold m. unfold svc_List, List_images. rewrite Hr.
    cbn [map]. unfold try_call, go_bind, do_call. rewrite Hdel.
    assert (Hm : forall l, images_after now m0 (h ++ [Ev (ImageList ["name==" +:+ Normalize rawRef]) (Some l)]) = m).
    { intros l. by rewrite images_after_snoc. }
    rewrite Hm. change (im_Name (ToGRPC img)) with (im_Name img). rewrite (Hn _ _ Hi).
    assert (Hd : svc_Delete name m = (delete name m, Ok tt)) by (unfold svc_Delete, go_wrap, Delete; by rewrite Hi).
    rewrite Hd. cbn [snd res_is_ok]. eexists. split; [reflexivity|].
    rewrite images_after_snoc, Hm. cbn. by rewrite Hd.
  - intros name Hname. destruct (go_order_first name) as (o & Ho & Hf). exists o. split; [done|].
    apply Hf. by apply elem_of_map_keys.
Qed.

(** ** Witness *)

Definition demo_image (name : string) : Image := mkImage name None no_target 1 1.
Definition demo_images : Images :=
  <["docker.io/library/b:latest" := demo_image "docker.io/library/b:latest"]>
  (<["docker.io/library/a:latest" := demo_image "docker.io/library/a:latest"]> ∅).

(** A daemon whose loops run through the map one way. *)
Definition demo_images_world : World := {|
  answer := fun T h c =>
    match c in Call T return T with
    | ImageList fs => Some (svc_List (fun ks => ks) fs (images_after 1 demo_images h))
    | ImageDelete name => res_is_ok (svc_Delete name (images_after 1 demo_images h)).2
    | c => failing c
    end;
  url_ok := fun _ => true;
  json_manifest := fun _ _ => None;
  json_token := fun _ => ("", false);
  conn_ok := true
|}.

(** Removing "c", which is not there, removes one of the two images, the one
    that removing "a" and removing "b" remove. *)
Lemma Remove_ignores_reference_witness :
  exists name, is_Some (demo_images !! name) /\
    forall rawRef, exists h', Remove (W := demo_images_world) rawRef [] = (h', Ok tt) /\
      images_after 1 demo_images h' = delete name demo_images.
Proof.
  destruct (Remove_ignores_reference (W := demo_images_world) 1 demo_images (fun _ ks => ks) []) as ((name & _ & Hi & Hr) & _).
  - split; [intros h; apply go_order_any|done|done].
  - unfold images_after, demo_images. cbn [fold_left].
    intros k img [[<- <-]|[_ [[<- <-]|[_ H]]%lookup_insert_Some]]%lookup_insert_Some; [done|done|].
    by rewrite lookup_empty in H.
  - apply insert_non_empty.
  - exists name. split; [exact Hi|exact Hr].
Defined.
