(* ===== verification/Services.v ===== *)
(** * The metadata services: mini-containerd/internal/containers/store.go,
    mini-containerd/internal/services/services.go

    Two gRPC services keep records of the generated API by name: containers and
    namespaces.  What a client relies on is the interface [Crud]: whatever a
    service answers, its records evolve like a finite map.  The services
    implement it, and one refinement theorem serves both.  The remaining
    services of the handshake answer with constants. *)

From S2P Require Import Prelude.
From S2P Require Import Grpc.
Open Scope go_scope.

(** A status with a code, and no cause. *)
Abbreviation status := (rpc_error Empty_set).

(** ** The interface *)

Inductive CrudOp (R : Type) : Type :=
| OpCreate (r : R)
| OpUpdate (r : R)
| OpDelete (key : string).
Arguments OpCreate {R} r.
Arguments OpUpdate {R} r.
Arguments OpDelete {R} key.

(** The abstract service: a create does not replace, an update does not
    create. *)
Definition crud_spec {R : Type} (key : R -> string) (op : CrudOp R) (m : gmap string R) : gmap string R :=
  match op with
  | OpCreate r => match m !! key r with Some _ => m | None => <[key r := r]> m end
  | OpUpdate r => match m !! key r with Some _ => <[key r := r]> m | None => m end
  | OpDelete k => delete k m
  end.

Class Crud (S R : Type) : Type := {
  crud_key : R -> string;
  crud_view : S -> gmap string R;
  crud_run : CrudOp R -> S -> S;
  crud_get : string -> S -> res status R;
  crud_list : S -> list R;
  crud_run_spec : forall op s, crud_view (crud_run op s) = crud_spec crud_key op (crud_view s);
  crud_get_spec : forall k s,
    crud_get k s = match crud_view s !! k with Some r => Ok r | None => rpc_fail NotFound end;
  crud_list_spec : forall s, crud_list s = map snd (map_to_list (crud_view s))
}.

(** ** Containers *)

Section containers.
Context {Container : Type} (ID : Container -> string).

Record ContainerStore : Type := mkContainerStore { cs_data : gmap string Container }.

Definition NewContainerStore : ContainerStore := mkContainerStore ∅.

Definition container_Get (id : string) (s : ContainerStore) : res status Container :=
  match cs_data s !! id with Some c => Ok c | None => rpc_fail NotFound end.

Definition container_List (s : ContainerStore) : list Container := map snd (map_to_list (cs_data s)).

Definition container_ListStream (ok : nat -> bool) (s : ContainerStore) : list Container * res status unit :=
  send_all ok 0 (map snd (map_to_list (cs_data s))).

Definition container_Create (req : option Container) : GoM ContainerStore status Container := fun s =>
  match req with
  | None => (s, rpc_fail InvalidArgument)
  | Some c =>
      match cs_data s !! ID c with
      | Some _ => (s, rpc_fail AlreadyExists)
      | None => (mkContainerStore (<[ID c := c]> (cs_data s)), Ok c)
      end
  end.

Definition container_Update (req : option Container) : GoM ContainerStore status Container := fun s =>
  match req with
  | None => (s, rpc_fail InvalidArgument)
  | Some c =>
      match cs_data s !! ID c with
      | None => (s, rpc_fail NotFound)
      | Some _ => (mkContainerStore (<[ID c := c]> (cs_data s)), Ok c)
      end
  end.

Definition container_Delete (id : string) : GoM ContainerStore status unit := fun s =>
  match cs_data s !! id with
  | None => (s, rpc_fail NotFound)
  | Some _ => (mkContainerStore (delete id (cs_data s)), Ok tt)
  end.

#[export] Program Instance containers_crud : Crud ContainerStore Container := {|
  crud_key := ID;
  crud_view := cs_data;
  crud_run := fun op s =>
    match op with
    | OpCreate c => (container_Create (Some c) s).1
    | OpUpdate c => (container_Update (Some c) s).1
    | OpDelete k => (container_Delete k s).1
    end;
  crud_get := container_Get;
  crud_list := container_List
|}.
Next Obligation.
  intros [c|c|k] s; cbn; [by destruct (cs_data s !! ID c)..|].
  unfold container_Delete. destruct (cs_data s !! k) eqn:Hk; cbn [fst cs_data]; [reflexivity|]. symmetry. by apply delete_id.
Qed.
Next Obligation. done. Qed.
Next Obligation. done. Qed.

End containers.

(** ** Namespaces *)

Section namespaces.
Context {Namespace : Type} (Name : Namespace -> string) (named : string -> Namespace).

Record NamespaceStore : Type := mkNamespaceStore { ns_data : gmap string Namespace }.

(** [named] makes a namespace with just a name. *)
Definition NewNamespaceStore : NamespaceStore := mkNamespaceStore {["default" := named "default"]}.

Definition namespace_Get (name : string) (s : NamespaceStore) : res status Namespace :=
  match ns_data s !! name with Some n => Ok n | None => rpc_fail NotFound end.

Definition namespace_List (s : NamespaceStore) : list Namespace := map snd (map_to_list (ns_data s)).

(** A taken name is answered with the namespace that is there; a request
    without a namespace is a nil dereference. *)
Definition namespace_Create (req : option Namespace) : GoM NamespaceStore status Namespace := fun s =>
  match req with
  | None => (s, Panic)
  | Some n =>
      match ns_data s !! Name n with
      | Some n0 => (s, Ok n0)
      | None => (mkNamespaceStore (<[Name n := n]> (ns_data s)), Ok n)
      end
  end.

Definition namespace_Update (req : option Namespace) : GoM NamespaceStore status Namespace := fun s =>
  match req with
  | None => (s, Panic)
  | Some n =>
      match ns_data s !! Name n with
      | None => (s, rpc_fail NotFound)
      | Some _ => (mkNamespaceStore (<[Name n := n]> (ns_data s)), Ok n)
      end
  end.

Definition namespace_Delete (name : string) : GoM NamespaceStore status unit := fun s =>
  (mkNamespaceStore (delete name (ns_data s)), Ok tt).

#[export] Program Instance namespaces_crud : Crud NamespaceStore Namespace := {|
  crud_key := Name;
  crud_view := ns_data;
  crud_run := fun op s =>
    match op with
    | OpCreate n => (namespace_Create (Some n) s).1
    | OpUpdate n => (namespace_Update (Some n) s).1
    | OpDelete k => (namespace_Delete k s).1
    end;
  crud_get := namespace_Get;
  crud_list := namespace_List
|}.
Next Obligation. intros [n|n|k] s; cbn; [by destruct (ns_data s !! Name n)..|done]. Qed.
Next Obligation. done. Qed.
Next Obligation. done. Qed.

End namespaces.

(** ** The rest of the handshake *)

Definition Version : string * string := ("v2.0.0-mini", "mini-containerd").

(** A lease is an identifier, and none is kept. *)
Definition lease_Create (id : string) : res status string := Ok id.
Definition lease_Delete (id : string) : res status unit := Ok tt.
Definition lease_List : res status (list string) := Ok [].
Definition lease_AddResource : res status unit := Ok tt.
Definition lease_DeleteResource : res status unit := Ok tt.
Definition lease_ListResources : res status (list string) := Ok [].

Definition event_Publish : res status unit := Ok tt.
Definition event_Forward : res status unit := Ok tt.

(** [<-stream.Context().Done()]: [None] while the client has not cancelled. *)
Definition event_Subscribe (cancelled : bool) : option (res status unit) :=
  if cancelled then Some (Ok tt) else None.

(** The identifier and the type of each plugin. *)
Definition Plugins : list (string * string) :=
  [("content", "io.containerd.content.v1");
   ("snapshots", "io.containerd.snapshotter.v1");
   ("tasks", "io.containerd.task.v2")].

(** An empty response. *)
Definition introspection_Server : res status unit := Ok tt.

Definition Transfer : res status unit := Ok tt.

(** ** Refinement, for every service *)

Section refinement.
Context {S R : Type} `{!Crud S R}.

Definition run_ops (ops : list (CrudOp R)) (s : S) : S := fold_left (fun s op => crud_run op s) ops s.

Definition spec_ops (ops : list (CrudOp R)) (m : gmap string R) : gmap string R :=
  fold_left (fun m op => crud_spec crud_key op m) ops m.

Lemma run_ops_view (ops : list (CrudOp R)) (s : S) :
  crud_view (run_ops ops s) = spec_ops ops (crud_view s).
Proof.
  revert s. induction ops as [|op ops IH]; intros s; [done|].
  cbn [run_ops spec_ops fold_left]. unfold run_ops, spec_ops in IH. by rewrite IH, crud_run_spec.
Qed.

(** A service that keeps records refines the abstract service: after any
    requests, a get answers the record the abstract map has or NotFound, and a
    list answers exactly its records, each once. *)
Lemma crud_refines (ops : list (CrudOp R)) (s : S) (k : string) :
  crud_get k (run_ops ops s) =
    match spec_ops ops (crud_view s) !! k with Some r => Ok r | None => rpc_fail NotFound end /\
  crud_list (run_ops ops s) = map snd (map_to_list (spec_ops ops (crud_view s))).
Proof. by rewrite crud_get_spec, crud_list_spec, run_ops_view. Qed.

End refinement.

(** ** Properties *)

(** C33: both metadata services refine the abstract one.  After any sequence of
    create, update and delete requests from an empty daemon (one with the
    namespace "default"), whatever the requests were answered, a get answers the
    record the finite map holds or NotFound, and a list answers exactly the
    map's records. *)
Theorem metadata_services_refine {C N : Type} (ID : C -> string) (Name : N -> string) (named : string -> N)
    (cops : list (CrudOp C)) (nops : list (CrudOp N)) (k : string) :
  let cs := run_ops (Crud0 := containers_crud ID) cops NewContainerStore in
  let cm := spec_ops (Crud0 := containers_crud ID) cops ∅ in
  let ns := run_ops (Crud0 := namespaces_crud Name) nops (NewNamespaceStore named) in
  let nm := spec_ops (Crud0 := namespaces_crud Name) nops {["default" := named "default"]} in
  container_Get k cs = match cm !! k with Some c => Ok c | None => rpc_fail NotFound end /\
  container_List cs = map snd (map_to_list cm) /\
  namespace_Get k ns = match nm !! k with Some n => Ok n | None => rpc_fail NotFound end /\
  namespace_List ns = map snd (map_to_list nm).
Proof.
  cbv zeta.
  destruct (crud_refines (Crud0 := containers_crud ID) cops NewContainerStore k) as [H1 H2].
  destruct (crud_refines (Crud0 := namespaces_crud Name) nops (NewNamespaceStore named) k) as [H3 H4].
  by split_and!.
Qed.

(** On the two services, with records that are their own names. *)
Example crud_demo :
  let c := containers_crud (fun x : string => x) in
  let n := namespaces_crud (fun x : string => x) in
  let ops := [OpCreate "a"; OpCreate "b"; OpDelete "a"; OpUpdate "a"] in
  (crud_get (Crud := c) "a" (run_ops (Crud0 := c) ops NewContainerStore),
   crud_list (Crud := n) (run_ops (Crud0 := n) ops (NewNamespaceStore (fun x => x))))
  = (rpc_fail NotFound, ["b"; "default"]).
Proof. vm_compute. reflexivity. Qed.
