(* ===== verification/Daemon.v ===== *)
(** * The daemon: mini-containerd/cmd/containerd/main.go

    The services of mini-containerd, composed the way [main] composes them: one
    state with the stores of all services, one typed request per method of the
    gRPC API, answered by the handlers of the components.  A stream of content
    writes is a handler in flight that takes one message per step, so streams
    and calls of any number of clients interleave.  A handler that panics takes
    the process down, since the server does not recover panics.

    The content store and the snapshotter keep their files in different
    directories, and each has the file system it sees in its own record. *)

From S2P Require Import Prelude.
From S2P Require Import GoStrings.
From S2P Require Import Sha256.
From S2P Require Import FileSystem.
From S2P Require Import Grpc.
From S2P Require Import Snapshot.
From S2P Require Import Task.
From S2P Require Import ContentStore.
From S2P Require Import ContentService.
From S2P Require Import World.
From S2P Require Import ContainerdImage.
From S2P Require Import Services.
Open Scope go_scope.

(** ** The state *)

(** The messages of the generated API that the metadata services keep, with
    their identifying fields; [named] sets just the name. *)
Class Api : Type := {
  Container : Type;
  Namespace : Type;
  ID : Container -> string;
  Name : Namespace -> string;
  named : string -> Namespace;
  Name_named : forall s, Name (named s) = s
}.

(** [srv_content] and [srv_snap] are pointers, nil when [NewStore] or
    [NewSnapshotter] failed.  [srv_streams] holds the variables of the content
    writes in flight. *)
Record Server `{Api} : Type := mkServer {
  srv_content : option Store;
  srv_snap : option Snapshotter;
  srv_images : Images;
  srv_tasks : Manager;
  srv_containers : @ContainerStore Container;
  srv_namespaces : @NamespaceStore Namespace;
  srv_streams : gmap nat WriteVars;
  srv_next : nat
}.

(** What a handler sees of the machine: failing system calls, the clock, which
    sends of a stream succeed, how far loops without a bound have gone, how
    processes start and take signals, and the order of a loop over a map. *)
Record Env : Type := mkEnv {
  e_io : faults;
  e_now : Z;
  e_send : nat -> bool;
  e_fuel : nat;
  e_start : Cmd -> option Z;
  e_environ : list string;
  e_deliver : Z -> Z -> bool;
  e_order : go_order
}.

(** The outcome of a step of a handler: its answer; no answer, because it waits
    or because a loop has not ended; a panic. *)
Inductive outcome (T : Type) : Type :=
| Answered (t : T)
| Blocked
| Crashed.
Arguments Answered {T} t.
Arguments Blocked {T}.
Arguments Crashed {T}.

Definition of_res {E A : Type} (r : res E A) : outcome (res E A) :=
  match r with Panic => Crashed | r => Answered r end.

Definition of_stream {E A : Type} (r : list A * res E unit) : outcome (list A * res E unit) :=
  match r.2 with Panic => Crashed | _ => Answered r end.

(** A loop of the snapshotter that has not ended is no answer. *)
Definition of_snap {A : Type} (r : res (rpc_error SnapErr) A) : outcome (res (rpc_error SnapErr) A) :=
  match r with Err (RpcStatus _ (Some OutOfFuel)) => Blocked | r => of_res r end.

(** What one message does to a content write: the responses sent, and the
    status once the handler has returned. *)
Definition written : Type := list WriteResp * option (res svc_error unit).

(** ** The API: one request per method, with the type of its answer *)

Inductive Rpc `{Api} : Type -> Type :=
(* content *)
| ContentInfo (digest : string) : Rpc (res svc_error BlobInfoPb)
| ContentUpdate (req : option (string * option (gmap string string))) : Rpc (res svc_error BlobInfoPb)
| ContentList (filters : list string) : Rpc (list BlobInfoPb * res svc_error unit)
| ContentDelete (digest : string) : Rpc (res svc_error unit)
| ContentRead (digest : string) (offset size : Z) : Rpc (list (Z * bytes) * res svc_error unit)
| ContentStatus (ref : string) : Rpc (res svc_error ContentService.StatusPb)
| ContentListStatuses : Rpc (list ContentService.StatusPb)
| ContentWrite : Rpc nat
| ContentWriteMsg (stream : nat) (msg : option recv) : Rpc written
(* snapshots *)
| SnapPrepare (key parent : string) : Rpc (res (rpc_error SnapErr) (list Mount))
| SnapView (key parent : string) : Rpc (res (rpc_error SnapErr) (list Mount))
| SnapMounts (key : string) : Rpc (res (rpc_error SnapErr) (list Mount))
| SnapCommit (key name : string) : Rpc (res (rpc_error SnapErr) unit)
| SnapRemove (key : string) : Rpc (res (rpc_error SnapErr) unit)
| SnapStat (key : string) : Rpc (res (rpc_error SnapErr) SnapshotInfo)
| SnapUpdate (req : option InfoPb) : Rpc (res (rpc_error SnapErr) InfoPb)
| SnapList (snapshotter : string) : Rpc (list InfoPb * res (rpc_error SnapErr) unit)
| SnapUsage (key : string) : Rpc (res (rpc_error SnapErr) (Z * Z))
| SnapCleanup : Rpc (res (rpc_error SnapErr) unit)
(* images *)
| ImagesGet (name : string) : Rpc (res img_error Image)
| ImagesList (filters : list string) : Rpc (list Image)
| ImagesCreate (img : option Image) : Rpc (res img_error Image)
| ImagesUpdate (img : option Image) : Rpc (res img_error Image)
| ImagesDelete (name : string) : Rpc (res img_error unit)
(* tasks *)
| TasksCreate (container stdin : string) : Rpc (res (rpc_error TaskErr) (string * Z))
| TasksStart (container exec : string) : Rpc (res (rpc_error TaskErr) Z)
| TasksDelete (container : string) : Rpc (res (rpc_error TaskErr) unit)
| TasksDeleteProcess : Rpc (res (rpc_error TaskErr) unit)
| TasksGet (container : string) : Rpc (res (rpc_error TaskErr) ProcessPb)
| TasksList : Rpc (list ProcessPb)
| TasksKill (container : string) (signal : Z) : Rpc (res (rpc_error TaskErr) unit)
| TasksExec : Rpc (res (rpc_error TaskErr) unit)
| TasksPause (container : string) : Rpc (res (rpc_error TaskErr) unit)
| TasksResume (container : string) : Rpc (res (rpc_error TaskErr) unit)
| TasksWait (container : string) : Rpc (res (rpc_error TaskErr) (Z * Z))
| TasksListPids (container : string) : Rpc (res (rpc_error TaskErr) (list Z))
| TasksCheckpoint : Rpc (res (rpc_error TaskErr) unit)
| TasksUpdate : Rpc (res (rpc_error TaskErr) unit)
| TasksMetrics : Rpc (res (rpc_error TaskErr) unit)
| TasksResizePty : Rpc (res (rpc_error TaskErr) unit)
| TasksCloseIO : Rpc (res (rpc_error TaskErr) unit)
(* containers *)
| ContainersGet (id : string) : Rpc (res status Container)
| ContainersList : Rpc (list Container)
| ContainersListStream : Rpc (list Container * res status unit)
| ContainersCreate (c : option Container) : Rpc (res status Container)
| ContainersUpdate (c : option Container) : Rpc (res status Container)
| ContainersDelete (id : string) : Rpc (res status unit)
(* namespaces *)
| NamespacesGet (name : string) : Rpc (res status Namespace)
| NamespacesList : Rpc (list Namespace)
| NamespacesCreate (n : option Namespace) : Rpc (res status Namespace)
| NamespacesUpdate (n : option Namespace) : Rpc (res status Namespace)
| NamespacesDelete (name : string) : Rpc (res status unit)
(* the rest of the handshake *)
| VersionGet : Rpc (string * string)
| LeasesCreate (id : string) : Rpc (res status string)
| LeasesDelete (id : string) : Rpc (res status unit)
| LeasesList : Rpc (res status (list string))
| LeasesAddResource : Rpc (res status unit)
| LeasesDeleteResource : Rpc (res status unit)
| LeasesListResources : Rpc (res status (list string))
| EventsPublish : Rpc (res status unit)
| EventsForward : Rpc (res status unit)
| EventsSubscribe (cancelled : bool) : Rpc (res status unit)
| IntrospectionPlugins : Rpc (list (string * string))
| IntrospectionServer : Rpc (res status unit)
| TransferTransfer : Rpc (res status unit).

Section daemon.
Context `{Api} (env : Env).

(** ** Running a handler of a component *)

Definition set_content (c : option Store) (s : Server) : Server :=
  mkServer _ c (srv_snap s) (srv_images s) (srv_tasks s) (srv_containers s) (srv_namespaces s)
    (srv_streams s) (srv_next s).
Definition set_snap (n : option Snapshotter) (s : Server) : Server :=
  mkServer _ (srv_content s) n (srv_images s) (srv_tasks s) (srv_containers s) (srv_namespaces s)
    (srv_streams s) (srv_next s).
Definition set_images (m : Images) (s : Server) : Server :=
  mkServer _ (srv_content s) (srv_snap s) m (srv_tasks s) (srv_containers s) (srv_namespaces s)
    (srv_streams s) (srv_next s).
Definition set_tasks (m : Manager) (s : Server) : Server :=
  mkServer _ (srv_content s) (srv_snap s) (srv_images s) m (srv_containers s) (srv_namespaces s)
    (srv_streams s) (srv_next s).
Definition set_containers (m : ContainerStore) (s : Server) : Server :=
  mkServer _ (srv_content s) (srv_snap s) (srv_images s) (srv_tasks s) m (srv_namespaces s)
    (srv_streams s) (srv_next s).
Definition set_namespaces (m : NamespaceStore) (s : Server) : Server :=
  mkServer _ (srv_content s) (srv_snap s) (srv_images s) (srv_tasks s) (srv_containers s) m
    (srv_streams s) (srv_next s).
Definition set_streams (m : gmap nat WriteVars) (next : nat) (s : Server) : Server :=
  mkServer _ (srv_content s) (srv_snap s) (srv_images s) (srv_tasks s) (srv_containers s)
    (srv_namespaces s) m next.

(** The first use of a nil pointer is a nil dereference. *)
Definition in_content {T : Type} (m : Store -> Store * outcome T) (s : Server) : Server * outcome T :=
  match srv_content s with
  | None => (s, Crashed)
  | Some c => let '(c', o) := m c in (set_content (Some c') s, o)
  end.

Definition in_snap {A : Type} (m : GoM Snapshotter (rpc_error SnapErr) A) (s : Server) :
    Server * outcome (res (rpc_error SnapErr) A) :=
  match srv_snap s with
  | None => (s, Crashed)
  | Some n => let '(n', r) := m n in (set_snap (Some n') s, of_snap r)
  end.

Definition in_images {A : Type} (m : GoM Images img_error A) (s : Server) : Server * outcome (res img_error A) :=
  let '(i, r) := m (srv_images s) in (set_images i s, of_res r).

Definition in_tasks {A : Type} (m : GoM Manager (rpc_error TaskErr) A) (s : Server) :
    Server * outcome (res (rpc_error TaskErr) A) :=
  let '(t, r) := m (srv_tasks s) in (set_tasks t s, of_res r).

Definition in_containers {A : Type} (m : GoM ContainerStore status A) (s : Server) : Server * outcome (res status A) :=
  let '(c, r) := m (srv_containers s) in (set_containers c s, of_res r).

Definition in_namespaces {A : Type} (m : GoM NamespaceStore status A) (s : Server) : Server * outcome (res status A) :=
  let '(n, r) := m (srv_namespaces s) in (set_namespaces n s, of_res r).

(** A handler that only reads. *)
Definition reading {S T : Type} (f : S -> outcome T) : S -> S * outcome T := fun s => (s, f s).

(** ** The write stream, one message at a time *)

(** An iteration of the loop of [Write]: the end of the stream and an error of
    [Recv] return; a request is answered and the loop goes on, unless it was a
    commit or the answer cannot be sent. *)
Definition write_msg (v : WriteVars) (msg : option recv) (s : Store) :
    Store * outcome (written * option WriteVars) :=
  match msg with
  | None => (s, Answered (([], Some (Ok tt)), None))
  | Some RecvErr => (s, Answered (([], Some (Err RpcStream)), None))
  | Some (RecvReq req) =>
      match on_request (e_io env) (e_now env) req v s with
      | (s', Err e) => (s', Answered (([], Some (Err e)), None))
      | (s', Panic) => (s', Crashed)
      | (s', Ok (resp, next)) =>
          if negb (e_send env 0) then (s', Answered (([], Some (Err RpcStream)), None))
          else
            match next with
            | None => (s', Answered (([resp], Some (Ok tt)), None))
            | Some v' => (s', Answered (([resp], None), Some v'))
            end
      end
  end.

(** Requests that are refused before the store is used. *)
Definition write_msg_nil (v : WriteVars) (msg : option recv) : outcome (written * option WriteVars) :=
  match msg with
  | None => Answered (([], Some (Ok tt)), None)
  | Some RecvErr => Answered (([], Some (Err RpcStream)), None)
  | Some (RecvReq req) =>
      if negb (String.eqb (v_ref v) "" && String.eqb (q_Ref req) "") then Crashed
      else
        match q_Action req with
        | ActionSTAT => Crashed
        | _ => Answered (([], Some (rpc_fail InvalidArgument)), None)
        end
  end.

(** A message to a stream that has ended is dropped. *)
Definition content_write (id : nat) (msg : option recv) (s : Server) : Server * outcome written :=
  match srv_streams s !! id with
  | None => (s, Answered ([], None))
  | Some v =>
      let '(c, o) :=
        match srv_content s with
        | None => (None, write_msg_nil v msg)
        | Some c => let '(c', o) := write_msg v msg c in (Some c', o)
        end in
      let s1 := set_content c s in
      match o with
      | Answered (w, Some v') => (set_streams (<[id := v']> (srv_streams s)) (srv_next s) s1, Answered w)
      | Answered (w, None) => (set_streams (delete id (srv_streams s)) (srv_next s) s1, Answered w)
      | Blocked => (s1, Blocked)
      | Crashed => (s1, Crashed)
      end
  end.

(** ** Dispatch *)

Definition handle {T : Type} (q : Rpc T) : Server -> Server * outcome T :=
  match q in Rpc T return Server -> Server * outcome T with
  | ContentInfo d => in_content (reading (fun c => of_res (svc_Info d c)))
  | ContentUpdate None => fun s => (s, Answered (rpc_fail InvalidArgument))
  | ContentUpdate (Some req) =>
      in_content (fun c => let '(c', r) := ContentService.svc_Update (e_now env) (Some req) c in (c', of_res r))
  | ContentList fs => in_content (reading (fun c => of_stream (ContentService.svc_List (e_send env) fs c)))
  | ContentDelete d =>
      in_content (fun c => let '(c', r) := ContentService.svc_Delete (e_io env) d c in (c', of_res r))
  | ContentRead d off size =>
      in_content (reading (fun c =>
        match svc_Read (e_io env) (e_send env) (e_fuel env) d off size c with
        | None => Blocked
        | Some r => of_stream r
        end))
  | ContentStatus ref => in_content (reading (fun c => of_res (svc_Status ref c)))
  | ContentListStatuses => in_content (reading (fun c => Answered (svc_ListStatuses c)))
  | ContentWrite => fun s =>
      (set_streams (<[srv_next s := mkVars "" "" false]> (srv_streams s)) (S (srv_next s)) s, Answered (srv_next s))
  | ContentWriteMsg id msg => content_write id msg
  | SnapPrepare key parent => in_snap (svc_Prepare (e_io env) (e_fuel env) (e_now env) key parent)
  | SnapView key parent => in_snap (svc_View (e_fuel env) (e_now env) key parent)
  | SnapMounts key => in_snap (svc_Mounts (e_fuel env) key)
  | SnapCommit key name => in_snap (svc_Commit (e_io env) (e_now env) key name)
  | SnapRemove key => in_snap (svc_Remove (e_io env) key)
  | SnapStat key => in_snap (svc_Stat key)
  | SnapUpdate None => fun s => (s, Answered (rpc_fail InvalidArgument))
  | SnapUpdate (Some i) => in_snap (Snapshot.svc_Update (e_now env) (Some i))
  | SnapList snapshotter => fun s =>
      match srv_snap s with
      | None => (s, Crashed)
      | Some n => (s, of_stream (Snapshot.svc_List (e_send env) snapshotter n))
      end
  | SnapUsage key => in_snap (svc_Usage key)
  | SnapCleanup => fun s => (s, Answered (Ok tt))
  | ImagesGet name => in_images (fun m => (m, ContainerdImage.svc_Get name m))
  | ImagesList fs => fun s => (s, Answered (ContainerdImage.svc_List (e_order env) fs (srv_images s)))
  | ImagesCreate img => in_images (ContainerdImage.svc_Create (e_now env) img)
  | ImagesUpdate img => in_images (ContainerdImage.svc_Update img)
  | ImagesDelete name => in_images (ContainerdImage.svc_Delete name)
  | TasksCreate c stdin => in_tasks (Task.svc_Create (e_start env) (e_environ env) (e_now env) c stdin)
  | TasksStart c x => in_tasks (svc_Start (e_now env) c x)
  | TasksDelete c => in_tasks (Task.svc_Delete c)
  | TasksDeleteProcess => in_tasks svc_DeleteProcess
  | TasksGet c => in_tasks (fun m => (m, Task.svc_Get (e_now env) c m))
  | TasksList => fun s => (s, Answered (Task.svc_List (e_now env) (srv_tasks s)))
  | TasksKill c sig => in_tasks (svc_Kill (e_deliver env) c sig)
  | TasksExec => in_tasks svc_Exec
  | TasksPause c => in_tasks (svc_Pause c)
  | TasksResume c => in_tasks (svc_Resume c)
  | TasksWait c => fun s =>
      let '(t, r) := svc_Wait (e_now env) c (srv_tasks s) in
      (set_tasks t s,
       match r with
       | SvcBlocks => Blocked
       | SvcReturned code at_ => Answered (Ok (code, at_))
       | SvcFailed e => Answered (Err e)
       end)
  | TasksListPids c => in_tasks (fun m => (m, svc_ListPids c m))
  | TasksCheckpoint => in_tasks svc_Checkpoint
  | TasksUpdate => in_tasks Task.svc_Update
  | TasksMetrics => in_tasks svc_Metrics
  | TasksResizePty => in_tasks svc_noop
  | TasksCloseIO => in_tasks svc_noop
  | ContainersGet id => in_containers (fun m => (m, container_Get id m))
  | ContainersList => fun s => (s, Answered (container_List (srv_containers s)))
  | ContainersListStream => fun s => (s, of_stream (container_ListStream (e_send env) (srv_containers s)))
  | ContainersCreate c => in_containers (container_Create ID c)
  | ContainersUpdate c => in_containers (container_Update ID c)
  | ContainersDelete id => in_containers (container_Delete id)
  | NamespacesGet name => in_namespaces (fun m => (m, namespace_Get name m))
  | NamespacesList => fun s => (s, Answered (namespace_List (srv_namespaces s)))
  | NamespacesCreate n => in_namespaces (namespace_Create Name n)
  | NamespacesUpdate n => in_namespaces (namespace_Update Name n)
  | NamespacesDelete name => in_namespaces (namespace_Delete name)
  | VersionGet => fun s => (s, Answered Version)
  | LeasesCreate id => fun s => (s, of_res (lease_Create id))
  | LeasesDelete id => fun s => (s, of_res (lease_Delete id))
  | LeasesList => fun s => (s, of_res lease_List)
  | LeasesAddResource => fun s => (s, of_res lease_AddResource)
  | LeasesDeleteResource => fun s => (s, of_res lease_DeleteResource)
  | LeasesListResources => fun s => (s, of_res lease_ListResources)
  | EventsPublish => fun s => (s, of_res event_Publish)
  | EventsForward => fun s => (s, of_res event_Forward)
  | EventsSubscribe cancelled => fun s =>
      (s, match event_Subscribe cancelled with None => Blocked | Some r => of_res r end)
  | IntrospectionPlugins => fun s => (s, Answered Plugins)
  | IntrospectionServer => fun s => (s, of_res introspection_Server)
  | TransferTransfer => fun s => (s, of_res Transfer)
  end.

End daemon.

(** ** Start-up and shutdown *)

Definition defaultSocket : string := "/tmp/mini-containerd/containerd.sock".
Definition dataRoot : string := "/tmp/mini-containerd/data".
Definition content_root : string := "/tmp/mini-containerd/data/content".
Definition snapshot_root : string := "/tmp/mini-containerd/data/snapshot".

(** [defaultSocket[:len(defaultSocket)-len("/containerd.sock")]]. *)
Definition socket_dir : string :=
  str_take (String.length defaultSocket - String.length "/containerd.sock") defaultSocket.

(** The life of the process: serving requests, then gone with an exit status. *)
Inductive process `{Api} : Type :=
| Serving (s : Server)
| Exited (status : Z).

Section main.
Context `{Api}.

(** The errors of [MkdirAll], [NewStore] and [NewSnapshotter] are dropped. *)
Definition start_server (io : faults) (mtime : path -> Z) (f : fs) : Server :=
  let f0 := default f (os_mkdir_all io (path_elems dataRoot) f) in
  mkServer _
    (match NewStore io mtime content_root f0 with Ok c => Some c | _ => None end)
    (match NewSnapshotter io snapshot_root f0 with Ok n => Some n | _ => None end)
    ∅ NewManager NewContainerStore (NewNamespaceStore named) ∅ 0.

(** [listening]: whether the socket can be listened on, after a stale socket is
    removed and its directory made, their errors ignored. *)
Definition main (io : faults) (mtime : path -> Z) (f : fs) (listening : bool) : process :=
  if negb listening then Exited 1 else Serving (start_server io mtime f).

(** One step of the process: a request of any client or one message of a stream
    is answered, or its handler panics and the process dies (a Go panic exits
    with 2), or its handler does not end, and what it has done stays done; the goroutine of a task takes a step; containers change the files
    below the layers; [Serve] fails; or a signal has stopped the server and the
    handlers in flight are done. *)
Inductive process_step (s : Server) : process -> Prop :=
| ps_answer env {T} (q : Rpc T) s' a : handle env q s = (s', Answered a) -> process_step s (Serving s')
| ps_wait env {T} (q : Rpc T) s' : handle env q s = (s', Blocked) -> process_step s (Serving s')
| ps_crash env {T} (q : Rpc T) s' : handle env q s = (s', Crashed) -> process_step s (Exited 2)
| ps_exit l err : process_step s (Serving (set_tasks (process_exit l err (srv_tasks s)) s))
| ps_update l : process_step s (Serving (set_tasks (monitor_update l (srv_tasks s)) s))
| ps_send l : process_step s (Serving (set_tasks (monitor_send l (srv_tasks s)) s))
| ps_files n f : srv_snap s = Some n ->
    (forall k, snap_elems (sn_root n) k ∈ fs_dirs f <-> snap_elems (sn_root n) k ∈ fs_dirs (sn_fs n)) ->
    (forall k, fs_names f !! snap_elems (sn_root n) k = None) ->
    process_step s (Serving (set_snap (Some (sn_set_fs f n)) s))
| ps_serve_error : process_step s (Exited 1)
| ps_shutdown : process_step s (Exited 0).

Inductive steps : process -> process -> Prop :=
| steps_refl p : steps p p
| steps_cons s p q : process_step s p -> steps p q -> steps (Serving s) q.

End main.

(** ** Records are filed under their names

    [filed key m]: the record at a key carries this key as its name.  Clients
    read names out of lists and use them as keys, so every operation of every
    service has to keep this. *)

Definition filed {V : Type} (key : V -> string) (m : gmap string V) : Prop :=
  forall k v, m !! k = Some v -> key v = k.

Section filed.
Context {V : Type} (key : V -> string).

Lemma filed_empty : filed key ∅.
Proof. intros k v Hk. by rewrite lookup_empty in Hk. Qed.

Lemma filed_insert (m : gmap string V) (k : string) (v : V) : key v = k -> filed key m -> filed key (<[k := v]> m).
Proof. intros Hv Hm k' v' [[<- <-]|[_ Hk]]%lookup_insert_Some; [done|by apply Hm]. Qed.

(** A record replaced by one of the same name. *)
Lemma filed_replace (m : gmap string V) (k : string) (v v' : V) :
  m !! k = Some v -> key v' = key v -> filed key m -> filed key (<[k := v']> m).
Proof. intros Hk He Hm. apply filed_insert; [|done]. rewrite He. by apply Hm. Qed.

Lemma filed_delete (m : gmap string V) (k : string) : filed key m -> filed key (delete k m).
Proof. intros Hm k' v' [_ Hk]%lookup_delete_Some. by apply Hm. Qed.

End filed.

Create HintDb filed.
#[export] Hint Resolve filed_empty filed_insert filed_delete filed_replace : filed.

(** [blobPath] does not slice past the end of such a digest. *)
Definition digest_ok (d : string) : Prop :=
  match splitDigest d with Some (_, hash) => 2 <= String.length hash | None => True end.

Record content_filed (c : Store) : Prop := {
  cf_blobs : filed b_Digest (s_blobs c);
  cf_digests : forall d, is_Some (s_blobs c !! d) -> digest_ok d;
  cf_uploads : filed us_Ref (s_uploads c)
}.

Record tasks_filed (m : Manager) : Prop := {
  tf_ids : forall id l, m_tasks m !! id = Some l -> exists t, m_heap m !! l = Some t /\ t_ID t = id;
  tf_next : forall l t, m_heap m !! l = Some t -> l < m_next m
}.

(** The whole server is well filed. *)
Record server_filed `{Api} (s : Server) : Prop := {
  sf_content : forall c, srv_content s = Some c -> content_filed c;
  sf_snap : forall n, srv_snap s = Some n -> filed si_Name (sn_snapshots n);
  sf_images : filed im_Name (srv_images s);
  sf_tasks : tasks_filed (srv_tasks s);
  sf_containers : filed ID (cs_data (srv_containers s));
  sf_namespaces : filed Name (ns_data (srv_namespaces s))
}.

(** ** Lemmas: the content store *)

Lemma content_filed_ext (c c' : Store) :
  s_blobs c' = s_blobs c -> s_uploads c' = s_uploads c -> content_filed c -> content_filed c'.
Proof. intros Hb Hu [H1 H2 H3]. constructor; by rewrite ?Hb, ?Hu. Qed.

Lemma content_filed_upload (c : Store) (ref : string) (us : uploadState) :
  us_Ref us = ref -> content_filed c -> content_filed (set_upload ref us c).
Proof. intros Hr [H1 H2 H3]. constructor; cbn; [done|done|by apply filed_insert]. Qed.

Lemma digest_of_ok (b : bytes) : digest_ok (digest_of b).
Proof. unfold digest_ok. rewrite splitDigest_digest_of, hex_encode_length, sha256_length. lia. Qed.

Lemma BeginUpload_filed (io : faults) (now : Z) (ref expected : string) :
  preserves content_filed (BeginUpload io now ref expected).
Proof.
  intros c Hc. unfold BeginUpload. set (r := if String.eqb ref "" then _ else ref). cbv zeta.
  destruct (s_uploads c !! r) as [us|]; [by destruct (us_Committed us)|].
  destruct (os_mkdir_all _ _ _) as [f1|]; [|done].
  destruct (os_create _ _ _) as [[h f2]|]; [|by apply (content_filed_ext c)].
  apply content_filed_upload; [done|by apply (content_filed_ext c)].
Qed.

Lemma WriteUpload_filed (io : faults) (now : Z) (ref : string) (offset : Z) (data : bytes) :
  preserves content_filed (WriteUpload io now ref offset data).
Proof.
  intros c Hc. unfold WriteUpload. destruct (s_uploads c !! ref) as [us|] eqn:Hus; [|done]. cbv zeta.
  pose proof (cf_uploads _ Hc _ _ Hus) as Hr.
  assert (Hw : forall u c0, us_Ref u = ref -> content_filed c0 ->
    content_filed (let '(h, f, ok) := os_write io data (us_tmpFile u) (s_fs c0) in
      if negb ok then (set_upload ref (us_file h u) (set_fs f c0), Err IOError)
      else let u' := us_wrote now offset data h u in (set_upload ref u' (set_fs f c0), @Ok StoreErr _ u')).1).
  { intros u c0 Hu Hc0. destruct (os_write _ _ _ _) as [[h f] []];
      (apply content_filed_upload; [done|by apply (content_filed_ext c0)]). }
  destruct (negb _); [|by apply Hw]. destruct (os_seek _ _ _) as [h|]; [|done].
  apply Hw; [done|]. by apply content_filed_upload.
Qed.

Lemma CommitUpload_filed (io : faults) (now : Z) (ref : string) (total : Z) :
  preserves content_filed (CommitUpload io now ref total).
Proof.
  intros c Hc. unfold CommitUpload. destruct (s_uploads c !! ref) as [us|] eqn:Hus; [|done]. cbv zeta.
  pose proof (cf_uploads _ Hc _ _ Hus) as Hr.
  assert (Hdrop : content_filed (drop_tmp io us c)).
  { unfold drop_tmp. case_step; [|done..]. by apply (content_filed_ext c). }
  destruct (_ && _); [done|]. destruct (_ && _); [done|].
  destruct (blobPath _ _) as [p|e|]; [|done..]. unfold commit_move.
  destruct (os_mkdir_all _ _ _) as [f1|]; [|done].
  destruct (os_close _ _) as [h []]; [|by apply content_filed_upload, (content_filed_ext c)]. cbn [negb].
  destruct (os_rename _ _ _ _) as [f2|].
  - apply content_filed_upload; [done|]. destruct Hc as [H1 H2 H3]. constructor; cbn; [by apply filed_insert| |done].
    intros d. destruct (decide (digest_of (us_hasher us) = d)) as [<-|Hne]; [intros _; apply digest_of_ok|].
    rewrite lookup_insert_ne by done. apply H2.
  - apply content_filed_upload; [done|]. by apply (content_filed_ext c).
Qed.

Lemma content_Delete_filed (io : faults) (d : string) : preserves content_filed (ContentStore.Delete io d).
Proof.
  intros c Hc. unfold ContentStore.Delete. destruct (s_blobs c !! d); [|done].
  assert (Hdel : content_filed (set_blobs (delete d (s_blobs c)) c)).
  { destruct Hc as [H1 H2 H3]. constructor; cbn; [by apply filed_delete| |done].
    intros d' [i [_ Hi]%lookup_delete_Some]. eauto. }
  destruct (blobPath _ _) as [p|e|]; [|done..]. destruct (os_remove _ _ _) as [f| |]; cbn; [|done..].
  by apply (content_filed_ext (set_blobs (delete d (s_blobs c)) c)).
Qed.

Lemma content_Update_filed (now : Z) (req : option (string * option (gmap string string))) :
  preserves content_filed (ContentService.svc_Update now req).
Proof.
  intros c Hc. unfold ContentService.svc_Update, Info. destruct req as [[d ls]|]; [|done].
  destruct (s_blobs c !! d) as [info|] eqn:Hi; [|done]. destruct ls as [ls|]; [|done]. cbn [fst].
  destruct Hc as [H1 H2 H3]. constructor; cbn; [|intros d'|done].
  - by eapply filed_replace.
  - destruct (decide (d = d')) as [<-|Hne]; [intros _; by eauto|]. rewrite lookup_insert_ne by done. apply H2.
Qed.

#[export] Hint Resolve BeginUpload_filed WriteUpload_filed CommitUpload_filed content_Delete_filed
  content_Update_filed : preserves.

Lemma on_request_filed (io : faults) (now : Z) (req : WriteReq) (v : WriteVars) :
  preserves content_filed (on_request io now req v).
Proof. unfold on_request, on_stat, on_write, on_commit, auto_init, internal. preserves.
  - intros c Hc. by destruct (GetUpload _ c).
Qed.

(** ** Lemmas: opening the content store *)

Lemma scan_files_filed (io : faults) (mtime : path -> Z) (f : fs) (algo prefix : string) (dir : path)
    (files : list (string * bool)) (m : gmap string BlobInfo) :
  filed b_Digest m -> filed b_Digest (scan_files io mtime f algo prefix dir files m).
Proof.
  revert m. induction files as [|[n d] files IH]; intros m Hm; [done|]. cbn. apply IH.
  destruct d; [done|]. destruct (os_stat _ _ _); [|done]. by apply filed_insert.
Qed.

Lemma scan_prefixes_filed (io : faults) (mtime : path -> Z) (f : fs) (algo : string) (dir : path)
    (ps : list (string * bool)) (m : gmap string BlobInfo) :
  filed b_Digest m -> filed b_Digest (scan_prefixes io mtime f algo dir ps m).
Proof.
  revert m. induction ps as [|[n d] ps IH]; intros m Hm; [done|]. cbn. apply IH.
  destruct d; [|done]. destruct (fs_read_dir _ _ _); [|done]. by apply scan_files_filed.
Qed.

Lemma scan_algos_filed (io : faults) (mtime : path -> Z) (f : fs) (dir : path)
    (es : list (string * bool)) (m : gmap string BlobInfo) :
  filed b_Digest m -> filed b_Digest (scan_algos io mtime f dir es m).
Proof.
  revert m. induction es as [|[n d] es IH]; intros m Hm; [done|]. cbn. apply IH.
  destruct d; [|done]. destruct (fs_read_dir _ _ _); [|done]. by apply scan_prefixes_filed.
Qed.

(** File names are not empty. *)
Definition named_files (f : fs) : Prop := forall p ino, fs_names f !! p = Some ino -> "" ∉ p.

Lemma str_index_le (c : ascii) (s t : string) (i : nat) :
  str_index c (s +:+ String c t) = Some i -> i <= String.length s.
Proof.
  revert i. induction s as [|a s IH]; intros i.
  - cbn. rewrite ascii_eqb_refl. intros [= <-]. done.
  - cbn. destruct (Ascii.eqb a c); [intros [= <-]; lia|]. destruct (str_index c _) as [j|] eqn:Hj; [|done].
    intros [= <-]. specialize (IH j eq_refl). lia.
Qed.

Lemma digest_ok_intro (algo hash : string) : 2 <= String.length hash -> digest_ok (algo +:+ ":" +:+ hash).
Proof.
  intros Hl. unfold digest_ok, splitDigest. destruct (str_index ch_colon _) as [i|] eqn:Hi; [|done].
  apply str_index_le in Hi. rewrite str_drop_length, str_app_length. cbn [String.length String.append]. lia.
Qed.

Lemma scanned_ok (f : fs) (br : path) (d : string) : named_files f -> scanned f br d -> digest_ok d.
Proof.
  intros Hf (algo & prefix & name & ino & Hn & ->). apply Hf in Hn. apply digest_ok_intro.
  assert (Hp : prefix <> "") by (intros ->; apply Hn; set_solver).
  assert (Hm : name <> "") by (intros ->; apply Hn; set_solver).
  rewrite str_app_length. destruct prefix, name; cbn; [done..|lia].
Qed.

Lemma NewStore_filed (io : faults) (mtime : path -> Z) (root : string) (f : fs) (c : Store) :
  named_files f -> NewStore io mtime root f = Ok c -> content_filed c.
Proof.
  intros Hf. unfold NewStore. destruct (os_mkdir_all _ _ _) as [f1|] eqn:Hmk; [|done].
  apply os_mkdir_all_frame in Hmk as (Hn & _).
  assert (Hf1 : named_files f1) by (intros p ino; rewrite Hn; apply Hf).
  unfold scan. cbn [s_root s_fs s_blobs].
  assert (Hc0 : content_filed (mkStore root ∅ ∅ f1)).
  { constructor; cbn; [apply filed_empty| |apply filed_empty]. intros d [i Hi]. by rewrite lookup_empty in Hi. }
  destruct (fs_read_dir _ _ _) as [es|]; [|destruct (_ || _); [done|]; by intros [= <-]].
  intros [= <-]. destruct Hc0 as [H1 H2 H3]. constructor; cbn; [by apply scan_algos_filed| |done].
  intros d Hd. apply scan_algos_keys in Hd as [Hd|Hd]; [by apply H2|by eapply scanned_ok].
Qed.

(** ** Lemmas: the snapshotter *)

Definition snap_filed (n : Snapshotter) : Prop := filed si_Name (sn_snapshots n).

Lemma make_dirs_filed (io : faults) (dirs : list string) : preserves snap_filed (make_dirs io dirs).
Proof.
  intros n Hn. pose proof (make_dirs_frame io dirs n) as Hm. destruct (make_dirs _ _ _) as [n' r].
  by destruct Hm as (f & -> & _).
Qed.

Lemma record_filed (now : Z) (key parent : string) (k : Kind) : preserves snap_filed (record_snapshot now key parent k).
Proof. intros n Hn. by apply filed_insert. Qed.

Lemma with_state_filed {E A : Type} (f : Snapshotter -> res E A) : preserves snap_filed (with_state f).
Proof. apply preserves_read. Qed.

Lemma snap_Commit_filed (io : faults) (now : Z) (key name : string) : preserves snap_filed (Commit io now key name).
Proof.
  intros n Hn. unfold Commit. destruct (sn_snapshots n !! key) as [i|]; [|done]. case_decide; [|done].
  destruct (String.eqb_spec name key) as [->|Hne]; [by apply filed_insert|].
  destruct (os_rename _ _ _ _); [|done]. by apply filed_insert; [|apply filed_delete].
Qed.

Lemma snap_Remove_filed (io : faults) (key : string) : preserves snap_filed (Remove io key).
Proof.
  intros n Hn. unfold Remove. destruct (sn_snapshots n !! key); [|done]. destruct (find_child _ _); [done|].
  destruct (os_remove_all _ _ _); [|done]. by apply filed_delete.
Qed.

Lemma snap_Update_filed (now : Z) (key : string) (ls : gmap string string) : preserves snap_filed (Update now key ls).
Proof.
  intros n Hn. unfold Update. destruct (sn_snapshots n !! key) as [i|] eqn:Hi; [|done]. by eapply filed_replace.
Qed.

#[export] Hint Resolve make_dirs_filed record_filed with_state_filed snap_Commit_filed snap_Remove_filed
  snap_Update_filed : preserves.

Lemma snap_Prepare_filed (io : faults) (fuel : nat) (now : Z) (key parent : string) :
  preserves snap_filed (Prepare io fuel now key parent).
Proof. unfold Prepare. preserves. intros n Hn. by apply make_dirs_filed. Qed.

Lemma snap_View_filed (fuel : nat) (now : Z) (key parent : string) : preserves snap_filed (View fuel now key parent).
Proof. unfold View. preserves. Qed.

#[export] Hint Resolve snap_Prepare_filed snap_View_filed : preserves.

(** ** Lemmas: tasks *)

Lemma tasks_filed_set (m : Manager) (l : loc) (t t' : Task) :
  m_heap m !! l = Some t -> t_ID t' = t_ID t -> tasks_filed m -> tasks_filed (set_task l t' m).
Proof.
  intros Hl Hid [H1 H2]. constructor; cbn.
  - intros id l' Hl'. destruct (H1 _ _ Hl') as (t0 & Ht0 & Hi). destruct (decide (l = l')) as [<-|Hne].
    + exists t'. rewrite lookup_insert_eq. split; [done|]. congruence.
    + exists t0. by rewrite lookup_insert_ne.
  - intros l' t0 [[<- _]|[_ Ht0]]%lookup_insert_Some; eauto.
Qed.

Lemma tasks_filed_signal (m : Manager) (pid sig : Z) : tasks_filed m -> tasks_filed (log_signal pid sig m).
Proof. intros [H1 H2]. by constructor. Qed.

Lemma lookup_task_heap (m : Manager) (id : string) (l : loc) (t : Task) :
  lookup_task m id = Some (l, t) -> m_heap m !! l = Some t.
Proof. by intros [_ H]%lookup_task_Some. Qed.

(** An operation that looks a task up and changes its record at most. *)
Ltac task_filed :=
  let m := fresh "m" in let Hm := fresh "Hm" in
  intros m Hm; cbv beta; unfold Start, Kill, Pause, Resume;
  match goal with |- context [lookup_task m ?id] => destruct (lookup_task m id) as [[? ?]|] eqn:? end; [|done];
  match goal with H : lookup_task _ _ = Some _ |- _ => apply lookup_task_heap in H end;
  repeat case_match; simplify_eq/=; try done;
  try apply tasks_filed_signal; try done; by eapply tasks_filed_set.

Lemma task_Start_filed (now : Z) (id : string) : preserves tasks_filed (Start now id).
Proof. task_filed. Qed.

Lemma task_Kill_filed (deliver : Z -> Z -> bool) (id : string) (sig : Z) : preserves tasks_filed (Kill deliver id sig).
Proof. task_filed. Qed.

Lemma task_Pause_filed (id : string) : preserves tasks_filed (Pause id).
Proof. task_filed. Qed.

Lemma task_Resume_filed (id : string) : preserves tasks_filed (Resume id).
Proof. task_filed. Qed.

Lemma task_Delete_filed (id : string) : preserves tasks_filed (Task.Delete id).
Proof.
  intros m Hm. unfold Task.Delete. destruct (lookup_task m id) as [[l t]|]; [|done]. destruct (String.eqb _ _); [done|].
  destruct Hm as [H1 H2]. constructor; cbn; [|done]. intros id' l' [_ Hl]%lookup_delete_Some. by apply H1.
Qed.

Lemma task_Create_filed (start : Cmd -> option Z) (environ : list string) (now : Z) (id bundle : string) (spec : Task.Spec) :
  preserves tasks_filed (Task.Create start environ now id bundle spec).
Proof.
  intros m Hm. unfold Task.Create. destruct (m_tasks m !! id) eqn:Hid; [done|].
  destruct (sp_RootPath spec); [|done]. destruct (sp_Process spec); [|done]. cbv zeta.
  destruct (start _) as [pid|]; [|done]. destruct Hm as [H1 H2].
  assert (Hne : forall l t, m_heap m !! l = Some t -> m_next m <> l) by (intros l t Hl%H2; lia).
  constructor; cbn.
  - intros id' l' [[<- <-]|[_ Hl]]%lookup_insert_Some; [eexists; by rewrite lookup_insert_eq|].
    destruct (H1 _ _ Hl) as (t & Ht & Hi). exists t. rewrite lookup_insert_ne; [done|by eapply Hne].
  - intros l' t [[<- _]|[_ Ht%H2]]%lookup_insert_Some; lia.
Qed.

#[export] Hint Resolve task_Start_filed task_Kill_filed task_Pause_filed task_Resume_filed task_Delete_filed
  task_Create_filed : preserves.

Lemma svc_Create_filed (start : Cmd -> option Z) (environ : list string) (now : Z) (c stdin : string) :
  preserves tasks_filed (Task.svc_Create start environ now c stdin).
Proof.
  intros m Hm. unfold Task.svc_Create. cbv zeta.
  pose proof (preserves_wrap tasks_filed (fun e => RpcStatus Internal (Some e)) _
    (task_Create_filed start environ now c ("/tmp/mini-containerd/bundles/" +:+ c) (service_spec stdin)) m Hm) as H.
  unfold Task.rpc. by destruct (go_wrap _ _ m) as [m' [l|e|]].
Qed.

Lemma svc_Start_filed (now : Z) (c x : string) : preserves tasks_filed (svc_Start now c x).
Proof.
  intros m Hm. unfold svc_Start. destruct (negb _); [done|].
  pose proof (preserves_wrap tasks_filed (fun e => RpcStatus Internal (Some e)) _ (task_Start_filed now c) m Hm) as H.
  unfold Task.rpc. by destruct (go_wrap _ _ m) as [m' [l|e|]].
Qed.

#[export] Hint Resolve svc_Create_filed svc_Start_filed : preserves.

Lemma svc_Wait_filed (now : Z) (c : string) (m : Manager) : tasks_filed m -> tasks_filed (svc_Wait now c m).1.
Proof.
  intros Hm. unfold svc_Wait, Wait. destruct (lookup_task m c) as [[l t]|] eqn:Hl; [|done].
  destruct (t_waitCh t); [done|]. by eapply tasks_filed_set; [apply (lookup_task_heap _ _ _ _ Hl)| |].
Qed.

Lemma goroutine_filed (m : Manager) (l : loc) (err : exit_result) :
  tasks_filed m ->
  tasks_filed (process_exit l err m) /\ tasks_filed (monitor_update l m) /\ tasks_filed (monitor_send l m).
Proof.
  intros Hm. unfold process_exit, monitor_update, monitor_send. destruct (m_heap m !! l) as [t|] eqn:Hl; [|done].
  assert (Hr : forall e, t_ID (record_exit e t) = t_ID t).
  { intros e. unfold record_exit. cbn. destruct (String.eqb _ _); [|done]. by destruct e. }
  destruct (t_mon t); split_and!; try done; try (by eapply tasks_filed_set).
  - eapply tasks_filed_set; [done|apply Hr|done].
  - destruct (_ <? _); [|done]. by eapply tasks_filed_set.
Qed.

(** ** Lemmas: images, containers and namespaces *)

Lemma images_Create_filed (now : Z) (img : option Image) :
  preserves (filed im_Name) (ContainerdImage.svc_Create now img).
Proof.
  unfold ContainerdImage.svc_Create. preserves. intros m Hm. unfold ContainerdImage.Create.
  destruct (m !! _); [done|]. by apply filed_insert.
Qed.

Lemma images_Update_filed (img : option Image) : preserves (filed im_Name) (ContainerdImage.svc_Update img).
Proof.
  intros m Hm. unfold ContainerdImage.svc_Update, ContainerdImage.Get. destruct img as [p|]; [|done].
  destruct (m !! im_Name p) as [i|] eqn:Hi; [|done]. destruct (im_Labels p); [|done]. by eapply filed_replace.
Qed.

Lemma images_Delete_filed (name : string) : preserves (filed im_Name) (ContainerdImage.svc_Delete name).
Proof.
  unfold ContainerdImage.svc_Delete. preserves. intros m Hm. unfold ContainerdImage.Delete.
  destruct (m !! name); [by apply filed_delete|done].
Qed.

#[export] Hint Resolve images_Create_filed images_Update_filed images_Delete_filed : preserves.

Section metadata_filed.
Context `{Api}.

Definition containers_filed (s : ContainerStore) : Prop := filed ID (cs_data s).
Definition namespaces_filed (s : NamespaceStore) : Prop := filed Name (ns_data s).

Lemma container_Create_filed c : preserves containers_filed (container_Create ID c).
Proof. intros s Hs. destruct c as [c|]; [|done]. cbn. destruct (cs_data s !! ID c); [done|by apply filed_insert]. Qed.

Lemma container_Update_filed c : preserves containers_filed (container_Update ID c).
Proof. intros s Hs. destruct c as [c|]; [|done]. cbn. destruct (cs_data s !! ID c); [by apply filed_insert|done]. Qed.

Lemma container_Delete_filed id : preserves containers_filed (container_Delete id).
Proof. intros s Hs. unfold container_Delete. destruct (cs_data s !! id); [by apply filed_delete|done]. Qed.

Lemma namespace_Create_filed n : preserves namespaces_filed (namespace_Create Name n).
Proof. intros s Hs. destruct n as [n|]; [|done]. cbn. destruct (ns_data s !! Name n); [done|by apply filed_insert]. Qed.

Lemma namespace_Update_filed n : preserves namespaces_filed (namespace_Update Name n).
Proof. intros s Hs. destruct n as [n|]; [|done]. cbn. destruct (ns_data s !! Name n); [by apply filed_insert|done]. Qed.

Lemma namespace_Delete_filed name : preserves namespaces_filed (namespace_Delete name).
Proof. intros s Hs. by apply filed_delete. Qed.

End metadata_filed.

#[export] Hint Resolve container_Create_filed container_Update_filed container_Delete_filed
  namespace_Create_filed namespace_Update_filed namespace_Delete_filed : preserves.

(** ** Lemmas: requests *)

Section requests.
Context `{Api} (env : Env).

Lemma in_content_filed {T : Type} (m : Store -> Store * outcome T) (s : Server) :
  (forall c, content_filed c -> content_filed (m c).1) -> server_filed s -> server_filed (in_content m s).1.
Proof.
  intros Hm Hs. unfold in_content. destruct (srv_content s) as [c|] eqn:Hc; [|done].
  destruct Hs as [H1 H2 H3 H4 H5 H6]. specialize (Hm c (H1 c Hc)). destruct (m c) as [c' o]. constructor; cbn; try done. by intros ? [= <-].
Qed.

Lemma reading_filed {T : Type} (f : Store -> outcome T) (s : Server) :
  server_filed s -> server_filed (in_content (reading f) s).1.
Proof. by apply in_content_filed. Qed.

Lemma content_call_filed {A : Type} (m : GoM Store svc_error A) (s : Server) :
  preserves content_filed m -> server_filed s ->
  server_filed (in_content (fun c => let '(c', r) := m c in (c', of_res r)) s).1.
Proof. intros Hm. apply in_content_filed. intros c Hc%Hm. by destruct (m c). Qed.

Lemma in_snap_filed {A : Type} (m : GoM Snapshotter (rpc_error SnapErr) A) (s : Server) :
  preserves snap_filed m -> server_filed s -> server_filed (in_snap m s).1.
Proof.
  intros Hm Hs. unfold in_snap. destruct (srv_snap s) as [n|] eqn:Hn; [|done].
  destruct Hs as [H1 H2 H3 H4 H5 H6]. specialize (Hm n (H2 n Hn)). destruct (m n) as [n' o]. constructor; cbn; try done. by intros ? [= <-].
Qed.

Lemma in_images_filed {A : Type} (m : GoM Images img_error A) (s : Server) :
  preserves (filed im_Name) m -> server_filed s -> server_filed (in_images m s).1.
Proof.
  intros Hm [H1 H2 H3 H4 H5 H6]. unfold in_images. specialize (Hm _ H3). destruct (m _) as [i o]. by constructor.
Qed.

Lemma in_tasks_filed {A : Type} (m : GoM Manager (rpc_error TaskErr) A) (s : Server) :
  preserves tasks_filed m -> server_filed s -> server_filed (in_tasks m s).1.
Proof.
  intros Hm [H1 H2 H3 H4 H5 H6]. unfold in_tasks. specialize (Hm _ H4). destruct (m _) as [i o]. by constructor.
Qed.

Lemma in_containers_filed {A : Type} (m : GoM ContainerStore status A) (s : Server) :
  preserves containers_filed m -> server_filed s -> server_filed (in_containers m s).1.
Proof.
  intros Hm [H1 H2 H3 H4 H5 H6]. unfold in_containers. specialize (Hm _ H5). destruct (m _) as [i o]. by constructor.
Qed.

Lemma in_namespaces_filed {A : Type} (m : GoM NamespaceStore status A) (s : Server) :
  preserves namespaces_filed m -> server_filed s -> server_filed (in_namespaces m s).1.
Proof.
  intros Hm [H1 H2 H3 H4 H5 H6]. unfold in_namespaces. specialize (Hm _ H6). destruct (m _) as [i o]. by constructor.
Qed.

Lemma set_streams_filed (m : gmap nat WriteVars) (next : nat) (s : Server) :
  server_filed s -> server_filed (set_streams m next s).
Proof. intros [H1 H2 H3 H4 H5 H6]. by constructor. Qed.

Lemma set_content_filed (c : option Store) (s : Server) :
  (forall c', c = Some c' -> content_filed c') -> server_filed s -> server_filed (set_content c s).
Proof. intros Hc [H1 H2 H3 H4 H5 H6]. by constructor. Qed.

Lemma set_tasks_filed (m : Manager) (s : Server) : tasks_filed m -> server_filed s -> server_filed (set_tasks m s).
Proof. intros Hc [H1 H2 H3 H4 H5 H6]. by constructor. Qed.

Lemma write_msg_filed (v : WriteVars) (msg : option recv) (c : Store) :
  content_filed c -> content_filed (write_msg env v msg c).1.
Proof.
  intros Hc. unfold write_msg. destruct msg as [[req|]|]; [|done..].
  pose proof (on_request_filed (e_io env) (e_now env) req v c Hc) as Hr.
  destruct (on_request _ _ _ _ c) as [c' [[resp next]|e|]]; [|done..].
  destruct (negb _); [done|]. by destruct next.
Qed.

Lemma content_write_filed (id : nat) (msg : option recv) (s : Server) :
  server_filed s -> server_filed (content_write env id msg s).1.
Proof.
  intros Hs. unfold content_write. destruct (srv_streams s !! id) as [v|]; [|done].
  assert (Hgen : forall c o, (forall c', c = Some c' -> content_filed c') ->
    server_filed (match o with
      | Answered (w, Some v') => (set_streams (<[id := v']> (srv_streams s)) (srv_next s) (set_content c s), Answered w)
      | Answered (w, None) => (set_streams (delete id (srv_streams s)) (srv_next s) (set_content c s), Answered w)
      | Blocked => (set_content c s, Blocked)
      | Crashed => (set_content c s, @Crashed written)
      end).1).
  { intros c [[w [v'|]]| |] Hc; cbn [fst]; try apply set_streams_filed; by apply set_content_filed. }
  destruct (srv_content s) as [c|] eqn:Hc; [|by apply Hgen].
  pose proof (write_msg_filed v msg c (sf_content _ Hs _ Hc)) as Hw. destruct (write_msg _ _ _ _) as [c' o].
  apply Hgen. by intros ? [= <-].
Qed.

(** Whatever a request is answered, and even when its handler panics. *)
Lemma handle_filed {T : Type} (q : Rpc T) (s : Server) : server_filed s -> server_filed (handle env q s).1.
Proof.
  intros Hs. destruct q; cbn [handle fst]; try done;
    try (by apply reading_filed);
    try (apply in_images_filed; [|done]); try (apply in_tasks_filed; [|done]);
    try (apply in_containers_filed; [|done]); try (apply in_namespaces_filed; [|done]);
    try (apply in_snap_filed; [|done]);
    unfold svc_Prepare, svc_View, svc_Mounts, svc_Commit, svc_Remove, svc_Stat, svc_Usage, Snapshot.svc_Update,
      Snapshot.rpc, Task.svc_Delete, svc_DeleteProcess, svc_Kill, svc_Exec, svc_Pause, svc_Resume, svc_Checkpoint,
      Task.svc_Update, svc_Metrics, svc_noop, Task.rpc; try (by preserves).
  - destruct req as [req|]; [|done]. apply content_call_filed; [|done]. apply content_Update_filed.
  - apply content_call_filed; [|done]. unfold ContentService.svc_Delete. preserves.
  - by apply set_streams_filed.
  - by apply content_write_filed.
  - destruct req as [i|]; [|done]. apply in_snap_filed; [|done]. preserves.
  - by destruct (srv_snap s).
  - pose proof (svc_Wait_filed (e_now env) container _ (sf_tasks _ Hs)) as Hw.
    destruct (svc_Wait _ _ _) as [t r]. by apply set_tasks_filed.
Qed.

End requests.

Lemma start_filed `{Api} (io : faults) (mtime : path -> Z) (f : fs) :
  named_files f -> server_filed (start_server io mtime f).
Proof.
  intros Hf. unfold start_server. set (f0 := default f _).
  assert (Hf0 : named_files f0).
  { unfold f0. destruct (os_mkdir_all _ _ _) as [f1|] eqn:Hmk; [|done]. apply os_mkdir_all_frame in Hmk as (Hn & _).
    intros p ino. cbn. rewrite Hn. apply Hf. }
  clearbody f0. constructor; cbn; try apply filed_empty.
  - intros c. destruct (NewStore _ _ _ _) eqn:Hc; [|done..]. intros [= <-]. by eapply NewStore_filed.
  - intros n. unfold NewSnapshotter. destruct (os_mkdir_all _ _ _); [|done]. intros [= <-]. apply filed_empty.
  - constructor; cbn; intros *; by rewrite lookup_empty.
  - apply filed_insert; [apply Name_named|apply filed_empty].
Qed.

Lemma process_step_filed `{Api} (s s' : Server) : server_filed s -> process_step s (Serving s') -> server_filed s'.
Proof.
  intros Hs Hst. inversion Hst; subst.
  - match goal with H : handle _ _ _ = _ |- _ => pose proof (handle_filed env q s Hs) as Hh; by rewrite H in Hh end.
  - match goal with H : handle _ _ _ = _ |- _ => pose proof (handle_filed env q s Hs) as Hh; by rewrite H in Hh end.
  - apply set_tasks_filed; [|done]. by apply goroutine_filed, Hs.
  - apply set_tasks_filed; [|done]. by apply (goroutine_filed _ _ ExitNil), Hs.
  - apply set_tasks_filed; [|done]. by apply (goroutine_filed _ _ ExitNil), Hs.
  - destruct Hs as [? Hsn ? ? ? ?]. constructor; cbn; try done. intros ? [= <-]. by apply (Hsn n).
Qed.

(** Whatever holds of a server at the start and is kept by every step holds as
    long as the process serves. *)
Lemma steps_invariant `{Api} (I : Server -> Prop) (s s' : Server) :
  I s -> (forall s1 s2, I s1 -> process_step s1 (Serving s2) -> I s2) ->
  steps (Serving s) (Serving s') -> I s'.
Proof.
  intros Hs Hstep Hsteps. remember (Serving s) as p eqn:Hp. remember (Serving s') as q eqn:Hq.
  revert s Hp Hs. induction Hsteps as [p|s0 p q Hst Hsteps IH]; intros s Hp Hs; [congruence|].
  injection Hp as ->. destruct p as [s2|st]; [by eapply IH; eauto|]. inversion Hsteps; subst. done.
Qed.

Lemma main_filed `{Api} (io : faults) (mtime : path -> Z) (f : fs) (listening : bool) (s : Server) :
  named_files f -> steps (main io mtime f listening) (Serving s) -> server_filed s.
Proof.
  intros Hf Hs. unfold main in Hs. destruct (negb listening); [by inversion Hs|].
  eapply steps_invariant; [by apply start_filed| |exact Hs]. intros s1 s2. apply process_step_filed.
Qed.

(** ** Which requests crash the daemon *)

(** Requests whose message is dereferenced without a check. *)
Definition malformed `{Api} {T : Type} (q : Rpc T) : bool :=
  match q with
  | ImagesUpdate None | NamespacesCreate None | NamespacesUpdate None => true
  | _ => false
  end.

(** Requests that reach the content store. *)
Definition uses_content `{Api} {T : Type} (q : Rpc T) (s : Server) : bool :=
  match q with
  | ContentInfo _ | ContentUpdate (Some _) | ContentList _ | ContentDelete _ | ContentRead _ _ _
  | ContentStatus _ | ContentListStatuses => true
  | ContentWriteMsg id (Some (RecvReq req)) =>
      match srv_streams s !! id with
      | Some v =>
          negb (String.eqb (v_ref v) "" && String.eqb (q_Ref req) "") ||
          match q_Action req with ActionSTAT => true | _ => false end
      | None => false
      end
  | _ => false
  end.

(** Requests that reach the snapshotter. *)
Definition uses_snap `{Api} {T : Type} (q : Rpc T) : bool :=
  match q with
  | SnapPrepare _ _ | SnapView _ _ | SnapMounts _ | SnapCommit _ _ | SnapRemove _ | SnapStat _
  | SnapUpdate (Some _) | SnapList _ | SnapUsage _ => true
  | _ => false
  end.

Definition is_nil {A : Type} (p : option A) : bool := match p with None => true | Some _ => false end.

Definition crashes `{Api} {T : Type} (q : Rpc T) (s : Server) : bool :=
  malformed q || is_nil (srv_content s) && uses_content q s || is_nil (srv_snap s) && uses_snap q.

(** [m] does not panic in the states of [I]. *)
Definition panic_free {S E A : Type} (I : S -> Prop) (m : GoM S E A) : Prop := forall s, I s -> (m s).2 <> Panic.

Section panic_free.
Context {S E : Type} (I : S -> Prop).

Lemma panic_free_bind {A B : Type} (m : GoM S E A) (k : A -> GoM S E B) :
  preserves I m -> panic_free I m -> (forall a, panic_free I (k a)) -> panic_free I (go_bind m k).
Proof.
  intros Hp Hm Hk s Hs. unfold go_bind. specialize (Hp s Hs). specialize (Hm s Hs).
  destruct (m s) as [s' [a|e|]]; [by apply Hk|done|done].
Qed.

Lemma panic_free_wrap {F A : Type} (f : E -> F) (m : GoM S E A) : panic_free I m -> panic_free I (go_wrap f m).
Proof. intros Hm s Hs. unfold go_wrap. specialize (Hm s Hs). by destruct (m s) as [s' [a|e|]]. Qed.

Lemma panic_free_lift {A : Type} (r : res E A) : r <> Panic -> panic_free I (go_lift r).
Proof. by intros Hr s _. Qed.

End panic_free.

Create HintDb panic_free.

Lemma of_res_crashed {E A : Type} (r : res E A) : of_res r = Crashed <-> r = Panic.
Proof. by destruct r. Qed.

Lemma send_all_no_panic {E A : Type} (ok : nat -> bool) (i : nat) (l : list A) : (send_all (E := E) ok i l).2 <> Panic.
Proof.
  revert i. induction l as [|x l IH]; intros i; cbn; [done|]. destruct (ok i); [|done].
  specialize (IH (S i)). by destruct (send_all ok (S i) l).
Qed.

Lemma of_stream_crashed {E A : Type} (ok : nat -> bool) (l : list A) : of_stream (send_all (E := E) ok 0 l) <> Crashed.
Proof. unfold of_stream. pose proof (send_all_no_panic (E := E) ok 0 l) as Hn. by destruct (send_all ok 0 l).2 as [a|e|]. Qed.

(** The content store. *)

Lemma blobPath_ok (root d : string) : digest_ok d -> exists p, blobPath root d = Ok p.
Proof.
  unfold digest_ok, blobPath. destruct (splitDigest d) as [[algo hash]|]; [|by eexists].
  intros Hl%Nat.leb_le. unfold str_slice_to. rewrite Hl. by eexists.
Qed.

Lemma content_Delete_no_panic (io : faults) (d : string) : panic_free content_filed (ContentStore.Delete io d).
Proof.
  intros c Hc. unfold ContentStore.Delete. destruct (s_blobs c !! d) eqn:Hd; [|done].
  destruct (blobPath_ok (s_root c) d) as [p ->]; [by apply (cf_digests _ Hc)|]. by destruct (os_remove _ _ _).
Qed.

Lemma Open_no_panic (io : faults) (d : string) (c : Store) : content_filed c -> Open io d c <> Panic.
Proof.
  intros Hc. unfold Open. destruct (s_blobs c !! d) eqn:Hd; [|done].
  destruct (blobPath_ok (s_root c) d) as [p ->]; [by apply (cf_digests _ Hc)|]. cbn. by destruct (os_open _ _ _).
Qed.

Lemma read_loop_no_panic (io : faults) (ok : nat -> bool) (p : path) (fuel : nat) (data : bytes) (offset size : Z)
    (pos n i : nat) msgs r :
  read_loop io ok p fuel data offset size pos n i = Some (msgs, r) -> r <> Panic.
Proof.
  revert pos n i msgs r. induction fuel as [|fuel IH]; intros pos n i msgs r; cbn [read_loop]; [done|].
  destruct (io _); [by intros [= _ <-]|]. destruct (_ =? 0); [by intros [= _ <-]|].
  destruct (negb _); [by intros [= _ <-]|]. destruct (_ && _); [by intros [= _ <-]|].
  destruct (read_loop _ _ _ fuel _ _ _ _ _ _) as [[ms r']|] eqn:Hl; [|done]. intros [= _ <-]. by eapply IH.
Qed.

Lemma svc_Read_no_panic (io : faults) (ok : nat -> bool) (fuel : nat) (d : string) (offset size : Z) (c : Store) msgs r :
  content_filed c -> svc_Read io ok fuel d offset size c = Some (msgs, r) -> r <> Panic.
Proof.
  intros Hc. unfold svc_Read. pose proof (Open_no_panic io d c Hc) as Ho.
  destruct (Open io d c) as [h|e|]; [|by intros [= _ <-]|done].
  destruct (0 <? offset)%Z; [|apply read_loop_no_panic].
  destruct (os_seek _ _ _); [apply read_loop_no_panic|by intros [= _ <-]].
Qed.

Lemma BeginUpload_no_panic (io : faults) (now : Z) (ref expected : string) :
  panic_free content_filed (BeginUpload io now ref expected).
Proof. intros c _. unfold BeginUpload. cbv zeta. by repeat case_match. Qed.

Lemma WriteUpload_no_panic (io : faults) (now : Z) (ref : string) (offset : Z) (data : bytes) :
  panic_free content_filed (WriteUpload io now ref offset data).
Proof. intros c _. unfold WriteUpload. cbv zeta. by repeat case_match. Qed.

(** A commit that succeeds leaves its upload where [GetUpload] finds it. *)
Lemma commit_get_no_panic (io : faults) (now : Z) (ref : string) (total : Z) :
  panic_free content_filed
    (_ <-! internal (CommitUpload io now ref total) ;
     fun s =>
       match GetUpload ref s with
       | Some us => (s, Ok (mkWriteResp ActionCOMMIT (us_Offset us) (us_Digest us) (us_Size us)
                              (us_StartedAt us) (us_UpdatedAt us)))
       | None => (s, Panic)
       end).
Proof.
  intros c _. unfold go_bind, internal, go_wrap, CommitUpload, GetUpload.
  destruct (s_uploads c !! ref) as [us|] eqn:Hus; [|done]. cbv zeta.
  destruct (_ && _); [done|]. destruct (_ && _); [done|].
  destruct (blobPath_ok (s_root c) (digest_of (us_hasher us)) (digest_of_ok _)) as [p ->].
  unfold commit_move. destruct (os_mkdir_all _ _ _); [|done]. destruct (os_close _ _) as [h []]; [|done]. cbn [negb].
  destruct (os_rename _ _ _ _); [|done]. cbn. by rewrite lookup_insert_eq.
Qed.

Lemma internal_filed {A : Type} (m : GoM Store StoreErr A) :
  preserves content_filed m -> preserves content_filed (internal m).
Proof. apply preserves_wrap. Qed.

Lemma internal_no_panic {A : Type} (m : GoM Store StoreErr A) :
  panic_free content_filed m -> panic_free content_filed (internal m).
Proof. apply panic_free_wrap. Qed.

#[export] Hint Resolve internal_filed : preserves.
#[export] Hint Resolve internal_no_panic BeginUpload_no_panic WriteUpload_no_panic content_Delete_no_panic
  commit_get_no_panic : panic_free.

(** Goes through a handler; what is left are the operations it calls. *)
Ltac no_panic_step :=
  match goal with
  | |- panic_free _ (go_ret ?a) => by apply (panic_free_lift _ (Ok a))
  | |- panic_free _ (go_err ?e) => by apply (panic_free_lift _ (Err e))
  | |- panic_free _ (go_bind (internal (CommitUpload _ _ _ _)) _) => apply commit_get_no_panic
  | |- panic_free _ (go_bind _ _) => apply panic_free_bind; [solve [preserves]| |intros ?]
  | |- panic_free _ (go_wrap _ _) => apply panic_free_wrap
  | |- panic_free _ (match ?x with _ => _ end) => destruct x
  end.
Ltac panic_free := repeat no_panic_step; eauto with panic_free.

Lemma on_request_no_panic (io : faults) (now : Z) (req : WriteReq) (v : WriteVars) :
  panic_free content_filed (on_request io now req v).
Proof.
  unfold on_request. apply panic_free_bind; [unfold auto_init; preserves|unfold auto_init; panic_free|].
  intros v'. destruct (q_Action req); unfold on_stat, on_write, on_commit, auto_init; panic_free.
  apply panic_free_bind; [|panic_free|intros r; panic_free].
  destruct (String.eqb _ _); [preserves|]. apply preserves_bind; [preserves|intros _].
  apply preserves_bind; [preserves|]. intros _ c Hc. by destruct (GetUpload _ c).
Qed.

(** The snapshotter has no slice and no pointer to miss. *)
Definition any_snap (n : Snapshotter) : Prop := True.

Lemma any_snap_preserves {E A : Type} (m : GoM Snapshotter E A) : preserves any_snap m.
Proof. done. Qed.

Lemma mounts_no_panic (fuel : nat) (n : Snapshotter) (key : string) : mountsWithoutLock fuel n key <> Panic.
Proof. unfold mountsWithoutLock. cbv zeta. by repeat case_match. Qed.

Lemma make_dirs_no_panic (io : faults) (dirs : list string) : panic_free any_snap (make_dirs io dirs).
Proof.
  induction dirs as [|d dirs IH]; intros n _; [done|]. cbn. destruct (os_mkdir_all _ _ _); [by apply IH|done].
Qed.

Lemma with_state_no_panic {E A : Type} (f : Snapshotter -> res E A) :
  (forall n, f n <> Panic) -> panic_free any_snap (with_state f).
Proof. intros Hf n _. apply Hf. Qed.

Lemma snap_Prepare_no_panic (io : faults) (fuel : nat) (now : Z) (key parent : string) :
  panic_free any_snap (Prepare io fuel now key parent).
Proof.
  assert (Hc : forall n p, check_parent n p <> Panic) by (intros n p; unfold check_parent; by repeat case_match).
  assert (Ha : forall n, check_absent n key <> Panic) by (intros n; unfold check_absent; by case_match).
  unfold Prepare. apply panic_free_bind; [done|destruct (String.eqb _ _); [by panic_free|by apply with_state_no_panic]|intros _].
  apply panic_free_bind; [done|by apply with_state_no_panic|intros _].
  apply panic_free_bind; [done| |intros _]; [intros n _; by apply make_dirs_no_panic|].
  apply panic_free_bind; [done|done|intros _]. apply with_state_no_panic. intros n. apply mounts_no_panic.
Qed.

Lemma snap_View_no_panic (fuel : nat) (now : Z) (key parent : string) : panic_free any_snap (View fuel now key parent).
Proof.
  assert (Hc : forall n, check_parent n parent <> Panic) by (intros n; unfold check_parent; by repeat case_match).
  assert (Ha : forall n, check_absent n key <> Panic) by (intros n; unfold check_absent; by case_match).
  unfold View. destruct (String.eqb _ _); [by panic_free|].
  apply panic_free_bind; [done|by apply with_state_no_panic|intros _].
  apply panic_free_bind; [done|by apply with_state_no_panic|intros _].
  apply panic_free_bind; [done|done|intros _]. apply with_state_no_panic. intros n. apply mounts_no_panic.
Qed.

Lemma snap_rest_no_panic (io : faults) (fuel : nat) (now : Z) (key name : string) (ls : gmap string string) :
  panic_free any_snap (with_state (fun n => Mounts fuel n key)) /\ panic_free any_snap (Commit io now key name) /\
  panic_free any_snap (Remove io key) /\ panic_free any_snap (with_state (fun n => Stat n key)) /\
  panic_free any_snap (Update now key ls) /\ panic_free any_snap (with_state (fun n => Usage n key)).
Proof.
  split_and!; intros n _; unfold with_state, Commit, Remove, Stat, Update, Usage; cbn [snd];
    first [apply mounts_no_panic|by repeat case_match].
Qed.

(** Tasks: an id names a record, and the service always fills the fields that
    are dereferenced. *)

Lemma task_Create_no_panic (start : Cmd -> option Z) (environ : list string) (now : Z) (c stdin : string) :
  panic_free tasks_filed (Task.svc_Create start environ now c stdin).
Proof.
  intros m Hm. unfold Task.svc_Create, Task.rpc, go_wrap, Task.Create. cbv zeta.
  destruct (m_tasks m !! c); [done|]. cbn. destruct (start _); [|done]. cbn. by rewrite lookup_insert_eq.
Qed.

Lemma task_get_no_panic (now : Z) (c : string) (m : Manager) :
  tasks_filed m -> Task.svc_Get now c m <> Panic /\ svc_ListPids c m <> Panic.
Proof.
  intros Hm. unfold Task.svc_Get, svc_ListPids, Task.Get. destruct (m_tasks m !! c) as [l|] eqn:Hl; [|done]. cbn.
  destruct (tf_ids _ Hm _ _ Hl) as (t & -> & _). done.
Qed.

Lemma task_rest_no_panic (now : Z) (deliver : Z -> Z -> bool) (c x : string) (sig : Z) :
  panic_free tasks_filed (svc_Start now c x) /\ panic_free tasks_filed (Task.svc_Delete c) /\
  panic_free tasks_filed (svc_Kill deliver c sig) /\ panic_free tasks_filed (svc_Pause c) /\
  panic_free tasks_filed (svc_Resume c).
Proof.
  split_and!; intros m _; unfold svc_Start, Task.svc_Delete, svc_Kill, svc_Pause, svc_Resume, Task.rpc, go_wrap,
    Start, Task.Delete, Kill, Pause, Resume; by repeat (case_match; simplify_eq/=).
Qed.

Section crash.
Context `{Api} (env : Env).

Lemma in_content_crashed {T : Type} (m : Store -> Store * outcome T) (s : Server) :
  (forall c, content_filed c -> (m c).2 <> Crashed) -> server_filed s ->
  (in_content m s).2 = Crashed <-> is_nil (srv_content s) = true.
Proof.
  intros Hm Hs. unfold in_content. destruct (srv_content s) as [c|] eqn:Hc; cbn; [|done].
  specialize (Hm c (sf_content _ Hs _ Hc)). destruct (m c) as [c' o]. by split.
Qed.

Lemma content_call_crashed {A : Type} (m : GoM Store svc_error A) (s : Server) :
  panic_free content_filed m -> server_filed s ->
  (in_content (fun c => let '(c', r) := m c in (c', of_res r)) s).2 = Crashed <-> is_nil (srv_content s) = true.
Proof.
  intros Hm. apply in_content_crashed. intros c Hc%Hm. destruct (m c) as [c' r]. by intros Hr%of_res_crashed.
Qed.

Lemma in_snap_crashed {A : Type} (m : GoM Snapshotter (rpc_error SnapErr) A) (s : Server) :
  panic_free any_snap m -> (in_snap m s).2 = Crashed <-> is_nil (srv_snap s) = true.
Proof.
  intros Hm. unfold in_snap. destruct (srv_snap s) as [n|]; cbn; [|done]. specialize (Hm n I).
  destruct (m n) as [n' r]. cbn in *. by destruct r as [a|[c [[]|]|]|].
Qed.

Lemma in_images_crashed {A : Type} (m : GoM Images img_error A) (s : Server) :
  (m (srv_images s)).2 <> Panic -> (in_images m s).2 <> Crashed.
Proof. unfold in_images. destruct (m _) as [i r]. cbn. by rewrite of_res_crashed. Qed.

Lemma in_tasks_crashed {A : Type} (m : GoM Manager (rpc_error TaskErr) A) (s : Server) :
  panic_free tasks_filed m -> server_filed s -> (in_tasks m s).2 <> Crashed.
Proof.
  intros Hm Hs. unfold in_tasks. specialize (Hm _ (sf_tasks _ Hs)). destruct (m _) as [i r]. cbn in *.
  by rewrite of_res_crashed.
Qed.

Lemma in_containers_crashed {A : Type} (m : GoM ContainerStore status A) (s : Server) :
  (m (srv_containers s)).2 <> Panic -> (in_containers m s).2 <> Crashed.
Proof. unfold in_containers. destruct (m _) as [i r]. cbn. by rewrite of_res_crashed. Qed.

Lemma in_namespaces_crashed {A : Type} (m : GoM NamespaceStore status A) (s : Server) :
  (in_namespaces m s).2 = Crashed <-> (m (srv_namespaces s)).2 = Panic.
Proof. unfold in_namespaces. destruct (m _) as [i r]. cbn. by rewrite of_res_crashed. Qed.

Lemma write_msg_no_crash (v : WriteVars) (msg : option recv) (c : Store) :
  content_filed c -> (write_msg env v msg c).2 <> Crashed.
Proof.
  intros Hc. unfold write_msg. destruct msg as [[req|]|]; [|done..].
  pose proof (on_request_no_panic (e_io env) (e_now env) req v c Hc) as Hr.
  destruct (on_request _ _ _ _ c) as [c' [[resp next]|e|]]; [|done..].
  destruct (negb _); [done|]. by destruct next.
Qed.

Lemma content_write_crashed (id : nat) (msg : option recv) (s : Server) :
  server_filed s ->
  (content_write env id msg s).2 = Crashed <->
  is_nil (srv_content s) && uses_content (ContentWriteMsg id msg) s = true.
Proof.
  intros Hs. unfold content_write, uses_content. destruct (srv_streams s !! id) as [v|] eqn:Hv.
  2:{ rewrite andb_comm. by destruct msg as [[req|]|]. }
  destruct (srv_content s) as [c|] eqn:Hc; cbn [is_nil andb].
  - pose proof (write_msg_no_crash v msg c (sf_content _ Hs _ Hc)) as Hw.
    destruct (write_msg _ _ _ _) as [c' [[w [v'|]]| |]]; by split.
  - unfold write_msg_nil. destruct msg as [[req|]|]; [|done..].
    destruct (_ && _); cbn; [|done]. by destruct (q_Action req).
Qed.

Lemma svc_Status_no_panic (ref : string) (c : Store) : svc_Status ref c <> Panic.
Proof. unfold svc_Status. by repeat case_match. Qed.

Lemma read_no_crash (d : string) (offset size : Z) (c : Store) :
  content_filed c ->
  match svc_Read (e_io env) (e_send env) (e_fuel env) d offset size c with
  | None => Blocked
  | Some r => of_stream r
  end <> Crashed.
Proof.
  intros Hc. destruct (svc_Read _ _ _ _ _ _ _) as [[msgs r]|] eqn:Hr; [|done].
  apply svc_Read_no_panic in Hr; [|done]. unfold of_stream. cbn. by destruct r.
Qed.

Lemma images_no_panic (now : Z) (name : string) (img : option Image) (m : Images) :
  ContainerdImage.svc_Get name m <> Panic /\ (ContainerdImage.svc_Create now img m).2 <> Panic /\
  (ContainerdImage.svc_Delete name m).2 <> Panic /\
  ((ContainerdImage.svc_Update img m).2 = Panic <-> img = None).
Proof.
  unfold ContainerdImage.svc_Get, ContainerdImage.svc_Create, ContainerdImage.svc_Delete, ContainerdImage.svc_Update,
    go_bind, go_wrap, ContainerdImage.Get, ContainerdImage.Create, ContainerdImage.Delete.
  split_and!; by repeat (case_match; simplify_eq/=).
Qed.

Lemma containers_no_panic (id : string) (c : option Container) (m : ContainerStore) :
  container_Get id m <> Panic /\ (container_Create ID c m).2 <> Panic /\
  (container_Update ID c m).2 <> Panic /\ (container_Delete id m).2 <> Panic.
Proof.
  unfold container_Get, container_Create, container_Update, container_Delete.
  split_and!; by repeat (case_match; simplify_eq/=).
Qed.

Lemma namespaces_no_panic (name : string) (n : option Namespace) (m : NamespaceStore) :
  namespace_Get name m <> Panic /\ ((namespace_Create Name n m).2 = Panic <-> n = None) /\
  ((namespace_Update Name n m).2 = Panic <-> n = None).
Proof.
  unfold namespace_Get, namespace_Create, namespace_Update. split_and!; by repeat (case_match; simplify_eq/=).
Qed.

Lemma svc_Wait_no_crash (c : string) (s : Server) : (handle env (TasksWait c) s).2 <> Crashed.
Proof. cbn. destruct (svc_Wait _ _ _) as [t r]. by destruct r. Qed.

Lemma is_None_bool {A : Type} (o : option A) :
  (o = None <-> match o with None => true | Some _ => false end = true).
Proof. by destruct o. Qed.

(** Requests of the content service and of the snapshotter. *)
Lemma content_crashes {T : Type} (q : Rpc T) (s : Server) :
  server_filed s ->
  match q with
  | ContentInfo _ | ContentUpdate _ | ContentList _ | ContentDelete _ | ContentRead _ _ _ | ContentStatus _
  | ContentListStatuses | ContentWriteMsg _ _ =>
      (handle env q s).2 = Crashed <-> is_nil (srv_content s) && uses_content q s = true
  | _ => True
  end.
Proof.
  intros Hs. destruct q; try exact I; cbn [handle]; try (apply content_write_crashed; done).
  2: destruct req as [req|]; [|by rewrite andb_false_r].
  all: cbn [uses_content]; rewrite ?andb_true_r.
  1,3,5-7: apply in_content_crashed; [|done]; intros c Hc; cbn [reading snd].
  - rewrite of_res_crashed. unfold svc_Info, Info. by destruct (s_blobs c !! _).
  - apply of_stream_crashed.
  - by apply read_no_crash.
  - rewrite of_res_crashed. apply svc_Status_no_panic.
  - done.
  - apply content_call_crashed; [|done]. intros c Hc. unfold ContentService.svc_Update, Info. by repeat case_match.
  - apply content_call_crashed; [|done]. unfold ContentService.svc_Delete. panic_free.
Qed.

Lemma snap_crashes {T : Type} (q : Rpc T) (s : Server) :
  match q with
  | SnapPrepare _ _ | SnapView _ _ | SnapMounts _ | SnapCommit _ _ | SnapRemove _ | SnapStat _ | SnapUpdate _
  | SnapList _ | SnapUsage _ => (handle env q s).2 = Crashed <-> is_nil (srv_snap s) && uses_snap q = true
  | _ => True
  end.
Proof.
  destruct q; try exact I; cbn [handle uses_snap]; try (destruct req as [req|]; [|by rewrite andb_false_r]);
    rewrite ?andb_true_r; try (apply in_snap_crashed; try apply panic_free_wrap).
  - apply snap_Prepare_no_panic.
  - apply snap_View_no_panic.
  - apply (snap_rest_no_panic no_faults (e_fuel env) 0 key "" ∅).
  - apply (snap_rest_no_panic (e_io env) 0 (e_now env) key name ∅).
  - apply (snap_rest_no_panic (e_io env) 0 0 key "" ∅).
  - apply (snap_rest_no_panic no_faults 0 0 key "" ∅).
  - cbn. apply panic_free_bind; [done| |intros i; by panic_free]. apply panic_free_wrap.
    apply (snap_rest_no_panic no_faults 0 (e_now env) (pb_Name req) "" (pb_Labels req)).
  - destruct (srv_snap s) as [n|]; cbn; [|done]. unfold Snapshot.svc_List.
    split; [|done]. intros Hc. by apply of_stream_crashed in Hc.
  - apply (snap_rest_no_panic no_faults 0 0 key "" ∅).
Qed.

(** A request crashes the daemon exactly when it is malformed or needs a store
    that could not be opened. *)
Lemma handle_crashes {T : Type} (q : Rpc T) (s : Server) :
  server_filed s -> (handle env q s).2 = Crashed <-> crashes q s = true.
Proof.
  intros Hs. unfold crashes.
  assert (Hno : forall o : outcome T, o <> Crashed -> o = Crashed <-> false = true) by done.
  pose proof (content_crashes q s Hs) as Hc. pose proof (snap_crashes q s) as Hn.
  destruct q; cbn [malformed uses_content uses_snap orb] in *;
    rewrite ?andb_false_r, ?andb_true_r, ?orb_false_r in *; try exact Hc; try exact Hn; cbn [handle] in *;
    try (by apply Hno).
  all: try (apply Hno, in_tasks_crashed; [|done]; first
    [apply task_Create_no_panic | by intros m Hm; cbn; apply (task_get_no_panic (e_now env) container)
    |apply (task_rest_no_panic (e_now env) (e_deliver env) container exec 0)
    |apply (task_rest_no_panic (e_now env) (e_deliver env) container "" signal)
    |apply (task_rest_no_panic (e_now env) (e_deliver env) container "" 0)|done]).
  all: try (apply Hno, in_images_crashed, (images_no_panic (e_now env) name None (srv_images s))).
  all: try (apply Hno, in_containers_crashed; first
    [apply (containers_no_panic id None)|apply (containers_no_panic "" c)]).
  - apply Hno, in_images_crashed, (images_no_panic _ "").
  - rewrite <- is_None_bool. rewrite <- (proj2 (proj2 (proj2 (images_no_panic 0 "" img (srv_images s))))).
    unfold in_images. destruct (ContainerdImage.svc_Update _ _) as [i r]. apply of_res_crashed.
  - apply Hno, svc_Wait_no_crash.
  - apply Hno. apply of_stream_crashed.
  - rewrite in_namespaces_crashed. cbn. split; [|done]. intros Hp. by apply (namespaces_no_panic name None) in Hp.
  - rewrite in_namespaces_crashed, <- is_None_bool. apply (namespaces_no_panic "" n).
  - rewrite in_namespaces_crashed, <- is_None_bool. apply (namespaces_no_panic "" n).
  - apply Hno. by destruct cancelled.
Qed.

End crash.

(** ** Properties *)

(** C9: records keep their names.  Whatever requests clients send to a daemon,
    in whatever order its handlers, streams and goroutines interleave and
    whatever system calls fail, every blob, upload, snapshot, image, container
    and namespace it holds is filed under the name the record carries, every
    task id names a record with this id, and every blob's digest has the form
    the store can turn into a path.  The disk the daemon starts on may hold
    anything, as long as its files have names. *)
Theorem daemon_well_filed `{Api} (io : faults) (mtime : path -> Z) (f : fs) (listening : bool) (s : Server) :
  named_files f -> steps (main io mtime f listening) (Serving s) -> server_filed s.
Proof. apply main_filed. Qed.

(** C11: which requests make a handler panic.  In every state the daemon can
    reach, a handler that no other interferes with panics, and with it the
    process, exactly for a request that updates an image without giving one, for
    a request that creates or updates a namespace without giving one, and, when a
    store could not be opened at start-up, for a request that needs this store;
    any other request, with any arguments and any failures of the system, is
    answered, or its handler waits or loops.  (What requests that overlap can do
    to the process besides is in [ImageThreads].) *)
Theorem daemon_crashes_iff `{Api} (io : faults) (mtime : path -> Z) (f : fs) (listening : bool) (s : Server) :
  named_files f -> steps (main io mtime f listening) (Serving s) ->
  forall env {T} (q : Rpc T),
    ((handle env q s).2 = Crashed <-> crashes q s = true) /\
    (srv_content s <> None -> srv_snap s <> None -> (handle env q s).2 = Crashed <-> malformed q = true).
Proof.
  intros Hf Hs env T q. apply main_filed in Hs; [|done]. pose proof (handle_crashes env q s Hs) as Hc.
  split; [exact Hc|]. intros H1 H2. rewrite Hc. unfold crashes.
  destruct (srv_content s); [|done]. destruct (srv_snap s); [|done]. cbn. by rewrite !orb_false_r.
Qed.

(** ** Witnesses *)

Definition demo_api : Api := {|
  Container := string; Namespace := string; ID := fun c => c; Name := fun n => n; named := fun n => n;
  Name_named := fun n => eq_refl
|}.

Definition demo_env : Env :=
  mkEnv no_faults 5 (fun _ => true) 9 (fun _ => Some 100%Z) [] (fun _ _ => true) (fun ks => ks).

Definition demo_start_server (io : faults) : @Server demo_api := start_server io (fun _ => 0%Z) fs_empty.

(** An image is created and a task is. *)
Definition demo_image_server : @Server demo_api :=
  (handle demo_env (ImagesCreate (Some (mkImage "a" None no_target 0 0))) (demo_start_server no_faults)).1.
Definition demo_task_server : @Server demo_api := (handle demo_env (TasksCreate "c" "/bin/true") demo_image_server).1.

Lemma demo_daemon_steps :
  steps (main (H := demo_api) no_faults (fun _ => 0%Z) fs_empty true) (Serving demo_task_server).
Proof.
  eapply (steps_cons (demo_start_server no_faults) (Serving demo_image_server)).
  - eapply (ps_answer _ demo_env (ImagesCreate (Some (mkImage "a" None no_target 0 0)))). vm_compute. reflexivity.
  - eapply (steps_cons demo_image_server (Serving demo_task_server)); [|apply steps_refl].
    eapply (ps_answer _ demo_env (TasksCreate "c" "/bin/true")). vm_compute. reflexivity.
Qed.

Lemma fs_empty_named : named_files fs_empty.
Proof. intros p ino Hp. cbn in Hp. by rewrite lookup_empty in Hp. Qed.

Lemma daemon_well_filed_witness : server_filed demo_task_server /\ filed im_Name (srv_images demo_task_server).
Proof.
  pose proof (daemon_well_filed (H := demo_api) no_faults (fun _ => 0%Z) fs_empty true demo_task_server
    fs_empty_named demo_daemon_steps) as Hs.
  split; [exact Hs|exact (sf_images _ Hs)].
Defined.

Lemma daemon_crashes_iff_witness :
  (handle demo_env (NamespacesCreate None) demo_task_server).2 = Crashed /\
  (handle demo_env (ImagesUpdate (Some (mkImage "b" None no_target 0 0))) demo_task_server).2 <> Crashed.
Proof.
  destruct (daemon_crashes_iff (H := demo_api) no_faults (fun _ => 0%Z) fs_empty true demo_task_server
    fs_empty_named demo_daemon_steps demo_env (NamespacesCreate None)) as [[_ H1] _].
  destruct (daemon_crashes_iff (H := demo_api) no_faults (fun _ => 0%Z) fs_empty true demo_task_server
    fs_empty_named demo_daemon_steps demo_env (ImagesUpdate (Some (mkImage "b" None no_target 0 0)))) as [[H2 _] _].
  split; [apply H1; reflexivity|intros H; apply H2 in H; vm_compute in H; discriminate H].
Defined.

(** A daemon that cannot make its directories starts all the same, and dies of
    the first upload. *)
Example no_data_directory :
  let no_dirs : faults := fun c => match c with SysMkdirAll _ => true | _ => false end in
  let s := (handle demo_env ContentWrite (demo_start_server no_dirs)).1 in
  (srv_content s, (handle demo_env (ContentWriteMsg 0 (Some (RecvReq (mkWriteReq ActionSTAT "up" "" 0 0 [])))) s).2)
  = (None, Crashed).
Proof. vm_compute. reflexivity. Qed.

(** The directory of the socket. *)
Example socket_dir_ok : socket_dir = "/tmp/mini-containerd".
Proof. reflexivity. Qed.
