(* ===== verification/DaemonSafety.v ===== *)
(** * The daemon among well-behaved clients

    What the components promise holds for the composed daemon: when the clients
    name uploads and layers by plain file names, write uploads in order and do not
    commit after a write that failed part-way, every step of the daemon is, for each of its stores, a sequence of that store's own
    steps, so the invariants of the stores carry over, whatever the
    interleaving of calls, streams, goroutines and failures. *)

From S2P Require Import Prelude.
From S2P Require Import GoStrings.
From S2P Require Import Sha256.
From S2P Require Import FileSystem.
From S2P Require Import Grpc.
From S2P Require Import Snapshot.
From S2P Require Import Task.
From S2P Require Import ContentStore.
From S2P Require Import ContentService.
From S2P Require Import World.
From S2P Require Import ContainerdImage.
From S2P Require Import Services.
From S2P Require Import Daemon.
Open Scope go_scope.

(** ** Well-behaved requests *)

(** The upload a message of a write stream goes to, and where it stands. *)
Definition target_ref (v : WriteVars) (req : WriteReq) : string :=
  if String.eqb (v_ref v) "" then q_Ref req else v_ref v.

Definition upload_offset (c : Store) (ref : string) : Z :=
  match s_uploads c !! ref with Some us => us_Offset us | None => 0%Z end.

(** The data comes where the upload stands, and the offset does not overflow. *)
Definition in_order (v : WriteVars) (req : WriteReq) (c : Store) : Prop :=
  q_Offset req = upload_offset c (target_ref v req) /\
  in_int64 (q_Offset req + Z.of_nat (length (q_Data req))).

(** No write of the upload has failed between its first and its last byte. *)
Definition whole (c : Store) (ref : string) : Prop :=
  forall us, s_uploads c !! ref = Some us -> us_torn us = false.

Definition polite_write (v : WriteVars) (req : WriteReq) (c : Store) : Prop :=
  (q_Ref req = "" \/ plain_elem (q_Ref req) = true) /\
  match q_Action req with
  | ActionWRITE => in_order v req c
  | ActionCOMMIT => (q_Data req <> [] -> in_order v req c) /\ whole c (target_ref v req)
  | _ => True
  end.

Definition polite `{Api} {T : Type} (q : Rpc T) (s : Server) : Prop :=
  match q with
  | ContentWriteMsg id (Some (RecvReq req)) =>
      forall v c, srv_streams s !! id = Some v -> srv_content s = Some c -> polite_write v req c
  | SnapPrepare key _ | SnapView key _ => plain_elem key = true
  | SnapCommit _ name => plain_elem name = true
  | _ => True
  end.

(** The system gives processes positive pids. *)
Definition pids_ok (env : Env) : Prop := forall cmd pid, e_start env cmd = Some pid -> (0 < pid)%Z.

(** A step of the daemon whose request, if any, is well behaved. *)
Inductive polite_step `{Api} (s : Server) : Server -> Prop :=
| pol_answer env {T} (q : Rpc T) s' a :
    pids_ok env -> polite q s -> handle env q s = (s', Answered a) -> polite_step s s'
| pol_wait env {T} (q : Rpc T) s' :
    pids_ok env -> polite q s -> handle env q s = (s', Blocked) -> polite_step s s'
| pol_exit l err : polite_step s (set_tasks (process_exit l err (srv_tasks s)) s)
| pol_update l : polite_step s (set_tasks (monitor_update l (srv_tasks s)) s)
| pol_send l : polite_step s (set_tasks (monitor_send l (srv_tasks s)) s)
| pol_files n f : srv_snap s = Some n ->
    (forall k, snap_elems (sn_root n) k ∈ fs_dirs f <-> snap_elems (sn_root n) k ∈ fs_dirs (sn_fs n)) ->
    (forall k, fs_names f !! snap_elems (sn_root n) k = None) ->
    polite_step s (set_snap (Some (sn_set_fs f n)) s).

(** Such a step is a step of the daemon. *)
Lemma polite_process_step `{Api} (s s' : Server) : polite_step s s' -> process_step s (Serving s').
Proof.
  intros []; [by eapply ps_answer|by eapply ps_wait|apply ps_exit|apply ps_update|apply ps_send|by apply (ps_files _ n)].
Qed.

(** ** Simulation by the components *)

Record simulates `{Api} (s s' : Server) : Prop := {
  sim_content : option_Forall2 (rtc store_step) (srv_content s) (srv_content s');
  sim_snap : option_Forall2 (rtc snap_step) (srv_snap s) (srv_snap s');
  sim_tasks : rtc task_step (srv_tasks s) (srv_tasks s')
}.

Section simulation.
Context `{Api}.

Lemma simulates_refl (s : Server) : simulates s s.
Proof. by constructor. Qed.

Lemma simulates_trans (s1 s2 s3 : Server) : simulates s1 s2 -> simulates s2 s3 -> simulates s1 s3.
Proof. intros [C1 N1 T1] [C2 N2 T2]. constructor; by etrans. Qed.

(** A request that leaves the three stores alone. *)
Lemma simulates_frame (s s' : Server) :
  srv_content s' = srv_content s -> srv_snap s' = srv_snap s -> srv_tasks s' = srv_tasks s -> simulates s s'.
Proof. intros Hc Hn Ht. by constructor; rewrite ?Hc, ?Hn, ?Ht. Qed.

Lemma sim_in_content {T : Type} (m : Store -> Store * outcome T) (s : Server) :
  (forall c, srv_content s = Some c -> rtc store_step c (m c).1) -> simulates s (in_content m s).1.
Proof.
  intros Hm. unfold in_content. destruct (srv_content s) as [c|] eqn:Hc; [|apply simulates_refl].
  specialize (Hm c eq_refl). destruct (m c) as [c' o]. constructor; cbn; [|done|done]. rewrite Hc. by constructor.
Qed.

Lemma sim_content_call {A : Type} (m : GoM Store svc_error A) (s : Server) :
  (forall c, rtc store_step c (m c).1) ->
  simulates s (in_content (fun c => let '(c', r) := m c in (c', of_res r)) s).1.
Proof. intros Hm. apply sim_in_content. intros c _. specialize (Hm c). by destruct (m c). Qed.

Lemma sim_in_snap {A : Type} (m : GoM Snapshotter (rpc_error SnapErr) A) (s : Server) :
  (forall n, rtc snap_step n (m n).1) -> simulates s (in_snap m s).1.
Proof.
  intros Hm. unfold in_snap. destruct (srv_snap s) as [n|] eqn:Hn; [|apply simulates_refl].
  specialize (Hm n). destruct (m n) as [n' o]. constructor; cbn; [done| |done]. rewrite Hn. by constructor.
Qed.

Lemma sim_in_tasks {A : Type} (m : GoM Manager (rpc_error TaskErr) A) (s : Server) :
  rtc task_step (srv_tasks s) (m (srv_tasks s)).1 -> simulates s (in_tasks m s).1.
Proof.
  unfold in_tasks. destruct (m _) as [t o]. cbn. intros Ht. by constructor.
Qed.

Lemma sim_in_images {A : Type} (m : GoM Images img_error A) (s : Server) : simulates s (in_images m s).1.
Proof. unfold in_images. destruct (m _). by apply simulates_frame. Qed.

Lemma sim_in_containers {A : Type} (m : GoM ContainerStore status A) (s : Server) :
  simulates s (in_containers m s).1.
Proof. unfold in_containers. destruct (m _). by apply simulates_frame. Qed.

Lemma sim_in_namespaces {A : Type} (m : GoM NamespaceStore status A) (s : Server) :
  simulates s (in_namespaces m s).1.
Proof. unfold in_namespaces. destruct (m _). by apply simulates_frame. Qed.

End simulation.

(** Wrapping an error does not change the state. *)
Lemma go_wrap_state {S E F A : Type} (f : E -> F) (m : GoM S E A) (s : S) : (go_wrap f m s).1 = (m s).1.
Proof. unfold go_wrap. by destruct (m s). Qed.

(** ** The content store *)

Lemma sim_relabel (now : Z) (d : string) (ls : option (gmap string string)) (c : Store) :
  rtc store_step c (ContentService.svc_Update now (Some (d, ls)) c).1.
Proof.
  unfold ContentService.svc_Update, Info. destruct (s_blobs c !! d) as [b|] eqn:Hb; [|apply rtc_refl].
  destruct ls as [ls|]; [|apply rtc_refl]. cbn [fst]. apply rtc_once.
  pose proof (step_relabel c now d ls) as Hs. unfold relabel in Hs. by rewrite Hb in Hs.
Qed.

(** One in-order write. *)
Lemma sim_write (io : faults) (now : Z) (ref : string) (req : WriteReq) (c : Store) :
  q_Offset req = upload_offset c ref -> in_int64 (q_Offset req + Z.of_nat (length (q_Data req))) ->
  store_step c (WriteUpload io now ref (q_Offset req) (q_Data req) c).1.
Proof.
  intros Ho Hr. rewrite Ho. apply step_write. intros us Hus. unfold upload_offset in Ho. rewrite Hus in Ho.
  by rewrite <- Ho.
Qed.

(** Beginning an upload does not move where an upload stands. *)
Lemma begin_offset (io : faults) (now : Z) (ref expected : string) (c : Store) :
  ref <> "" -> upload_offset (BeginUpload io now ref expected c).1 ref = upload_offset c ref.
Proof.
  intros Hr%String.eqb_neq. unfold BeginUpload. rewrite Hr. cbv zeta. unfold upload_offset.
  destruct (s_uploads c !! ref) as [us|] eqn:Hus; [destruct (us_Committed us); cbn; by rewrite Hus|].
  destruct (os_mkdir_all _ _ _) as [f1|]; [|cbn; by rewrite Hus].
  destruct (os_create _ _ _) as [[h f2]|]; cbn; [by rewrite lookup_insert_eq|by rewrite Hus].
Qed.

Lemma begin_whole (io : faults) (now : Z) (ref expected : string) (c : Store) :
  ref <> "" -> whole c ref -> whole (BeginUpload io now ref expected c).1 ref.
Proof.
  intros Hr%String.eqb_neq Hw. unfold BeginUpload. rewrite Hr. cbv zeta.
  destruct (s_uploads c !! ref) as [us|]; [by destruct (us_Committed us)|].
  destruct (os_mkdir_all _ _ _) as [f1|]; [|done].
  destruct (os_create _ _ _) as [[h f2]|] eqn:Hcr; [|done]. apply os_create_spec in Hcr as (_ & Hp & _).
  intros us. cbn. rewrite lookup_insert_eq. intros [= <-]. apply us_torn_spec. cbn. by rewrite Hp.
Qed.

(** An in-order write that does not fail. *)
Lemma write_whole (io : faults) (now : Z) (ref : string) (req : WriteReq) (c c' : Store) (us : uploadState) :
  q_Offset req = upload_offset c ref -> in_int64 (q_Offset req + Z.of_nat (length (q_Data req))) -> whole c ref ->
  WriteUpload io now ref (q_Offset req) (q_Data req) c = (c', Ok us) -> whole c' ref.
Proof.
  intros Ho Hr Hw. unfold WriteUpload, upload_offset in *. destruct (s_uploads c !! ref) as [u|] eqn:Hu; [|done].
  rewrite Ho, Z.eqb_refl. cbn [negb]. destruct (os_write _ _ _ _) as [[h f] []] eqn:Hos; [|done]. cbn [negb].
  apply os_write_ok in Hos. injection Hos as -> _. intros [= <- _] u'. cbn. rewrite lookup_insert_eq. intros [= <-].
  apply us_torn_spec. cbn. rewrite wrap64_id by by rewrite <- Ho. specialize (Hw u Hu). apply us_torn_spec in Hw. lia.
Qed.

Lemma auto_init_sim (io : faults) (now : Z) (req : WriteReq) (v : WriteVars) (c : Store) :
  q_Ref req = "" \/ plain_elem (q_Ref req) = true ->
  let r := auto_init io now req v c in
  rtc store_step c r.1 /\
  forall v', r.2 = Ok v' ->
    v_ref v' = target_ref v req /\
    upload_offset r.1 (target_ref v req) = upload_offset c (target_ref v req) /\
    (whole c (target_ref v req) -> whole r.1 (target_ref v req)).
Proof.
  intros Hq. unfold auto_init, target_ref. destruct (String.eqb (v_ref v) "") eqn:Hv; cbn [andb].
  2:{ cbn. split; [apply rtc_refl|]. by intros v' [= <-]. }
  apply String.eqb_eq in Hv. destruct (String.eqb (q_Ref req) "") eqn:Hr; cbn [negb].
  { cbn. split; [apply rtc_refl|]. intros v' [= <-]. apply String.eqb_eq in Hr. by rewrite Hv, Hr. }
  unfold go_bind, internal, go_wrap. apply String.eqb_neq in Hr.
  pose proof (step_begin c io now (q_Ref req) (q_Expected req) Hq) as Hst.
  pose proof (begin_offset io now (q_Ref req) (q_Expected req) c Hr) as Ho.
  pose proof (begin_whole io now (q_Ref req) (q_Expected req) c Hr) as Hwh.
  destruct (BeginUpload _ _ _ _ c) as [c' [us|e|]]; cbn in *; (split; [by apply rtc_once|]); [|done..].
  intros v' [= <-]. done.
Qed.

(** Once the reference is known, [auto_init] does nothing. *)
Lemma auto_init_done (io : faults) (now : Z) (req : WriteReq) (v v' : WriteVars) (c : Store) :
  v_ref v' = target_ref v req -> auto_init io now req v' c = (c, Ok v').
Proof.
  intros Hv. unfold auto_init. destruct (String.eqb (v_ref v') "") eqn:He; [|done]. cbn [andb].
  apply String.eqb_eq in He. unfold target_ref in Hv. rewrite He in Hv.
  destruct (String.eqb (v_ref v) "") eqn:Hv'; [by rewrite <- Hv|]. apply String.eqb_neq in Hv'. congruence.
Qed.

Lemma on_write_sim (io : faults) (now : Z) (req : WriteReq) (v v' : WriteVars) (c : Store) :
  v_ref v' = target_ref v req -> in_order v req c -> rtc store_step c (on_write io now req v' c).1.
Proof.
  intros Hv [Ho Hr]. unfold on_write, go_bind. rewrite (auto_init_done _ _ _ v) by done.
  destruct (String.eqb _ _); [apply rtc_refl|]. unfold internal, go_wrap. rewrite <- Hv in Ho.
  pose proof (sim_write io now (v_ref v') req c Ho Hr) as Hs.
  destruct (WriteUpload _ _ _ _ _ c) as [c' [us|e|]]; by apply rtc_once.
Qed.

Lemma on_commit_sim (io : faults) (now : Z) (req : WriteReq) (v v' : WriteVars) (c : Store) :
  v_ref v' = target_ref v req -> (q_Data req <> [] -> in_order v req c) -> whole c (target_ref v req) ->
  rtc store_step c (on_commit io now req v' c).1.
Proof.
  intros Hv Ho Hwh. rewrite <- Hv in Hwh. unfold on_commit. destruct (String.eqb _ _); [apply rtc_refl|].
  assert (Hc : forall c1, rtc store_step c c1 -> whole c1 (v_ref v') ->
    rtc store_step c (go_bind (internal (CommitUpload io now (v_ref v') (q_Total req))) (fun _ s =>
      match GetUpload (v_ref v') s with
      | Some us => (s, @Ok svc_error _ (mkWriteResp ActionCOMMIT (us_Offset us) (us_Digest us) (us_Size us)
                             (us_StartedAt us) (us_UpdatedAt us)))
      | None => (s, Panic)
      end) c1).1).
  { intros c1 H1 Hw1. unfold go_bind, internal, go_wrap. pose proof (step_commit c1 io now (v_ref v') (q_Total req) Hw1) as Hs.
    destruct (CommitUpload _ _ _ _ c1) as [c2 [[]|e|]]; cbn in *; [destruct (GetUpload _ c2)| |]; by eapply rtc_r. }
  destruct (negb _ && _) eqn:Hd.
  - apply andb_true_iff in Hd as [_ Hd%Nat.ltb_lt]. destruct Ho as [Ho Hr]; [intros He; rewrite He in Hd; cbn in Hd; lia|].
    rewrite <- Hv in Ho. pose proof (sim_write io now (v_ref v') req c Ho Hr) as Hs.
    unfold go_bind at 1. unfold go_bind at 1. unfold internal at 1, go_wrap at 1.
    pose proof (write_whole io now (v_ref v') req c) as Hww.
    destruct (WriteUpload _ _ _ _ _ c) as [c' [us|e|]]; cbn in *; [|by apply rtc_once..].
    apply (Hc c'); [by apply rtc_once|by eapply Hww].
  - apply (Hc c); [apply rtc_refl|done].
Qed.

Lemma on_request_sim (io : faults) (now : Z) (req : WriteReq) (v : WriteVars) (c : Store) :
  polite_write v req c -> rtc store_step c (on_request io now req v c).1.
Proof.
  intros [Hq Hp]. destruct (auto_init_sim io now req v c Hq) as [Hi Hv]. unfold on_request, go_bind at 1.
  destruct (auto_init io now req v c) as [c1 [v'|e|]]; cbn [fst snd] in *; [|done..].
  destruct (Hv v' eq_refl) as (Hv1 & Ho1 & Hw1).
  assert (Ho : in_order v req c -> in_order v req c1) by (intros [H1 H2]; split; [by rewrite Ho1|done]).
  destruct (q_Action req).
  - unfold on_stat, go_bind, internal, go_wrap. pose proof (step_begin c1 io now (q_Ref req) (q_Expected req) Hq) as Hs.
    destruct (BeginUpload _ _ _ _ c1) as [c2 [us|e|]]; cbn in *; by eapply rtc_r.
  - pose proof (on_write_sim io now req v v' c1 Hv1 (Ho Hp)) as Hs. unfold go_bind.
    destruct (on_write _ _ _ _ c1) as [c2 [r|e|]]; cbn in *; by etrans.
  - pose proof (on_commit_sim io now req v v' c1 Hv1) as Hs. unfold go_bind.
    destruct Hp as [Hp1 Hp2]. destruct (on_commit _ _ _ _ c1) as [c2 [r|e|]]; cbn in *; (etrans; [exact Hi|apply Hs; auto]).
  - done.
Qed.

(** ** Requests *)

Section handle.
Context `{Api} (env : Env).

Lemma write_msg_sim (v : WriteVars) (msg : option recv) (c : Store) :
  (forall req, msg = Some (RecvReq req) -> polite_write v req c) ->
  rtc store_step c (write_msg env v msg c).1.
Proof.
  intros Hp. unfold write_msg. destruct msg as [[req|]|]; [|apply rtc_refl..].
  pose proof (on_request_sim (e_io env) (e_now env) req v c (Hp req eq_refl)) as Hs.
  destruct (on_request _ _ _ _ c) as [c' [[resp next]|e|]]; cbn in *; [|done..].
  destruct (negb _); [done|]. by destruct next.
Qed.

Lemma content_write_sim (id : nat) (msg : option recv) (s : Server) :
  polite (ContentWriteMsg id msg) s -> simulates s (content_write env id msg s).1.
Proof.
  intros Hp. unfold content_write. destruct (srv_streams s !! id) as [v|] eqn:Hv; [|apply simulates_refl].
  assert (Hgen : forall c o,
    option_Forall2 (rtc store_step) (srv_content s) c ->
    simulates s (match o with
      | Answered (w, Some v') => (set_streams (<[id := v']> (srv_streams s)) (srv_next s) (set_content c s), Answered w)
      | Answered (w, None) => (set_streams (delete id (srv_streams s)) (srv_next s) (set_content c s), Answered w)
      | Blocked => (set_content c s, Blocked)
      | Crashed => (set_content c s, @Crashed written)
      end).1).
  { intros c [[w [v'|]]| |] Hc; by constructor. }
  destruct (srv_content s) as [c|] eqn:Hc; [|by apply Hgen; constructor].
  assert (Hw : rtc store_step c (write_msg env v msg c).1).
  { apply write_msg_sim. intros req ->. by apply Hp. }
  destruct (write_msg _ _ _ _) as [c' o]. apply Hgen. by constructor.
Qed.

(** Operations of the snapshotter behind their status codes. *)
Lemma snap_ops_sim (io : faults) (fuel : nat) (now : Z) (key parent name : string) (i : InfoPb) (n : Snapshotter) :
  (plain_elem key = true -> rtc snap_step n (svc_Prepare io fuel now key parent n).1) /\
  (plain_elem key = true -> rtc snap_step n (svc_View fuel now key parent n).1) /\
  (plain_elem name = true -> rtc snap_step n (svc_Commit io now key name n).1) /\
  rtc snap_step n (svc_Remove io key n).1 /\
  rtc snap_step n (Snapshot.svc_Update now (Some i) n).1.
Proof.
  unfold svc_Prepare, svc_View, svc_Commit, svc_Remove, Snapshot.rpc. rewrite !go_wrap_state.
  split_and!; intros; try apply rtc_once.
  - by apply sstep_prepare.
  - by apply sstep_view.
  - by apply sstep_commit.
  - apply sstep_remove.
  - cbn. unfold go_bind. pose proof (sstep_update n now (pb_Name i) (pb_Labels i)) as Hs.
    unfold Snapshot.rpc, go_wrap. destruct (Update _ _ _ n) as [n1 [a|e|]]; cbn in *; exact Hs.
Qed.

Lemma svc_Create_state (m : Manager) (c stdin : string) :
  (Task.svc_Create (e_start env) (e_environ env) (e_now env) c stdin m).1 =
  (Task.Create (e_start env) (e_environ env) (e_now env) c ("/tmp/mini-containerd/bundles/" +:+ c)
     (service_spec stdin) m).1.
Proof.
  unfold Task.svc_Create, Task.rpc, go_wrap. cbv zeta. by destruct (Task.Create _ _ _ _ _ _ m) as [m' [l|e|]].
Qed.

Lemma svc_Start_state (m : Manager) (c x : string) :
  (svc_Start (e_now env) c x m).1 = m \/ (svc_Start (e_now env) c x m).1 = (Start (e_now env) c m).1.
Proof.
  unfold svc_Start. destruct (negb _); [by left|]. right. unfold Task.rpc, go_wrap.
  by destruct (Start _ _ m) as [m' [[]|e|]].
Qed.

Lemma svc_Wait_state (m : Manager) (c : string) : (svc_Wait (e_now env) c m).1 = (Wait c m).1.
Proof. unfold svc_Wait. by destruct (Wait c m) as [m' [|z|e]]. Qed.

Lemma tasks_sim {T : Type} (q : Rpc T) (s : Server) :
  pids_ok env ->
  match q with
  | TasksCreate _ _ | TasksStart _ _ | TasksDelete _ | TasksDeleteProcess | TasksGet _ | TasksKill _ _
  | TasksExec | TasksPause _ | TasksResume _ | TasksWait _ | TasksListPids _ | TasksCheckpoint | TasksUpdate
  | TasksMetrics | TasksResizePty | TasksCloseIO => simulates s (handle env q s).1
  | _ => True
  end.
Proof.
  intros Hpid. destruct q; try exact I; cbn [handle]; try (apply sim_in_tasks); try (apply rtc_refl).
  - rewrite svc_Create_state. apply rtc_once, tstep_create, Hpid.
  - destruct (svc_Start_state (srv_tasks s) container exec) as [-> | ->]; [apply rtc_refl|apply rtc_once, tstep_start].
  - unfold Task.svc_Delete, Task.rpc. rewrite go_wrap_state. apply rtc_once, tstep_delete.
  - unfold svc_Kill, Task.rpc. rewrite go_wrap_state. apply rtc_once, tstep_kill.
  - unfold svc_Pause, Task.rpc. rewrite go_wrap_state. apply rtc_once, tstep_pause.
  - unfold svc_Resume, Task.rpc. rewrite go_wrap_state. apply rtc_once, tstep_resume.
  - pose proof (svc_Wait_state (srv_tasks s) container) as Hw. destruct (svc_Wait _ _ _) as [t r]. cbn in *.
    rewrite Hw. constructor; [done|done|]. apply rtc_once, tstep_wait.
Qed.

(** A well-behaved request is, for each store, a sequence of its own steps. *)
Lemma handle_sim {T : Type} (q : Rpc T) (s : Server) :
  pids_ok env -> polite q s -> simulates s (handle env q s).1.
Proof.
  intros Hpid Hp. pose proof (tasks_sim q s Hpid) as Ht.
  destruct q; try exact Ht; cbn [handle fst]; try apply simulates_refl;
    try (apply sim_in_images); try (apply sim_in_containers); try (apply sim_in_namespaces);
    try (by apply sim_in_content; intros c _; apply rtc_refl).
  - destruct req as [[d ls]|]; [|apply simulates_refl]. apply sim_content_call. intros c. apply sim_relabel.
  - apply sim_content_call. intros c. unfold ContentService.svc_Delete. rewrite go_wrap_state.
    apply rtc_once, step_delete.
  - by apply simulates_frame.
  - by apply content_write_sim.
  - apply sim_in_snap. intros n. by apply (snap_ops_sim _ _ _ key parent "" (mkInfoPb "" "" KindView ∅ 0 0)).
  - apply sim_in_snap. intros n. by apply (snap_ops_sim no_faults _ _ key parent "" (mkInfoPb "" "" KindView ∅ 0 0)).
  - apply sim_in_snap. intros n. apply rtc_refl.
  - apply sim_in_snap. intros n. by apply (snap_ops_sim _ 0 _ key "" name (mkInfoPb "" "" KindView ∅ 0 0)).
  - apply sim_in_snap. intros n. by apply (snap_ops_sim _ 0 0 key "" "" (mkInfoPb "" "" KindView ∅ 0 0)).
  - apply sim_in_snap. intros n. apply rtc_refl.
  - destruct req as [i|]; [|apply simulates_refl]. apply sim_in_snap. intros n.
    by apply (snap_ops_sim no_faults 0 _ "" "" "" i).
  - destruct (srv_snap s); apply simulates_refl.
  - apply sim_in_snap. intros n. apply rtc_refl.
Qed.

End handle.

Lemma polite_step_simulates `{Api} (s s' : Server) : polite_step s s' -> simulates s s'.
Proof.
  intros [].
  - match goal with H : handle _ _ _ = _ |- _ => pose proof (handle_sim env q s) as Hs; rewrite H in Hs end. by apply Hs.
  - match goal with H : handle _ _ _ = _ |- _ => pose proof (handle_sim env q s) as Hs; rewrite H in Hs end. by apply Hs.
  - constructor; [done|done|]. apply rtc_once, tstep_exit.
  - constructor; [done|done|]. apply rtc_once, tstep_update.
  - constructor; [done|done|]. apply rtc_once, tstep_send.
  - constructor; cbn; [done| |done]. match goal with Hn : srv_snap s = Some n |- _ => rewrite Hn end.
    constructor. by apply rtc_once, sstep_files.
Qed.

Lemma polite_steps_simulate `{Api} (s s' : Server) : rtc polite_step s s' -> simulates s s'.
Proof.
  induction 1 as [s|s s1 s2 H1 _ IH]; [apply simulates_refl|].
  by eapply simulates_trans; [apply polite_step_simulates|].
Qed.

(** ** The invariant of the daemon *)

Record server_inv `{Api} (s : Server) : Prop := {
  vi_content : forall c, srv_content s = Some c -> store_inv c;
  vi_snap : forall n, srv_snap s = Some n -> snap_inv n;
  vi_tasks : mgr_inv (srv_tasks s)
}.

Lemma option_Forall2_inv {A : Type} (R : A -> A -> Prop) (I : A -> Prop) (o o' : option A) :
  (forall x y, R x y -> I x -> I y) -> option_Forall2 R o o' ->
  (forall x, o = Some x -> I x) -> forall y, o' = Some y -> I y.
Proof. intros HR [x y Hxy|] Ho y' Hy; [|done]. injection Hy as <-. eauto. Qed.

Lemma simulates_inv `{Api} (s s' : Server) : simulates s s' -> server_inv s -> server_inv s'.
Proof.
  intros [C N T] [H1 H2 H3]. constructor.
  - eapply option_Forall2_inv; [exact store_steps_inv|exact C|exact H1].
  - eapply option_Forall2_inv; [exact snap_steps_inv|exact N|exact H2].
  - by eapply task_steps_inv.
Qed.

(** A disk without files and without the store's directory of blobs. *)
Definition fresh_disk (f : fs) : Prop :=
  fs_names f = ∅ /\ path_elems content_root ++ ["blobs"] ∉ fs_dirs f.

Lemma start_inv `{Api} (io : faults) (mtime : path -> Z) (f : fs) :
  fresh_disk f -> server_inv (start_server io mtime f).
Proof.
  intros [Hf Hb]. unfold start_server. set (f0 := default f _).
  assert (Hf0 : fs_names f0 = ∅ /\ path_elems content_root ++ ["blobs"] ∉ fs_dirs f0).
  { unfold f0. destruct (os_mkdir_all _ _ _) as [f1|] eqn:Hmk; [|done].
    apply os_mkdir_all_frame in Hmk as (Hn & _ & _ & Hd). cbn. split; [by rewrite Hn|].
    intros [Hp|Hp]%Hd; [|done]. vm_compute in Hp. discriminate Hp. }
  clearbody f0. destruct Hf0 as [Hf0 Hb0]. constructor; cbn.
  - intros c. destruct (NewStore _ _ _ _) as [c0|e|] eqn:Hc; [|done..]. intros [= <-].
    exact (proj1 (NewStore_fresh io mtime content_root f0 c0 eq_refl Hf0 Hb0 Hc)).
  - intros n. destruct (NewSnapshotter _ _ _) as [n0|e|] eqn:Hn; [|done..]. intros [= <-].
    exact (NewSnapshotter_fresh io snapshot_root f0 n0 eq_refl Hf0 Hn).
  - apply NewManager_inv.
Qed.

(** ** Properties *)

(** C2: what well-behaved clients can rely on: clients that name uploads and
    layers by plain file names, write an upload at the offset where it stands, and
    do not commit an upload of which a write has failed part-way.  From a disk
    without files, after any number of their requests, with system calls failing
    and containers changing the files below their layers: every blob the daemon
    answers for is a file whose bytes hash to its digest and number its recorded
    size; every snapshot but the first of its chain has a committed parent,
    parents never form a cycle, and every layer that is not a view has its
    directory; and, as long as the system gives processes positive pids, every
    task has a pid exactly while its process has not been reaped, one of the four
    states, and a non-zero exit code only when stopped. *)
Theorem daemon_invariant `{Api} (io : faults) (mtime : path -> Z) (f : fs) (s : Server) :
  fresh_disk f -> rtc polite_step (start_server io mtime f) s ->
  (forall c, srv_content s = Some c -> forall d info, s_blobs c !! d = Some info -> blob_ok c d info) /\
  (forall n, srv_snap s = Some n ->
     tree_ok (sn_snapshots n) /\
     forall k i, sn_snapshots n !! k = Some i -> si_Kind i <> KindView ->
       snap_elems (sn_root n) k ∈ fs_dirs (sn_fs n)) /\
  (forall l t, m_heap (srv_tasks s) !! l = Some t -> task_ok t).
Proof.
  intros Hf Hs. destruct (simulates_inv _ _ (polite_steps_simulate _ _ Hs) (start_inv io mtime f Hf)) as [H1 H2 H3].
  split_and!.
  - intros c Hc. exact (si_blobs _ (H1 c Hc)).
  - intros n Hn. split; [exact (sv_tree _ (H2 n Hn))|exact (sv_dir _ (H2 n Hn))].
  - intros l t Hl. by apply (mi_heap _ H3 l).
Qed.

(** ** Witnesses *)

(** The messages of an upload of "hello", sent one by one on a stream, with an
    image created in between. *)
Definition demo_msg (q : WriteReq) : @Rpc demo_api written := ContentWriteMsg 0 (Some (RecvReq q)).
Definition demo_stat : WriteReq := mkWriteReq ActionSTAT "up" "" 0 0 [].
Definition demo_data : WriteReq := mkWriteReq ActionWRITE "up" "" 0 0 demo_hello.

Definition demo_d0 : @Server demo_api := demo_start_server no_faults.
Definition demo_d1 : @Server demo_api := (handle demo_env ContentWrite demo_d0).1.
Definition demo_d2 : @Server demo_api := (handle demo_env (demo_msg demo_stat) demo_d1).1.
Definition demo_d3 : @Server demo_api :=
  (handle demo_env (ImagesCreate (Some (mkImage "a" None no_target 0 0))) demo_d2).1.
Definition demo_d4 : @Server demo_api := (handle demo_env (demo_msg demo_data) demo_d3).1.
Definition demo_d5 : @Server demo_api := (handle demo_env (demo_msg (commit_req "up" "" 5)) demo_d4).1.

Lemma demo_pids : pids_ok demo_env.
Proof. by intros cmd pid [= <-]. Qed.

(** A request that the server answers. *)
Lemma demo_answer_step {T : Type} (q : Rpc (H := demo_api) T) (s : Server) :
  polite q s -> match (handle demo_env q s).2 with Answered _ => True | _ => False end ->
  polite_step s (handle demo_env q s).1.
Proof.
  intros Hp Ha. destruct (handle demo_env q s) as [s' [a| |]] eqn:Hh; [|done..].
  eapply (pol_answer s demo_env q s' a); [apply demo_pids|exact Hp|exact Hh].
Qed.

Lemma demo_polite_steps : rtc polite_step demo_d0 demo_d5.
Proof.
  eapply rtc_l; [apply (demo_answer_step ContentWrite); [exact I|vm_compute; exact I]|].
  eapply rtc_l; [apply (demo_answer_step (demo_msg demo_stat) demo_d1); [|vm_compute; exact I]|].
  { intros v c Hv Hc. split; [right; reflexivity|exact I]. }
  eapply rtc_l; [apply (demo_answer_step (ImagesCreate (Some (mkImage "a" None no_target 0 0))) demo_d2); [exact I|vm_compute; exact I]|].
  eapply rtc_l; [apply (demo_answer_step (demo_msg demo_data) demo_d3); [|vm_compute; exact I]|].
  { intros v c Hv Hc. split; [right; reflexivity|].
    assert (Hst : srv_streams demo_d3 !! 0 = Some (mkVars "up" "" false)) by vm_eq.
    rewrite Hst in Hv. injection Hv as <-.
    assert (Hct : match srv_content demo_d3 with Some c => upload_offset c "up" = 0%Z | None => True end) by by vm_compute.
    rewrite Hc in Hct. unfold in_order, target_ref. cbn [v_ref String.eqb q_Action demo_data q_Offset q_Data].
    change (if String.eqb "up" "" then _ else _) with "up". rewrite Hct. split; [reflexivity|].
    unfold in_int64. vm_compute. by split. }
  eapply rtc_l; [apply (demo_answer_step (demo_msg (commit_req "up" "" 5)) demo_d4); [|vm_compute; exact I]|].
  { intros v c Hv Hc. split; [right; reflexivity|]. split; [intros Hd; exfalso; apply Hd; reflexivity|].
    assert (Hst : srv_streams demo_d4 !! 0 = Some (mkVars "up" "" true)) by vm_eq.
    rewrite Hst in Hv. injection Hv as <-. unfold target_ref. cbn [v_ref]. change (if String.eqb "up" "" then _ else _) with "up".
    assert (Hct : match srv_content demo_d4 with
      | Some c => match s_uploads c !! "up" with Some us => us_torn us = false | None => True end
      | None => True
      end) by by vm_compute.
    rewrite Hc in Hct. intros us Hus. by rewrite Hus in Hct. }
  apply rtc_refl.
Qed.

Lemma fs_empty_fresh : fresh_disk fs_empty.
Proof.
  split; [reflexivity|]. cbn. rewrite elem_of_singleton. by destruct (path_elems content_root).
Qed.

Lemma daemon_invariant_witness :
  exists c info, srv_content demo_d5 = Some c /\ s_blobs c !! digest_of demo_hello = Some info /\
    blob_ok c (digest_of demo_hello) info.
Proof.
  destruct (daemon_invariant (H := demo_api) no_faults (fun _ => 0%Z) fs_empty demo_d5 fs_empty_fresh
    demo_polite_steps) as (H1 & _ & _).
  assert (Hc : match srv_content demo_d5 with
    | Some c => match s_blobs c !! digest_of demo_hello with Some _ => True | None => False end
    | None => False
    end) by by vm_compute.
  destruct (srv_content demo_d5) as [c|]; [|exfalso; exact Hc].
  destruct (s_blobs c !! digest_of demo_hello) as [info|] eqn:Hi; [|exfalso; exact Hc].
  exists c, info. split; [reflexivity|]. split; [exact Hi|]. exact (H1 c eq_refl (digest_of demo_hello) info Hi).
Defined.
