(* ===== verification/DaemonEffects.v ===== *)
(** * What a request of the daemon acts on: mini-containerd/cmd/containerd over [Daemon]

    The records of the daemon are named by their clients.  A request changes no
    record but those it names, in whatever state and whatever system calls fail,
    and when it is answered without an error the records it names are what the
    API says they are.  What a request names and what its answer promises is
    stated here from the API alone. *)

From S2P Require Import Prelude.
From S2P Require Import GoStrings.
From S2P Require Import Sha256.
From S2P Require Import FileSystem.
From S2P Require Import Grpc.
From S2P Require Import Snapshot.
From S2P Require Import Task.
From S2P Require Import ContentStore.
From S2P Require Import ContentService.
From S2P Require Import World.
From S2P Require Import ContainerdImage.
From S2P Require Import Services.
From S2P Require Import Daemon.
Open Scope go_scope.

(** ** Records and their names *)

Inductive entity : Type :=
| EBlob (digest : string)
| EUpload (ref : string)
| ESnap (key : string)
| EImage (name : string)
| ETask (container : string)
| EContainer (id : string)
| ENamespace (name : string).

#[global] Instance entity_eq_dec : EqDecision entity.
Proof. solve_decision. Defined.

Section records.
Context `{Api}.

Definition blob_at (d : string) (s : Server) : option BlobInfo := c ← srv_content s; s_blobs c !! d.
Definition upload_at (ref : string) (s : Server) : option uploadState := c ← srv_content s; s_uploads c !! ref.
Definition snap_at (key : string) (s : Server) : option SnapshotInfo := n ← srv_snap s; sn_snapshots n !! key.
Definition image_at (name : string) (s : Server) : option Image := srv_images s !! name.
Definition task_at (id : string) (s : Server) : option Task := snd <$> lookup_task (srv_tasks s) id.
Definition container_at (id : string) (s : Server) : option Container := cs_data (srv_containers s) !! id.
Definition namespace_at (name : string) (s : Server) : option Namespace := ns_data (srv_namespaces s) !! name.

(** The record is the same, or absent in both. *)
Definition same_at (e : entity) (s s' : Server) : Prop :=
  match e with
  | EBlob d => blob_at d s' = blob_at d s
  | EUpload ref => upload_at ref s' = upload_at ref s
  | ESnap key => snap_at key s' = snap_at key s
  | EImage name => image_at name s' = image_at name s
  | ETask id => task_at id s' = task_at id s
  | EContainer id => container_at id s' = container_at id s
  | ENamespace name => namespace_at name s' = namespace_at name s
  end.

(** ** What a request names

    [v] is the upload the stream of a message has been told before. *)

(** A status message without a reference starts an upload named after the clock. *)
Definition message_refs (now : Z) (v : WriteVars) (req : WriteReq) : list string :=
  (if String.eqb (v_ref v) "" then q_Ref req else v_ref v) ::
  match q_Action req with
  | ActionSTAT => [if String.eqb (q_Ref req) "" then "upload-" +:+ hex_int64 now else q_Ref req]
  | _ => []
  end.

(** The records a request may change; a commit that succeeds changes the blob
    whose digest it records. *)
Definition acts_on {T : Type} (env : Env) (q : Rpc T) (s s' : Server) (e : entity) : Prop :=
  match q, e with
  | ContentUpdate (Some (d, _)), EBlob d' => d' = d
  | ContentDelete d, EBlob d' => d' = d
  | ContentWriteMsg id (Some (RecvReq req)), EUpload ref =>
      exists v, srv_streams s !! id = Some v /\ ref ∈ message_refs (e_now env) v req
  | ContentWriteMsg id (Some (RecvReq req)), EBlob d =>
      q_Action req = ActionCOMMIT /\
      exists v us, srv_streams s !! id = Some v /\
        upload_at (if String.eqb (v_ref v) "" then q_Ref req else v_ref v) s' = Some us /\ us_Digest us = d
  | SnapPrepare key _, ESnap k | SnapView key _, ESnap k | SnapRemove key, ESnap k => k = key
  | SnapCommit key name, ESnap k => k = key \/ k = name
  | SnapUpdate (Some i), ESnap k => k = pb_Name i
  | ImagesCreate (Some img), EImage n | ImagesUpdate (Some img), EImage n => n = im_Name img
  | ImagesDelete name, EImage n => n = name
  | TasksCreate c _, ETask i | TasksStart c _, ETask i | TasksDelete c, ETask i | TasksKill c _, ETask i
  | TasksPause c, ETask i | TasksResume c, ETask i | TasksWait c, ETask i => i = c
  | ContainersCreate (Some c), EContainer i | ContainersUpdate (Some c), EContainer i => i = ID c
  | ContainersDelete id, EContainer i => i = id
  | NamespacesCreate (Some n), ENamespace i | NamespacesUpdate (Some n), ENamespace i => i = Name n
  | NamespacesDelete name, ENamespace i => i = name
  | _, _ => False
  end.

(** What an answer without an error promises. *)
Definition promised {T : Type} (q : Rpc T) (s s' : Server) : T -> Prop :=
  match q in Rpc T return T -> Prop with
  | ContentDelete d => fun r => r = Ok tt -> is_Some (blob_at d s) /\ blob_at d s' = None
  | ContentWriteMsg _ (Some (RecvReq req)) => fun w =>
      q_Action req = ActionCOMMIT -> Forall (fun resp => is_Some (blob_at (a_Digest resp) s')) w.1
  | SnapPrepare key parent => fun r => forall ms, r = Ok ms ->
      snap_at key s = None /\ exists i, snap_at key s' = Some i /\ si_Parent i = parent /\ si_Kind i = KindActive
  | SnapView key parent => fun r => forall ms, r = Ok ms ->
      snap_at key s = None /\ exists i, snap_at key s' = Some i /\ si_Parent i = parent /\ si_Kind i = KindView
  | SnapCommit key name => fun r => r = Ok tt ->
      exists i i', snap_at key s = Some i /\ si_Kind i = KindActive /\
        snap_at name s' = Some i' /\ si_Parent i' = si_Parent i /\ si_Kind i' = KindCommitted /\
        (name <> key -> snap_at key s' = None)
  | SnapRemove key => fun r => r = Ok tt -> is_Some (snap_at key s) /\ snap_at key s' = None
  | ImagesCreate (Some img) => fun r => forall i, r = Ok i ->
      image_at (im_Name img) s = None /\
      exists i', image_at (im_Name img) s' = Some i' /\ im_Name i' = im_Name img /\ im_Labels i' = im_Labels img
  | ImagesDelete name => fun r => r = Ok tt -> is_Some (image_at name s) /\ image_at name s' = None
  | TasksCreate c _ => fun r => forall a, r = Ok a ->
      m_tasks (srv_tasks s) !! c = None /\ exists t, task_at c s' = Some t /\ t_Status t = StatusCreated
  | TasksStart c _ => fun r => forall a, r = Ok a ->
      exists t t', task_at c s = Some t /\ t_Status t = StatusCreated /\
        task_at c s' = Some t' /\ t_Status t' = StatusRunning
  | TasksDelete c => fun r => r = Ok tt ->
      exists t, task_at c s = Some t /\ t_Status t <> StatusRunning /\ task_at c s' = None
  | TasksPause c => fun r => r = Ok tt ->
      exists t t', task_at c s = Some t /\ t_Status t = StatusRunning /\ task_at c s' = Some t' /\ t_Status t' = StatusPaused
  | TasksResume c => fun r => r = Ok tt ->
      exists t t', task_at c s = Some t /\ t_Status t = StatusPaused /\ task_at c s' = Some t' /\ t_Status t' = StatusRunning
  | ContainersCreate (Some c) => fun r => forall a, r = Ok a -> container_at (ID c) s = None /\ container_at (ID c) s' = Some c
  | ContainersUpdate (Some c) => fun r => forall a, r = Ok a -> is_Some (container_at (ID c) s) /\ container_at (ID c) s' = Some c
  | ContainersDelete id => fun r => r = Ok tt -> is_Some (container_at id s) /\ container_at id s' = None
  | NamespacesCreate (Some n) => fun r => forall a, r = Ok a -> namespace_at (Name n) s' = Some a
  | NamespacesUpdate (Some n) => fun r => forall a, r = Ok a -> is_Some (namespace_at (Name n) s) /\ namespace_at (Name n) s' = Some n
  | NamespacesDelete name => fun r => r = Ok tt -> namespace_at name s' = None
  | _ => fun _ => True
  end.

End records.

(** ** Lemmas: the content store *)

Definition blob_is (d : string) (x : option BlobInfo) (c : Store) : Prop := s_blobs c !! d = x.
Definition upload_is (ref : string) (x : option uploadState) (c : Store) : Prop := s_uploads c !! ref = x.

Definition begun_ref (now : Z) (ref : string) : string := if String.eqb ref "" then "upload-" +:+ hex_int64 now else ref.

Lemma BeginUpload_uploads (io : faults) (now : Z) (ref expected r : string) (x : option uploadState) :
  r <> begun_ref now ref -> preserves (upload_is r x) (BeginUpload io now ref expected).
Proof.
  intros Hr c Hc. unfold BeginUpload. fold (begun_ref now ref). cbv zeta.
  destruct (s_uploads c !! _) as [us|]; [by destruct (us_Committed us)|].
  destruct (os_mkdir_all _ _ _) as [f1|]; [|done]. destruct (os_create _ _ _) as [[h f2]|]; [|done].
  unfold upload_is. cbn. by rewrite lookup_insert_ne.
Qed.

Lemma BeginUpload_blobs (io : faults) (now : Z) (ref expected d : string) (x : option BlobInfo) :
  preserves (blob_is d x) (BeginUpload io now ref expected).
Proof.
  intros c Hc. unfold BeginUpload. cbv zeta. destruct (s_uploads c !! _) as [us|]; [by destruct (us_Committed us)|].
  destruct (os_mkdir_all _ _ _) as [f1|]; [|done]. by destruct (os_create _ _ _) as [[h f2]|].
Qed.

Lemma WriteUpload_store (io : faults) (now : Z) (ref : string) (offset : Z) (data : bytes) (c : Store) :
  s_blobs (WriteUpload io now ref offset data c).1 = s_blobs c /\
  forall r, r <> ref -> s_uploads (WriteUpload io now ref offset data c).1 !! r = s_uploads c !! r.
Proof.
  unfold WriteUpload. destruct (s_uploads c !! ref) as [us|]; [|done]. cbv zeta.
  assert (Hw : forall u c0, s_blobs c0 = s_blobs c -> (forall r, r <> ref -> s_uploads c0 !! r = s_uploads c !! r) ->
    let c1 := (let '(h, f, ok) := os_write io data (us_tmpFile u) (s_fs c0) in
      if negb ok then (set_upload ref (us_file h u) (set_fs f c0), Err IOError)
      else let u' := us_wrote now offset data h u in (set_upload ref u' (set_fs f c0), @Ok StoreErr _ u')).1 in
    s_blobs c1 = s_blobs c /\ forall r, r <> ref -> s_uploads c1 !! r = s_uploads c !! r).
  { intros u c0 Hb Hu. destruct (os_write _ _ _ _) as [[h f] []]; cbn; (split; [done|]); intros r Hr;
      rewrite lookup_insert_ne by done; by apply Hu. }
  destruct (negb _); [|by apply Hw]. destruct (os_seek _ _ _) as [h|]; [|done].
  apply Hw; [done|]. intros r Hr. cbn. by rewrite lookup_insert_ne.
Qed.

Lemma WriteUpload_uploads (io : faults) (now : Z) (ref : string) (offset : Z) (data : bytes) (r : string) (x : option uploadState) :
  r <> ref -> preserves (upload_is r x) (WriteUpload io now ref offset data).
Proof. intros Hr c Hc. unfold upload_is. by rewrite (proj2 (WriteUpload_store io now ref offset data c) r Hr). Qed.

Lemma WriteUpload_blobs (io : faults) (now : Z) (ref : string) (offset : Z) (data : bytes) (d : string) (x : option BlobInfo) :
  preserves (blob_is d x) (WriteUpload io now ref offset data).
Proof. intros c Hc. unfold blob_is. by rewrite (proj1 (WriteUpload_store io now ref offset data c)). Qed.

(** A commit changes the blob whose digest its upload records, if any. *)
Lemma CommitUpload_store (io : faults) (now : Z) (ref : string) (total : Z) (c : Store) :
  let '(c', r) := CommitUpload io now ref total c in
  (forall r', r' <> ref -> s_uploads c' !! r' = s_uploads c !! r') /\
  match r with
  | Ok _ => exists us info, s_uploads c' !! ref = Some us /\ s_blobs c' = <[us_Digest us := info]> (s_blobs c)
  | _ => s_blobs c' = s_blobs c
  end.
Proof.
  unfold CommitUpload. destruct (s_uploads c !! ref) as [us|]; [|done]. cbv zeta.
  assert (Hdrop : s_uploads (drop_tmp io us c) = s_uploads c /\ s_blobs (drop_tmp io us c) = s_blobs c)
    by (unfold drop_tmp; by destruct (os_remove _ _ _)). destruct Hdrop as [Hd1 Hd2].
  destruct (_ && _); [by rewrite Hd1|]. destruct (_ && _); [by rewrite Hd1|]. destruct (blobPath _ _) as [p|e|]; [|done..].
  unfold commit_move. destruct (os_mkdir_all _ _ _) as [f1|]; [|done].
  destruct (os_close _ _) as [h []]; cbn [negb]; [destruct (os_rename _ _ _ _) as [f2|]|]; cbn;
    (split; [intros r Hr; by rewrite lookup_insert_ne|]); try done.
  eexists _, _. rewrite lookup_insert_eq. by split.
Qed.

Lemma CommitUpload_uploads (io : faults) (now : Z) (ref : string) (total : Z) (r : string) (x : option uploadState) :
  r <> ref -> preserves (upload_is r x) (CommitUpload io now ref total).
Proof.
  intros Hr c Hc. pose proof (CommitUpload_store io now ref total c) as H. destruct (CommitUpload _ _ _ _ c) as [c' o].
  destruct H as [H _]. unfold upload_is. cbn. by rewrite H.
Qed.

#[export] Hint Resolve BeginUpload_uploads BeginUpload_blobs WriteUpload_uploads WriteUpload_blobs
  CommitUpload_uploads : preserves.

(** *** One message *)

Section message.
Context (io : faults) (now : Z) (req : WriteReq) (v : WriteVars).

(** The reference a message goes to. *)
Definition message_ref : string := if String.eqb (v_ref v) "" then q_Ref req else v_ref v.

(** After the first part the stream has that reference. *)
Lemma auto_init_Ok (c c' : Store) (v' : WriteVars) : auto_init io now req v c = (c', Ok v') -> v_ref v' = message_ref.
Proof.
  unfold auto_init, message_ref. destruct (String.eqb_spec (v_ref v) "") as [Hv|Hv]; cbn [andb].
  - destruct (String.eqb_spec (q_Ref req) "") as [Hq|Hq]; cbn [negb].
    + intros [= <- <-]. congruence.
    + unfold go_bind, internal, go_wrap. destruct (BeginUpload _ _ _ _ c) as [c1 [us|e|]]; cbn; [|done..]. by intros [= <- <-].
  - by intros [= <- <-].
Qed.

Lemma auto_init_uploads (r : string) (x : option uploadState) :
  r <> message_ref -> preserves (upload_is r x) (auto_init io now req v).
Proof.
  intros Hr. unfold auto_init, message_ref in *. destruct (String.eqb (v_ref v) ""); cbn [andb]; [|apply preserves_lift].
  destruct (String.eqb_spec (q_Ref req) "") as [Hq|Hq]; cbn [negb]; [apply preserves_lift|].
  unfold internal. preserves. apply BeginUpload_uploads. unfold begun_ref. by apply String.eqb_neq in Hq as ->.
Qed.

Lemma auto_init_blobs (d : string) (x : option BlobInfo) : preserves (blob_is d x) (auto_init io now req v).
Proof. unfold auto_init, internal. preserves. Qed.

End message.

(** A rule that knows what the first part answers. *)
Lemma preserves_bind_Ok {S E A B : Type} (I : S -> Prop) (P : A -> Prop) (m : GoM S E A) (k : A -> GoM S E B) :
  preserves I m -> (forall s s' a, m s = (s', Ok a) -> P a) -> (forall a, P a -> preserves I (k a)) ->
  preserves I (go_bind m k).
Proof.
  intros Hm HP Hk s Hs. unfold go_bind. specialize (Hm s Hs). destruct (m s) as [s' [a|e|]] eqn:Ha; [|done..].
  apply (Hk a); [by eapply HP|done].
Qed.

Lemma on_request_uploads (io : faults) (now : Z) (req : WriteReq) (v : WriteVars) (r : string) (x : option uploadState) :
  r ∉ message_refs now v req -> preserves (upload_is r x) (on_request io now req v).
Proof.
  unfold message_refs. fold (message_ref req v). intros [Hr Hrs]%not_elem_of_cons.
  unfold on_request. eapply (preserves_bind_Ok _ (fun v' => v_ref v' = message_ref req v)).
  { by apply auto_init_uploads. } { apply auto_init_Ok. } intros v' Hv'. cbv beta.
  assert (Hm : message_ref req v' = message_ref req v).
  { unfold message_ref at 1. rewrite Hv'. unfold message_ref. destruct (String.eqb (v_ref v) "") eqn:Hv; [by destruct (q_Ref req)|by rewrite Hv]. }
  destruct (q_Action req); [| | |apply preserves_lift].
  - apply preserves_bind; [|intros a; apply preserves_lift]. unfold on_stat, internal. preserves.
    apply BeginUpload_uploads. unfold begun_ref. intros ->. apply Hrs. by left.
  - apply preserves_bind; [|intros a; apply preserves_lift]. unfold on_write.
    eapply (preserves_bind_Ok _ (fun v'' => v_ref v'' = message_ref req v)).
    { apply auto_init_uploads. by rewrite Hm. } { intros c c' v'' H%auto_init_Ok. by rewrite H. }
    intros v'' Hv''. cbv beta. unfold internal. preserves. apply WriteUpload_uploads. by rewrite Hv''.
  - apply preserves_bind; [|intros a; apply preserves_lift]. unfold on_commit, internal. preserves;
      try (apply WriteUpload_uploads; by rewrite Hv'); try (apply CommitUpload_uploads; by rewrite Hv').
    intros c Hc. by destruct (GetUpload _ c).
Qed.

Lemma on_commit_blobs (io : faults) (now : Z) (req : WriteReq) (v : WriteVars) (c : Store) :
  let '(c', r) := on_commit io now req v c in
  (forall d, s_blobs c' !! d = s_blobs c !! d \/ exists us, s_uploads c' !! v_ref v = Some us /\ us_Digest us = d) /\
  forall resp, r = Ok resp -> is_Some (s_blobs c' !! a_Digest resp).
Proof.
  unfold on_commit. destruct (String.eqb _ _); [by split; [left|]|]. unfold go_bind at 1.
  match goal with |- context [match ?w c with _ => _ end] => assert (Hw : s_blobs (w c).1 = s_blobs c);
    [|destruct (w c) as [c1 [u|e|]]; cbn [fst] in Hw; rewrite <- Hw; [|by split; [left|]..]] end.
  { destruct (_ && _); [|done]. unfold internal, go_bind, go_wrap.
    pose proof (proj1 (WriteUpload_store io now (v_ref v) (q_Offset req) (q_Data req) c)) as H.
    by destruct (WriteUpload _ _ _ _ _ c) as [c2 [us|e|]]. }
  unfold go_bind.
  unfold internal, go_wrap. pose proof (CommitUpload_store io now (v_ref v) (q_Total req) c1) as Hc.
  destruct (CommitUpload _ _ _ _ c1) as [c2 [u2|e|]]; cbn [res_wrap]; destruct Hc as [_ Hc]; [|by rewrite Hc; split; [left|]..].
  destruct Hc as (us & info & Hu & Hb). unfold GetUpload. rewrite Hu. rewrite Hb. split.
  - intros d. destruct (decide (d = us_Digest us)) as [->|Hne]; [right; by eauto|left]. by rewrite lookup_insert_ne.
  - intros resp [= <-]. cbn. by rewrite lookup_insert_eq.
Qed.

Lemma on_request_blobs (io : faults) (now : Z) (req : WriteReq) (v : WriteVars) (d : string) (x : option BlobInfo) :
  q_Action req <> ActionCOMMIT -> preserves (blob_is d x) (on_request io now req v).
Proof.
  intros Ha. unfold on_request. apply preserves_bind; [apply auto_init_blobs|]. intros v'.
  destruct (q_Action req); [| |done|apply preserves_lift]; (apply preserves_bind; [|intros a; apply preserves_lift]).
  - unfold on_stat, internal. preserves.
  - unfold on_write. apply preserves_bind; [apply auto_init_blobs|]. intros v''. unfold internal. preserves.
Qed.

Lemma on_request_commit (io : faults) (now : Z) (req : WriteReq) (v : WriteVars) (c : Store) :
  q_Action req = ActionCOMMIT ->
  let '(c', r) := on_request io now req v c in
  (forall d, s_blobs c' !! d = s_blobs c !! d \/
     exists us, s_uploads c' !! message_ref req v = Some us /\ us_Digest us = d) /\
  forall a, r = Ok a -> is_Some (s_blobs c' !! a_Digest a.1).
Proof.
  intros Ha. unfold on_request, go_bind. pose proof (fun d => auto_init_blobs io now req v d (s_blobs c !! d) c eq_refl) as Hb.
  unfold blob_is in Hb. destruct (auto_init io now req v c) as [c1 [v'|e|]] eqn:Hi; cbn [fst] in Hb;
    [|split; [by left|done]..].
  rewrite Ha. pose proof (on_commit_blobs io now req v' c1) as Hc. destruct (on_commit _ _ _ _ c1) as [c2 [resp|e|]];
    destruct Hc as [Hc1 Hc2]; (split; [intros d; rewrite <- Hb, <- (auto_init_Ok _ _ _ _ _ _ _ Hi); apply Hc1|]); [|done..].
  intros a [= <-]. by apply Hc2.
Qed.

(** *** The other operations of the content store *)

Lemma content_Delete_blobs (io : faults) (d d' : string) (x : option BlobInfo) :
  d' <> d -> preserves (blob_is d' x) (ContentStore.Delete io d).
Proof.
  intros Hd c Hc. unfold ContentStore.Delete. destruct (s_blobs c !! d); [|done]. destruct (blobPath _ _); [|done..].
  destruct (os_remove _ _ _); unfold blob_is; cbn; by rewrite ?lookup_delete_ne.
Qed.

Lemma content_Delete_uploads (io : faults) (d r : string) (x : option uploadState) :
  preserves (upload_is r x) (ContentStore.Delete io d).
Proof.
  intros c Hc. unfold ContentStore.Delete. destruct (s_blobs c !! d); [|done]. destruct (blobPath _ _); [|done..].
  by destruct (os_remove _ _ _).
Qed.

Lemma content_Delete_done (io : faults) (d : string) (c c' : Store) :
  ContentStore.Delete io d c = (c', Ok tt) -> is_Some (s_blobs c !! d) /\ s_blobs c' !! d = None.
Proof.
  unfold ContentStore.Delete. destruct (s_blobs c !! d) as [i|]; [|done]. destruct (blobPath _ _); [|done..].
  destruct (os_remove _ _ _); intros [= <-]; cbn; by rewrite ?lookup_delete_eq.
Qed.

Lemma content_Update_store (now : Z) (d : string) (ls : option (gmap string string)) (c : Store) :
  let c' := (ContentService.svc_Update now (Some (d, ls)) c).1 in
  s_uploads c' = s_uploads c /\ forall d', d' <> d -> s_blobs c' !! d' = s_blobs c !! d'.
Proof.
  unfold ContentService.svc_Update, Info. destruct (s_blobs c !! d) as [i|]; [|done]. destruct ls as [ls|]; [|done].
  split; [done|]. intros d' Hd. cbn. by rewrite lookup_insert_ne.
Qed.

(** ** Lemmas: the snapshotter *)

Definition snap_is (k : string) (x : option SnapshotInfo) (n : Snapshotter) : Prop := sn_snapshots n !! k = x.

Lemma make_dirs_is (io : faults) (dirs : list string) (k : string) (x : option SnapshotInfo) :
  preserves (snap_is k x) (make_dirs io dirs).
Proof.
  intros n Hn. pose proof (make_dirs_frame io dirs n) as Hm. destruct (make_dirs _ _ _) as [n' r].
  by destruct Hm as (f & -> & _).
Qed.

Lemma record_is (now : Z) (key parent : string) (kind : Kind) (k : string) (x : option SnapshotInfo) :
  k <> key -> preserves (snap_is k x) (record_snapshot now key parent kind).
Proof. intros Hk n Hn. unfold snap_is. cbn. by rewrite lookup_insert_ne. Qed.

Lemma with_state_is {E A : Type} (f : Snapshotter -> res E A) (k : string) (x : option SnapshotInfo) :
  preserves (snap_is k x) (with_state f).
Proof. apply preserves_read. Qed.

Lemma snap_Commit_is (io : faults) (now : Z) (key name k : string) (x : option SnapshotInfo) :
  k <> key -> k <> name -> preserves (snap_is k x) (Commit io now key name).
Proof.
  intros H1 H2 n Hn. unfold Commit. destruct (sn_snapshots n !! key); [|done]. case_decide; [|done].
  destruct (String.eqb name key); [|destruct (os_rename _ _ _ _); [|done]]; unfold snap_is; cbn;
    by rewrite lookup_insert_ne, ?lookup_delete_ne.
Qed.

Lemma snap_Remove_is (io : faults) (key k : string) (x : option SnapshotInfo) : k <> key -> preserves (snap_is k x) (Remove io key).
Proof.
  intros Hk n Hn. unfold Remove. destruct (sn_snapshots n !! key); [|done]. destruct (find_child _ _); [done|].
  destruct (os_remove_all _ _ _); [|done]. unfold snap_is. cbn. by rewrite lookup_delete_ne.
Qed.

Lemma snap_Update_is (now : Z) (key k : string) (ls : gmap string string) (x : option SnapshotInfo) :
  k <> key -> preserves (snap_is k x) (Update now key ls).
Proof.
  intros Hk n Hn. unfold Update. destruct (sn_snapshots n !! key); [|done]. unfold snap_is. cbn. by rewrite lookup_insert_ne.
Qed.

#[export] Hint Resolve make_dirs_is record_is with_state_is snap_Commit_is snap_Remove_is snap_Update_is : preserves.

Lemma snap_Prepare_is (io : faults) (fuel : nat) (now : Z) (key parent k : string) (x : option SnapshotInfo) :
  k <> key -> preserves (snap_is k x) (Prepare io fuel now key parent).
Proof. intros Hk. unfold Prepare. preserves. intros n Hn. by apply make_dirs_is. Qed.

Lemma snap_View_is (fuel : nat) (now : Z) (key parent k : string) (x : option SnapshotInfo) :
  k <> key -> preserves (snap_is k x) (View fuel now key parent).
Proof. intros Hk. unfold View. preserves. Qed.

#[export] Hint Resolve snap_Prepare_is snap_View_is : preserves.

(** A new snapshot is there, with its parent and kind, and was not there before. *)
Definition snap_made (key parent : string) (k : Kind) (n n' : Snapshotter) : Prop :=
  sn_snapshots n !! key = None /\
  exists i, sn_snapshots n' !! key = Some i /\ si_Parent i = parent /\ si_Kind i = k.

Lemma record_made (now : Z) (key parent : string) (k : Kind) (fuel : nat) (n n1 n' : Snapshotter) (ms : list Mount) :
  sn_snapshots n1 = sn_snapshots n ->
  (with_state (fun s => check_absent s key) ;;! record_snapshot now key parent k ;;!
   with_state (fun s => mountsWithoutLock fuel s key)) n1 = (n', Ok ms) -> snap_made key parent k n n'.
Proof.
  intros Hn. unfold go_bind, with_state, check_absent. rewrite Hn. destruct (sn_snapshots n !! key) eqn:Hk; [done|]. cbn.
  intros [= <- _]. split; [done|]. cbn. rewrite lookup_insert_eq. by eexists.
Qed.

Lemma snap_View_done (fuel : nat) (now : Z) (key parent : string) (n n' : Snapshotter) (ms : list Mount) :
  View fuel now key parent n = (n', Ok ms) -> snap_made key parent KindView n n'.
Proof.
  unfold View. destruct (String.eqb parent ""); [done|]. unfold go_bind at 1, with_state at 1.
  destruct (check_parent n parent); [|done..]. by apply record_made.
Qed.

Lemma snap_Prepare_done (io : faults) (fuel : nat) (now : Z) (key parent : string) (n n' : Snapshotter) (ms : list Mount) :
  Prepare io fuel now key parent n = (n', Ok ms) -> snap_made key parent KindActive n n'.
Proof.
  unfold Prepare. unfold go_bind at 1. destruct (if String.eqb parent "" then _ else _) as [n1 [u|e|]] eqn:Hp; [|done..].
  assert (n1 = n) as -> by (destruct (String.eqb parent ""); by injection Hp).
  unfold go_bind at 1, with_state at 1, check_absent. destruct (sn_snapshots n !! key) eqn:Hk; [done|].
  unfold go_bind at 1. pose proof (make_dirs_frame io [getSnapFSPath n key; path_join [getSnapDir n key; "work"]] n) as Hm.
  destruct (make_dirs _ _ n) as [n2 [u2|e|]]; [|done..]. destruct Hm as (f & -> & _). cbn. intros [= <- _]. split; [done|]. cbn.
  rewrite lookup_insert_eq. by eexists.
Qed.

Lemma snap_Commit_done (io : faults) (now : Z) (key name : string) (n n' : Snapshotter) :
  Commit io now key name n = (n', Ok tt) ->
  exists i i', sn_snapshots n !! key = Some i /\ si_Kind i = KindActive /\
    sn_snapshots n' !! name = Some i' /\ si_Parent i' = si_Parent i /\ si_Kind i' = KindCommitted /\
    (name <> key -> sn_snapshots n' !! key = None).
Proof.
  unfold Commit. destruct (sn_snapshots n !! key) as [i|]; [|done]. case_decide; [|done].
  destruct (String.eqb_spec name key) as [->|Hne].
  - intros [= <-]. eexists _, _. split; [done|]. split; [done|]. cbn. by rewrite lookup_insert_eq.
  - destruct (os_rename _ _ _ _); [|done]. intros [= <-]. eexists _, _. split; [done|]. split; [done|]. cbn.
    rewrite lookup_insert_eq, lookup_insert_ne, lookup_delete_eq by done. by split_and!.
Qed.

Lemma snap_Remove_done (io : faults) (key : string) (n n' : Snapshotter) :
  Remove io key n = (n', Ok tt) -> is_Some (sn_snapshots n !! key) /\ sn_snapshots n' !! key = None.
Proof.
  unfold Remove. destruct (sn_snapshots n !! key); [|done]. destruct (find_child _ _); [done|].
  destruct (os_remove_all _ _ _); [|done]. intros [= <-]. cbn. by rewrite lookup_delete_eq.
Qed.

(** ** Lemmas: tasks *)

(** The record of the id. *)
Definition task_is (id : string) (x : option Task) (m : Manager) : Prop := tasks_filed m /\ snd <$> lookup_task m id = x.

Lemma lookup_other_task (m : Manager) (id id' : string) (l : loc) (t t' : Task) :
  tasks_filed m -> lookup_task m id = Some (l, t) -> id' <> id ->
  snd <$> lookup_task (set_task l t' m) id' = snd <$> lookup_task m id'.
Proof.
  intros [Hf _] [Hl Ht]%lookup_task_Some Hne. unfold lookup_task. cbn.
  destruct (m_tasks m !! id') as [l'|] eqn:Hl'; [|done]. cbn.
  assert (l <> l') as Hll.
  { intros <-. destruct (Hf _ _ Hl) as (t1 & H1 & <-), (Hf _ _ Hl') as (t2 & H2 & <-). congruence. }
  by rewrite lookup_insert_ne.
Qed.

Lemma lookup_task_here (m : Manager) (id : string) (l : loc) (t t' : Task) :
  lookup_task m id = Some (l, t) -> lookup_task (set_task l t' m) id = Some (l, t').
Proof. intros [Hl Ht]%lookup_task_Some. apply lookup_task_Some. cbn. by rewrite lookup_insert_eq. Qed.

(** An operation that keeps the ids well filed and changes the record of its id
    at most. *)
Ltac task_other :=
  let m := fresh "m" in let Hf := fresh "Hf" in let Hx := fresh "Hx" in
  intros m [Hf Hx]; split; [|rewrite <- Hx];
  [first [by apply task_Start_filed|by apply task_Kill_filed|by apply task_Pause_filed|by apply task_Resume_filed]|];
  unfold Start, Kill, Pause, Resume;
  match goal with |- context [lookup_task m ?id] => destruct (lookup_task m id) as [[? ?]|] eqn:? end; [|done];
  repeat case_match; simplify_eq/=; try done; by eapply lookup_other_task.

Lemma task_Start_is (now : Z) (id id' : string) (x : option Task) : id' <> id -> preserves (task_is id' x) (Start now id).
Proof. intros Hne. task_other. Qed.

Lemma task_Kill_is (deliver : Z -> Z -> bool) (id id' : string) (sig : Z) (x : option Task) :
  id' <> id -> preserves (task_is id' x) (Kill deliver id sig).
Proof. intros Hne. task_other. Qed.

Lemma task_Pause_is (id id' : string) (x : option Task) : id' <> id -> preserves (task_is id' x) (Pause id).
Proof. intros Hne. task_other. Qed.

Lemma task_Resume_is (id id' : string) (x : option Task) : id' <> id -> preserves (task_is id' x) (Resume id).
Proof. intros Hne. task_other. Qed.

Lemma task_Delete_is (id id' : string) (x : option Task) : id' <> id -> preserves (task_is id' x) (Task.Delete id).
Proof.
  intros Hne m [Hf Hx]. split; [by apply task_Delete_filed|]. rewrite <- Hx. unfold Task.Delete.
  destruct (lookup_task m id) as [[l t]|]; [|done]. destruct (String.eqb _ _); [done|]. unfold lookup_task. cbn.
  by rewrite lookup_delete_ne.
Qed.

Lemma task_Create_is (start : Cmd -> option Z) (environ : list string) (now : Z) (id bundle : string) (spec : Task.Spec)
    (id' : string) (x : option Task) :
  id' <> id -> preserves (task_is id' x) (Task.Create start environ now id bundle spec).
Proof.
  intros Hne m [Hf Hx]. split; [by apply task_Create_filed|]. rewrite <- Hx. unfold Task.Create.
  destruct (m_tasks m !! id); [done|]. destruct (sp_RootPath spec); [|done]. destruct (sp_Process spec); [|done]. cbv zeta.
  destruct (start _) as [pid|]; [|done]. unfold lookup_task. cbn. rewrite lookup_insert_ne by done.
  destruct (m_tasks m !! id') as [l'|] eqn:Hl'; [|done]. cbn.
  destruct Hf as [H1 H2]. destruct (H1 _ _ Hl') as (t & Ht & _). assert (m_next m <> l') by (specialize (H2 _ _ Ht); lia).
  by rewrite lookup_insert_ne.
Qed.

#[export] Hint Resolve task_Start_is task_Kill_is task_Pause_is task_Resume_is task_Delete_is task_Create_is : preserves.

Lemma svc_Create_is (start : Cmd -> option Z) (environ : list string) (now : Z) (c stdin id' : string) (x : option Task) :
  id' <> c -> preserves (task_is id' x) (Task.svc_Create start environ now c stdin).
Proof.
  intros Hne m Hm. unfold Task.svc_Create. cbv zeta.
  pose proof (preserves_wrap (task_is id' x) (fun e => RpcStatus Internal (Some e)) _
    (task_Create_is start environ now c ("/tmp/mini-containerd/bundles/" +:+ c) (service_spec stdin) id' x Hne) m Hm) as H.
  unfold Task.rpc. by destruct (go_wrap _ _ m) as [m' [l|e|]].
Qed.

Lemma svc_Start_is (now : Z) (c ex id' : string) (x : option Task) : id' <> c -> preserves (task_is id' x) (svc_Start now c ex).
Proof.
  intros Hne m Hm. unfold svc_Start. destruct (negb _); [done|].
  pose proof (preserves_wrap (task_is id' x) (fun e => RpcStatus Internal (Some e)) _ (task_Start_is now c id' x Hne) m Hm) as H.
  unfold Task.rpc. by destruct (go_wrap _ _ m) as [m' [l|e|]].
Qed.

#[export] Hint Resolve svc_Create_is svc_Start_is : preserves.

Lemma svc_Wait_is (now : Z) (c id' : string) (x : option Task) (m : Manager) :
  id' <> c -> task_is id' x m -> task_is id' x (svc_Wait now c m).1.
Proof.
  intros Hne [Hf Hx]. split; [by apply svc_Wait_filed|]. rewrite <- Hx. unfold svc_Wait, Wait.
  destruct (lookup_task m c) as [[l t]|] eqn:Hl; [|done]. destruct (t_waitCh t); [done|]. by eapply lookup_other_task.
Qed.

(** What the successful operations have done. *)
Definition task_went (id : string) (st st' : Status) (m m' : Manager) : Prop :=
  exists t t', snd <$> lookup_task m id = Some t /\ t_Status t = st /\ snd <$> lookup_task m' id = Some t' /\ t_Status t' = st'.

Ltac task_done :=
  unfold Start, Pause, Resume;
  match goal with |- context [lookup_task ?m ?id] => destruct (lookup_task m id) as [[? ?]|] eqn:?; [|done] end;
  match goal with |- context [negb ?b] => destruct b eqn:Hst; [cbn [negb]|done]; apply String.eqb_eq in Hst end;
  intros [= <-]; eexists _, _; (split; [by simplify_option_eq|]); (split; [done|]);
  match goal with H : lookup_task _ _ = Some _ |- _ => pose proof (fun t' => lookup_task_here _ _ _ _ t' H) as Hh end.

Lemma task_Start_done (now : Z) (id : string) (m m' : Manager) :
  Start now id m = (m', Ok tt) -> task_went id StatusCreated StatusRunning m m'.
Proof. task_done. by rewrite Hh. Qed.

Lemma task_Pause_done (id : string) (m m' : Manager) :
  Pause id m = (m', Ok tt) -> task_went id StatusRunning StatusPaused m m'.
Proof.
  task_done. specialize (Hh (with_Status StatusPaused t)). destruct (_ <? _)%Z;
    (split; [exact (f_equal (fmap snd) Hh)|reflexivity]).
Qed.

Lemma task_Resume_done (id : string) (m m' : Manager) :
  Resume id m = (m', Ok tt) -> task_went id StatusPaused StatusRunning m m'.
Proof.
  task_done. specialize (Hh (with_Status StatusRunning t)). destruct (_ <? _)%Z;
    (split; [exact (f_equal (fmap snd) Hh)|reflexivity]).
Qed.

Lemma task_Delete_done (id : string) (m m' : Manager) :
  Task.Delete id m = (m', Ok tt) ->
  exists t, snd <$> lookup_task m id = Some t /\ t_Status t <> StatusRunning /\ snd <$> lookup_task m' id = None.
Proof.
  unfold Task.Delete. destruct (lookup_task m id) as [[l t]|]; [|done]. destruct (String.eqb_spec (t_Status t) StatusRunning); [done|].
  intros [= <-]. exists t. split; [done|]. split; [done|]. unfold lookup_task. cbn. by rewrite lookup_delete_eq.
Qed.

Lemma svc_Create_done (start : Cmd -> option Z) (environ : list string) (now : Z) (c stdin : string) (m m' : Manager) a :
  Task.svc_Create start environ now c stdin m = (m', Ok a) ->
  m_tasks m !! c = None /\ exists t, snd <$> lookup_task m' c = Some t /\ t_Status t = StatusCreated.
Proof.
  unfold Task.svc_Create, Task.rpc, go_wrap, Task.Create. destruct (m_tasks m !! c); [done|]. cbn -[lookup].
  destruct (start _) as [pid|]; [|done]. cbn [res_wrap m_heap]. rewrite lookup_insert_eq. intros [= <- _]. split; [done|].
  unfold lookup_task. cbn -[lookup]. rewrite lookup_insert_eq. cbn -[lookup]. rewrite lookup_insert_eq. by eexists.
Qed.

(** ** Lemmas: images, containers and namespaces *)

Definition image_is (n : string) (x : option Image) (m : Images) : Prop := m !! n = x.

Lemma images_Create_is (now : Z) (img : option Image) (n : string) (x : option Image) :
  (forall i, img = Some i -> n <> im_Name i) -> preserves (image_is n x) (ContainerdImage.svc_Create now img).
Proof.
  intros Hn. unfold ContainerdImage.svc_Create. preserves. intros m Hm. unfold ContainerdImage.Create.
  specialize (Hn _ eq_refl). destruct (m !! _); [done|]. unfold image_is. cbn.
  rewrite lookup_insert_ne; [done|by apply not_eq_sym].
Qed.

Lemma images_Update_is (img : option Image) (n : string) (x : option Image) :
  (forall i, img = Some i -> n <> im_Name i) -> preserves (image_is n x) (ContainerdImage.svc_Update img).
Proof.
  intros Hn m Hm. unfold ContainerdImage.svc_Update, ContainerdImage.Get. destruct img as [p|]; [|done].
  destruct (m !! im_Name p); [|done]. destruct (im_Labels p); [|done]. unfold image_is. cbn.
  rewrite lookup_insert_ne; [done|]. apply not_eq_sym. by apply Hn.
Qed.

Lemma images_Delete_is (name n : string) (x : option Image) : n <> name -> preserves (image_is n x) (ContainerdImage.svc_Delete name).
Proof.
  intros Hn. unfold ContainerdImage.svc_Delete. preserves. intros m Hm. unfold ContainerdImage.Delete.
  destruct (m !! name); [|done]. unfold image_is. cbn. by rewrite lookup_delete_ne.
Qed.

Lemma images_Create_done (now : Z) (img i : Image) (m m' : Images) :
  ContainerdImage.svc_Create now (Some img) m = (m', Ok i) ->
  m !! im_Name img = None /\ exists i', m' !! im_Name img = Some i' /\ im_Name i' = im_Name img /\ im_Labels i' = im_Labels img.
Proof.
  unfold ContainerdImage.svc_Create, go_bind, go_wrap, ContainerdImage.Create. cbn [im_Name fromGRPC].
  destruct (m !! im_Name img); [done|]. cbn [res_wrap]. intros [= <- _]. split; [done|]. rewrite lookup_insert_eq. by eexists.
Qed.

Lemma images_Delete_done (name : string) (m m' : Images) :
  ContainerdImage.svc_Delete name m = (m', Ok tt) -> is_Some (m !! name) /\ m' !! name = None.
Proof.
  unfold ContainerdImage.svc_Delete, go_wrap, ContainerdImage.Delete. destruct (m !! name); [|done]. intros [= <-].
  by rewrite lookup_delete_eq.
Qed.

(** ** Lemmas: requests *)

Section frames.
Context `{Api}.

(** Running a handler of one component: the records of the others stay, and
    those of the component do when the operation keeps them. *)
Lemma same_content {T : Type} (m : Store -> Store * outcome T) (e : entity) (s : Server) :
  (forall c, srv_content s = Some c ->
     match e with
     | EBlob d => s_blobs (m c).1 !! d = s_blobs c !! d
     | EUpload r => s_uploads (m c).1 !! r = s_uploads c !! r
     | _ => True
     end) -> same_at e s (in_content m s).1.
Proof.
  intros Hm. unfold in_content. destruct (srv_content s) as [c|] eqn:Hc; [|by destruct e]. specialize (Hm c eq_refl).
  destruct (m c) as [c' o]. destruct e; cbn; unfold blob_at, upload_at; cbn; by rewrite ?Hc.
Qed.

Lemma same_snap {A : Type} (m : GoM Snapshotter (rpc_error SnapErr) A) (e : entity) (s : Server) :
  (forall k x, e = ESnap k -> preserves (snap_is k x) m) -> same_at e s (in_snap m s).1.
Proof.
  intros Hm. unfold in_snap. destruct (srv_snap s) as [n|] eqn:Hn; [|by destruct e].
  destruct (m n) as [n' o] eqn:He. destruct e as [| |k| | | |]; cbn; try done. unfold snap_at. cbn. rewrite Hn. cbn.
  specialize (Hm k _ eq_refl n eq_refl). by rewrite He in Hm.
Qed.

Lemma same_images {A : Type} (m : GoM Images img_error A) (e : entity) (s : Server) :
  (forall k x, e = EImage k -> preserves (image_is k x) m) -> same_at e s (in_images m s).1.
Proof.
  intros Hm. unfold in_images. destruct (m _) as [n' o] eqn:He. destruct e as [| | |k| | |]; cbn; try done.
  specialize (Hm k (srv_images s !! k) eq_refl (srv_images s) eq_refl). by rewrite He in Hm.
Qed.

Lemma same_tasks {A : Type} (m : GoM Manager (rpc_error TaskErr) A) (e : entity) (s : Server) :
  tasks_filed (srv_tasks s) -> (forall k x, e = ETask k -> preserves (task_is k x) m) -> same_at e s (in_tasks m s).1.
Proof.
  intros Hf Hm. unfold in_tasks. destruct (m _) as [n' o] eqn:He. destruct e as [| | | |k| |]; cbn; try done.
  destruct (Hm k _ eq_refl (srv_tasks s) (conj Hf eq_refl)) as [_ Hx]. by rewrite He in Hx.
Qed.

Lemma same_containers {A : Type} (m : GoM ContainerStore status A) (e : entity) (s : Server) :
  (forall k, e = EContainer k -> cs_data (m (srv_containers s)).1 !! k = cs_data (srv_containers s) !! k) ->
  same_at e s (in_containers m s).1.
Proof.
  intros Hm. unfold in_containers. destruct (m _) as [n' o] eqn:He. destruct e; cbn; try done. by apply Hm.
Qed.

Lemma same_namespaces {A : Type} (m : GoM NamespaceStore status A) (e : entity) (s : Server) :
  (forall k, e = ENamespace k -> ns_data (m (srv_namespaces s)).1 !! k = ns_data (srv_namespaces s) !! k) ->
  same_at e s (in_namespaces m s).1.
Proof.
  intros Hm. unfold in_namespaces. destruct (m _) as [n' o] eqn:He. destruct e; cbn; try done. by apply Hm.
Qed.

End frames.

#[global] Instance WriteAction_eq_dec : EqDecision WriteAction.
Proof. solve_decision. Defined.

Section effects.
Context `{Api} (env : Env).

Lemma content_call {A : Type} (m : GoM Store svc_error A) (s s' : Server) (r : res svc_error A) :
  in_content (fun c => let '(c', r) := m c in (c', of_res r)) s = (s', Answered r) ->
  exists c c', srv_content s = Some c /\ m c = (c', r) /\ srv_content s' = Some c'.
Proof.
  unfold in_content. destruct (srv_content s) as [c|]; [|done]. destruct (m c) as [c' o] eqn:Hm. intros [= <- Ho].
  exists c, c'. split; [done|]. split; [|done]. f_equal. unfold of_res in Ho. case_match; by simplify_eq.
Qed.

Lemma in_snap_answered {A : Type} (m : GoM Snapshotter (rpc_error SnapErr) A) (s s' : Server) (r : res (rpc_error SnapErr) A) :
  in_snap m s = (s', Answered r) -> exists n n', srv_snap s = Some n /\ m n = (n', r) /\ srv_snap s' = Some n'.
Proof.
  unfold in_snap. destruct (srv_snap s) as [n|]; [|done]. destruct (m n) as [n' o] eqn:Hm. intros [= <- Ho].
  exists n, n'. split; [done|]. split; [|done]. f_equal. unfold of_snap, of_res in Ho. repeat case_match; by simplify_eq.
Qed.

Lemma of_res_answered {E A : Type} (o r : res E A) : of_res o = Answered r -> o = r.
Proof. destruct o; cbn; by intros [= ->]. Qed.

Lemma in_images_answered {A : Type} (m : GoM Images img_error A) (s s' : Server) (r : res img_error A) :
  in_images m s = (s', Answered r) -> m (srv_images s) = (srv_images s', r).
Proof. unfold in_images. destruct (m _) as [i o]. by intros [= <- ->%of_res_answered]. Qed.

Lemma in_tasks_answered {A : Type} (m : GoM Manager (rpc_error TaskErr) A) (s s' : Server) (r : res (rpc_error TaskErr) A) :
  in_tasks m s = (s', Answered r) -> m (srv_tasks s) = (srv_tasks s', r).
Proof. unfold in_tasks. destruct (m _) as [i o]. by intros [= <- ->%of_res_answered]. Qed.

Lemma in_containers_answered {A : Type} (m : GoM ContainerStore status A) (s s' : Server) (r : res status A) :
  in_containers m s = (s', Answered r) -> m (srv_containers s) = (srv_containers s', r).
Proof. unfold in_containers. destruct (m _) as [i o]. by intros [= <- ->%of_res_answered]. Qed.

Lemma in_namespaces_answered {A : Type} (m : GoM NamespaceStore status A) (s s' : Server) (r : res status A) :
  in_namespaces m s = (s', Answered r) -> m (srv_namespaces s) = (srv_namespaces s', r).
Proof. unfold in_namespaces. destruct (m _) as [i o]. by intros [= <- ->%of_res_answered]. Qed.

(** What an answer of a service says about the operation it wraps. *)
Lemma content_write_frame (id : nat) (msg : option recv) (e : entity) (s : Server) :
  (forall v c, srv_streams s !! id = Some v -> srv_content s = Some c ->
     match e with
     | EBlob d => s_blobs (write_msg env v msg c).1 !! d = s_blobs c !! d
     | EUpload r => s_uploads (write_msg env v msg c).1 !! r = s_uploads c !! r
     | _ => True
     end) -> same_at e s (content_write env id msg s).1.
Proof.
  intros Hm. unfold content_write. destruct (srv_streams s !! id) as [v|]; [|by destruct e]. specialize (Hm v).
  destruct (srv_content s) as [c|] eqn:Hc.
  - specialize (Hm c eq_refl eq_refl). destruct (write_msg env v msg c) as [c' [[w [v'|]]| |]];
      destruct e; cbn in *; unfold blob_at, upload_at; cbn; by rewrite ?Hc.
  - destruct (write_msg_nil v msg) as [[w [v'|]]| |]; destruct e; cbn in *; unfold blob_at, upload_at; cbn; by rewrite ?Hc.
Qed.

(** The store after a message is the one after its request. *)
Lemma write_msg_store (v : WriteVars) (req : WriteReq) (c : Store) :
  (write_msg env v (Some (RecvReq req)) c).1 = (on_request (e_io env) (e_now env) req v c).1.
Proof.
  cbn. destruct (on_request _ _ _ _ c) as [c' [[resp [v'|]]|e|]]; [by destruct (negb _)..|done|done].
Qed.

Lemma content_write_content (id : nat) (msg : option recv) (s : Server) (v : WriteVars) (c : Store) :
  srv_streams s !! id = Some v -> srv_content s = Some c ->
  srv_content (content_write env id msg s).1 = Some (write_msg env v msg c).1.
Proof.
  intros Hv Hc. unfold content_write. rewrite Hv, Hc. by destruct (write_msg env v msg c) as [c' [[w [v'|]]| |]].
Qed.

Lemma message_frame (id : nat) (msg : option recv) (s : Server) (e : entity) :
  ~ acts_on env (ContentWriteMsg id msg) s (content_write env id msg s).1 e -> same_at e s (content_write env id msg s).1.
Proof.
  intros Hn. apply content_write_frame. intros v c Hv Hc. destruct msg as [[req|]|]; [|by destruct e..].
  pose proof (content_write_content id (Some (RecvReq req)) s v c Hv Hc) as Hs.
  rewrite !write_msg_store in *. destruct e as [d|r| | | | |]; try done; cbn [acts_on] in Hn.
  - destruct (decide (q_Action req = ActionCOMMIT)) as [Ha|Ha]; [|by apply (on_request_blobs _ _ _ _ d (s_blobs c !! d))].
    pose proof (on_request_commit (e_io env) (e_now env) req v c Ha) as Hr.
    destruct (on_request _ _ _ _ c) as [c' r]. destruct Hr as [Hr _]. destruct (Hr d) as [?|(us & Hus & <-)]; [done|].
    exfalso. apply Hn. split; [done|]. exists v, us. split; [done|]. split; [|done]. unfold upload_at. rewrite Hs. exact Hus.
  - apply (on_request_uploads _ _ _ _ r (s_uploads c !! r)); [|done]. intros Hin. apply Hn. by exists v.
Qed.

(** A request changes only what it names. *)
Lemma handle_frame {T : Type} (q : Rpc T) (s : Server) (e : entity) :
  server_filed s -> ~ acts_on env q s (handle env q s).1 e -> same_at e s (handle env q s).1.
Proof.
  intros Hs Hn. pose proof (sf_tasks _ Hs) as Hf.
  destruct q; cbn [handle fst] in *; try (by destruct e);
    try (apply same_content; by destruct e);
    try (apply same_tasks; [done|]; intros ? ? ->); try (apply same_images; intros ? ? ->);
    try (apply same_snap; intros ? ? ->); try (apply same_containers; intros ? ->); try (apply same_namespaces; intros ? ->);
    unfold svc_Prepare, svc_View, svc_Mounts, svc_Commit, svc_Remove, svc_Stat, svc_Usage, Snapshot.svc_Update,
      Snapshot.rpc, Task.svc_Delete, svc_DeleteProcess, svc_Kill, svc_Exec, svc_Pause, svc_Resume, svc_Checkpoint,
      Task.svc_Update, svc_Metrics, svc_noop, Task.rpc; cbn [acts_on] in *; try (by preserves).
  - destruct req as [[d ls]|]; [|by destruct e]. apply same_content. intros c _.
    pose proof (content_Update_store (e_now env) d ls c) as [Hu Hb]. destruct (ContentService.svc_Update _ _ c) as [c' r].
    destruct e; cbn in *; [by apply Hb|by rewrite Hu|done..].
  - apply same_content. intros c _. destruct e as [d|r| | | | |]; try done.
    + pose proof (content_Delete_blobs (e_io env) digest d (s_blobs c !! d)) as Hd.
      assert (Hp : preserves (blob_is d (s_blobs c !! d)) (ContentService.svc_Delete (e_io env) digest))
        by (apply preserves_wrap, Hd; exact Hn).
      specialize (Hp c eq_refl). by destruct (ContentService.svc_Delete _ _ c).
    + assert (Hp : preserves (upload_is r (s_uploads c !! r)) (ContentService.svc_Delete (e_io env) digest))
        by (apply preserves_wrap, content_Delete_uploads).
      specialize (Hp c eq_refl). by destruct (ContentService.svc_Delete _ _ c).
  - by apply message_frame.
  - apply preserves_wrap, snap_Commit_is; tauto.
  - destruct req as [i|]; [|by destruct e]. apply same_snap. intros k x ->. preserves.
  - destruct (srv_snap s); by destruct e.
  - apply images_Create_is. by intros i ->.
  - apply images_Update_is. by intros i ->.
  - by apply images_Delete_is.
  - destruct (svc_Wait (e_now env) container (srv_tasks s)) as [t r] eqn:Hw. destruct e as [| | | |k| |]; try done.
    pose proof (svc_Wait_is (e_now env) container k _ (srv_tasks s) Hn (conj Hf eq_refl)) as [_ Hx]. by rewrite Hw in Hx.
  - destruct c as [c|]; [|done]. cbn. destruct (cs_data _ !! ID c); [done|]. cbn. by rewrite lookup_insert_ne by by apply not_eq_sym.
  - destruct c as [c|]; [|done]. cbn. destruct (cs_data _ !! ID c); [|done]. cbn. by rewrite lookup_insert_ne by by apply not_eq_sym.
  - unfold container_Delete. destruct (cs_data _ !! id); [|done]. cbn. by rewrite lookup_delete_ne by by apply not_eq_sym.
  - destruct n as [n|]; [|done]. cbn. destruct (ns_data _ !! Name n); [done|]. cbn. by rewrite lookup_insert_ne by by apply not_eq_sym.
  - destruct n as [n|]; [|done]. cbn. destruct (ns_data _ !! Name n); [|done]. cbn. by rewrite lookup_insert_ne by by apply not_eq_sym.
  - cbn. by rewrite lookup_delete_ne by by apply not_eq_sym.
Qed.

Lemma message_done (id : nat) (req : WriteReq) (s s' : Server) (w : written) :
  q_Action req = ActionCOMMIT -> content_write env id (Some (RecvReq req)) s = (s', Answered w) ->
  Forall (fun resp => is_Some (blob_at (a_Digest resp) s')) w.1.
Proof.
  intros Ha. unfold content_write. destruct (srv_streams s !! id) as [v|]; [|by intros [= <- <-]].
  destruct (srv_content s) as [c|].
  - unfold write_msg. pose proof (on_request_commit (e_io env) (e_now env) req v c Ha) as Hr.
    destruct (on_request _ _ _ _ c) as [c' [[resp next]|e|]]; [|by intros [= <- <-]|done]. destruct Hr as [_ Hr].
    destruct (negb _); [by intros [= <- <-]|]. specialize (Hr _ eq_refl).
    destruct next as [v'|]; intros [= <- <-]; (constructor; [exact Hr|constructor]).
  - unfold write_msg_nil. rewrite Ha. destruct (negb _); [done|]. by intros [= <- <-].
Qed.

(** An operation of the snapshotter that is answered without an error. *)
Lemma snap_answered {A : Type} (c : code) (m : GoM Snapshotter SnapErr A) (s s' : Server) (a : A) :
  in_snap (Snapshot.rpc c m) s = (s', Answered (Ok a)) ->
  exists n n', srv_snap s = Some n /\ srv_snap s' = Some n' /\ m n = (n', Ok a).
Proof. intros (n & n' & H1 & H2%go_wrap_Ok & H3)%in_snap_answered. eauto. Qed.

Lemma snap_promised (key parent name : string) (s s' : Server) :
  (forall ms, in_snap (svc_Prepare (e_io env) (e_fuel env) (e_now env) key parent) s = (s', Answered (Ok ms)) ->
     promised (SnapPrepare key parent) s s' (Ok ms)) /\
  (forall ms, in_snap (svc_View (e_fuel env) (e_now env) key parent) s = (s', Answered (Ok ms)) ->
     promised (SnapView key parent) s s' (Ok ms)) /\
  (in_snap (svc_Commit (e_io env) (e_now env) key name) s = (s', Answered (Ok tt)) -> promised (SnapCommit key name) s s' (Ok tt)) /\
  (in_snap (svc_Remove (e_io env) key) s = (s', Answered (Ok tt)) -> promised (SnapRemove key) s s' (Ok tt)).
Proof.
  unfold promised, snap_at. split_and!.
  - intros ms (n & n' & -> & -> & Ho)%snap_answered ms' _. by apply snap_Prepare_done in Ho.
  - intros ms (n & n' & -> & -> & Ho)%snap_answered ms' _. by apply snap_View_done in Ho.
  - intros (n & n' & -> & -> & Ho)%snap_answered _. by apply snap_Commit_done in Ho.
  - intros (n & n' & -> & -> & Ho)%snap_answered _. by apply snap_Remove_done in Ho.
Qed.

(** An answer without an error keeps its promise. *)
Lemma handle_promised {T : Type} (q : Rpc T) (s s' : Server) (a : T) :
  handle env q s = (s', Answered a) -> promised q s s' a.
Proof.
  destruct q; cbn [handle]; try done.
  - intros (c & c' & Hc & Ho & Hc')%content_call ->. apply go_wrap_Ok, content_Delete_done in Ho.
    unfold blob_at. by rewrite Hc, Hc'.
  - cbn [promised]. destruct msg as [[req|]|]; [|done..]. intros Ho Ha. by eapply message_done.
  - intros Ho ms ->. exact (proj1 (snap_promised key parent "" s s') ms Ho ms eq_refl).
  - intros Ho ms ->. exact (proj1 (proj2 (snap_promised key parent "" s s')) ms Ho ms eq_refl).
  - intros Ho ->. exact (proj1 (proj2 (proj2 (snap_promised key "" name s s'))) Ho eq_refl).
  - intros Ho ->. exact (proj2 (proj2 (proj2 (snap_promised key "" "" s s'))) Ho eq_refl).
  - cbn [promised]. destruct img as [img|]; [|done]. intros Ho%in_images_answered i ->. by apply images_Create_done in Ho.
  - intros Ho%in_images_answered ->. by apply images_Delete_done in Ho.
  - intros Ho%in_tasks_answered a' ->. by apply svc_Create_done in Ho.
  - intros Ho%in_tasks_answered a' ->. unfold svc_Start in Ho. destruct (negb _); [done|].
    destruct (Task.rpc _ _ _) as [m' [u|e|]] eqn:Hr; [|done..]. injection Ho as -> _. apply go_wrap_Ok in Hr. destruct u.
    by apply task_Start_done in Hr.
  - intros Ho%in_tasks_answered ->. by apply go_wrap_Ok, task_Delete_done in Ho.
  - intros Ho%in_tasks_answered ->. by apply go_wrap_Ok, task_Pause_done in Ho.
  - intros Ho%in_tasks_answered ->. by apply go_wrap_Ok, task_Resume_done in Ho.
  - cbn [promised]. destruct c as [c|]; [|done]. intros Ho%in_containers_answered i ->. unfold container_at. cbn in Ho.
    destruct (cs_data _ !! ID c) eqn:Hk; [done|]. injection Ho as <- <-. cbn. by rewrite lookup_insert_eq.
  - cbn [promised]. destruct c as [c|]; [|done]. intros Ho%in_containers_answered i ->. unfold container_at. cbn in Ho.
    destruct (cs_data _ !! ID c) eqn:Hk; [|done]. injection Ho as <- <-. cbn. by rewrite lookup_insert_eq.
  - intros Ho%in_containers_answered ->. unfold container_at. unfold container_Delete in Ho.
    destruct (cs_data _ !! id) eqn:Hk; [|done]. injection Ho as <-. cbn. by rewrite lookup_delete_eq.
  - cbn [promised]. destruct n as [n|]; [|done]. intros Ho%in_namespaces_answered i ->. unfold namespace_at. cbn in Ho.
    destruct (ns_data _ !! Name n) eqn:Hk; injection Ho as <- <-; [done|]. cbn. by rewrite lookup_insert_eq.
  - cbn [promised]. destruct n as [n|]; [|done]. intros Ho%in_namespaces_answered i ->. unfold namespace_at. cbn in Ho.
    destruct (ns_data _ !! Name n) eqn:Hk; [|done]. injection Ho as <- <-. cbn. by rewrite lookup_insert_eq.
  - intros Ho%in_namespaces_answered ->. unfold namespace_at. injection Ho as <-. cbn. by rewrite lookup_delete_eq.
Qed.

End effects.

(** ** Properties *)


(** ** Witnesses *)

