(* ===== verification/EndToEnd.v ===== *)
(** * mini-nerdctl against mini-containerd

    The client and the daemon put together.  The calls of a client of [World]
    are turned into requests of [Daemon]; the transport keeps, for the content
    stream in use, the answers the client has not received yet.  A world is
    [wired] to a daemon when what the client receives is what that daemon
    answered, or an error: a message can be lost on its way to the daemon, and an
    answer on its way back.  Everything else, the registry included, stays
    arbitrary.

    A message that reaches the daemon is handled before the client's next call.
    mini-nerdctl waits for the answer to each of its messages, so this is how it
    is; for mini-docker, which does not wait, it is an assumption. *)

From S2P Require Import Prelude.
From S2P Require Import GoStrings.
From S2P Require Import Sha256.
From S2P Require Import FileSystem.
From S2P Require Import Grpc.
From S2P Require Import ContentStore.
From S2P Require Import ContentService.
From S2P Require Import Reference.
From S2P Require Import RegistryRef.
From S2P Require Import World.
From S2P Require Import ContainerdImage.
From S2P Require Import DockerRegistry.
From S2P Require Import NerdctlImage.
From S2P Require Import Daemon.
From S2P Require Import DaemonSafety.
Open Scope go_scope.

(** ** The transport *)

(** [k_replies] are the messages on their way to the client; [k_final] is what
    it receives once they are used up and the handler has returned. *)
Record Link `{Api} : Type := mkLink {
  k_srv : Server;
  k_stream : option nat;
  k_replies : list RecvAns;
  k_final : RecvAns
}.

(** The machine of the daemon at a call, and whether what the client sends
    reaches it. *)
Record Moment : Type := mkMoment { mo_env :> Env; mo_reached : bool }.

Section link.
Context `{Api}.

Definition k_live (k : Link) : bool :=
  match k_stream k with
  | Some id => match srv_streams (k_srv k) !! id with Some _ => true | None => false end
  | None => false
  end.

Definition on_srv (s : Server) (k : Link) : Link := mkLink _ s (k_stream k) (k_replies k) (k_final k).

(** A message of the client reaches the handler of its stream. *)
Definition deliver (env : Env) (msg : option recv) (k : Link) : Link :=
  match k_stream k with
  | None => k
  | Some id =>
      match handle env (ContentWriteMsg id msg) (k_srv k) with
      | (s, Answered (resps, st)) =>
          mkLink _ s (Some id) (k_replies k ++ map (fun _ => AnsResp) resps)
            (match st with Some (Ok _) => AnsEOF | Some _ => AnsErr | None => k_final k end)
      | (s, _) => mkLink _ s None (k_replies k) AnsErr
      end
  end.

(** The stream has broken, and the client knows or will know. *)
Definition cut (k : Link) : Link := mkLink _ (k_srv k) None [] AnsErr.

(** A call of the client at the moment [env].  A send that succeeds has only been
    put on its way; a call that fails may have been carried out all the same, if
    it has reached the daemon and the answer was lost. *)
Definition link_call (env : Moment) (k : Link) (e : event) : Link :=
  match e with
  | @Ev T c a =>
      match c in Call T return T -> Link with
      | StreamOpen => fun ok =>
          if mo_reached env then
            match handle env ContentWrite (k_srv k) with
            | (s, Answered id) => if (ok : bool) then mkLink _ s (Some id) [] AnsErr else on_srv s k
            | (s, _) => on_srv s k
            end
          else if ok then cut k else k
      | StreamSend q => fun ok =>
          if (ok : bool) then if mo_reached env then deliver env (Some (RecvReq q)) k else cut k else k
      | StreamRecv => fun a =>
          match a with
          | AnsErr => cut k
          | _ => mkLink _ (k_srv k) (k_stream k) (tail (k_replies k)) (k_final k)
          end
      | StreamClose => fun ok =>
          if (ok : bool) then if mo_reached env then deliver env None k else cut k else k
      | ImageCreate img => fun ok =>
          if (ok : bool) || mo_reached env then on_srv (handle env (ImagesCreate (Some img)) (k_srv k)).1 k else k
      | ImageDelete name => fun ok =>
          if (ok : bool) || mo_reached env then on_srv (handle env (ImagesDelete name) (k_srv k)).1 k else k
      | _ => fun _ => k
      end a
  end.

(** The daemon after a history; [envs n] is the moment of the [n]th call. *)
Fixpoint link_from (envs : nat -> Moment) (n : nat) (k : Link) (h : list event) : Link :=
  match h with
  | [] => k
  | e :: h' => link_from envs (S n) (link_call (envs n) k e) h'
  end.

Definition link_after (envs : nat -> Moment) (k0 : Link) (h : list event) : Link := link_from envs 0 k0 h.

Lemma link_from_snoc (envs : nat -> Moment) (n : nat) (k : Link) (h : list event) (e : event) :
  link_from envs n k (h ++ [e]) = link_call (envs (n + length h)) (link_from envs n k h) e.
Proof.
  revert n k. induction h as [|x h IH]; intros n k; cbn; [by rewrite Nat.add_0_r|].
  rewrite IH. f_equal. f_equal. lia.
Qed.

Lemma link_after_snoc (envs : nat -> Moment) (k0 : Link) (h : list event) (e : event) :
  link_after envs k0 (h ++ [e]) = link_call (envs (length h)) (link_after envs k0 h) e.
Proof. apply link_from_snoc. Qed.

(** The client receives what the daemon answered: the next message, or, when
    the handler has returned, its status; or an error, if that is lost.  While the
    handler is at work and has answered everything, a receive waits, and nothing
    is said of it.  An image call succeeds only when the daemon's image service
    says so. *)
Record wired (W : World) (envs : nat -> Moment) (k0 : Link) : Prop := {
  wi_recv : forall h, let k := link_after envs k0 h in
    answer _ h StreamRecv = AnsErr \/
    match k_replies k with
    | r :: _ => answer _ h StreamRecv = r
    | [] => k_live k = false -> answer _ h StreamRecv = k_final k
    end;
  wi_create : forall h img, answer _ h (ImageCreate img) = true -> exists i,
    (handle (envs (length h)) (ImagesCreate (Some img)) (k_srv (link_after envs k0 h))).2 = Answered (Ok i);
  wi_delete : forall h name, answer _ h (ImageDelete name) = true ->
    (handle (envs (length h)) (ImagesDelete name) (k_srv (link_after envs k0 h))).2 = Answered (Ok tt)
}.

End link.

(** ** Runs that succeed

    [gives P m Q]: started in a history of [P], a run of [m] that returns a
    value ends with this value in a history of [Q]. *)

Section gives.
Context {W : World}.

Definition gives {A : Type} (P : list event -> Prop) (m : Client A) (Q : A -> list event -> Prop) : Prop :=
  forall h h' a, P h -> m h = (h', Ok a) -> Q a h'.

Lemma gives_lift {A : Type} (r : res error A) (P : list event -> Prop) (Q : A -> list event -> Prop) :
  (forall h a, P h -> r = Ok a -> Q a h) -> gives P (go_lift r) Q.
Proof. intros Hq h h' a HP [= <- ->]. by apply Hq. Qed.

Lemma gives_ret {A : Type} (a : A) (P : list event -> Prop) (Q : A -> list event -> Prop) :
  (forall h, P h -> Q a h) -> gives P (go_ret a) Q.
Proof. intros Hq h h' a' HP [= <- <-]. by apply Hq. Qed.

Lemma gives_err {A : Type} (e : error) (P : list event -> Prop) (Q : A -> list event -> Prop) : gives P (go_err e) Q.
Proof. by intros h h' a _ [=]. Qed.

Lemma gives_panic {A : Type} (P : list event -> Prop) (Q : A -> list event -> Prop) : gives P go_panic Q.
Proof. by intros h h' a _ [=]. Qed.

Lemma gives_bind {A B : Type} (m : Client A) (k : A -> Client B) (P : list event -> Prop)
    (R : A -> list event -> Prop) (Q : B -> list event -> Prop) :
  gives P m R -> (forall a, gives (R a) (k a) Q) -> gives P (go_bind m k) Q.
Proof.
  intros Hm Hk h h' b HP. unfold go_bind. destruct (m h) as [h1 [a|e|]] eqn:Hr; [|done..].
  intros Hb. eapply Hk; [|exact Hb]. by eapply Hm.
Qed.

Lemma gives_wrap {A : Type} (f : error -> error) (m : Client A) (P : list event -> Prop) (Q : A -> list event -> Prop) :
  gives P m Q -> gives P (go_wrap f m) Q.
Proof.
  intros Hm h h' a HP. unfold go_wrap. destruct (m h) as [h1 [b|e|]] eqn:Hr; [|done..]. intros [= <- <-]. by eapply Hm.
Qed.

Lemma gives_call {T : Type} (c : Call T) (P : list event -> Prop) (Q : T -> list event -> Prop) :
  (forall h, P h -> Q (answer T h c) (h ++ [Ev c (answer T h c)])) -> gives P (do_call c) Q.
Proof. intros Hq h h' a HP [= <- <-]. by apply Hq. Qed.

Lemma gives_try_call (ctx : error) (c : Call bool) (P : list event -> Prop) (Q : unit -> list event -> Prop) :
  (forall h, P h -> Q tt (h ++ [Ev c true])) -> gives P (try_call ctx c) Q.
Proof.
  intros Hq. apply (gives_bind _ _ _ (fun b h => b = true -> Q tt h)).
  - apply gives_call. intros h HP Hb. rewrite Hb. by apply Hq.
  - intros [|]; [apply gives_ret; intros h Hb; by apply Hb|apply gives_err].
Qed.

Lemma gives_ignore {T : Type} (c : Call T) (P : list event -> Prop) (Q : unit -> list event -> Prop) :
  (forall h a, P h -> Q tt (h ++ [Ev c a])) -> gives P (ignore_call c) Q.
Proof.
  intros Hq. apply (gives_bind _ _ _ (fun _ => Q tt)).
  - apply gives_call. intros h HP. by apply Hq.
  - intros a. by apply gives_ret.
Qed.

(** Facts that do not depend on the history. *)
Lemma gives_pure {A : Type} (φ : Prop) (m : Client A) (P : list event -> Prop) (Q : A -> list event -> Prop) :
  (φ -> gives P m Q) -> gives (fun h => φ /\ P h) m Q.
Proof. intros Hm h h' a [Hf HP]. by apply Hm. Qed.

Lemma gives_exists {X A : Type} (m : Client A) (P : X -> list event -> Prop) (Q : A -> list event -> Prop) :
  (forall x, gives (P x) m Q) -> gives (fun h => exists x, P x h) m Q.
Proof. intros Hm h h' a [x HP]. by apply (Hm x). Qed.

Lemma gives_or {A : Type} (m : Client A) (P1 P2 : list event -> Prop) (Q : A -> list event -> Prop) :
  gives P1 m Q -> gives P2 m Q -> gives (fun h => P1 h \/ P2 h) m Q.
Proof. intros H1 H2 h h' a [HP|HP]; [by apply H1|by apply H2]. Qed.

Lemma gives_mono {A : Type} (m : Client A) (P P' : list event -> Prop) (Q Q' : A -> list event -> Prop) :
  gives P m Q -> (forall h, P' h -> P h) -> (forall a h, Q a h -> Q' a h) -> gives P' m Q'.
Proof. intros Hm HP HQ h h' a H1 H2. eapply HQ, Hm; eauto. Qed.

(** What is kept by every event is kept by a client. *)
Lemma gives_frame {A : Type} (m : Client A) (P R : list event -> Prop) (Q : A -> list event -> Prop) Q0 :
  wp m Q0 -> (forall h evs, R h -> R (h ++ evs)) -> gives P m Q ->
  gives (fun h => R h /\ P h) m (fun a h => R h /\ Q a h).
Proof.
  intros Hw HR Hm h h' a [H1 H2] Hr. split; [|by eapply Hm]. destruct (Hw h) as (evs & r & He & _).
  rewrite He in Hr. injection Hr as <- _. by apply HR.
Qed.

(** Calls that do not reach the daemon keep what holds of it. *)
Lemma gives_emits {A : Type} (E : event -> Prop) (m : Client A) (P : list event -> Prop) :
  emits E m -> (forall h e, E e -> P h -> P (h ++ [e])) -> gives P m (fun _ => P).
Proof.
  intros He Hp h h' a HP Hm. destruct (He h) as (evs & r & Hr & HF). rewrite Hr in Hm. injection Hm as <- _.
  clear Hr. revert h HP. induction HF as [|e evs H1 _ IH]; intros h HP; [by rewrite app_nil_r|].
  replace (h ++ e :: evs) with ((h ++ [e]) ++ evs) by by rewrite <- (assoc_L (++)). apply IH. by apply Hp.
Qed.

End gives.

(** ** A conversation on the content stream *)

(** Requests that the handler has answered, one after the other, each at its own
    time and with its own failures. *)
Inductive served : Store -> WriteVars -> list WriteReq -> Store -> WriteVars -> Prop :=
| served_nil c v : served c v [] c v
| served_cons io now q qs c v c1 resp v1 c2 v2 :
    on_request io now q v c = (c1, Ok (resp, Some v1)) -> served c1 v1 qs c2 v2 -> served c v (q :: qs) c2 v2.

Lemma served_app (q1 q2 : list WriteReq) (c c1 c2 : Store) (v v1 v2 : WriteVars) :
  served c v q1 c1 v1 -> served c1 v1 q2 c2 v2 -> served c v (q1 ++ q2) c2 v2.
Proof. induction 1; [done|]. intros Hs. cbn. eapply served_cons; eauto. Qed.

(** Only a commit ends the conversation. *)
Lemma on_request_next (io : faults) (now : Z) (q : WriteReq) (v : WriteVars) (c c1 : Store) (resp : WriteResp) next :
  on_request io now q v c = (c1, Ok (resp, next)) ->
  match q_Action q with ActionCOMMIT => next = None | _ => is_Some next end.
Proof.
  unfold on_request, go_bind. destruct (auto_init _ _ _ _ c) as [c0 [v0|e|]]; [|done..].
  destruct (q_Action q).
  - destruct (on_stat _ _ _ _ c0) as [c2 [[r v2]|e|]]; [|done..]. intros [= _ _ <-]. by eexists.
  - destruct (on_write _ _ _ _ c0) as [c2 [[r v2]|e|]]; [|done..]. intros [= _ _ <-]. by eexists.
  - destruct (on_commit _ _ _ _ c0) as [c2 [r|e|]]; [|done..]. by intros [= _ _ <-].
  - done.
Qed.

(** The reference an upload of the digest [d] has. *)
Definition pull_ref (d : string) : string := "pull-" +:+ str_take 32 d.

Section conversation.
Context `{Api} {W : World} (envs : nat -> Moment) (k0 : Link) (Hw : wired W envs k0) (m : Images).

Abbreviation link := (link_after envs k0).

(** The daemon's content store; its images are [m]. *)
Definition holds (c : Store) (h : list event) : Prop :=
  srv_content (k_srv (link h)) = Some c /\ srv_images (k_srv (link h)) = m.

(** The stream in use is open, its handler has the variables [v], and every
    answer has been received. *)
Definition talking (c : Store) (v : WriteVars) (h : list event) : Prop :=
  holds c h /\ k_replies (link h) = [] /\
  exists id, k_stream (link h) = Some id /\ srv_streams (k_srv (link h)) !! id = Some v.

(** The daemon after the request [q] has been sent. *)
Definition sent_to (c : Store) (v : WriteVars) (q : WriteReq) (h : list event) : Prop :=
  exists io now id,
    k_stream (link h) = Some id /\
    match on_request io now q v c with
    | (c1, Ok (resp, next)) =>
        k_replies (link h) = [AnsResp] /\ holds c1 h /\ srv_streams (k_srv (link h)) !! id = next
    | _ => False
    end \/
  k_replies (link h) = [] /\ k_live (link h) = false /\ k_final (link h) = AnsErr.

Lemma send_sent (c : Store) (v : WriteVars) (q : WriteReq) (h : list event) :
  talking c v h -> sent_to c v q (h ++ [Ev (StreamSend q) true]).
Proof.
  intros ([Hc Hi] & Hr & id & Hid & Hv). unfold sent_to, holds. rewrite link_after_snoc. cbn [link_call].
  set (env := envs (length h)). set (k := link h) in *. clearbody k env.
  exists (e_io env), (e_now env). destruct (mo_reached env); [|exists id; right; done].
  unfold deliver. rewrite Hid. cbn [handle]. unfold content_write, write_msg. rewrite Hv, Hc.
  exists id.
  destruct (on_request _ _ q v c) as [c1 [[resp next]|e|]].
  - destruct (e_send env 0); cbn [negb].
    + left. destruct next as [v1|]; cbn; rewrite Hr, ?lookup_insert_eq, ?lookup_delete_eq; done.
    + right. cbn. unfold k_live. cbn. by rewrite Hr, lookup_delete_eq.
  - right. cbn. unfold k_live. cbn. by rewrite Hr, lookup_delete_eq.
  - right. cbn. by rewrite Hr.
Qed.

(** The request was answered, and the conversation goes on unless it was the
    last one. *)
Definition answered (c : Store) (v : WriteVars) (q : WriteReq) (h : list event) : Prop :=
  exists io now c1 resp next, on_request io now q v c = (c1, Ok (resp, next)) /\
    match next with Some v1 => talking c1 v1 h | None => holds c1 h end.

Lemma recv_answered (c : Store) (v : WriteVars) (q : WriteReq) :
  gives (sent_to c v q) (do_call StreamRecv) (fun a h => a = AnsResp /\ answered c v q h \/ a = AnsErr).
Proof.
  apply gives_call. intros h (io & now & id & [(Hid & Hq)|(Hr & Hl & Hf)]);
    pose proof (wi_recv _ _ _ Hw h) as Hrecv; cbv zeta in Hrecv.
  - destruct Hrecv as [->|Hrecv]; [by right|].
    destruct (on_request io now q v c) as [c1 [[resp next]|e|]] eqn:He; [|done..]. destruct Hq as (Hr & Hc & Hs).
    rewrite Hr in Hrecv. left. split; [done|]. exists io, now, c1, resp, next. split; [done|].
    unfold talking, holds in *. rewrite link_after_snoc, Hrecv. cbn [link_call k_srv k_replies k_stream]. rewrite Hr.
    destruct next as [v1|]; [|done]. split; [done|]. split; [done|]. by exists id.
  - right. destruct Hrecv as [->|Hrecv]; [done|]. rewrite Hr in Hrecv. rewrite <- Hf. by apply Hrecv.
Qed.

Lemma exchange_answered (what : string) (eof_ok : bool) (c : Store) (v : WriteVars) (q : WriteReq) :
  gives (talking c v) (exchange what eof_ok q) (fun _ => answered c v q).
Proof.
  unfold exchange. apply (gives_bind _ _ _ (fun _ => sent_to c v q)).
  { apply gives_try_call. intros h. apply send_sent. }
  intros []. eapply gives_bind; [apply recv_answered|]. intros a. destruct a.
  - apply gives_ret. by intros h [[_ Ha]|].
  - destruct eof_ok; [|apply gives_err]. apply gives_ret. by intros h [[? _]|].
  - apply gives_err.
Qed.

(** The stream has broken: an exchange fails. *)
Definition broken (h : list event) : Prop :=
  k_stream (link h) = None /\ k_replies (link h) = [] /\ k_final (link h) = AnsErr.

Lemma exchange_broken (what : string) (eof_ok : bool) (q : WriteReq) (Q : unit -> list event -> Prop) :
  gives broken (exchange what eof_ok q) Q.
Proof.
  unfold exchange. apply (gives_bind _ _ _ (fun _ => broken)).
  - apply gives_try_call. intros h (Hs & Hr & Hf). unfold broken. rewrite link_after_snoc. cbn [link_call].
    destruct (mo_reached _); [|done]. unfold deliver. by rewrite Hs.
  - intros []. apply (gives_bind _ _ _ (fun a _ => a = AnsErr)).
    + apply gives_call. intros h (Hs & Hr & Hf). pose proof (wi_recv _ _ _ Hw h) as Hrecv. cbv zeta in Hrecv.
      destruct Hrecv as [->|Hrecv]; [done|]. rewrite Hr in Hrecv. rewrite <- Hf. apply Hrecv. unfold k_live. by rewrite Hs.
    + intros [| |]; [by intros h h' a [=]|by intros h h' a [=]|apply gives_err].
Qed.

Definition not_commit (q : WriteReq) : Prop := q_Action q <> ActionCOMMIT.

(** A request in the middle of the conversation. *)
Lemma exchange_served (what : string) (c : Store) (v : WriteVars) (q : WriteReq) :
  not_commit q ->
  gives (talking c v) (exchange what false q) (fun _ h => exists c1 v1, served c v [q] c1 v1 /\ talking c1 v1 h).
Proof.
  intros Hq. eapply gives_mono; [apply (exchange_answered what false c v q)|done|].
  intros _ h (io & now & c1 & resp & next & He & Ht). pose proof (on_request_next _ _ _ _ _ _ _ _ He) as Hn.
  assert (Hs : is_Some next) by (unfold not_commit in Hq; by destruct (q_Action q)).
  destruct Hs as [v1 ->]. exists c1, v1. split; [|done]. by eapply served_cons, served_nil.
Qed.

Lemma exchange_all_served (what : string) (qs : list WriteReq) (c : Store) (v : WriteVars) :
  Forall not_commit qs ->
  gives (talking c v) (exchange_all what qs) (fun _ h => exists c1 v1, served c v qs c1 v1 /\ talking c1 v1 h).
Proof.
  intros Hq. revert c v. induction Hq as [|q qs Hq _ IH]; intros c v; cbn [exchange_all].
  - apply gives_ret. intros h Ht. exists c, v. split; [apply served_nil|done].
  - eapply gives_bind; [by apply exchange_served|]. intros [] h h' [] (c1 & v1 & Hs & Ht) Hr.
    destruct (IH c1 v1 h h' tt Ht Hr) as (c2 & v2 & Hs2 & Ht2). exists c2, v2. split; [|done].
    by apply (served_app [q] qs c c1 c2 v v1 v2).
Qed.

(** An upload that succeeded: the daemon has answered its requests, and the last
    one was the commit. *)
Definition uploaded_to (c : Store) (ref d : string) (data : bytes) (c2 : Store) : Prop :=
  exists c1 v1 io now resp,
    served c (mkVars "" "" false)
      (mkWriteReq ActionSTAT ref d 0 0 [] :: chunk_reqs ref 0 (chunks_of mib data)) c1 v1 /\
    on_request io now (commit_req ref d (length data)) v1 c1 = (c2, Ok (resp, None)).

Lemma chunk_reqs_not_commit (ref : string) (off : nat) (cs : list bytes) : Forall not_commit (chunk_reqs ref off cs).
Proof. revert off. induction cs as [|b cs IH]; intros off; cbn; [done|]. by constructor. Qed.

Lemma writeContent_uploads (d : string) (data : bytes) (c : Store) :
  gives (holds c) (writeContent d data) (fun _ h =>
    32 <= String.length d /\ exists c2, uploaded_to c (pull_ref d) d data c2 /\ holds c2 h).
Proof.
  unfold writeContent. apply (gives_bind _ _ _ (fun _ h => talking c (mkVars "" "" false) h \/ broken h)).
  { apply gives_try_call. intros h Hc. destruct Hc as [Hc Hi]. unfold talking, broken, holds in *. rewrite link_after_snoc.
    cbn [link_call handle]. destruct (mo_reached _); [left|by right].
    cbn. rewrite Hc, Hi. split_and!; [done|done|done|]. eexists. split; [done|]. by rewrite lookup_insert_eq. }
  intros []. unfold str_slice_to. destruct (32 <=? String.length d) eqn:Hl.
  2:{ intros h h' a _. done. }
  apply Nat.leb_le in Hl. unfold pull_ref. set (ref := "pull-" +:+ str_take 32 d).
  apply (gives_bind _ _ _ (fun r h => r = str_take 32 d /\ (talking c (mkVars "" "" false) h \/ broken h))).
  { apply gives_lift. by intros h a Ht [= <-]. }
  intros r. apply gives_pure. intros ->. fold ref. cbv zeta.
  eapply gives_bind; [apply gives_or; [by apply exchange_served|apply exchange_broken]|]. intros [].
  apply gives_exists. intros c1. apply gives_exists. intros v1. apply gives_pure. intros Hs1.
  eapply gives_bind; [apply exchange_all_served, chunk_reqs_not_commit|]. intros [].
  apply gives_exists. intros c2. apply gives_exists. intros v2. apply gives_pure. intros Hs2.
  eapply gives_bind; [apply exchange_answered|]. intros [].
  apply gives_exists. intros io. apply gives_exists. intros now. apply gives_exists. intros c3. apply gives_exists.
  intros resp. apply gives_exists. intros next. apply gives_pure. intros He.
  pose proof (on_request_next _ _ _ _ _ _ _ _ He) as Hn. cbn in Hn. subst next.
  apply gives_try_call. intros h Hc. split; [done|]. exists c3. split.
  - exists c2, v2, io, now, resp. split; [|done]. by apply (served_app [_] _ c c1 c2 _ v1 v2).
  - destruct Hc as [Hc Hi]. unfold holds in *. rewrite link_after_snoc. cbn [link_call]. set (k := link_after envs k0 h) in *. clearbody k.
    destruct (mo_reached _); [|done]. unfold deliver. destruct (k_stream k) as [id|]; [|done]. cbn [handle]. unfold content_write, write_msg. rewrite Hc.
    by destruct (srv_streams (k_srv k) !! id).
Qed.

End conversation.

(** ** What an upload does to the store *)

(** A committed upload stays committed, whatever is asked of the store. *)
Lemma committed_set (ref r : string) (us : uploadState) (c c' : Store) :
  s_uploads c' = <[r := us]> (s_uploads c) ->
  (forall us0, s_uploads c !! r = Some us0 -> us_Committed us0 = true -> us_Committed us = true) ->
  committed c ref -> committed c' ref.
Proof.
  intros Hu Hus (us0 & Hl & Hc). unfold committed. rewrite Hu. destruct (decide (r = ref)) as [->|Hne].
  - rewrite lookup_insert_eq. by eauto.
  - rewrite lookup_insert_ne by done. by eauto.
Qed.

Section keeps.
Context (io : faults) (now : Z) (ref : string).

Abbreviation keeps := (preserves (fun c => committed c ref)).

Lemma begin_keeps (r expected : string) : keeps (BeginUpload io now r expected).
Proof.
  intros c Hc. unfold BeginUpload. cbv zeta. set (r' := if String.eqb r "" then _ else r).
  destruct (s_uploads c !! r') as [us|] eqn:Hu; [by destruct (us_Committed us)|].
  destruct (os_mkdir_all _ _ _) as [f1|]; [|done]. destruct (os_create _ _ _) as [[h f2]|]; [|done].
  cbn [fst]. eapply (committed_set ref r' _ c); [reflexivity| |exact Hc]. intros us0. by rewrite Hu.
Qed.

Lemma write_keeps (r : string) (offset : Z) (data : bytes) : keeps (WriteUpload io now r offset data).
Proof.
  intros c Hc. unfold WriteUpload. destruct (s_uploads c !! r) as [us|] eqn:Hu; [|done].
  assert (Hone : forall us1 c1, us_Committed us1 = us_Committed us -> s_uploads c1 = <[r := us1]> (s_uploads c) ->
    committed c1 ref).
  { intros us1 c1 H1 H2. refine (committed_set ref r us1 c c1 H2 _ Hc). intros us0. rewrite Hu. intros [= <-]. by rewrite H1. }
  destruct (negb _).
  - destruct (os_seek _ _ _) as [h|]; [|done]. destruct (os_write _ _ _ _) as [[h1 f] []]; cbn [negb fst];
      (eapply Hone; [|cbn; by rewrite insert_insert_eq]; done).
  - destruct (os_write _ _ _ _) as [[h1 f] []]; cbn [negb fst]; (eapply Hone; [|reflexivity]; done).
Qed.

Lemma commit_keeps (r : string) (total : Z) : keeps (CommitUpload io now r total).
Proof.
  intros c Hc. unfold CommitUpload. destruct (s_uploads c !! r) as [us|] eqn:Hu; [|done]. cbv zeta.
  assert (Hd : committed (drop_tmp io us c) ref) by (unfold drop_tmp; by destruct (os_remove _ _ _)).
  destruct (_ && negb (us_Offset us =? total)%Z); [done|]. destruct (negb _ && _); [done|].
  destruct (blobPath _ _) as [p|e|]; [|done..]. unfold commit_move.
  destruct (os_mkdir_all _ _ _) as [f1|]; [|done]. destruct (os_close _ _) as [h []]; cbn [negb];
    [destruct (os_rename _ _ _ _) as [f2|]|]; cbn [fst]; (eapply (committed_set ref r _ c); [reflexivity| |exact Hc]);
    intros us0; rewrite Hu; by intros [= <-].
Qed.
#[local] Hint Resolve begin_keeps write_keeps commit_keeps : preserves.

Lemma on_request_keeps (q : WriteReq) (v : WriteVars) : keeps (on_request io now q v).
Proof.
  unfold on_request, on_stat, on_write, on_commit, auto_init, internal. preserves.
  intros c Hc. cbv beta. by destruct (GetUpload _ _).
Qed.

End keeps.

(** An upload of [ref] in progress: the store had the uploads and blobs of [c0]
    before, and the data so far is [acc]; when the reference is a plain file
    name, the store went through its own steps. *)
Record under_way (c0 c : Store) (ref d : string) (acc : bytes) : Prop := {
  uw_us : exists us, s_uploads c = <[ref := us]> (s_uploads c0) /\ us_Committed us = false /\
    us_Expected us = d /\ us_hasher us = acc /\ us_Offset us = Z.of_nat (length acc) /\ us_torn us = false;
  uw_blobs : s_blobs c = s_blobs c0;
  uw_steps : plain_elem ref = true -> rtc store_step c0 c
}.

(** No upload of [ref] is in progress. *)
Definition idle (c : Store) (ref : string) : Prop :=
  forall us, s_uploads c !! ref = Some us -> us_Committed us = true.

(** The first request of an upload. *)
Lemma stat_begins (io : faults) (now : Z) (ref d : string) (c c1 : Store) (resp : WriteResp) next :
  ref <> "" -> on_request io now (mkWriteReq ActionSTAT ref d 0 0 []) (mkVars "" "" false) c = (c1, Ok (resp, next)) ->
  ~ committed c ref /\ (forall v1, next = Some v1 -> v_ref v1 = ref) /\
  (idle c ref -> under_way c c1 ref d []).
Proof.
  intros Hr Hq. assert (Hst : plain_elem ref = true -> rtc store_step c c1).
  { intros Hp. pose proof (on_request_sim io now (mkWriteReq ActionSTAT ref d 0 0 []) (mkVars "" "" false) c) as Hs.
    rewrite Hq in Hs. apply Hs. split; [by right|done]. }
  revert Hq. unfold on_request, auto_init, on_stat, internal. cbn [v_ref q_Ref q_Action q_Expected].
  apply String.eqb_neq in Hr as Hr'. rewrite Hr'. cbn. unfold go_bind, go_wrap.
  destruct (BeginUpload io now ref d c) as [ca [us|e|]] eqn:Ha; [|done..]. cbn.
  destruct (BeginUpload io now ref d ca) as [cb [us'|e|]] eqn:Hb; [|done..]. cbn. intros [= <- _ <-].
  apply BeginUpload_Ok in Ha as (Hbl1 & Hc1 & Hu1 & Hcase); [|done].
  apply BeginUpload_Ok in Hb as (Hbl2 & Hc2 & Hu2 & Hcase2); [|done].
  rewrite Hu1, lookup_insert_eq in Hcase2. destruct Hcase2 as [[= <-]|[? _]]; [|done].
  assert (Hn : ~ committed c ref) by (intros (u & Hu & Hc); destruct Hcase as [Hx|(Hx & _)]; congruence).
  split; [done|]. split; [by intros v1 [= <-]|]. intros Hall. destruct Hcase as [Hx|(Hx & He & Ho & Hh & Ht)].
  - exfalso. apply Hn. exists us. split; [done|]. by apply Hall.
  - constructor; [|by rewrite Hbl2, Hbl1|done].
    exists us. by rewrite Hu2, Hu1, insert_insert_eq.
Qed.

(** A piece of data. *)
Lemma write_appends (io : faults) (now : Z) (ref d : string) (c0 c c1 : Store) (v v1 : WriteVars) (acc b : bytes)
    (resp : WriteResp) :
  ref <> "" -> v_ref v = ref -> under_way c0 c ref d acc -> in_int64 (Z.of_nat (length acc + length b)) ->
  on_request io now (mkWriteReq ActionWRITE ref "" 0 (Z.of_nat (length acc)) b) v c = (c1, Ok (resp, Some v1)) ->
  v_ref v1 = ref /\ under_way c0 c1 ref d (acc ++ b).
Proof.
  intros Hr Hv [(us & Hu & Hcm & He & Hh & Ho & Ht) Hbl Hst] Hl Hq.
  assert (Hus : s_uploads c !! ref = Some us) by by rewrite Hu, lookup_insert_eq.
  assert (Hst1 : plain_elem ref = true -> rtc store_step c0 c1).
  { intros Hp. etrans; [by apply Hst|].
    pose proof (on_request_sim io now (mkWriteReq ActionWRITE ref "" 0 (Z.of_nat (length acc)) b) v c) as Hs.
    rewrite Hq in Hs. apply Hs. split; [by right|]. apply String.eqb_neq in Hr as Hr'.
    unfold in_order, target_ref, upload_offset. rewrite Hv, Hr'. cbn [q_Action q_Offset q_Data]. rewrite Hus, Ho.
    split; [done|]. by rewrite <- Nat2Z.inj_add. }
  revert Hq. unfold on_request, go_bind.
  rewrite auto_init_set by by rewrite Hv. cbn [q_Action]. unfold on_write, go_bind, internal, go_wrap.
  rewrite auto_init_set by by rewrite Hv. rewrite Hv. apply String.eqb_neq in Hr as Hr'. rewrite Hr'.
  cbn [q_Offset q_Data].
  destruct (WriteUpload io now ref _ b c) as [c2 [us2|e|]] eqn:Hw; [|done..]. cbn. intros [= <- _ <-].
  destruct (WriteUpload_Ok _ _ _ _ _ _ _ _ _ Hus Hw) as (Hbl2 & Hcm2 & He2 & Hh2 & Hu2).
  split; [done|]. constructor; [|by rewrite Hbl2|done]. exists us2.
  rewrite Hu2, Hu, insert_insert_eq. split; [done|]. split; [congruence|]. split; [congruence|].
  rewrite Ho, Z.eqb_refl, Hh in Hh2. split; [done|]. rewrite length_app. split.
  - revert Hw. unfold WriteUpload. rewrite Hus, Ho, Z.eqb_refl. cbn [negb].
    destruct (os_write _ _ _ _) as [[h f] []]; [|done]. intros [= _ <-]. cbn.
    rewrite wrap64_id; [lia|]. by replace (_ + _)%Z with (Z.of_nat (length acc + length b)) by lia.
  - refine (write_whole io now ref (mkWriteReq ActionWRITE ref "" 0 (Z.of_nat (length acc)) b) c c2 us2 _ _ _ Hw us2 _).
    + unfold upload_offset. by rewrite Hus, Ho.
    + cbn. by rewrite <- Nat2Z.inj_add.
    + intros u Hu'. congruence.
    + by rewrite Hu2, lookup_insert_eq.
Qed.

(** The handler stays on its reference. *)
Lemma on_request_ref (io : faults) (now : Z) (q : WriteReq) (v v1 : WriteVars) (c c1 : Store) (resp : WriteResp) :
  v_ref v <> "" -> q_Action q <> ActionSTAT -> on_request io now q v c = (c1, Ok (resp, Some v1)) ->
  v_ref v1 = v_ref v.
Proof.
  intros Hv Hq. unfold on_request, go_bind. rewrite auto_init_set by done.
  destruct (q_Action q); [done| | |done].
  - unfold on_write, go_bind. rewrite auto_init_set by done. destruct (String.eqb _ _); [done|].
    unfold internal, go_wrap. destruct (WriteUpload _ _ _ _ _ _) as [c2 [us|e|]]; [|done..]. by intros [= _ _ <-].
  - destruct (on_commit _ _ _ _ _) as [c2 [r|e|]]; by intros [=].
Qed.

Lemma served_ref (c c1 : Store) (v v1 : WriteVars) (ref : string) (off : nat) (cs : list bytes) :
  v_ref v <> "" -> served c v (chunk_reqs ref off cs) c1 v1 -> v_ref v1 = v_ref v.
Proof.
  revert c v off. induction cs as [|b cs IH]; intros c v off Hv Hs; inversion Hs; subst; [done|].
  match goal with H : on_request _ _ _ _ _ = _ |- _ => apply on_request_ref in H as Hr; [|done..] end.
  rewrite <- Hr. eapply IH; [|done]. by rewrite Hr.
Qed.

Lemma served_keeps (ref : string) (c c1 : Store) (v v1 : WriteVars) (qs : list WriteReq) :
  served c v qs c1 v1 -> committed c ref -> committed c1 ref.
Proof.
  induction 1 as [|io now q qs c v c1 resp v1 c2 v2 Ho _ IH]; [done|]. intros Hc. apply IH.
  pose proof (on_request_keeps io now ref q v c Hc) as Hk. by rewrite Ho in Hk.
Qed.

Lemma writes_append (ref d : string) (c0 : Store) (cs : list bytes) (c c1 : Store) (v v1 : WriteVars) (acc : bytes) :
  ref <> "" -> served c v (chunk_reqs ref (length acc) cs) c1 v1 -> v_ref v = ref -> under_way c0 c ref d acc ->
  in_int64 (Z.of_nat (length acc + length (concat cs))) ->
  v_ref v1 = ref /\ under_way c0 c1 ref d (acc ++ concat cs).
Proof.
  intros Hr. revert c v acc. induction cs as [|b cs IH]; intros c v acc Hs Hv Hw Hl; inversion Hs; subst.
  - cbn. by rewrite app_nil_r.
  - cbn [concat] in *. rewrite length_app in Hl.
    edestruct (write_appends io now (v_ref v) d c0 c) as [Hv1 Hw1]; [done|done|exact Hw| |done|].
    { unfold in_int64 in *. lia. }
    rewrite (assoc_L (++)). eapply IH; [|exact Hv1|exact Hw1|].
    + by rewrite length_app.
    + rewrite length_app. unfold in_int64 in *. lia.
Qed.

(** What a completed upload leaves. *)
Record published (c c2 : Store) (ref d : string) (data : bytes) : Prop := {
  pb_digest : d = digest_of data;
  pb_idle : forall r, idle c r -> idle c2 r;
  pb_blob : has_blob c2 d;
  pb_blobs : forall d0, has_blob c d0 -> has_blob c2 d0;
  pb_uploads : exists us, s_uploads c2 = <[ref := us]> (s_uploads c) /\ us_Committed us = true;
  pb_steps : plain_elem ref = true -> rtc store_step c c2
}.

(** The COMMIT request publishes the data, if it has the expected digest. *)
Lemma commit_publishes (io : faults) (now : Z) (ref d : string) (c0 c c2 : Store) (v : WriteVars) (resp : WriteResp)
    (data : bytes) :
  ref <> "" -> d <> "" -> v_ref v = ref -> under_way c0 c ref d data ->
  on_request io now (commit_req ref d (length data)) v c = (c2, Ok (resp, None)) -> published c0 c2 ref d data.
Proof.
  intros Hr Hd Hv [(us & Hu & Hcm & He & Hh & Ho & Ht) Hbl Hst] Hq.
  assert (Hst1 : plain_elem ref = true -> rtc store_step c0 c2).
  { intros Hp. etrans; [by apply Hst|].
    pose proof (on_request_sim io now (commit_req ref d (length data)) v c) as Hs.
    rewrite Hq in Hs. apply Hs. split; [by right|]. split; [done|]. apply String.eqb_neq in Hr as Hr'.
    unfold target_ref. rewrite Hv, Hr'. intros u. rewrite Hu, lookup_insert_eq. by intros [= <-]. }
  revert Hq. unfold on_request, go_bind.
  rewrite auto_init_set by by rewrite Hv. cbn [q_Action commit_req]. unfold on_commit, go_bind, internal, go_wrap.
  rewrite Hv. apply String.eqb_neq in Hr. rewrite Hr. cbn [q_Data commit_req length Nat.ltb Nat.leb].
  rewrite andb_false_r. cbn [go_ret q_Total commit_req].
  destruct (CommitUpload io now ref _ c) as [c3 [[]|e|]] eqn:Hc; [|done..]. cbn [res_wrap].
  assert (Hus : s_uploads c !! ref = Some us) by by rewrite Hu, lookup_insert_eq.
  destruct (CommitUpload_Ok _ _ _ _ _ _ us Hus Hc) as (Hexp & [info Hbl3] & us3 & Hu3 & Hcm3).
  destruct (GetUpload ref c3) as [u|]; [|done]. intros [= <- _]. rewrite He, Hh in Hexp.
  destruct Hexp as [?|Hexp]; [done|]. constructor; [done| | | | |done].
  - intros r Hi u0. rewrite Hu3, Hu, insert_insert_eq. intros [[<- <-]|[_ Hr0]]%lookup_insert_Some; [done|].
    by apply Hi.
  - unfold has_blob. rewrite Hbl3, Hh, <- Hexp. by rewrite lookup_insert_eq.
  - intros d0. unfold has_blob. rewrite Hbl3, <- Hbl. intros [i Hi].
    destruct (decide (digest_of (us_hasher us) = d0)) as [->|Hne]; [by rewrite lookup_insert_eq|].
    rewrite lookup_insert_ne by done. by eexists.
  - exists us3. by rewrite Hu3, Hu, insert_insert_eq.
Qed.

(** A whole upload, when none of this reference was under way. *)
Lemma uploaded_published (c c2 : Store) (ref d : string) (data : bytes) :
  ref <> "" -> d <> "" -> in_int64 (Z.of_nat (length data)) -> idle c ref ->
  uploaded_to c ref d data c2 -> published c c2 ref d data.
Proof.
  intros Hr Hd Hl Hall (c1 & v1 & io & now & resp & Hs & He). inversion Hs as [|? ? ? ? ? ? ca ? va ? ? Ho Hs']; subst.
  apply stat_begins in Ho as (_ & Hv & Hw); [|done].
  pose proof (chunks_of_concat mib data mib_pos) as Hcat.
  destruct (writes_append ref d c (chunks_of mib data) ca c1 va v1 []) as [Hv1 Hw1]; auto.
  { by rewrite Hcat. }
  rewrite Hcat in Hw1. by eapply commit_publishes.
Qed.

(** An upload goes only to a reference that is not committed, and commits it. *)
Lemma uploaded_commits (c c2 : Store) (ref d : string) (data : bytes) :
  ref <> "" -> uploaded_to c ref d data c2 ->
  ~ committed c ref /\ committed c2 ref /\ forall r, committed c r -> committed c2 r.
Proof.
  intros Hr (c1 & v1 & io & now & resp & Hs & He). inversion Hs as [|? ? ? ? ? ? ca ? va ? ? Ho Hs']; subst.
  apply stat_begins in Ho as (Hf & Hv & _); [|done]. specialize (Hv va eq_refl).
  assert (Hv1 : v_ref v1 = ref) by (rewrite (served_ref _ _ _ _ _ _ _ ltac:(by rewrite Hv) Hs'); done).
  split; [done|]. split.
  - revert He. unfold on_request, go_bind. rewrite auto_init_set by by rewrite Hv1. cbn [q_Action commit_req].
    unfold on_commit, go_bind, internal, go_wrap. rewrite Hv1. destruct (String.eqb ref ""); [done|].
    cbn [q_Data commit_req length Nat.ltb Nat.leb]. rewrite andb_false_r. cbn [go_ret q_Total commit_req].
    destruct (CommitUpload io now ref _ c1) as [c3 [[]|e|]] eqn:Hc; [|done..]. cbn [res_wrap].
    destruct (s_uploads c1 !! ref) as [us|] eqn:Hus; [|unfold CommitUpload in Hc; by rewrite Hus in Hc].
    destruct (CommitUpload_Ok _ _ _ _ _ _ us Hus Hc) as (_ & _ & us3 & Hu3 & Hcm3).
    destruct (GetUpload ref c3); [|done]. intros [= <- _]. exists us3. by rewrite Hu3, lookup_insert_eq.
  - intros r Hc. apply (served_keeps r) in Hs; [|done].
    pose proof (on_request_keeps io now r (commit_req ref d (length data)) v1 c1 Hs) as Hk. by rewrite He in Hk.
Qed.

(** ** Pulling *)

Lemma pull_ref_nonempty (d : string) : pull_ref d <> "".
Proof. done. Qed.

(** The bodies in a history fit into memory: their length is an [int]. *)
Definition bodies_fit (h : list event) : Prop :=
  forall url b, (url, b) ∈ fetched h -> in_int64 (Z.of_nat (length b)).

Lemma fetched_mono (h evs : list event) (x : string * bytes) : x ∈ fetched h -> x ∈ fetched (h ++ evs).
Proof. rewrite fetched_app, elem_of_app. by left. Qed.

Lemma bodies_fit_prefix (h evs : list event) : bodies_fit (h ++ evs) -> bodies_fit h.
Proof. intros Hf url b Hb. eapply (Hf url), fetched_mono, Hb. Qed.

Section pull.
Context `{Api} {W : World} (envs : nat -> Moment) (k0 : Link) (Hw : wired W envs k0) (m : Images).

Abbreviation link := (link_after envs k0).
Abbreviation holds := (holds envs k0 m).

(** Calls to the registry and the terminal do not reach the daemon. *)
Definition bystander (e : event) : Prop :=
  match e with @Ev _ c _ => match c with HttpDo _ | Printf _ | Now => True | _ => False end end.

Lemma link_bystander (h : list event) (e : event) : bystander e -> link (h ++ [e]) = link h.
Proof. rewrite link_after_snoc. destruct e as [T c a]. by destruct c. Qed.

Lemma holds_bystander (c : Store) (h : list event) (e : event) : bystander e -> holds c h -> holds c (h ++ [e]).
Proof. intros He. unfold EndToEnd.holds. by rewrite link_bystander. Qed.

Lemma downloadBlob_gives (c : Store) (url token : string) :
  gives (holds c) (downloadBlob url token) (fun b h => (url, b) ∈ fetched h /\ holds c h).
Proof.
  intros h h' b Hh Hr. destruct (wp_elim _ _ _ _ _ (downloadBlob_wp url token) Hr) as (evs & -> & _ & Hb).
  split; [rewrite fetched_app; apply elem_of_app; by right|].
  refine (gives_emits bystander _ (holds c) _ (fun h e => holds_bystander c h e) h _ b Hh Hr).
  unfold downloadBlob, httpGetBody, httpGet. emits.
Qed.

(** What has been pulled: the daemon's store was [c], is now [c2], and the blobs
    of the digests [ds] were uploaded from bodies in the history. *)
Record pulled (registry repo : string) (c : Store) (ds : list string) (c2 : Store) (h : list event) : Prop := {
  pd_holds : holds c2 h;
  pd_keeps : forall r, committed c r -> committed c2 r;
  pd_fresh : forall d, d ∈ ds -> ~ committed c (pull_ref d);
  pd_commits : forall d, d ∈ ds -> committed c2 (pull_ref d);
  pd_all : bodies_fit h -> (forall d, d ∈ ds -> idle c (pull_ref d)) ->
    rtc store_step c c2 /\ (forall r, idle c r -> idle c2 r) /\ (forall d, has_blob c d -> has_blob c2 d) /\
    forall d, d ∈ ds -> has_blob c2 d /\ exists b, (blob_url registry repo d, b) ∈ fetched h /\ d = digest_of b
}.

Lemma pulled_nil (registry repo : string) (c : Store) (h : list event) : holds c h -> pulled registry repo c [] c h.
Proof.
  intros Hh. constructor; auto; try (by intros d Hd%not_elem_of_nil). intros _ _.
  split; [apply rtc_refl|]. split; [done|]. split; [done|]. by intros d Hd%not_elem_of_nil.
Qed.

(** Later events that do not reach the daemon. *)
Lemma pulled_extends (registry repo : string) (c c2 : Store) (ds : list string) (h evs : list event) :
  holds c2 (h ++ evs) -> pulled registry repo c ds c2 h -> pulled registry repo c ds c2 (h ++ evs).
Proof.
  intros Hh [_ Hk Hf Hc Ha]. constructor; auto. intros Hb Hi.
  destruct (Ha (bodies_fit_prefix _ _ Hb) Hi) as (H1 & H2 & H3 & H4). split_and!; auto.
  intros d Hd. destruct (H4 d Hd) as (Hbl & b & Hin & He). split; [done|]. exists b. split; [by apply fetched_mono|done].
Qed.

(** One more upload. *)
Lemma pulled_snoc (registry repo d : string) (c c1 c2 : Store) (ds : list string) (h h' : list event) (b : bytes) :
  d <> "" -> pulled registry repo c ds c1 h -> (exists evs, h' = h ++ evs) ->
  (blob_url registry repo d, b) ∈ fetched h' -> uploaded_to c1 (pull_ref d) d b c2 -> holds c2 h' ->
  pulled registry repo c (ds ++ [d]) c2 h'.
Proof.
  intros Hne [_ Hk Hf Hc Ha] [evs ->] Hb Hu Hh.
  destruct (uploaded_commits _ _ _ _ _ (pull_ref_nonempty d) Hu) as (Hfr & Hcm & Hkp).
  constructor; auto.
  - intros x [Hx| ->%list_elem_of_singleton]%elem_of_app; [by apply Hf|]. by intros Hx%Hk.
  - intros x [Hx| ->%list_elem_of_singleton]%elem_of_app; [by apply Hkp, Hc|done].
  - intros Hfit Hi. destruct (Ha (bodies_fit_prefix _ _ Hfit)) as (H1 & H2 & H3 & H4).
    { intros x Hx. apply Hi, elem_of_app. by left. }
    assert (Hid : idle c1 (pull_ref d)) by (apply H2, Hi, elem_of_app; right; by apply list_elem_of_singleton).
    destruct (uploaded_published c1 c2 (pull_ref d) d b) as [Hd Hid2 Hbl Hbls _ Hst]; [done|done|by eapply Hfit|done|done|].
    split. { etrans; [exact H1|]. apply Hst. rewrite Hd. apply pull_ref_plain. }
    split; [auto|]. split; [auto|]. intros x [Hx| ->%list_elem_of_singleton]%elem_of_app.
    + destruct (H4 x Hx) as (Hbx & b' & Hin & He). split; [by apply Hbls|]. exists b'. split; [by apply fetched_mono|done].
    + split; [done|]. by exists b.
Qed.

Lemma pull_blob_gives (registry repo token d : string) (i n : nat) (c c1 : Store) (ds : list string) :
  gives (pulled registry repo c ds c1) (pull_blob registry repo token d i n)
    (fun _ h => exists c2, pulled registry repo c (ds ++ [d]) c2 h).
Proof.
  intros h h' [] Hp Hr. unfold pull_blob in Hr. go_run Hr.
  assert (Hlen : d <> "").
  { revert Hrun. unfold go_lift, str_slice_to. destruct (30 <=? String.length d) eqn:Hl; [|done]. intros _.
    apply Nat.leb_le in Hl. intros ->. cbn in Hl. lia. }
  assert (Hs : s = h) by (by injection Hrun). subst s. clear Hrun.
  assert (Hh1 : holds c1 s0).
  { refine (gives_emits bystander (printf _) (holds c1) _ (fun h e => holds_bystander c1 h e) h s0 a0 (pd_holds _ _ _ _ _ _ Hp) Hrun0).
    emits. }
  destruct (downloadBlob_gives c1 _ token s0 s1 a1 Hh1 Hrun1) as [Hb Hh2].
  destruct (writeContent_uploads envs k0 Hw m d a1 c1 s1 h' tt Hh2 Hr) as (_ & c2 & Hu & Hh3). exists c2.
  pose proof (wp_elim _ _ _ _ _ (downloadBlob_wp _ token) Hrun1) as (e1 & -> & _).
  pose proof (wp_elim _ _ _ _ _ (nerdctl_writeContent_wp d a1) Hr) as (e2 & -> & _).
  assert (H0 : exists e0, s0 = h ++ e0) by (unfold printf, ignore_call, go_bind, do_call in Hrun0; injection Hrun0 as <-; by eexists).
  destruct H0 as [e0 ->]. eapply pulled_snoc; [done|exact Hp| | |exact Hu|exact Hh3].
  - exists (e0 ++ e1 ++ e2). by rewrite !(assoc_L (++)).
  - by apply fetched_mono.
Qed.

Lemma pull_blobs_gives (registry repo token : string) (i n : nat) (ds : list string) (c c1 : Store) (ds0 : list string) :
  gives (pulled registry repo c ds0 c1) (pull_blobs registry repo token i n ds)
    (fun _ h => exists c2, pulled registry repo c (ds0 ++ ds) c2 h).
Proof.
  revert i c1 ds0. induction ds as [|d ds IH]; intros i c1 ds0; cbn [pull_blobs].
  - apply gives_ret. intros h Hp. exists c1. by rewrite app_nil_r.
  - eapply gives_bind; [apply pull_blob_gives|]. intros []. apply gives_exists. intros c2.
    eapply gives_mono; [apply (IH (S i) c2 (ds0 ++ [d]))|done|]. intros a h. by rewrite <- (assoc_L (++)).
Qed.


(** The record of a pulled image: its answer decides whether it was made. *)
Definition registered (ref : string) (data : bytes) (h' : list event) : Prop :=
  exists hc img evs, h' = hc ++ evs /\ im_Name img = ref /\
    im_Target img = mkDescriptor manifest_type (digest_of data) (Z.of_nat (length data)) /\
    let images := srv_images (k_srv (link h')) in
    m !! ref = None /\ (exists t, images = <[ref := mkImage ref None no_target t t]> m) \/
    answer _ hc (ImageCreate img) = false /\ images = m.

Lemma create_registers (c : Store) (hc evs : list event) (img : Image) :
  holds c hc -> Forall bystander evs ->
  let ok := answer _ hc (ImageCreate img) in
  let h' := (hc ++ [Ev (ImageCreate img) ok]) ++ evs in
  srv_content (k_srv (link h')) = Some c /\
  let images := srv_images (k_srv (link h')) in
  m !! im_Name img = None /\ (exists t, images = <[im_Name img := mkImage (im_Name img) (im_Labels img) no_target t t]> m) \/
  ok = false /\ images = m.
Proof.
  intros [Hc Hm] He. cbv zeta. set (ok := answer _ hc (ImageCreate img)).
  assert (Hl : link ((hc ++ [Ev (ImageCreate img) ok]) ++ evs) = link (hc ++ [Ev (ImageCreate img) ok])).
  { generalize (hc ++ [Ev (ImageCreate img) ok]). induction He as [|e evs He _ IH]; intros h; [by rewrite app_nil_r|].
    replace (h ++ e :: evs) with ((h ++ [e]) ++ evs) by by rewrite <- (assoc_L (++)).
    rewrite IH. by apply link_bystander. }
  rewrite Hl, link_after_snoc. cbn [link_call]. pose proof (wi_create _ _ _ Hw hc img) as Hcr. fold ok in Hcr.
  destruct (ok || _) eqn:Hok.
  2:{ apply orb_false_iff in Hok as [-> _]. by auto. }
  revert Hcr. cbn [handle on_srv k_srv]. unfold in_images, svc_Create, go_bind, go_wrap, Create.
  cbn [fromGRPC im_Name im_Labels im_Target]. rewrite Hm. destruct (m !! im_Name img) as [x|] eqn:Hx; cbn; intros Hcr.
  - split; [done|]. right. destruct ok; [|done]. by destruct (Hcr eq_refl).
  - split; [done|]. left. split; [done|]. by eexists.
Qed.

Lemma pull_rest_gives (ref registry repo token : string) (data : bytes) (mf : Manifest) (c : Store) (h h' : list event) :
  holds c h -> pull_rest ref registry repo token data mf h = (h', Ok tt) ->
  exists c2 h1 evs, h' = h1 ++ evs /\ pulled registry repo c (m_Config mf :: m_Layers mf) c2 h1 /\
    srv_content (k_srv (link h')) = Some c2 /\ registered ref data h'.
Proof.
  intros Hh Hr. unfold pull_rest in Hr. destruct (negb conn_ok); [done|]. cbv zeta in Hr. go_run Hr.
  destruct (pull_blobs_gives registry repo token 0 _ (m_Config mf :: m_Layers mf) c c [] h s a (pulled_nil _ _ c h Hh) Hrun)
    as [c2 Hp]. cbn [app] in Hp. exists c2, s.
  assert (Hprint : forall line h1 h2 (u : unit), printf line h1 = (h2, Ok u) -> exists a, h2 = h1 ++ [Ev (Printf line) a]).
  { intros line h1 h2 u. unfold printf, ignore_call, go_bind, do_call. intros [= <- _]. by eexists. }
  apply Hprint in Hrun0 as [u0 ->]. apply Hprint in Hrun1 as [u1 ->].
  unfold do_call in Hrun2, Hrun3, Hrun4. injection Hrun2 as <- <-. injection Hrun3 as <- <-. injection Hrun4 as <- <-.
  set (h3 := (((s ++ _) ++ _) ++ _) ++ _) in *. set (img := mkImage _ _ _ _ _) in *.
  assert (Hh3 : holds c2 h3) by (unfold h3; repeat (apply holds_bystander; [exact I|]); exact (pd_holds _ _ _ _ _ _ Hp)).
  assert (Hend : exists evs, Forall bystander evs /\ h' = (h3 ++ [Ev (ImageCreate img) (answer _ h3 (ImageCreate img))]) ++ evs).
  { destruct (answer _ h3 (ImageCreate img)); [exists []|apply Hprint in Hr as [u ->]; exists [Ev (Printf "Note: image already registered") u]].
    - injection Hr as <-. by rewrite app_nil_r.
    - split; [by repeat constructor|done]. }
  destruct Hend as (evs & Hev & ->). destruct (create_registers c2 h3 evs img Hh3 Hev) as [Hc2 Hreg].
  eexists. split; [unfold h3; rewrite <- !(assoc_L (++)); reflexivity|]. split; [exact Hp|]. split; [exact Hc2|].
  exists h3, img, ([Ev (ImageCreate img) (answer _ h3 (ImageCreate img))] ++ evs).
  split; [by rewrite (assoc_L (++))|]. split; [done|]. split; [done|]. exact Hreg.
Qed.

Lemma fetch_manifest_holds (registry repo tag : string) (c : Store) :
  gives (holds c) (fetch_manifest registry repo tag) (fun _ => holds c).
Proof.
  apply (gives_emits bystander); [|intros h e; apply holds_bystander].
  unfold fetch_manifest, fetchAuthToken, do_nil, httpGet. emits.
Qed.

Lemma Pull_gives (rawRef : string) (c : Store) (h h' : list event) :
  holds c h -> Pull rawRef h = (h', Ok tt) ->
  let '(registry, repo, tag) := Nerdctl.parseRef (Normalize rawRef) in
  exists data mf c2 h1 evs, json_manifest JNerdctlManifest data = Some mf /\
    h' = h1 ++ evs /\ pulled registry repo c (m_Config mf :: m_Layers mf) c2 h1 /\
    srv_content (k_srv (link h')) = Some c2 /\ registered (Normalize rawRef) data h'.
Proof.
  intros Hh Hr. unfold Pull in Hr. cbv zeta in Hr. destruct (Nerdctl.parseRef _) as [[registry repo] tag]. go_run Hr.
  assert (H1 : holds c s).
  { refine (gives_emits bystander (printf _) (holds c) _ (fun h e => holds_bystander c h e) h s a Hh Hrun). emits. }
  pose proof (fetch_manifest_holds registry repo tag c s s0 a0 H1 Hrun0) as H2. destruct a0 as [resp token].
  destruct (negb _); [done|]. cbv zeta in Hr. destruct (json_manifest _ _) as [mf|] eqn:Hm; [|done].
  destruct (pull_rest_gives _ _ _ _ _ _ c _ _ H2 Hr) as (c2 & h1 & evs & He & Hp & Hc & Hreg).
  exists (p_body resp), mf, c2, h1, evs. auto.
Qed.

End pull.

(** A committed upload stays committed in the daemon. *)
Lemma link_call_committed `{Api} (env : Moment) (e : event) (k : Link) (ref : string) :
  (exists c, srv_content (k_srv k) = Some c /\ committed c ref) ->
  exists c, srv_content (k_srv (link_call env k e)) = Some c /\ committed c ref.
Proof.
  intros (c & Hc & Hr).
  assert (Hd : forall msg, exists c, srv_content (k_srv (deliver env msg k)) = Some c /\ committed c ref).
  { intros msg. unfold deliver. destruct (k_stream k) as [id|]; [|by eauto]. cbn [handle]. unfold content_write.
    rewrite Hc. destruct (srv_streams (k_srv k) !! id) as [v|]; [|by eauto]. unfold write_msg.
    destruct msg as [[q|]|]; [|by eauto..]. pose proof (on_request_keeps (e_io env) (e_now env) ref q v c Hr) as Hk.
    destruct (on_request _ _ _ _ _) as [c1 [[resp next]|er|]]; [|by eauto..].
    destruct (negb _); [by eauto|]. destruct next; by eauto. }
  assert (Hi : forall {A} (mm : GoM Images img_error A), exists c, srv_content (in_images mm (k_srv k)).1 = Some c /\ committed c ref).
  { intros A mm. unfold in_images. destruct (mm _). by eauto. }
  destruct e as [T call a]. destruct call; cbn [link_call]; try (by eauto); destruct a; try (by eauto);
    destruct (mo_reached env); try (by eauto); try apply Hd; try apply Hi.
Qed.

Lemma link_committed `{Api} (envs : nat -> Moment) (k0 : Link) (h evs : list event) (ref : string) :
  (exists c, srv_content (k_srv (link_after envs k0 h)) = Some c /\ committed c ref) ->
  exists c, srv_content (k_srv (link_after envs k0 (h ++ evs))) = Some c /\ committed c ref.
Proof.
  revert h. induction evs as [|e evs IH]; intros h Hc; [by rewrite app_nil_r|].
  replace (h ++ e :: evs) with ((h ++ [e]) ++ evs) by by rewrite <- (assoc_L (++)).
  apply IH. rewrite link_after_snoc. by apply link_call_committed.
Qed.

(** ** Reading a blob back *)

(** A machine that does not fail, and a stream whose sends succeed. *)
Definition calm (env : Env) : Prop := e_io env = no_faults /\ e_send env = fun _ => true.

(** A read of [d] answers bytes whose digest is [d], given enough fuel. *)
Definition serves `{Api} (s : Server) (d : string) : Prop :=
  exists b, digest_of b = d /\ forall env, calm env -> length b < e_fuel env ->
    exists msgs, (handle env (ContentRead d 0 0) s).2 = Answered (msgs, Ok tt) /\ concat (map snd msgs) = b.

Lemma blob_served `{Api} (s : Server) (c : Store) (d : string) :
  srv_content s = Some c -> store_inv c -> has_blob c d -> serves s d.
Proof.
  intros Hc Hinv [info Hd]. destruct (si_blobs _ Hinv _ _ Hd) as (b & ino & -> & _ & _ & Hn & Hcont). exists b. split; [done|].
  intros env [Hio Hsend] Hfuel. cbn [handle]. unfold in_content, reading. rewrite Hc, Hio, Hsend. cbn [snd].
  destruct (blobPath_digest_of (s_root c) b (si_root _ Hinv)) as (p & Hbp & Hp & _).
  unfold svc_Read, Open, os_open. rewrite Hd, Hbp. cbn [res_bind no_faults]. rewrite Hp, Hn. cbn [f_ino f_pos f_name Z.ltb Z.compare].
  rewrite Hcont. destruct (read_whole (path_elems p) (e_fuel env) b Hfuel) as (msgs & -> & Hcat). by exists msgs.
Qed.

(** ** A world made of a daemon *)

(** The answers of the daemon behind the link; the rest is up to [W0]. *)
Definition wire `{Api} (W0 : World) (envs : nat -> Moment) (k0 : Link) : World := {|
  answer := fun T h c =>
    let k := link_after envs k0 h in
    match c in Call T return T with
    | StreamRecv => match k_replies k with r :: _ => r | [] => k_final k end
    | ImageCreate img =>
        match (handle (envs (length h)) (ImagesCreate (Some img)) (k_srv k)).2 with Answered r => res_is_ok r | _ => false end
    | ImageDelete name =>
        match (handle (envs (length h)) (ImagesDelete name) (k_srv k)).2 with Answered r => res_is_ok r | _ => false end
    | c => @answer W0 _ h c
    end;
  url_ok := @url_ok W0;
  json_manifest := @json_manifest W0;
  json_token := @json_token W0;
  conn_ok := @conn_ok W0
|}.

Lemma wire_wired `{Api} (W0 : World) (envs : nat -> Moment) (k0 : Link) : wired (wire W0 envs k0) envs k0.
Proof.
  constructor.
  - intros h. right. cbn. by destruct (k_replies _).
  - intros h img. cbn [answer wire]. destruct (handle _ _ _).2 as [[i|e|]| |]; [|done..]. by exists i.
  - intros h name. cbn [answer wire]. destruct (handle _ _ _).2 as [[[]|e|]| |]; done.
Qed.

(** ** Properties *)

(** C1: what a successful pull of mini-nerdctl leaves in mini-containerd, with
    both programs as they are and nothing assumed of the registry, of failures
    or of the clock.  When no upload of its digests was under way, every digest
    of the manifest is the digest of a body that the registry served for it,
    and is recorded in the daemon's store with a file whose bytes hash to that
    digest and number the recorded size, and a read of the daemon answers such
    bytes; blobs that were there are still there, and the store's invariant
    holds.  The normalized reference is then
    registered, unless the call failed, which is the case when it was already
    there. *)
Theorem nerdctl_pull_stores `{Api} {W : World} (envs : nat -> Moment) (k0 : Link) (rawRef : string) (c : Store)
    (h h' : list event) :
  wired W envs k0 -> srv_content (k_srv (link_after envs k0 h)) = Some c -> store_inv c ->
  Pull rawRef h = (h', Ok tt) -> bodies_fit h' ->
  let '(registry, repo, _) := Nerdctl.parseRef (Normalize rawRef) in
  exists data mf c', json_manifest JNerdctlManifest data = Some mf /\
    srv_content (k_srv (link_after envs k0 h')) = Some c' /\
    registered envs k0 (srv_images (k_srv (link_after envs k0 h))) (Normalize rawRef) data h' /\
    ((forall d, d ∈ m_Config mf :: m_Layers mf -> idle c (pull_ref d)) ->
     store_inv c' /\ (forall d, has_blob c d -> has_blob c' d) /\
     forall d, d ∈ m_Config mf :: m_Layers mf ->
       exists b info, (blob_url registry repo d, b) ∈ fetched h' /\ d = digest_of b /\
         s_blobs c' !! d = Some info /\ blob_ok c' d info /\ serves (k_srv (link_after envs k0 h')) d).
Proof.
  intros Hw Hc Hinv Hr Hfit. pose proof (Pull_gives envs k0 Hw _ rawRef c h h' (conj Hc eq_refl) Hr) as Hp.
  destruct (Nerdctl.parseRef (Normalize rawRef)) as [[registry repo] tag].
  destruct Hp as (data & mf & c2 & h1 & evs & Hm & -> & Hp & Hc2 & Hreg). exists data, mf, c2.
  split; [done|]. split; [done|]. split; [done|]. intros Hi.
  destruct (pd_all _ _ _ _ _ _ _ _ _ Hp (bodies_fit_prefix _ _ Hfit) Hi) as (Hst & _ & Hbl & Hds).
  pose proof (store_steps_inv _ _ Hst Hinv) as Hinv2. split; [done|]. split; [done|].
  intros d Hd. destruct (Hds d Hd) as ([info Hinfo] & b & Hb & He). exists b, info.
  split; [by apply fetched_mono|]. split; [done|]. split; [done|]. split; [by apply (si_blobs _ Hinv2)|].
  eapply blob_served; [done..|by eexists].
Qed.

(** C7: mini-nerdctl's pull is not repeatable on mini-containerd.  Once a
    manifest with a digest has been pulled, no pull of any manifest with that
    digest succeeds any more, the same image included, whatever the clients did
    in between and whatever the network and the disk do, since the daemon keeps
    the committed upload and refuses another one of the same reference. *)
Theorem nerdctl_pull_once `{Api} {W : World} (envs : nat -> Moment) (k0 : Link)
    (ref1 reg1 repo1 tok1 ref2 reg2 repo2 tok2 : string) (data1 data2 : bytes) (mf1 mf2 : Manifest)
    (d : string) (c : Store) (h h1 evs h2 : list event) :
  wired W envs k0 -> srv_content (k_srv (link_after envs k0 h)) = Some c ->
  pull_rest ref1 reg1 repo1 tok1 data1 mf1 h = (h1, Ok tt) ->
  d ∈ m_Config mf1 :: m_Layers mf1 -> d ∈ m_Config mf2 :: m_Layers mf2 ->
  pull_rest ref2 reg2 repo2 tok2 data2 mf2 (h1 ++ evs) <> (h2, Ok tt).
Proof.
  intros Hw Hc Hr1 Hd1 Hd2 Hr2.
  destruct (pull_rest_gives envs k0 Hw _ _ _ _ _ _ _ c h h1 (conj Hc eq_refl) Hr1) as (c1 & h0 & es & -> & Hp1 & _).
  destruct (link_committed envs k0 h0 (es ++ evs) (pull_ref d)) as (c2 & Hc2 & Hcm).
  { exists c1. split; [exact (proj1 (pd_holds _ _ _ _ _ _ _ _ _ Hp1))|exact (pd_commits _ _ _ _ _ _ _ _ _ Hp1 d Hd1)]. }
  rewrite (assoc_L (++)) in Hc2.
  destruct (pull_rest_gives envs k0 Hw _ _ _ _ _ _ _ c2 _ h2 (conj Hc2 eq_refl) Hr2) as (c3 & h3 & es3 & _ & Hp2 & _).
  by apply (pd_fresh _ _ _ _ _ _ _ _ _ Hp2 d Hd2).
Qed.

(** ** Witnesses *)

Lemma pair_snd {A B : Type} (x : A * B) (b : B) : x.2 = b -> x = (x.1, b).
Proof. intros <-. by destruct x. Qed.

(** A registry with one image: its config is "hello", its only layer "layer". *)
Definition demo_layer : bytes := bytes_of_string "layer".
Definition demo_manifest : Manifest := mkManifest (digest_of demo_hello) [digest_of demo_layer].
Definition demo_body (url : string) : bytes :=
  if String.eqb url (blob_url "registry-1.docker.io" "library/a" (digest_of demo_layer)) then demo_layer else demo_hello.

Definition demo_registry : World := {|
  answer := fun T h c =>
    match c in Call T return T with
    | HttpDo r => Some (mkResponse 200 (fun _ => "") (demo_body (r_url r)) true)
    | StreamOpen => true | StreamSend _ => true | StreamClose => true
    | c => failing c
    end;
  url_ok := fun _ => true;
  json_manifest := fun _ _ => Some demo_manifest;
  json_token := fun _ => ("", false);
  conn_ok := true
|}.

Definition demo_envs : nat -> Moment := fun _ => mkMoment demo_env true.
Definition demo_link : Link (H := demo_api) := mkLink _ (demo_start_server no_faults) None [] AnsErr.
Definition demo_wire : World := wire demo_registry demo_envs demo_link.

Definition demo_pulled : list event := (Pull (W := demo_wire) "a" []).1.

Lemma demo_pull_done : Pull (W := demo_wire) "a" [] = (demo_pulled, Ok tt).
Proof. exact (pair_snd (Pull (W := demo_wire) "a" []) (Ok tt) ltac:(vm_eq)). Qed.

Lemma demo_pull_fits : bodies_fit demo_pulled.
Proof.
  assert (Hall : forallb (fun x : string * bytes => length x.2 <=? 9) (fetched demo_pulled) = true) by vm_eq.
  intros url b Hb. rewrite forallb_forall in Hall. apply list_elem_of_In in Hb. specialize (Hall _ Hb).
  apply Nat.leb_le in Hall. cbn in Hall. unfold in_int64. lia.
Qed.

Definition demo_store0 : Store := default demo_new (srv_content (k_srv (link_after demo_envs demo_link []))).

Lemma demo_store0_content : srv_content (k_srv (link_after demo_envs demo_link [])) = Some demo_store0.
Proof. vm_compute. reflexivity. Qed.

Lemma nerdctl_pull_stores_witness :
  exists c' info, srv_content (k_srv (link_after demo_envs demo_link demo_pulled)) = Some c' /\
    s_blobs c' !! digest_of demo_layer = Some info /\ blob_ok c' (digest_of demo_layer) info.
Proof.
  pose proof (nerdctl_pull_stores (H := demo_api) (W := demo_wire) demo_envs demo_link "a" demo_store0 [] demo_pulled
    (wire_wired demo_registry demo_envs demo_link) demo_store0_content
    (vi_content _ (start_inv (H := demo_api) no_faults (fun _ => 0%Z) fs_empty fs_empty_fresh) _ demo_store0_content)
    demo_pull_done demo_pull_fits) as Hp.
  destruct (Nerdctl.parseRef (Normalize "a")) as [[registry repo] tag].
  destruct Hp as (data & mf & c' & Hm & Hc & _ & Hall). injection Hm as <-.
  destruct Hall as (_ & _ & Hds).
  { intros d _ us Hu. assert (He : s_uploads demo_store0 = ∅) by vm_eq. rewrite He, lookup_empty in Hu. discriminate Hu. }
  destruct (Hds (digest_of demo_layer)) as (b & info & _ & _ & Hi & Hok & _); [right; left|].
  exists c', info. split; [exact Hc|]. split; [exact Hi|exact Hok].
Defined.

Definition demo_pulled_rest : list event :=
  (pull_rest (W := demo_wire) "a" "registry-1.docker.io" "library/a" "" [] demo_manifest []).1.

Lemma demo_rest_ok : pull_rest (W := demo_wire) "a" "registry-1.docker.io" "library/a" "" [] demo_manifest [] = (demo_pulled_rest, Ok tt).
Proof.
  exact (pair_snd (pull_rest (W := demo_wire) "a" "registry-1.docker.io" "library/a" "" [] demo_manifest []) (Ok tt)
    ltac:(vm_eq)).
Qed.

Lemma nerdctl_pull_once_witness :
  (pull_rest (W := demo_wire) "a" "registry-1.docker.io" "library/a" "" [] demo_manifest (demo_pulled_rest ++ [])).2 <> Ok tt.
Proof.
  intros H2. refine (nerdctl_pull_once (H := demo_api) (W := demo_wire) demo_envs demo_link "a" "registry-1.docker.io"
    "library/a" "" "a" "registry-1.docker.io" "library/a" "" [] [] demo_manifest demo_manifest (digest_of demo_hello)
    demo_store0 [] demo_pulled_rest [] _ (wire_wired demo_registry demo_envs demo_link) demo_store0_content demo_rest_ok
    _ _ (pair_snd _ _ H2)); left.
Defined.
