(* ===== verification/DockerEndToEnd.v ===== *)
(** * mini-docker against mini-containerd

    mini-docker sends its uploads without looking at what becomes of them: it
    ignores the errors of its sends and never receives an answer.  What a
    successful pull leaves in the daemon therefore depends on the network and on
    the machine.  Here the client and the daemon of [EndToEnd] are put together:
    when every message arrives in time and the daemon's machine does not fail, the
    blobs are in the daemon and are served from there; when messages are lost, the pull
    goes the same way. *)

From S2P Require Import Prelude.
From S2P Require Import GoStrings.
From S2P Require Import Sha256.
From S2P Require Import FileSystem.
From S2P Require Import Grpc.
From S2P Require Import ContentStore.
From S2P Require Import ContentService.
From S2P Require Import Reference.
From S2P Require Import RegistryRef.
From S2P Require Import World.
From S2P Require Import ContainerdImage.
From S2P Require Import DockerRegistry.
From S2P Require Import Daemon.
From S2P Require Import DaemonSafety.
From S2P Require Import EndToEnd.
Open Scope go_scope.

(** ** The directories of the store *)

(** No directory is where a temporary file or a blob goes. *)
Record clear (s : Store) : Prop := {
  cl_tmp : forall r, tmp_elems (s_root s) r ∉ fs_dirs (s_fs s);
  cl_blob : forall c, blob_elems (s_root s) c ∉ fs_dirs (s_fs s)
}.

(** The new directories are above "ingest" or above a blob. *)
Definition few_dirs (s s' : Store) : Prop :=
  s_root s' = s_root s /\
  forall q, q ∈ fs_dirs (s_fs s') -> q ∈ fs_dirs (s_fs s) \/
    path_prefix q (path_elems (s_root s) ++ ["ingest"]) = true \/
    exists c, path_prefix q (removelast (blob_elems (s_root s) c)) = true.

Lemma few_dirs_less (s s' : Store) : s_root s' = s_root s -> fs_dirs (s_fs s') ⊆ fs_dirs (s_fs s) -> few_dirs s s'.
Proof. intros Hr Hd. split; [done|]. auto. Qed.

Lemma few_dirs_same (s s' : Store) : s_root s' = s_root s -> fs_dirs (s_fs s') = fs_dirs (s_fs s) -> few_dirs s s'.
Proof. intros Hr Hd. apply few_dirs_less; [done|]. by rewrite Hd. Qed.

Lemma few_dirs_clear (s s' : Store) : few_dirs s s' -> clear s -> clear s'.
Proof.
  intros [Hr Hd] [Ht Hb]. constructor; rewrite Hr.
  - intros r [Hq|[Hq|[c Hq]]]%Hd; [by apply Ht in Hq|by rewrite tmp_not_prefix_ingest in Hq|by rewrite tmp_not_prefix_blobdir in Hq].
  - intros c Hin. destruct (Hd _ Hin) as [Hq|[Hq|[c' Hq]]]; [by apply Hb in Hq|..];
      apply path_prefix_spec in Hq as [x Hx]; apply (f_equal length) in Hx; unfold blob_elems in Hx;
      rewrite ?removelast_app in Hx by done; rewrite !length_app in Hx; cbn in Hx; lia.
Qed.

Lemma BeginUpload_dirs (io : faults) (now : Z) (ref expected : string) (s : Store) :
  is_rooted (s_root s) = true -> few_dirs s (BeginUpload io now ref expected s).1.
Proof.
  intros Hroot. unfold BeginUpload. cbv zeta. destruct (s_uploads s !! _) as [us|].
  { by destruct (us_Committed us); apply few_dirs_same. }
  assert (Hdir : path_elems (path_join [s_root s; "ingest"]) = path_elems (s_root s) ++ ["ingest"]).
  { rewrite path_elems_join; [done|done|by repeat constructor|done]. }
  rewrite Hdir. destruct (os_mkdir_all _ _ _) as [f1|] eqn:Hmk; [|by apply few_dirs_same].
  apply os_mkdir_all_frame in Hmk as (_ & _ & _ & Hd).
  destruct (os_create _ _ _) as [[h f2]|] eqn:Hcr; (split; [done|]); cbn; intros q.
  - apply os_create_spec in Hcr as (_ & _ & _ & _ & -> & _). intros [Hq|Hq]%Hd; auto.
  - intros [Hq|Hq]%Hd; auto.
Qed.

Lemma WriteUpload_dirs (io : faults) (now : Z) (ref : string) (offset : Z) (data : bytes) (s : Store) :
  few_dirs s (WriteUpload io now ref offset data s).1.
Proof.
  assert (Hw : forall h h' f f' ok, os_write io data h f = (h', f', ok) -> fs_dirs f' = fs_dirs f).
  { intros h h' f f' ok H. by apply os_write_frame in H as (_ & H & _). }
  unfold WriteUpload. destruct (s_uploads s !! ref) as [us|]; [|by apply few_dirs_same].
  destruct (negb _).
  - destruct (os_seek _ _ _) as [h|]; [|by apply few_dirs_same].
    destruct (os_write _ _ _ _) as [[h1 f] []] eqn:Hf; (apply few_dirs_same; [done|by eapply Hw]).
  - destruct (os_write _ _ _ _) as [[h1 f] []] eqn:Hf; (apply few_dirs_same; [done|by eapply Hw]).
Qed.

Lemma drop_tmp_dirs (io : faults) (us : uploadState) (s : Store) : few_dirs s (drop_tmp io us s).
Proof.
  unfold drop_tmp. destruct (os_remove _ _ _) as [f| |] eqn:Hr; [|by apply few_dirs_same..].
  apply os_remove_removed in Hr as (dirs & Hd & ->). by apply few_dirs_less.
Qed.

(** The temporary file is not a directory, so a file is renamed. *)
Lemma CommitUpload_dirs (io : faults) (now : Z) (ref : string) (total : Z) (s : Store) :
  store_inv s -> clear s -> few_dirs s (CommitUpload io now ref total s).1.
Proof.
  intros Hinv [Hct _]. unfold CommitUpload. destruct (s_uploads s !! ref) as [us|] eqn:Hus; [|by apply few_dirs_same].
  cbv zeta. destruct (_ && negb (us_Offset us =? total)%Z); [apply drop_tmp_dirs|].
  destruct (negb _ && _); [apply drop_tmp_dirs|].
  destruct (blobPath_digest_of (s_root s) (us_hasher us) (si_root _ Hinv)) as (p & -> & Hp & Hpd).
  unfold commit_move. rewrite Hp, Hpd. destruct (os_mkdir_all _ _ _) as [f1|] eqn:Hmk; [|by apply few_dirs_same].
  apply os_mkdir_all_frame in Hmk as (Hn & _ & _ & Hd).
  assert (Hone : forall s', s_root s' = s_root s -> fs_dirs (s_fs s') = fs_dirs f1 -> few_dirs s s').
  { intros s' Hr Hds. split; [done|]. rewrite Hds. intros q [Hq|Hq]%Hd; eauto. }
  destruct (os_close _ _) as [h ok] eqn:Hcl. cbv zeta. destruct ok; [|by apply Hone]. cbn [negb].
  assert (Hname : path_elems (f_name h) = tmp_elems (s_root s) ref).
  { revert Hcl. unfold os_close. intros [= <- _]. exact (uo_name _ _ _ (si_uploads _ Hinv _ _ Hus)). }
  rewrite Hname. destruct (os_rename _ _ _ _) as [f2|] eqn:Hrn; [|by apply Hone]. apply Hone; [done|]. cbn.
  destruct (fs_names f1 !! tmp_elems (s_root s) ref) as [ino|] eqn:Hi; [by eapply os_rename_file|].
  rewrite os_rename_missing in Hrn; [done|done|]. apply bool_decide_eq_false_2.
  intros [Hq|Hq]%Hd; [by rewrite tmp_not_prefix_blobdir in Hq|by apply Hct in Hq].
Qed.

Lemma Delete_dirs (io : faults) (d : string) (s : Store) : few_dirs s (ContentStore.Delete io d s).1.
Proof.
  unfold ContentStore.Delete. destruct (s_blobs s !! d); [|by apply few_dirs_same].
  destruct (blobPath _ _) as [p|e|]; [|by apply few_dirs_same..].
  destruct (os_remove _ _ _) as [f| |] eqn:Hr; [|by apply few_dirs_same..].
  apply os_remove_removed in Hr as (dirs & Hd & ->). by apply few_dirs_less.
Qed.

Lemma store_step_clear (s s' : Store) : store_inv s -> clear s -> store_step s s' -> clear s'.
Proof.
  intros Hinv Hcl Hs. apply (few_dirs_clear s); [|done]. destruct Hs.
  - by apply BeginUpload_dirs, si_root.
  - apply WriteUpload_dirs.
  - by apply CommitUpload_dirs.
  - apply Delete_dirs.
  - unfold relabel. by destruct (s_blobs s !! d); apply few_dirs_same.
Qed.

Lemma store_steps_clear (s s' : Store) : rtc store_step s s' -> store_inv s -> clear s -> clear s'.
Proof. induction 1; eauto using store_step_inv, store_step_clear. Qed.

(** ** Requests that meet no failure *)

Lemma stat_ok (now : Z) (ref d : string) (c : Store) :
  store_inv c -> clear c -> plain_elem ref = true -> s_uploads c !! ref = None ->
  exists c1 us resp,
    on_request no_faults now (mkWriteReq ActionSTAT ref d 0 0 []) (mkVars "" "" false) c =
      (c1, Ok (resp, Some (mkVars ref d false))) /\
    store_inv c1 /\ upload_at c1 ref d [] us.
Proof.
  intros Hinv Hcl Hpl Hnone. assert (Hr : ref <> "") by (intros ->; done).
  destruct (begin_ok now ref d c Hinv Hpl Hnone (cl_tmp _ Hcl ref)) as (c1 & us & Hb & Hinv1 & Hua & _).
  exists c1, us. eexists. split; [|done]. apply String.eqb_neq in Hr as Hr'.
  unfold on_request, go_bind, auto_init, on_stat, go_bind. cbn [v_ref q_Ref q_Expected q_Action String.eqb andb].
  rewrite Hr'. cbn [negb]. unfold internal, go_wrap, go_bind. rewrite Hb. cbn [res_wrap go_ret v_ref q_Ref q_Expected].
  rewrite (begin_again_ok _ _ _ _ d [] c1 us) by done. reflexivity.
Qed.

Lemma data_ok (now : Z) (ref d : string) (c : Store) (us : uploadState) (v : WriteVars) (old b : bytes) :
  store_inv c -> upload_at c ref d old us -> ref <> "" -> v_ref v = ref ->
  in_int64 (Z.of_nat (length old + length b)) ->
  exists c1 us1 resp v1,
    on_request no_faults now (mkWriteReq ActionWRITE ref "" 0 (Z.of_nat (length old)) b) v c = (c1, Ok (resp, Some v1)) /\
    v_ref v1 = ref /\ store_inv c1 /\ upload_at c1 ref d (old ++ b) us1.
Proof.
  intros Hinv Hua Hr Hv Hl. destruct (write_ok now ref d c us old b Hinv Hua Hl) as (c1 & us1 & Hw & Hinv1 & Hua1 & _).
  exists c1, us1. eexists _, _. split; [|split_and!; [|done|done]].
  - unfold on_request, go_bind. rewrite auto_init_set by by rewrite Hv. cbn [q_Action]. unfold on_write, go_bind.
    rewrite auto_init_set by by rewrite Hv. rewrite Hv. apply String.eqb_neq in Hr as Hr'. rewrite Hr'.
    unfold internal, go_wrap. cbn [q_Offset q_Data]. rewrite Hw. reflexivity.
  - done.
Qed.

Lemma commit_req_ok (now : Z) (ref d : string) (c : Store) (us : uploadState) (v : WriteVars) (data : bytes) :
  store_inv c -> clear c -> upload_at c ref d data us -> ref <> "" -> v_ref v = ref -> d = digest_of data ->
  exists c1 resp, on_request no_faults now (commit_req ref d (length data)) v c = (c1, Ok (resp, None)).
Proof.
  intros Hinv Hcl Hua Hr Hv Hd.
  assert (Hoff : us_Offset us = Z.of_nat (length data)).
  { by apply (upload_at_data c ref d). }
  destruct (commit_ok now ref d c us data Hinv Hua Hoff (or_intror Hd) (cl_blob _ Hcl data)) as (c1 & us1 & Hc & Hus1 & _).
  exists c1. eexists. unfold on_request, go_bind. rewrite auto_init_set by by rewrite Hv. cbn [q_Action commit_req].
  unfold on_commit, go_bind, internal, go_wrap. rewrite Hv. apply String.eqb_neq in Hr. rewrite Hr.
  cbn [q_Data commit_req length Nat.ltb Nat.leb]. rewrite andb_false_r. cbn [go_ret q_Total commit_req]. rewrite Hc.
  cbn [res_wrap]. unfold GetUpload. rewrite Hus1. reflexivity.
Qed.

(** The daemon refuses to begin what is committed, and nothing changes. *)
Lemma stat_refused (now : Z) (ref d : string) (c : Store) :
  ref <> "" -> committed c ref ->
  exists e, on_request no_faults now (mkWriteReq ActionSTAT ref d 0 0 []) (mkVars "" "" false) c = (c, Err e).
Proof.
  intros Hr (us & Hus & Hc). apply String.eqb_neq in Hr.
  unfold on_request, go_bind, auto_init, internal, go_wrap, go_bind. cbn [v_ref q_Ref q_Expected String.eqb andb]. rewrite Hr.
  cbn [negb]. unfold BeginUpload. cbv zeta. rewrite Hr, Hus, Hc. cbn. by eexists.
Qed.

(** ** A conversation without answers *)

Section talk.
Context `{Api} {W : World} (envs : nat -> Moment) (k0 : Link) (m : Images).
Context (Hcalm : forall n, calm (envs n)) (Hreach : forall n, mo_reached (envs n) = true)
  (Harrive : forall h q, answer _ h (StreamSend q) = true).

Abbreviation link := (link_after envs k0).
Abbreviation holds := (holds envs k0 m).

(** The handler of the stream in use waits for a message; or there is none. *)
Definition streaming (c : Store) (v : WriteVars) (h : list event) : Prop :=
  holds c h /\ exists id, k_stream (link h) = Some id /\ srv_streams (k_srv (link h)) !! id = Some v.

Definition deaf (c : Store) (h : list event) : Prop := holds c h /\ k_live (link h) = false.

Lemma send_served (c : Store) (v : WriteVars) (q : WriteReq) :
  gives (streaming c v) (ignore_call (StreamSend q)) (fun _ h => exists now,
    match on_request no_faults now q v c with
    | (c1, Ok (_, Some v1)) => streaming c1 v1 h
    | (c1, _) => deaf c1 h
    end).
Proof.
  apply (gives_bind _ _ _ (fun a h => a = true /\ exists now,
    match on_request no_faults now q v c with
    | (c1, Ok (_, Some v1)) => streaming c1 v1 h
    | (c1, _) => deaf c1 h
    end)); [|by intros a; apply gives_ret; intros h [_ Hq]].
  apply gives_call. intros h ([Hc Hi] & id & Hid & Hv). rewrite Harrive. split; [done|]. unfold streaming, deaf, EndToEnd.holds, k_live.
  rewrite link_after_snoc. cbn [link_call]. rewrite Hreach. destruct (Hcalm (length h)) as [Hio Hsend].
  set (env := envs (length h)) in *. set (k := link h) in *. clearbody k env. exists (e_now env).
  unfold deliver. rewrite Hid. cbn [handle]. unfold content_write, write_msg. rewrite Hv, Hc, Hio, Hsend. cbn [negb].
  destruct (on_request _ _ q v c) as [c1 [[resp [v1|]]|e|]]; cbn; rewrite ?lookup_delete_eq; [|done..].
  split; [done|]. exists id. by rewrite lookup_insert_eq.
Qed.

Lemma send_deaf (c : Store) (q : WriteReq) : gives (deaf c) (ignore_call (StreamSend q)) (fun _ => deaf c).
Proof.
  apply gives_ignore. intros h a [[Hc Hi] Hl]. unfold deaf, EndToEnd.holds, k_live in *. rewrite link_after_snoc. cbn [link_call].
  set (k := link h) in *. clearbody k. destruct a; [|done]. rewrite Hreach. unfold deliver. destruct (k_stream k) as [id|] eqn:Hid; [|by rewrite Hid].
  cbn [handle]. unfold content_write. destruct (srv_streams (k_srv k) !! id) as [v|] eqn:Hv; [done|]. cbn. by rewrite Hv.
Qed.

Lemma send_all_deaf (c : Store) (qs : list WriteReq) : gives (deaf c) (send_all_reqs qs) (fun _ => deaf c).
Proof.
  induction qs as [|q qs IH]; cbn [send_all_reqs]; [by apply gives_ret|].
  eapply gives_bind; [apply send_deaf|]. by intros [].
Qed.

Lemma close_holds (c : Store) : gives (holds c) (ignore_call StreamClose) (fun _ => holds c).
Proof.
  apply gives_ignore. intros h a [Hc Hi]. unfold EndToEnd.holds in *. rewrite link_after_snoc. cbn [link_call].
  set (k := link h) in *. clearbody k. destruct a; [|done]. rewrite Hreach. unfold deliver. destruct (k_stream k) as [id|]; [|done].
  cbn [handle]. unfold content_write. destruct (srv_streams (k_srv k) !! id) as [v|]; [|done]. rewrite Hc. cbn. done.
Qed.

Lemma open_streaming (ctx : World.error) (c : Store) :
  gives (holds c) (try_call ctx StreamOpen) (fun _ => streaming c (mkVars "" "" false)).
Proof.
  apply gives_try_call. intros h [Hc Hi]. unfold streaming, EndToEnd.holds in *. rewrite link_after_snoc. cbn [link_call handle].
  rewrite Hreach. cbn. rewrite Hc, Hi. split; [done|]. eexists. split; [done|]. by rewrite lookup_insert_eq.
Qed.

(** An upload in progress on the stream. *)
Record going (c0 c : Store) (v : WriteVars) (ref d : string) (acc : bytes) : Prop := {
  go_inv : store_inv c;
  go_at : exists us, upload_at c ref d acc us;
  go_ref : v_ref v = ref;
  go_way : under_way c0 c ref d acc
}.

Lemma send_served_is (c : Store) (v : WriteVars) (q : WriteReq) (Q : unit -> list event -> Prop) :
  (forall now h, match on_request no_faults now q v c with
     | (c1, Ok (_, Some v1)) => streaming c1 v1 h
     | (c1, _) => deaf c1 h
     end -> Q tt h) -> gives (streaming c v) (ignore_call (StreamSend q)) Q.
Proof. intros HQ. eapply gives_mono; [apply send_served|done|]. intros [] h [now Hn]. by eapply HQ. Qed.

Lemma send_chunks (c0 c : Store) (v : WriteVars) (ref d : string) (cs : list bytes) (acc : bytes) :
  ref <> "" -> in_int64 (Z.of_nat (length acc + length (concat cs))) -> going c0 c v ref d acc ->
  gives (streaming c v) (send_all_reqs (chunk_reqs ref (length acc) cs))
    (fun _ h => exists c1 v1, going c0 c1 v1 ref d (acc ++ concat cs) /\ streaming c1 v1 h).
Proof.
  intros Hr. revert c v acc. induction cs as [|b cs IH]; intros c v acc Hl Hg; cbn [chunk_reqs send_all_reqs concat].
  - apply gives_ret. intros h Hs. exists c, v. by rewrite app_nil_r.
  - cbn [concat] in Hl. rewrite length_app in Hl. destruct Hg as [Hinv [us Hua] Hv Hway].
    assert (Hl1 : in_int64 (Z.of_nat (length acc + length b))) by (unfold in_int64 in *; lia).
    apply (gives_bind _ _ _ (fun _ h => exists c1 v1, going c0 c1 v1 ref d (acc ++ b) /\ streaming c1 v1 h)).
    + apply send_served_is. intros now h.
      destruct (data_ok now ref d c us v acc b Hinv Hua Hr Hv Hl1) as (c1 & us1 & resp & v1 & Heq & Hv1 & Hinv1 & Hua1).
      rewrite Heq. intros Hs. exists c1, v1. split; [|done]. constructor; [done|by exists us1|done|].
      by eapply (proj2 (write_appends no_faults now ref d c0 c c1 v v1 acc b resp Hr Hv Hway Hl1 Heq)).
    + intros []. apply gives_exists. intros c1. apply gives_exists. intros v1. apply gives_pure. intros Hg1.
      rewrite <- length_app, (assoc_L (++)). apply (IH c1 v1 (acc ++ b)); [|done].
      rewrite length_app. unfold in_int64 in *. lia.
Qed.

Lemma send_app (q1 q2 : list WriteReq) (P : list event -> Prop) (R Q : unit -> list event -> Prop) :
  gives P (send_all_reqs q1) R -> gives (R tt) (send_all_reqs q2) Q -> gives P (send_all_reqs (q1 ++ q2)) Q.
Proof.
  assert (Heq : forall h, send_all_reqs (q1 ++ q2) h = (send_all_reqs q1 ;;! send_all_reqs q2) h).
  { induction q1 as [|q q1 IH]; intros h; [done|]. cbn [app send_all_reqs]. unfold go_bind, ignore_call, do_call, go_ret in *.
    cbn. rewrite IH. done. }
  intros H1 H2 h h' a HP. rewrite Heq. revert h h' a HP. apply (gives_bind _ _ _ R); [done|by intros []].
Qed.

(** The requests after the first, in an upload that has begun. *)
Lemma send_rest (c c1 : Store) (v1 : WriteVars) (ref d : string) (data : bytes) :
  store_inv c -> clear c -> plain_elem ref = true -> d = digest_of data -> in_int64 (Z.of_nat (length data)) ->
  going c c1 v1 ref d [] ->
  gives (streaming c1 v1) (send_all_reqs (chunk_reqs ref 0 (chunks_of mib data) ++ [commit_req ref d (length data)]))
    (fun _ h => exists c2, holds c2 h /\ published c c2 ref d data).
Proof.
  intros Hinv Hcl Hpl Hd Hl Hg. assert (Hr : ref <> "") by (intros ->; done).
  apply (send_app _ _ _ (fun _ h => exists c2 v2, going c c2 v2 ref d data /\ streaming c2 v2 h)).
  - pose proof (send_chunks c c1 v1 ref d (chunks_of mib data) [] Hr) as Hck.
    rewrite (chunks_of_concat mib data mib_pos) in Hck. by apply Hck.
  - apply gives_exists. intros c2. apply gives_exists. intros v2. apply gives_pure. intros [Hinv2 [us2 Hua2] Hv2 Hway2].
    cbn [send_all_reqs]. apply (gives_bind _ _ _ (fun _ h => exists c3, holds c3 h /\ published c c3 ref d data)).
    + apply send_served_is. intros now h.
      assert (Hcl2 : clear c2) by (eapply store_steps_clear; [by apply (uw_steps _ _ _ _ _ Hway2)|done|done]).
      destruct (commit_req_ok now ref d c2 us2 v2 data Hinv2 Hcl2 Hua2 Hr Hv2 Hd) as (c3 & resp & Heq). rewrite Heq.
      intros [Hh _]. exists c3. split; [done|]. eapply commit_publishes; [done| |done|done|done]. by subst d.
    + intros []. by apply gives_ret.
Qed.

(** The requests of an upload either publish the data or, when this reference
    is committed already, change nothing. *)
Lemma send_upload (c : Store) (ref d : string) (data : bytes) :
  store_inv c -> clear c -> plain_elem ref = true -> idle c ref -> d = digest_of data -> in_int64 (Z.of_nat (length data)) ->
  gives (streaming c (mkVars "" "" false)) (send_all_reqs (upload_reqs ref d data))
    (fun _ h => exists c2, holds c2 h /\ (published c c2 ref d data \/ c2 = c /\ committed c ref)).
Proof.
  intros Hinv Hcl Hpl Hidle Hd Hl. assert (Hr : ref <> "") by (intros ->; done).
  unfold upload_reqs. cbn [send_all_reqs]. destruct (s_uploads c !! ref) as [us|] eqn:Hus.
  - assert (Hcm : committed c ref) by (exists us; split; [done|by apply Hidle]).
    apply (gives_bind _ _ _ (fun _ => deaf c)).
    + apply send_served_is. intros now h. destruct (stat_refused now ref d c Hr Hcm) as [e ->]. done.
    + intros []. eapply gives_mono; [apply send_all_deaf|done|]. intros [] h [Hh _]. exists c. auto.
  - apply (gives_bind _ _ _ (fun _ h => exists c1 v1, going c c1 v1 ref d [] /\ streaming c1 v1 h)).
    + apply send_served_is. intros now h.
      destruct (stat_ok now ref d c Hinv Hcl Hpl Hus) as (c1 & us1 & resp & Heq & Hinv1 & Hua1). rewrite Heq. intros Hs.
      exists c1, (mkVars ref d false). split; [|done]. constructor; [done|by exists us1|done|].
      by eapply stat_begins in Heq as (_ & _ & Hw); [apply Hw|].
    + intros []. apply gives_exists. intros c1. apply gives_exists. intros v1. apply gives_pure. intros Hg.
      eapply gives_mono; [by apply (send_rest c c1 v1 ref d data)|done|]. intros [] h (c2 & Hh & Hp). eauto.
Qed.

Lemma writeContent_publishes (c : Store) (data : bytes) :
  store_inv c -> clear c -> idle c (pull_ref (digest_of data)) -> in_int64 (Z.of_nat (length data)) ->
  gives (holds c) (writeContent (digest_of data) data) (fun _ h => exists c2, holds c2 h /\
    (published c c2 (pull_ref (digest_of data)) (digest_of data) data \/ c2 = c /\ committed c (pull_ref (digest_of data)))).
Proof.
  intros Hinv Hcl Hidle Hl. unfold writeContent. eapply gives_bind; [apply open_streaming|]. intros [].
  apply (gives_bind _ _ _ (fun r h => r = str_take 32 (digest_of data) /\ streaming c (mkVars "" "" false) h)).
  { apply gives_lift. unfold str_slice_to. rewrite digest_of_length. intros h a Hs [= <-]. done. }
  intros r. apply gives_pure. intros ->.
  eapply gives_bind; [apply (send_upload c _ (digest_of data) data); [done|done|apply pull_ref_plain|done|done|done]|].
  intros []. apply gives_exists. intros c2. intros h h' [] [Hh Hp] Hrun. exists c2. split; [|done].
  by eapply close_holds.
Qed.

End talk.

(** ** Pulling *)

(** A write that fails has failed to open the stream. *)
Lemma writeContent_fails {W : World} (data : bytes) :
  wp (writeContent (digest_of data) data) (fun evs r => match r with Err _ => evs = [Ev StreamOpen false] | _ => True end).
Proof.
  unfold writeContent. apply wp_bind, wp_try_call; [|done].
  apply wp_bind, wp_lift. unfold str_slice_to. rewrite digest_of_length. cbn [Nat.leb].
  apply wp_bind. eapply wp_mono; [apply send_all_reqs_wp|]. intros e r (_ & _ & _ & ->). by apply wp_ignore.
Qed.

Section pull.
Context `{Api} {W : World} (envs : nat -> Moment) (k0 : Link) (Hw : wired W envs k0) (m : Images).
Context (Hcalm : forall n, calm (envs n)) (Hreach : forall n, mo_reached (envs n) = true)
  (Harrive : forall h q, answer _ h (StreamSend q) = true).
Context (c : Store) (Hinv : store_inv c) (Hclear : clear c).

Abbreviation link := (link_after envs k0).
Abbreviation holds := (EndToEnd.holds envs k0 m).

(** What has become of the digest [d], one of [ds]: it is in the store; or its
    reference was committed before; or another digest of [ds] has the same. *)
Definition kept (c2 : Store) (ds : list string) (d : string) : Prop :=
  has_blob c2 d \/ committed c (pull_ref d) \/ exists d', d' ∈ ds /\ d' <> d /\ pull_ref d' = pull_ref d.

(** The daemon after the digests [ds]: its store was [c] and is [c2]. *)
Record stocked (c2 : Store) (ds : list string) (h : list event) : Prop := {
  sk_holds : holds c2 h;
  sk_steps : rtc store_step c c2;
  sk_idle : forall r, idle c r -> idle c2 r;
  sk_blobs : forall d, has_blob c d -> has_blob c2 d;
  sk_uploads : forall r, committed c2 r -> committed c r \/ exists d, d ∈ ds /\ pull_ref d = r /\ has_blob c2 d;
  sk_kept : forall d, d ∈ ds -> kept c2 ds d
}.

Lemma stocked_nil (h : list event) : holds c h -> stocked c [] h.
Proof. intros Hh. constructor; auto. - apply rtc_refl. - by intros d Hd%not_elem_of_nil. Qed.

Lemma kept_mono (c2 c3 : Store) (ds ds' : list string) (d : string) :
  (forall x, has_blob c2 x -> has_blob c3 x) -> (forall x, x ∈ ds -> x ∈ ds') -> kept c2 ds d -> kept c3 ds' d.
Proof. intros Hb Hs [?|[?|(d' & Hd & ? & ?)]]; [left; auto|by right; left|]. right. right. exists d'. auto. Qed.

(** One more digest: published, or refused since its reference is committed. *)
Lemma stocked_snoc (c2 c3 : Store) (ds : list string) (h h' : list event) (b : bytes) :
  let d := digest_of b in
  stocked c2 ds h -> holds c3 h' -> published c2 c3 (pull_ref d) d b \/ c3 = c2 /\ committed c2 (pull_ref d) ->
  stocked c3 (ds ++ [d]) h'.
Proof.
  intros d [_ Hst Hid Hbl Hup Hk] Hh Hcase.
  assert (Hin : forall x, x ∈ ds -> x ∈ ds ++ [d]) by (intros x Hx; apply elem_of_app; by left).
  destruct Hcase as [[_ Hid3 Hb3 Hbl3 [us [Hu3 _]] Hst3]|[-> Hcm]].
  - constructor; auto.
    + etrans; [exact Hst|]. apply Hst3, pull_ref_plain.
    + intros r (u & Hu & Hc). rewrite Hu3 in Hu. apply lookup_insert_Some in Hu as [[<- _]|[_ Hu]].
      * right. exists d. split; [apply elem_of_app; right; by apply list_elem_of_singleton|done].
      * destruct (Hup r) as [?|(x & Hx & He & Hbx)]; [by exists u|by left|]. right. exists x. auto.
    + intros x [Hx| ->%list_elem_of_singleton]%elem_of_app; [|by left].
      by apply (kept_mono c2 c3 ds); [| |apply Hk].
  - constructor; auto.
    + intros r Hr. destruct (Hup r Hr) as [?|(x & Hx & He & Hbx)]; [by left|]. right. exists x. auto.
    + intros x [Hx| ->%list_elem_of_singleton]%elem_of_app; [by apply (kept_mono c2 c2 ds); [| |apply Hk]|].
      destruct (Hup _ Hcm) as [Hq|(y & Hy & He & Hby)]; [right; left; exact Hq|].
      destruct (decide (y = d)) as [->|Hne]; [by left|]. right. right. exists y. auto.
Qed.

(** A blob whose body fits is written, when its reference is not in use. *)
Lemma write_stocks (c2 : Store) (ds : list string) (data : bytes) (h h' : list event) :
  stocked c2 ds h -> idle c (pull_ref (digest_of data)) -> in_int64 (Z.of_nat (length data)) ->
  writeContent (digest_of data) data h = (h', Ok tt) -> exists c3, stocked c3 (ds ++ [digest_of data]) h'.
Proof.
  intros Hs Hi Hl Hr. pose proof (sk_steps _ _ _ Hs) as Hst.
  destruct (writeContent_publishes envs k0 m Hcalm Hreach Harrive c2 data (store_steps_inv _ _ Hst Hinv)
    (store_steps_clear _ _ Hst Hinv Hclear) (sk_idle _ _ _ Hs _ Hi) Hl h h' tt (sk_holds _ _ _ Hs) Hr) as (c3 & Hh & Hcase).
  exists c3. by eapply stocked_snoc.
Qed.

(** Calls to the registry do not reach the daemon. *)
Lemma httpGet_bystander (url auth : string) : emits bystander (httpGet url auth).
Proof. unfold httpGet. emits. Qed.

Lemma getAuthToken_bystander (registry repo : string) : emits bystander (getAuthToken registry repo).
Proof. unfold getAuthToken. emits. Qed.

Lemma holds_emits {A : Type} (mm : Client A) (c2 : Store) : emits bystander mm -> gives (holds c2) mm (fun _ => holds c2).
Proof. intros He. apply (gives_emits bystander); [done|]. intros h e. apply holds_bystander. Qed.

Lemma stocked_holds (c2 : Store) (ds : list string) (h h' : list event) : holds c2 h' -> stocked c2 ds h -> stocked c2 ds h'.
Proof. intros Hh []. by constructor. Qed.

Lemma httpGet_fetched (url auth : string) (h h' : list event) (b : bytes) :
  DockerRegistry.httpGet url auth h = (h', Ok b) -> exists evs, h' = h ++ evs /\ (url, b) ∈ fetched h'.
Proof.
  intros Hr. destruct (wp_elim _ _ _ _ _ (httpGet_wp url auth) Hr) as (evs & -> & _ & Hb). exists evs.
  split; [done|]. rewrite fetched_app. apply elem_of_app. by right.
Qed.

Lemma writeContent_appends (data : bytes) (h h' : list event) r :
  DockerRegistry.writeContent (digest_of data) data h = (h', r) -> exists evs, h' = h ++ evs.
Proof. intros Hr. destruct (wp_elim _ _ _ _ _ (DockerRegistry.writeContent_wp data) Hr) as (evs & -> & _). by exists evs. Qed.

Lemma pull_blob_stocks (registry repo token d : string) (c2 : Store) (ds : list string) (h h' : list event) :
  stocked c2 ds h -> DockerRegistry.pull_blob registry repo token d h = (h', Ok tt) -> bodies_fit h' -> idle c (pull_ref d) ->
  exists c3, stocked c3 (ds ++ [d]) h'.
Proof.
  intros Hs Hr Hfit Hi. unfold DockerRegistry.pull_blob in Hr. go_run Hr.
  destruct (String.eqb (digest_of a) d) eqn:Hd; cbn [negb] in Hr; [|done]. apply String.eqb_eq in Hd as <-.
  assert (Hh : holds c2 s) by (eapply (holds_emits _ c2 (httpGet_bystander _ _)); [apply (sk_holds _ _ _ Hs)|exact Hrun]).
  apply httpGet_fetched in Hrun as (e1 & -> & Hb).
  unfold go_wrap in Hr. destruct (writeContent _ a _) as [h2 [[]|e|]] eqn:Hwc; [|done..]. injection Hr as ->.
  destruct (writeContent_appends _ _ _ _ Hwc) as [e2 ->].
  apply (write_stocks c2 ds a (h ++ e1)); [by eapply stocked_holds|done|eapply Hfit; by apply fetched_mono|done].
Qed.

Lemma pull_blobs_stocks (registry repo token : string) (ds : list string) (c2 : Store) (ds0 : list string) (h h' : list event) :
  stocked c2 ds0 h -> DockerRegistry.pull_blobs registry repo token ds h = (h', Ok tt) -> bodies_fit h' ->
  (forall d, d ∈ ds -> idle c (pull_ref d)) -> exists c3, stocked c3 (ds0 ++ ds) h'.
Proof.
  revert c2 ds0 h. induction ds as [|d ds IH]; intros c2 ds0 h Hs Hr Hfit Hi; cbn [DockerRegistry.pull_blobs] in Hr.
  - injection Hr as <-. exists c2. by rewrite app_nil_r.
  - go_run Hr. destruct a. pose proof (wp_elim _ _ _ _ _ (DockerRegistry.pull_blobs_wp registry repo token ds) Hr) as (evs & He & _).
    rewrite He in Hfit. destruct (pull_blob_stocks _ _ _ _ _ _ _ _ Hs Hrun (bodies_fit_prefix _ _ Hfit)) as [c3 Hs3].
    { apply Hi. by left. }
    rewrite <- He in Hfit. destruct (IH c3 (ds0 ++ [d]) s Hs3 Hr Hfit) as [c4 Hs4].
    { intros x Hx. apply Hi. by right. }
    exists c4. by rewrite <- (assoc_L (++)) in Hs4.
Qed.

(** The manifest itself is written too, unless the stream cannot be opened. *)
Lemma manifest_stocks (data : bytes) (c2 : Store) (ds : list string) (h h' : list event) o :
  stocked c2 ds h -> attempt (DockerRegistry.writeContent (digest_of data) data) h = (h', Ok o) -> bodies_fit h' ->
  in_int64 (Z.of_nat (length data)) -> idle c (pull_ref (digest_of data)) ->
  exists c3 ds3, stocked c3 ds3 h' /\ forall d, d ∈ ds -> kept c3 ds d.
Proof.
  intros Hs Hr Hfit Hl Hi. unfold attempt in Hr.
  destruct (DockerRegistry.writeContent _ data h) as [h2 [[]|e|]] eqn:Hwc; [|injection Hr as -> _|done].
  - injection Hr as -> _. pose proof (sk_steps _ _ _ Hs) as Hst.
    destruct (writeContent_publishes envs k0 m Hcalm Hreach Harrive c2 data (store_steps_inv _ _ Hst Hinv)
      (store_steps_clear _ _ Hst Hinv Hclear) (sk_idle _ _ _ Hs _ Hi) Hl h h' tt (sk_holds _ _ _ Hs) Hwc) as (c3 & Hh & Hcase).
    exists c3, (ds ++ [digest_of data]). split; [by eapply stocked_snoc|]. intros d Hd.
    apply (kept_mono c2 c3 ds ds); [|done|by apply (sk_kept _ _ _ Hs)].
    intros x Hx. destruct Hcase as [Hp|[-> _]]; [by apply (pb_blobs _ _ _ _ _ Hp)|done].
  - exists c2, ds. split; [|apply (sk_kept _ _ _ Hs)]. destruct (wp_elim _ _ _ _ _ (writeContent_fails data) Hwc) as (evs & -> & ->).
    eapply stocked_holds; [|exact Hs]. destruct (sk_holds _ _ _ Hs) as [H1 H2]. unfold EndToEnd.holds.
    rewrite link_after_snoc. cbn [link_call]. by rewrite Hreach.
Qed.

(** What a pull leaves: the daemon's store was [c]. *)
Record left_by (rawRef : string) (data : bytes) (ds : list string) (h' : list event) (c3 : Store) : Prop := {
  lb_store : srv_content (k_srv (link h')) = Some c3;
  lb_steps : rtc store_step c c3;
  lb_blobs : forall d, has_blob c d -> has_blob c3 d;
  lb_kept : forall d, d ∈ ds -> kept c3 ds d;
  lb_image : registered envs k0 m rawRef data h'
}.

Lemma pull_rest_leaves (rawRef registry repo token : string) (data : bytes) (mf : Manifest) (h h' : list event) :
  holds c h -> DockerRegistry.pull_rest rawRef registry repo token data mf h = (h', Ok tt) -> bodies_fit h' ->
  in_int64 (Z.of_nat (length data)) ->
  (forall d, d ∈ digest_of data :: m_Config mf :: m_Layers mf -> idle c (pull_ref d)) ->
  exists c3, left_by rawRef data (m_Config mf :: m_Layers mf) h' c3.
Proof.
  intros Hh Hr Hfit Hl Hi. unfold DockerRegistry.pull_rest in Hr. go_run Hr.
  set (img := manifest_image rawRef data) in *.
  assert (He : h' = s0 ++ [Ev (ImageCreate img) (answer _ s0 (ImageCreate img))]).
  { unfold ignore_call, go_bind, do_call, go_ret in Hr. by injection Hr as <-. }
  assert (Hfit0 : bodies_fit s0) by (rewrite He in Hfit; by eapply bodies_fit_prefix).
  assert (Hfits : bodies_fit s).
  { unfold attempt in Hrun0. destruct (DockerRegistry.writeContent _ data s) as [h2 r2] eqn:Hwc.
    destruct (writeContent_appends _ _ _ _ Hwc) as [evs ->]. destruct r2; injection Hrun0 as <- _; by eapply bodies_fit_prefix. }
  destruct a. destruct (pull_blobs_stocks registry repo token _ c [] h s (stocked_nil h Hh) Hrun Hfits) as [c2 Hs2].
  { intros d Hd. apply Hi. by right. }
  cbn [app] in Hs2. destruct (manifest_stocks data c2 _ s s0 _ Hs2 Hrun0 Hfit0 Hl) as (c3 & ds3 & Hs3 & Hk).
  { apply Hi. by left. }
  destruct (create_registers envs k0 Hw m c3 s0 [] img (sk_holds _ _ _ Hs3) (Forall_nil_2 _)) as [Hc3 Hreg].
  rewrite app_nil_r, <- He in Hc3, Hreg. exists c3. constructor; [done|apply (sk_steps _ _ _ Hs3)|apply (sk_blobs _ _ _ Hs3)|done|].
  exists s0, img, [Ev (ImageCreate img) (answer _ s0 (ImageCreate img))]. by split_and!.
Qed.

Lemma Pull_leaves (rawRef : string) (h h' : list event) :
  holds c h -> DockerRegistry.Pull rawRef h = (h', Ok tt) -> bodies_fit h' ->
  exists data mf, json_manifest JDockerManifest data = Some mf /\
    ((forall d, d ∈ digest_of data :: m_Config mf :: m_Layers mf -> idle c (pull_ref d)) ->
     exists c3, left_by rawRef data (m_Config mf :: m_Layers mf) h' c3).
Proof.
  intros Hh Hr Hfit. unfold DockerRegistry.Pull in Hr. destruct (Docker.parseRef rawRef) as [[registry repo] tag]. go_run Hr.
  destruct (json_manifest JDockerManifest a) as [mf|] eqn:Hm; [|done]. destruct (negb conn_ok); [done|]. go_run Hr.
  exists a, mf. split; [done|]. intros Hi.
  assert (Hfetch : emits bystander (DockerRegistry.fetch_manifest registry repo tag)).
  { unfold DockerRegistry.fetch_manifest. emits; first [apply httpGet_bystander|apply getAuthToken_bystander]. }
  assert (Htok : emits bystander (attempt (DockerRegistry.getAuthToken registry repo))).
  { emits. apply getAuthToken_bystander. }
  pose proof (holds_emits _ c Hfetch h s a Hh Hrun) as Hs. pose proof (holds_emits _ c Htok s s0 a0 Hs Hrun0) as Hs0.
  destruct (wp_elim _ _ _ _ _ (fetch_manifest_wp registry repo tag) Hrun) as (e1 & -> & _ & Hdata).
  destruct (Htok (h ++ e1)) as (e2 & r2 & He2 & _). rewrite He2 in Hrun0. injection Hrun0 as <- _.
  destruct (wp_elim _ _ _ _ _ (pull_rest_wp rawRef registry repo _ a mf) Hr) as (e3 & -> & _).
  assert (Hl : in_int64 (Z.of_nat (length a))).
  { eapply (Hfit _ a). apply fetched_mono, fetched_mono. rewrite fetched_app. apply elem_of_app. by right. }
  by eapply pull_rest_leaves.
Qed.

End pull.

(** ** Two runs that cannot be told apart

    [same R m1 m2]: from histories that differ at most in the answers of the calls
    mini-docker does not look at, [m1] and [m2] have the same outcome and end in
    such histories. *)

Definition blind {T : Type} (c : Call T) : bool :=
  match c with StreamSend _ | StreamRecv | StreamClose | ImageCreate _ => true | _ => false end.

Inductive similar_event : event -> event -> Prop :=
| sim_same e : similar_event e e
| sim_blind T (c : Call T) a1 a2 : blind c = true -> similar_event (Ev c a1) (Ev c a2).

Abbreviation similar := (Forall2 similar_event).

(** Two worlds with the same registry, for clients that see similar histories. *)
Record same_registry (W1 W2 : World) : Prop := {
  sr_answer : forall T h1 h2 (c : Call T), blind c = false -> similar h1 h2 -> @answer W1 T h1 c = @answer W2 T h2 c;
  sr_url : forall u, @url_ok W1 u = @url_ok W2 u;
  sr_manifest : forall k b, @json_manifest W1 k b = @json_manifest W2 k b;
  sr_token : forall p, @json_token W1 p = @json_token W2 p;
  sr_conn : @conn_ok W1 = @conn_ok W2
}.

Definition same {A : Type} (m1 m2 : Client A) : Prop :=
  forall h1 h2, similar h1 h2 -> similar (m1 h1).1 (m2 h2).1 /\ (m1 h1).2 = (m2 h2).2.

Section same.
Context (W1 W2 : World) (Hsame : same_registry W1 W2).

Lemma same_lift {A : Type} (r : res World.error A) : same (go_lift r) (go_lift r).
Proof. by intros h1 h2 Hh. Qed.

Lemma same_call {T : Type} (c : Call T) : blind c = false -> same (@do_call W1 T c) (@do_call W2 T c).
Proof.
  intros Hb h1 h2 Hh. unfold do_call. cbn. rewrite (sr_answer _ _ Hsame T h1 h2 c Hb Hh). split; [|done].
  apply Forall2_app; [done|]. constructor; [apply sim_same|done].
Qed.

Lemma same_ignore {T : Type} (c : Call T) : blind c = true -> same (@ignore_call W1 T c) (@ignore_call W2 T c).
Proof.
  intros Hb h1 h2 Hh. unfold ignore_call, go_bind, do_call, go_ret. cbn. split; [|done].
  apply Forall2_app; [done|]. constructor; [by apply sim_blind|done].
Qed.

Lemma same_bind {A B : Type} (m1 m2 : Client A) (k1 k2 : A -> Client B) :
  same m1 m2 -> (forall a, same (k1 a) (k2 a)) -> same (go_bind m1 k1) (go_bind m2 k2).
Proof.
  intros Hm Hk h1 h2 Hh. unfold go_bind. destruct (Hm h1 h2 Hh) as [H1 H2].
  destruct (m1 h1) as [h1' r1], (m2 h2) as [h2' r2]. cbn in H1, H2. subst r2. destruct r1; [by apply Hk|done|done].
Qed.

Lemma same_wrap {A : Type} (f : World.error -> World.error) (m1 m2 : Client A) : same m1 m2 -> same (go_wrap f m1) (go_wrap f m2).
Proof.
  intros Hm h1 h2 Hh. unfold go_wrap. destruct (Hm h1 h2 Hh) as [H1 H2].
  destruct (m1 h1) as [h1' r1], (m2 h2) as [h2' r2]. cbn in *. by subst r2.
Qed.

Lemma same_attempt {A : Type} (m1 m2 : Client A) : same m1 m2 -> same (attempt m1) (attempt m2).
Proof.
  intros Hm h1 h2 Hh. unfold attempt. destruct (Hm h1 h2 Hh) as [H1 H2].
  destruct (m1 h1) as [h1' r1], (m2 h2) as [h2' r2]. cbn in *. subst r2. by destruct r1.
Qed.

End same.

Ltac same_step Hsame :=
  match goal with
  | |- same (go_ret ?a) _ => exact (same_lift (Ok a))
  | |- same (go_err ?e) _ => exact (same_lift (Err e))
  | |- same (go_lift ?r) _ => exact (same_lift r)
  | |- same (do_call _) _ => apply (same_call _ _ Hsame); reflexivity
  | |- same (ignore_call _) _ => apply same_ignore; reflexivity
  | |- same (go_bind _ _) _ => apply same_bind; [|intros ?]
  | |- same (go_wrap _ _) _ => apply same_wrap
  | |- same (attempt _) _ => apply same_attempt
  | |- same (try_call _ _) _ => unfold try_call
  | |- same (if negb (@url_ok _ ?u) then _ else _) _ => rewrite (sr_url _ _ Hsame u)
  | |- same (let '(_, _) := @json_token _ ?p in _) _ => rewrite (sr_token _ _ Hsame p)
  | |- same (match @json_manifest _ ?k ?b with _ => _ end) _ => rewrite (sr_manifest _ _ Hsame k b)
  | |- same (if negb (@conn_ok _) then _ else _) _ => rewrite (sr_conn _ _ Hsame)
  | |- same (if ?b then _ else _) _ => destruct b eqn:?
  | |- same (match ?x with _ => _ end) _ => destruct x eqn:?
  end.

Section blind_pull.
Context (W1 W2 : World) (Hsame : same_registry W1 W2).

Lemma httpGet_same (url auth : string) : same (@DockerRegistry.httpGet W1 url auth) (@DockerRegistry.httpGet W2 url auth).
Proof. unfold DockerRegistry.httpGet. repeat same_step Hsame. Qed.

Lemma getAuthToken_same (registry repo : string) :
  same (@DockerRegistry.getAuthToken W1 registry repo) (@DockerRegistry.getAuthToken W2 registry repo).
Proof. unfold DockerRegistry.getAuthToken. cbv zeta. repeat same_step Hsame. Qed.

Lemma send_all_reqs_same (qs : list WriteReq) : same (@send_all_reqs W1 qs) (@send_all_reqs W2 qs).
Proof. induction qs as [|q qs IH]; cbn [send_all_reqs]; repeat same_step Hsame. exact IH. Qed.

Lemma writeContent_same (d : string) (b : bytes) :
  same (@DockerRegistry.writeContent W1 d b) (@DockerRegistry.writeContent W2 d b).
Proof. unfold DockerRegistry.writeContent. repeat same_step Hsame. apply send_all_reqs_same. Qed.

Lemma pull_blobs_same (registry repo token : string) (ds : list string) :
  same (@DockerRegistry.pull_blobs W1 registry repo token ds) (@DockerRegistry.pull_blobs W2 registry repo token ds).
Proof.
  induction ds as [|d ds IH]; cbn [DockerRegistry.pull_blobs]; unfold DockerRegistry.pull_blob; repeat same_step Hsame;
    [apply httpGet_same|apply writeContent_same|exact IH].
Qed.

Lemma Pull_same (rawRef : string) : same (@DockerRegistry.Pull W1 rawRef) (@DockerRegistry.Pull W2 rawRef).
Proof.
  unfold DockerRegistry.Pull, DockerRegistry.fetch_manifest, DockerRegistry.pull_rest. repeat same_step Hsame;
    first [apply httpGet_same|apply getAuthToken_same|apply pull_blobs_same|apply writeContent_same].
Qed.

End blind_pull.

(** ** A network that loses every message *)

Section lossy.
Context `{Api} {W : World} (envs : nat -> Moment) (k0 : Link) (o : option Store).
Context (Hlost : forall h q, answer _ h (StreamSend q) = false).

(** The daemon has the store [o]. *)
Definition unchanged (h : list event) : Prop := srv_content (k_srv (link_after envs k0 h)) = o.

Lemma deliver_close (env : Env) (k : Link) : srv_content (k_srv (deliver env None k)) = srv_content (k_srv k).
Proof.
  unfold deliver. destruct (k_stream k) as [id|]; [|done]. cbn [handle]. unfold content_write.
  destruct (srv_streams (k_srv k) !! id) as [v|]; [|done]. by destruct (srv_content (k_srv k)).
Qed.

Lemma call_unchanged {T : Type} (c : Call T) :
  match c with ImageDelete _ => False | _ => True end -> preserves unchanged (do_call c).
Proof.
  intros Hc h Hh. unfold unchanged, do_call in *. cbn [fst]. rewrite link_after_snoc, <- Hh.
  set (k := link_after envs k0 h). clearbody k. clear Hh.
  destruct c; cbn [link_call]; try done; try (rewrite Hlost; done); destruct (answer _ h _); try done;
    destruct (mo_reached _); cbn [orb]; try done; try apply deliver_close.
  all: cbn [handle on_srv k_srv]; unfold in_images; by destruct (svc_Create _ _ _).
Qed.

Lemma ignore_unchanged {T : Type} (c : Call T) :
  match c with ImageDelete _ => False | _ => True end -> preserves unchanged (ignore_call c).
Proof. intros Hc. apply preserves_bind; [by apply call_unchanged|intros a; apply (preserves_lift _ (Ok tt))]. Qed.

Lemma attempt_unchanged {A : Type} (mm : Client A) : preserves unchanged mm -> preserves unchanged (attempt mm).
Proof. intros Hm h Hh. specialize (Hm h Hh). unfold attempt. by destruct (mm h) as [h' [a|e|]]. Qed.

#[local] Hint Extern 1 (preserves _ (do_call _)) => apply call_unchanged; exact I : preserves.
#[local] Hint Extern 1 (preserves _ (ignore_call _)) => apply ignore_unchanged; exact I : preserves.
#[local] Hint Resolve attempt_unchanged : preserves.

Lemma httpGet_unchanged (url auth : string) : preserves unchanged (DockerRegistry.httpGet url auth).
Proof. unfold DockerRegistry.httpGet. preserves. Qed.

Lemma getAuthToken_unchanged (registry repo : string) : preserves unchanged (DockerRegistry.getAuthToken registry repo).
Proof. unfold DockerRegistry.getAuthToken. cbv zeta. preserves. Qed.
#[local] Hint Resolve httpGet_unchanged getAuthToken_unchanged : preserves.

Lemma send_all_unchanged (qs : list WriteReq) : preserves unchanged (send_all_reqs qs).
Proof. induction qs as [|q qs IH]; cbn [send_all_reqs]; preserves. Qed.
#[local] Hint Resolve send_all_unchanged : preserves.

Lemma writeContent_unchanged (d : string) (b : bytes) : preserves unchanged (DockerRegistry.writeContent d b).
Proof. unfold DockerRegistry.writeContent, try_call. preserves. Qed.
#[local] Hint Resolve writeContent_unchanged : preserves.

Lemma pull_blobs_unchanged (registry repo token : string) (ds : list string) :
  preserves unchanged (DockerRegistry.pull_blobs registry repo token ds).
Proof. induction ds as [|d ds IH]; cbn [DockerRegistry.pull_blobs]; unfold DockerRegistry.pull_blob; preserves. Qed.
#[local] Hint Resolve pull_blobs_unchanged : preserves.

Lemma Pull_unchanged (rawRef : string) : preserves unchanged (DockerRegistry.Pull rawRef).
Proof.
  unfold DockerRegistry.Pull, DockerRegistry.fetch_manifest, DockerRegistry.pull_rest. preserves.
Qed.

End lossy.

(** ** Properties *)

(** C4: what a successful pull of mini-docker leaves in mini-containerd.  The
    client looks at no answer and waits for none, so this is under assumptions it
    cannot check: every message it sends arrives and is handled before its next
    call, the daemon's machine and streams do not fail, and no upload of the
    image's digests, complete or broken off, is left uncommitted in the store.
    Then the daemon serves bytes of every digest of the manifest, unless it
    refused the upload, which the client does not notice: because an upload of
    that reference, the first 32 bytes of the digest, had been committed before,
    or because another digest of the manifest begins with the same 32 bytes.
    Blobs that were there still are, the store's invariant holds, and the
    reference is registered unless it was. *)
Theorem docker_pull_stores `{Api} {W : World} (envs : nat -> Moment) (k0 : Link) (rawRef : string) (c : Store)
    (h h' : list event) :
  wired W envs k0 -> (forall n, calm (envs n)) ->
  (forall n, mo_reached (envs n) = true) -> (forall hs q, answer _ hs (StreamSend q) = true) ->
  srv_content (k_srv (link_after envs k0 h)) = Some c -> store_inv c -> clear c ->
  DockerRegistry.Pull rawRef h = (h', Ok tt) -> bodies_fit h' ->
  let s := k_srv (link_after envs k0 h) in
  let s' := k_srv (link_after envs k0 h') in
  exists data mf, json_manifest JDockerManifest data = Some mf /\
    let ds := m_Config mf :: m_Layers mf in
    ((forall d, d ∈ digest_of data :: ds -> idle c (pull_ref d)) ->
     exists c', srv_content s' = Some c' /\ store_inv c' /\ (forall d, has_blob c d -> has_blob c' d) /\
       registered envs k0 (srv_images s) rawRef data h' /\
       forall d, d ∈ ds ->
         serves s' d \/ committed c (pull_ref d) \/ exists d', d' ∈ ds /\ d' <> d /\ pull_ref d' = pull_ref d).
Proof.
  intros Hw Hcalm Hreach Harr Hc Hinv Hcl Hr Hfit s s'.
  destruct (Pull_leaves envs k0 Hw (srv_images s) Hcalm Hreach Harr c Hinv Hcl rawRef h h' (conj Hc eq_refl) Hr Hfit)
    as (data & mf & Hm & Hall). exists data, mf. split; [done|]. intros ds Hi.
  destruct (Hall Hi) as [c' [Hc' Hst Hbl Hk Hreg]]. exists c'. pose proof (store_steps_inv _ _ Hst Hinv) as Hinv'.
  split_and!; [done..|]. intros d Hd. destruct (Hk d Hd) as [Hb|Hb]; [left|by right]. by eapply blob_served.
Qed.

(** C13: mini-docker's pull does not depend on what becomes of its uploads.  In
    two worlds with the same registry, whose daemons may take or lose every
    message, end the streams as they like and register the image or not, the
    pull makes the same calls and has the same outcome; so nothing about the
    daemon's store follows from its success alone, and when the messages of the
    second world are lost, that pull leaves the store as it was. *)
Theorem docker_Pull_blind `{Api} (W1 W2 : World) (envs : nat -> Moment) (k0 : Link) (rawRef : string) (h1 h2 : list event) :
  same_registry W1 W2 -> Forall2 similar_event h1 h2 ->
  let '(h1', r1) := @DockerRegistry.Pull W1 rawRef h1 in
  let '(h2', r2) := @DockerRegistry.Pull W2 rawRef h2 in
  r1 = r2 /\ Forall2 similar_event h1' h2' /\
  ((forall h q, @answer W2 _ h (StreamSend q) = false) ->
   srv_content (k_srv (link_after envs k0 h2')) = srv_content (k_srv (link_after envs k0 h2))).
Proof.
  intros Hs Hh. destruct (Pull_same W1 W2 Hs rawRef h1 h2 Hh) as [H1 H2].
  pose proof (fun Hlost => Pull_unchanged (W := W2) envs k0 _ Hlost rawRef h2 eq_refl) as Hu.
  destruct (@DockerRegistry.Pull W1 rawRef h1), (@DockerRegistry.Pull W2 rawRef h2). by split_and!.
Qed.

(** ** Witnesses *)

(** A store opened on a disk with no directory below its root is clear. *)
Lemma NewStore_clear (io : faults) (mtime : path -> Z) (root : string) (f : fs) (s : Store) :
  (forall q, q ∈ fs_dirs f -> length q <= length (path_elems root) + 1) ->
  NewStore io mtime root f = Ok s -> clear s.
Proof.
  intros Hf. unfold NewStore. destruct (os_mkdir_all _ _ _) as [f1|] eqn:Hmk; [|done].
  apply os_mkdir_all_frame in Hmk as (_ & _ & _ & Hd). intros Hs.
  assert (Hsame : s_root s = root /\ fs_dirs (s_fs s) = fs_dirs f1).
  { revert Hs. unfold scan. repeat case_match; try done; by intros [= <-]. }
  destruct Hsame as [Hr Hds].
  assert (Hlen : forall q, q ∈ fs_dirs (s_fs s) -> length q <= length (path_elems root) + 1).
  { intros q. rewrite Hds. intros [[x Hx]%path_prefix_spec|Hq]%Hd; [|by apply Hf].
    rewrite Hx, length_app. lia. }
  constructor; rewrite Hr; intros r Hq%Hlen; revert Hq; unfold tmp_elems, blob_elems; rewrite length_app; cbn; lia.
Qed.

Lemma demo_calm (n : nat) : calm (demo_envs n).
Proof. by split. Qed.

Definition demo_docker : list event := (DockerRegistry.Pull (W := demo_wire) "a" []).1.

Lemma demo_docker_done : DockerRegistry.Pull (W := demo_wire) "a" [] = (demo_docker, Ok tt).
Proof. exact (pair_snd (DockerRegistry.Pull (W := demo_wire) "a" []) (Ok tt) ltac:(vm_eq)). Qed.

Lemma demo_docker_fits : bodies_fit demo_docker.
Proof.
  assert (Hall : forallb (fun x : string * bytes => length x.2 <=? 9) (fetched demo_docker) = true) by vm_eq.
  intros url b Hb. rewrite forallb_forall in Hall. apply list_elem_of_In in Hb. specialize (Hall _ Hb).
  apply Nat.leb_le in Hall. cbn in Hall. unfold in_int64. lia.
Qed.

Lemma demo_store0_clear : clear demo_store0.
Proof.
  apply (NewStore_clear no_faults (fun _ => 0%Z) content_root (default fs_empty (os_mkdir_all no_faults (path_elems dataRoot) fs_empty))).
  - assert (Hall : forallb (fun q : path => length q <=? 4)
      (elements (fs_dirs (default fs_empty (os_mkdir_all no_faults (path_elems dataRoot) fs_empty)))) = true) by vm_eq.
    intros q Hq. rewrite forallb_forall in Hall. apply elem_of_elements, list_elem_of_In, Hall, Nat.leb_le in Hq.
    assert (Hl : length (path_elems content_root) = 4) by vm_eq. lia.
  - vm_compute. reflexivity.
Qed.

Lemma docker_pull_stores_witness :
  let s' := k_srv (link_after demo_envs demo_link demo_docker) in
  serves s' (digest_of demo_layer).
Proof.
  destruct (docker_pull_stores (H := demo_api) (W := demo_wire) demo_envs demo_link "a" demo_store0 [] demo_docker
    (wire_wired demo_registry demo_envs demo_link) demo_calm (fun _ => eq_refl) (fun _ _ => eq_refl) demo_store0_content
    (vi_content _ (start_inv (H := demo_api) no_faults (fun _ => 0%Z) fs_empty fs_empty_fresh) _ demo_store0_content)
    demo_store0_clear demo_docker_done demo_docker_fits) as (data & mf & Hm & Hall).
  injection Hm as <-.
  assert (Hno : forall r, s_uploads demo_store0 !! r = None).
  { intros r. assert (He : s_uploads demo_store0 = ∅) by vm_eq. rewrite He. apply lookup_empty. }
  destruct Hall as (c' & _ & _ & _ & _ & Hds).
  { intros d _ us Hu. rewrite Hno in Hu. discriminate Hu. }
  destruct (Hds (digest_of demo_layer)) as [Hs|[(us & Hu & _)|(d' & Hd & Hne & He)]]; [right; left|exact Hs| |].
  - rewrite Hno in Hu. discriminate Hu.
  - exfalso. apply elem_of_cons in Hd as [->|Hd%list_elem_of_singleton]; [|exact (Hne Hd)].
    assert (Hx : String.eqb (pull_ref (digest_of demo_hello)) (pull_ref (digest_of demo_layer)) = false) by vm_eq.
    apply String.eqb_neq in Hx. exact (Hx He).
Defined.

(** The same registry, with a network that delivers and with one that loses
    every message. *)
Lemma demo_same_registry : same_registry (DockerRegistry.demo_world true) (DockerRegistry.demo_world false).
Proof.
  constructor; try done. intros T h1 h2 c Hb Hh. by destruct c.
Qed.

Lemma docker_Pull_blind_witness :
  (@DockerRegistry.Pull (DockerRegistry.demo_world true) "demo" []).2 =
    (@DockerRegistry.Pull (DockerRegistry.demo_world false) "demo" []).2 /\
  srv_content (k_srv (link_after demo_envs demo_link (@DockerRegistry.Pull (DockerRegistry.demo_world false) "demo" []).1)) =
    Some demo_store0.
Proof.
  pose proof (docker_Pull_blind (H := demo_api) (DockerRegistry.demo_world true) (DockerRegistry.demo_world false)
    demo_envs demo_link "demo" [] [] demo_same_registry ltac:(constructor)) as Hp.
  destruct (@DockerRegistry.Pull (DockerRegistry.demo_world true) "demo" []) as [h1 r1].
  destruct (@DockerRegistry.Pull (DockerRegistry.demo_world false) "demo" []) as [h2 r2]. destruct Hp as (Hr & _ & Hu).
  split; [exact Hr|]. etransitivity; [exact (Hu (fun _ _ => eq_refl))|exact demo_store0_content].
Defined.
