(* ===== verification/NerdctlContainer.v ===== *)
(** * mini-nerdctl's container commands: mini-nerdctl/pkg/container (run.go,
    container.go), pkg/runtime/runtime.go, pkg/config/config.go, cmd/root.go

    Each command is the sequence of client-library calls it makes.  [Run] and
    [Exec] return values next to an error, so their outcome is a tuple. *)

From S2P Require Import Prelude.
From S2P Require Import GoStrings.
From S2P Require Import FileSystem.
From S2P Require Import Reference.
From S2P Require Import World.
Open Scope go_scope.

Record ContainerInfo : Type := mkContainerInfo {
  ci_ID : string;
  ci_Image : string;
  ci_Status : string;
  ci_Pid : Z
}.

(** [Interactive] only selects the input and output of the task; [TTY] and [Rm]
    are never read. *)
Record RunOpts : Type := mkRunOpts {
  ro_Image : string;
  ro_Cmd : list string;
  ro_Interactive : bool;
  ro_TTY : bool;
  ro_Detach : bool;
  ro_Rm : bool;
  ro_Env : list string
}.

(** [containerd.ProcessStatus] as text. *)
Definition status_text (st : ProcStatus) : string :=
  match st with
  | PRunning => "running" | PCreated => "created" | PStopped => "stopped"
  | PPaused => "paused" | PPausing => "pausing" | PUnknown => "unknown"
  end.

Definition charset : list ascii := String.list_ascii_of_string "abcdef0123456789".

(** The identifier, exit code and error of [Run]. *)
Record RunResult : Type := mkRunResult {
  rr_id : string;
  rr_code : Z;
  rr_err : option error
}.

Section nerdctl.
Context {W : World}.

(** ** container.go *)

Definition generateID : Client string :=
  ns <-! do_call (RandomInts 16 (length charset)) ;
  go_ret (String.string_of_list_ascii (map (fun n => nth n charset ch_slash) ns)).

Definition info_of (id : string) : Client ContainerInfo :=
  labels <-! do_call (ContainerLabels id) ;
  let image := match labels with Some ls => default "" (ls !! "io.containerd.image.name") | None => "" end in
  task <-! do_call (GetTask id) ;
  if negb task then go_ret (mkContainerInfo id image "created (no task)" 0)
  else
    st <-! do_call (TaskStatus id) ;
    match st with
    | None => go_ret (mkContainerInfo id image "unknown" 0)
    | Some st => pid <-! do_call (TaskPid id) ; go_ret (mkContainerInfo id image (status_text st) pid)
    end.

Fixpoint infos_of (ids : list string) : Client (list ContainerInfo) :=
  match ids with
  | [] => go_ret []
  | id :: ids' => i <-! info_of id ; infos <-! infos_of ids' ; go_ret (i :: infos)
  end.

Definition List : Client (list ContainerInfo) :=
  containers <-! do_call Containers ;
  match containers with
  | None => go_err ["list containers"]
  | Some ids => infos_of ids
  end.

Definition Stop (id : string) (timeout : Z) : Client unit :=
  try_call ["load container"] (LoadContainer id) ;;!
  try_call ["get task"] (GetTask id) ;;!
  st <-! do_call (TaskStatus id) ;
  match st with
  | None => go_err ["get status"]
  | Some st =>
      if bool_decide (st = PStopped) || bool_decide (st = PCreated) then go_ret tt
      else
        try_call ["kill SIGTERM"] (TaskKill id SIGTERM) ;;!
        try_call ["wait"] (TaskWait id) ;;!
        exited <-! do_call (WaitExitOrTimeout id timeout) ;
        if (exited : bool) then go_ret tt
        else try_call ["kill SIGKILL"] (TaskKill id SIGKILL) ;;! ignore_call (WaitExit id)
  end.

(** Killing, waiting and deleting the task, every error ignored. *)
Definition force_stop (id : string) : Client unit :=
  task <-! do_call (GetTask id) ;
  if negb task then go_ret tt
  else
    st <-! do_call (TaskStatus id) ;
    (if bool_decide (st = Some PRunning) then
       ignore_call (TaskKill id SIGKILL) ;;!
       ch <-! do_call (TaskWait id) ;
       if (ch : bool) then ignore_call (WaitExit id) else go_ret tt
     else go_ret tt) ;;!
    ignore_call (TaskDelete id).

Definition Remove (id : string) (force : bool) : Client unit :=
  try_call ["load container"] (LoadContainer id) ;;!
  (if force then force_stop id else go_ret tt) ;;!
  try_call ["delete container"] (ContainerDelete id).

(** ** run.go *)

Definition run_fail (what : string) : Client RunResult := go_ret (mkRunResult "" (-1) (Some [what])).

(** The image, pulled when the daemon does not have it, unpacked when it has. *)
Definition ensure_image (ref : string) : Client (option error) :=
  have <-! do_call (GetImage ref) ;
  if negb have then
    ok <-! do_call (ClientPull ref) ;
    go_ret (if (ok : bool) then None else Some ["pull image " +:+ ref])
  else
    ok <-! do_call (ImageUnpack ref) ;
    go_ret (if (ok : bool) then None else Some ["unpack image " +:+ ref]).

(** Without a command the image's own is used. *)
Definition run_spec (ref : string) (opts : RunOpts) : Spec :=
  mkSpec ref (match ro_Cmd opts with [] => None | cmd => Some cmd end) (ro_Env opts).

(** From [task.Wait] on. *)
Definition run_foreground (id : string) : Client RunResult :=
  wait <-! do_call (TaskWait id) ;
  if negb wait then run_fail "wait task"
  else
    status <-! do_call (WaitExit id) ;
    let exitCode := default (-1)%Z status in
    td <-! do_call (TaskDelete id) ;
    if negb td then go_ret (mkRunResult id exitCode (Some ["delete task"]))
    else
      cd <-! do_call (ContainerDelete id) ;
      if negb cd then go_ret (mkRunResult id exitCode (Some ["delete container"]))
      else go_ret (mkRunResult id exitCode None).

Definition Run (opts : RunOpts) : Client RunResult :=
  let ref := Normalize (ro_Image opts) in
  img <-! ensure_image ref ;
  match img with
  | Some e => go_ret (mkRunResult "" (-1) (Some e))
  | None =>
      id <-! generateID ;
      made <-! do_call (NewContainer id (run_spec ref opts)) ;
      if negb made then run_fail "create container"
      else
        task <-! do_call (NewTask id) ;
        if negb task then ignore_call (ContainerDelete id) ;;! run_fail "create task"
        else
          started <-! do_call (TaskStart id) ;
          if negb started then
            ignore_call (TaskDelete id) ;;! ignore_call (ContainerDelete id) ;;! run_fail "start task"
          else if ro_Detach opts then go_ret (mkRunResult id 0 None)
          else run_foreground id
  end.

(** ** runtime.go *)

(** The source of randomness may fail. *)
Definition randHex (size : nat) : Client string :=
  b <-! do_call (RandomBytes size) ;
  go_ret (match b with None => hex_nat 16 (N.of_nat size) | Some b => hex_encode b end).

(** The exit code comes back with the error, so the outcome is a pair. *)
Definition exec_result (id exec : string) : Client (Z * option error) :=
  wait <-! do_call (ProcessWait id exec) ;
  if negb wait then go_ret ((-1)%Z, Some ["wait exec"])
  else
    status <-! do_call (WaitExit id) ;
    match status with
    | None => go_ret ((-1)%Z, Some ["exec result"])
    | Some code => go_ret (code, None)
    end.

Definition Exec (id : string) (cmd : list string) (tty : bool) : Client (Z * option error) :=
  load <-! do_call (LoadContainer id) ;
  if negb load then go_ret ((-1)%Z, Some ["load container"])
  else
    task <-! do_call (GetTask id) ;
    if negb task then go_ret ((-1)%Z, Some ["get task"])
    else
      r <-! randHex 4 ;
      let execID := "exec-" +:+ r in
      ok <-! do_call (TaskExec id execID cmd tty) ;
      if negb ok then go_ret ((-1)%Z, Some ["exec"])
      else
        result <-! exec_result id execID ;
        ignore_call (ProcessDelete id execID) ;;!
        go_ret result.

(** The namespace is the one of the default configuration. *)
Definition log_path (id : string) : string :=
  "/run/containerd/io.containerd.runtime.v2.task/" +:+ "default" +:+ "/" +:+ id +:+ "/stdout".

Definition Logs (id : string) : Client string :=
  try_call ["load container"] (LoadContainer id) ;;!
  try_call ["get task"] (GetTask id) ;;!
  try_call ["log file not available"] (OpenFile (log_path id)) ;;!
  go_ret (log_path id).

End nerdctl.

(** ** config.go and the helpers of root.go *)

Record Config : Type := mkConfig { cf_Address : string; cf_Namespace : string }.

Definition Default : Config := mkConfig "/run/containerd/containerd.sock" "default".

(** [getenv] answers "" for an unset variable. *)
Definition FromEnv (getenv : string -> string) : Config :=
  let addr := getenv "CONTAINERD_ADDRESS" in
  let ns := getenv "CONTAINERD_NAMESPACE" in
  mkConfig (if negb (String.eqb addr "") then addr else cf_Address Default)
           (if negb (String.eqb ns "") then ns else cf_Namespace Default).

Definition shortID (id : string) : string := if 12 <? String.length id then str_take 12 id else id.

Definition shortDigest (d : string) : string := if 19 <? String.length d then str_take 19 d else d.

(** ** What a history shows *)

Definition made_here (e : event) : list string :=
  match e with
  | @Ev T c a =>
      match c in Call T return T -> list string with
      | NewContainer id _ => fun ok => if ok then [id] else []
      | _ => fun _ => []
      end a
  end.

Definition deleted_here (e : event) : list string :=
  match e with @Ev _ c _ => match c with ContainerDelete id => [id] | _ => [] end end.

Definition signal_here (e : event) : list Signal :=
  match e with @Ev _ c _ => match c with TaskKill _ sig => [sig] | _ => [] end end.

(** The containers made, the containers a deletion was asked for, the signals
    sent. *)
Definition made_ids (evs : list event) : list string := flat_map made_here evs.
Definition deleted_ids (evs : list event) : list string := flat_map deleted_here evs.
Definition signals (evs : list event) : list Signal := flat_map signal_here evs.

Definition starts_process (e : event) : bool :=
  match e with @Ev _ c _ => match c with ProcessStart _ _ => true | _ => false end end.

(** When [Run] leaves its container on the daemon. *)
Definition leaves (opts : RunOpts) (rr : RunResult) : bool :=
  match rr_err rr with
  | None => ro_Detach opts
  | Some e => bool_decide (e = ["wait task"]) || bool_decide (e = ["delete task"])
  end.

Lemma made_ids_app (e1 e2 : list event) : made_ids (e1 ++ e2) = made_ids e1 ++ made_ids e2.
Proof. apply flat_map_app. Qed.

Lemma deleted_ids_app (e1 e2 : list event) : deleted_ids (e1 ++ e2) = deleted_ids e1 ++ deleted_ids e2.
Proof. apply flat_map_app. Qed.

(** ** Lemmas *)

Section lemmas.
Context {W : World}.

Lemma generateID_wp : wp generateID (fun evs r =>
  made_ids evs = [] /\ deleted_ids evs = [] /\ exists id, r = Ok id).
Proof. unfold generateID. apply wp_bind, wp_call. intros ns. apply wp_ret. eauto. Qed.

Lemma ensure_image_wp (ref : string) : wp (ensure_image ref) (fun evs r =>
  made_ids evs = [] /\ deleted_ids evs = [] /\ exists e, r = Ok e).
Proof.
  unfold ensure_image. apply wp_bind, wp_call. intros [|]; cbn [negb];
    apply wp_bind, wp_call; intros ok; apply wp_ret; eauto.
Qed.

(** After the container is made. *)
Definition run_post (opts : RunOpts) (id : string) (evs : list event) (r : res error RunResult) : Prop :=
  exists rr, r = Ok rr /\ made_ids evs = [] /\ deleted_ids evs = (if leaves opts rr then [] else [id]) /\
    (rr_err rr = None -> rr_id rr = id).

Lemma run_foreground_wp (opts : RunOpts) (id : string) :
  ro_Detach opts = false -> wp (run_foreground id) (run_post opts id).
Proof.
  intros Hd. unfold run_foreground. apply wp_bind, wp_call. intros [|]; cbn [negb].
  2:{ apply wp_ret. eexists. split; [done|]. by split_and!. }
  apply wp_bind, wp_call. intros st. apply wp_bind, wp_call. intros [|]; cbn [negb].
  2:{ apply wp_ret. eexists. split; [done|]. by split_and!. }
  apply wp_bind, wp_call. intros [|]; cbn [negb]; apply wp_ret; eexists; (split; [done|]);
    unfold leaves; cbn; rewrite ?Hd; by split_and!.
Qed.

(** What the whole run leaves. *)
Definition run_leaves (opts : RunOpts) (evs : list event) (r : res error RunResult) : Prop :=
  exists rr, r = Ok rr /\ deleted_ids evs = (if leaves opts rr then [] else made_ids evs) /\
    (rr_err rr = None -> made_ids evs = [rr_id rr]).

Lemma run_leaves_nothing (opts : RunOpts) (evs : list event) (rr : RunResult) :
  made_ids evs = [] -> deleted_ids evs = [] -> rr_err rr <> None -> run_leaves opts evs (Ok rr).
Proof. intros H1 H2 H3. exists rr. rewrite H1, H2. by destruct (leaves opts rr). Qed.

Lemma run_made_wp (opts : RunOpts) (id : string) :
  wp (task <-! do_call (NewTask id) ;
      if negb task then ignore_call (ContainerDelete id) ;;! run_fail "create task"
      else
        started <-! do_call (TaskStart id) ;
        if negb started then
          ignore_call (TaskDelete id) ;;! ignore_call (ContainerDelete id) ;;! run_fail "start task"
        else if ro_Detach opts then go_ret (mkRunResult id 0 None)
        else run_foreground id)%go (run_post opts id).
Proof.
  apply wp_bind, wp_call. intros [|]; cbn [negb].
  2:{ apply wp_bind, wp_ignore. intros a. apply wp_ret. eexists. split; [done|]. by split_and!. }
  apply wp_bind, wp_call. intros [|]; cbn [negb].
  2:{ apply wp_bind, wp_ignore. intros a. apply wp_bind, wp_ignore. intros b. apply wp_ret.
      eexists. split; [done|]. by split_and!. }
  destruct (ro_Detach opts) eqn:Hd.
  - apply wp_ret. eexists. split; [done|]. unfold leaves. cbn. by rewrite Hd.
  - eapply wp_mono; [by apply (run_foreground_wp opts)|]. intros evs r H. exact H.
Qed.

End lemmas.

(** ** Properties *)

(** when [Run] leaves a container behind, whatever the daemon answers.  It
    makes at most one container, and asks for its deletion exactly when it does
    not return success in detached mode or the errors "wait task" or "delete
    task": a foreground run that cannot wait leaves its container, running, on
    the daemon.  On success the one container made is the one returned. *)
Theorem Run_leaves {W : World} (opts : RunOpts) :
  wp (Run opts) (fun evs r =>
    exists rr, r = Ok rr /\ deleted_ids evs = (if leaves opts rr then [] else made_ids evs) /\
      (rr_err rr = None -> made_ids evs = [rr_id rr])).
Proof.
  unfold Run. cbv zeta. apply wp_bind. eapply wp_mono; [apply ensure_image_wp|].
  intros e1 r1 (Hm1 & Hd1 & [[e|] ->]).
  { apply wp_ret. rewrite app_nil_r. by apply (run_leaves_nothing opts). }
  apply wp_bind. eapply wp_mono; [apply generateID_wp|]. intros e2 r2 (Hm2 & Hd2 & [id ->]).
  apply wp_bind, wp_call. intros [|]; cbn [negb].
  - eapply wp_mono; [apply run_made_wp|]. intros e3 r3 (rr & -> & Hm3 & Hd3 & Hid). exists rr.
    rewrite !made_ids_app, !deleted_ids_app, Hm1, Hm2, Hm3, Hd1, Hd2, Hd3. split_and!; [done| |].
    + by destruct (leaves opts rr).
    + by intros ->%Hid.
  - apply wp_ret. apply (run_leaves_nothing opts); [| |done];
      by rewrite ?made_ids_app, ?deleted_ids_app, ?Hm1, ?Hm2, ?Hd1, ?Hd2.
Qed.

(** [Stop] asks first.  It sends nothing, or SIGTERM, or SIGTERM and then
    SIGKILL, the last only when the time has run out; and it succeeds only when
    the container was stopped or never started, or its exit was seen. *)
Theorem Stop_signals {W : World} (id : string) (timeout : Z) :
  wp (Stop id timeout) (fun evs r =>
    (signals evs = [] \/ signals evs = [SIGTERM] \/
     signals evs = [SIGTERM; SIGKILL] /\ Ev (WaitExitOrTimeout id timeout) false ∈ evs) /\
    (r = Ok tt ->
       (signals evs = [] /\ (Ev (TaskStatus id) (Some PStopped) ∈ evs \/ Ev (TaskStatus id) (Some PCreated) ∈ evs)) \/
       Ev (WaitExitOrTimeout id timeout) true ∈ evs \/ exists code, Ev (WaitExit id) code ∈ evs)).
Proof.
  unfold Stop. apply wp_bind, wp_try_call; [|split; [by left|done]].
  apply wp_bind, wp_try_call; [|split; [by left|done]].
  apply wp_bind, wp_call. intros [st|]; [|apply wp_err; split; [by left|done]].
  destruct (bool_decide (st = PStopped) || bool_decide (st = PCreated)) eqn:Hst.
  - apply wp_ret. split; [by left|]. intros _. left. split; [done|].
    apply orb_true_iff in Hst as [H | H]; apply bool_decide_eq_true in H as ->; [left | right];
      repeat first [apply list_elem_of_here|apply list_elem_of_further].
  - apply wp_bind, wp_try_call; [|split; [by right; left|done]].
    apply wp_bind, wp_try_call; [|split; [by right; left|done]].
    apply wp_bind, wp_call. intros [|].
    + apply wp_ret. split; [by right; left|]. intros _. right. left.
      repeat first [apply list_elem_of_here|apply list_elem_of_further].
    + assert (Hin : forall l, Ev (WaitExitOrTimeout id timeout) false ∈ [Ev (LoadContainer id) true] ++
        [Ev (GetTask id) true] ++ [Ev (TaskStatus id) (Some st)] ++ [Ev (TaskKill id SIGTERM) true] ++
        [Ev (TaskWait id) true] ++ [Ev (WaitExitOrTimeout id timeout) false] ++ l).
      { intros l. cbn. repeat first [apply list_elem_of_here|apply list_elem_of_further]. }
      apply wp_bind, wp_try_call; [|split; [right; right; split; [done|apply Hin]|done]].
      apply wp_ignore. intros code. split; [right; right; split; [done|apply Hin]|]. intros _. right. right.
      exists code. cbn. repeat first [apply list_elem_of_here|apply list_elem_of_further].
Qed.

(** [Exec] waits for a process it never starts.  It creates the process and
    waits, and among all its calls there is none that starts it; when it
    returns an exit code without an error it has only waited. *)
Theorem Exec_never_starts {W : World} (id : string) (cmd : list string) (tty : bool) :
  wp (Exec id cmd tty) (fun evs r =>
    Forall (fun e => starts_process e = false) evs /\
    forall code, r = Ok (code, None) ->
      exists exec, Ev (TaskExec id exec cmd tty) true ∈ evs /\ Ev (ProcessWait id exec) true ∈ evs /\
        Ev (WaitExit id) (Some code) ∈ evs).
Proof.
  apply (emits_wp (fun e => starts_process e = false)).
  - unfold Exec, exec_result, randHex. emits.
  - unfold Exec. apply wp_bind, wp_call. intros [|]; cbn [negb]; [|by apply wp_ret].
    apply wp_bind, wp_call. intros [|]; cbn [negb]; [|by apply wp_ret].
    apply wp_bind. unfold randHex. apply wp_bind, wp_call. intros b. apply wp_ret. cbv zeta.
    set (exec := "exec-" +:+ _).
    apply wp_bind, wp_call. intros [|]; cbn [negb]; [|by apply wp_ret].
    apply wp_bind. unfold exec_result. apply wp_bind, wp_call. intros [|]; cbn [negb];
      [|apply wp_ret, wp_bind, wp_ignore; intros a; by apply wp_ret].
    apply wp_bind, wp_call. intros [code|]; apply wp_ret, wp_bind, wp_ignore; intros a; apply wp_ret; [|done].
    intros code' [= <-]. exists exec. cbn.
    split_and!; repeat first [apply list_elem_of_here|apply list_elem_of_further].
Qed.

