(* ===== verification/Cli.v ===== *)
(** * mini-nerdctl's command line: mini-nerdctl/cmd/root.go, cmd/nerdctl/main.go

    The nine commands with their flags, the connection they share and the exit
    status of the process.  The parser of the command line and the order in
    which hooks run belong to the cobra library: [Cobra] has them as parameters,
    with what the library documents. *)

From S2P Require Import Prelude.
From S2P Require Import GoStrings.
From S2P Require Import FileSystem.
From S2P Require Import Reference.
From S2P Require Import World.
From S2P Require Import DockerRegistry.
From S2P Require Import NerdctlImage.
From S2P Require Import NerdctlContainer.
Open Scope go_scope.

(** ** Commands and flags *)

Inductive Command : Type :=
| pullCmd | imagesCmd | rmiCmd | runCmd | psCmd | execCmd | logsCmd | stopCmd | rmCmd.

(** The variables the flags are bound to; a duration in nanoseconds. *)
Record Flags : Type := mkFlags {
  runInteractive : bool;
  runTTY : bool;
  runDetach : bool;
  runRm : bool;
  runEnv : list string;
  stopTimeout : Z;
  rmForce : bool
}.

(** [init]: the defaults. *)
Definition init_flags : Flags := mkFlags false false false false [] (10 * 10 ^ 9) false.

(** [cobra.PositionalArgs]; a command without one takes any arguments. *)
Inductive PositionalArgs : Type := ExactArgs (n : nat) | MinimumNArgs (n : nat) | ArbitraryArgs.

Definition Args (c : Command) : PositionalArgs :=
  match c with
  | pullCmd | rmiCmd | logsCmd | stopCmd | rmCmd => ExactArgs 1
  | runCmd => MinimumNArgs 1
  | execCmd => MinimumNArgs 2
  | imagesCmd | psCmd => ArbitraryArgs
  end.

Definition accepts (p : PositionalArgs) (args : list string) : bool :=
  match p with
  | ExactArgs n => length args =? n
  | MinimumNArgs n => n <=? length args
  | ArbitraryArgs => true
  end.

(** ** The state of the process *)

(** [cli_client]: the variable [cli] is not nil. *)
Record Cli : Type := mkCli {
  cli_hist : list event;
  cli_client : bool
}.

Abbreviation Cmd := (GoM Cli error).

(** How a command ends: it returns, or [os.Exit] ends the process at once. *)
Inductive ending : Type := Returns | OsExit (code : Z).

Definition on_client {A : Type} (m : Client A) : Cmd A := fun s =>
  let '(h, r) := m (cli_hist s) in (mkCli h (cli_client s), r).

(** The text of the columns, as it is written to the [tabwriter]. *)
Definition tab : string := str1 (ascii_of_nat 9).
Definition table (header : list string) (rows : list (list string)) : string :=
  String.concat "" (map (fun cells => str_join tab cells +:+ nl) (header :: rows)).

(** [args[n]] *)
Definition arg {W : World} (args : list string) (n : nat) : Client string :=
  match args !! n with Some a => go_ret a | None => go_panic end.

Section commands.
Context {W : World} (cfg : Config) (rfc3339 : Z -> string).

(** ** The connection *)

Definition getClient : Cmd unit := fun s =>
  if cli_client s then (s, Ok tt)
  else
    let '(h, r) := do_call (ContainerdNew (cf_Address cfg) (cf_Namespace cfg)) (cli_hist s) in
    match r with
    | Ok true => (mkCli h true, Ok tt)
    | _ => (mkCli h false, Err ["connect to containerd at " +:+ cf_Address cfg])
    end.

Definition PersistentPreRunE : Cmd unit := getClient.

Definition PersistentPostRunE : Cmd unit := fun s =>
  if cli_client s then on_client (try_call [] ClientClose) s else (s, Ok tt).

(** ** The commands, after [getClient] *)

Definition pull_run (args : list string) : Client ending :=
  a <-! arg args 0 ; NerdctlImage.Pull a ;;! go_ret Returns.

Definition image_row (img : ImageInfo) : list string :=
  [ii_Name img; shortDigest (ii_Digest img); pretty (ii_Size img); rfc3339 (ii_CreatedAt img)].

Definition images_run : Client ending :=
  imgs <-! NerdctlImage.List ;
  match imgs with
  | [] => printf "No images found." ;;! go_ret Returns
  | _ => try_call [] (Flush (table ["IMAGE"; "DIGEST"; "SIZE"; "CREATED"] (map image_row imgs))) ;;! go_ret Returns
  end.

Definition rmi_run (args : list string) : Client ending :=
  a <-! arg args 0 ; NerdctlImage.Remove a ;;! printf ("Deleted: " +:+ a) ;;! go_ret Returns.

(** The options of a run: without [-d] the container is to be removed. *)
Definition run_opts (fl : Flags) (image : string) (cmd : list string) : RunOpts :=
  mkRunOpts image cmd (runInteractive fl) (runTTY fl) (runDetach fl) (runRm fl || negb (runDetach fl)) (runEnv fl).

Definition run_run (fl : Flags) (args : list string) : Client ending :=
  image <-! arg args 0 ;
  rr <-! NerdctlContainer.Run (run_opts fl image (skipn 1 args)) ;
  match rr_err rr with
  | Some e => go_err e
  | None => if runDetach fl then printf (rr_id rr) ;;! go_ret Returns else go_ret (OsExit (rr_code rr))
  end.

Definition container_row (c : ContainerInfo) : list string :=
  [shortID (ci_ID c); ci_Image c; ci_Status c; pretty (ci_Pid c)].

Definition ps_run : Client ending :=
  containers <-! NerdctlContainer.List ;
  match containers with
  | [] => printf "No containers found." ;;! go_ret Returns
  | _ => try_call [] (Flush (table ["CONTAINER ID"; "IMAGE"; "STATUS"; "PID"] (map container_row containers))) ;;!
         go_ret Returns
  end.

Definition exec_run (args : list string) : Client ending :=
  id <-! arg args 0 ;
  r <-! NerdctlContainer.Exec id (skipn 1 args) false ;
  match r.2 with
  | Some e => go_err e
  | None => go_ret (OsExit r.1)
  end.

(** The reader is closed whether the copy succeeds or not. *)
Definition logs_run (args : list string) : Client ending :=
  id <-! arg args 0 ;
  p <-! NerdctlContainer.Logs id ;
  copied <-! do_call (CopyToStdout p) ;
  ignore_call (CloseFile p) ;;!
  (if (copied : bool) then go_ret Returns else go_err ["read logs"]).

Definition stop_run (fl : Flags) (args : list string) : Client ending :=
  id <-! arg args 0 ; NerdctlContainer.Stop id (stopTimeout fl) ;;! printf ("Stopped: " +:+ id) ;;! go_ret Returns.

Definition rm_run (fl : Flags) (args : list string) : Client ending :=
  id <-! arg args 0 ; NerdctlContainer.Remove id (rmForce fl) ;;! printf ("Deleted: " +:+ id) ;;! go_ret Returns.

Definition command_run (c : Command) (fl : Flags) (args : list string) : Client ending :=
  match c with
  | pullCmd => pull_run args
  | imagesCmd => images_run
  | rmiCmd => rmi_run args
  | runCmd => run_run fl args
  | psCmd => ps_run
  | execCmd => exec_run args
  | logsCmd => logs_run args
  | stopCmd => stop_run fl args
  | rmCmd => rm_run fl args
  end.

Definition RunE (c : Command) (fl : Flags) (args : list string) : Cmd ending :=
  getClient ;;! on_client (command_run c fl args).

End commands.

(** ** The library *)

(** [dispatch fl argv] is the command that [argv] names, the flags after
    parsing, from the defaults [fl], and the arguments left; none for a usage
    error or a request for help, which call nothing of the program.  The
    validator of a command has accepted its arguments before a hook is called;
    then the hooks and the command run in this order, each one only when the one
    before has returned no error. *)
Class Cobra : Type := {
  dispatch : Flags -> list string -> option (Command * Flags * list string);
  execute : Cmd unit -> (Command -> Flags -> list string -> Cmd ending) -> Cmd unit -> Flags -> list string -> Cmd ending;
  dispatch_args : forall fl argv c fl' args,
    dispatch fl argv = Some (c, fl', args) -> accepts (Args c) args = true;
  execute_runs : forall pre run post fl argv c fl' args,
    dispatch fl argv = Some (c, fl', args) ->
    forall s, execute pre run post fl argv s =
      (pre ;;!
       e <-! run c fl' args ;
       match e with Returns => post ;;! go_ret Returns | OsExit code => go_ret (OsExit code) end) s;
  execute_usage : forall pre run post fl argv,
    dispatch fl argv = None ->
    forall s, execute pre run post fl argv s = (s, Ok Returns) \/ exists e, execute pre run post fl argv s = (s, Err e)
}.

Section process.
Context {W : World} `{Cobra} (cfg : Config) (rfc3339 : Z -> string).

Definition Execute (argv : list string) : Cmd ending :=
  execute (PersistentPreRunE cfg) (RunE cfg rfc3339) PersistentPostRunE init_flags argv.

(** The status of a process that calls [os.Exit(code)]: its lowest byte. *)
Definition exit_status (code : Z) : Z := Z.land code 255.

(** What [main] leaves, and the exit status of the process; a Go panic exits
    with 2. *)
Definition main (argv : list string) (h : list event) : list event * Z :=
  match Execute argv (mkCli h false) with
  | (s, Ok Returns) => (cli_hist s, 0%Z)
  | (s, Ok (OsExit code)) => (cli_hist s, exit_status code)
  | (s, Err e) => ((printf ("Error: " +:+ str_join ": " e) (cli_hist s)).1, exit_status 1)
  | (s, Panic) => (cli_hist s, 2%Z)
  end.

End process.

(** ** Lemmas: the whole process *)

Section main.
Context {W : World} `{Cobra} (cfg : Config) (rfc3339 : Z -> string).

Abbreviation connect := (ContainerdNew (cf_Address cfg) (cf_Namespace cfg)).

Definition complain (e : error) (h : list event) : list event := (printf ("Error: " +:+ str_join ": " e) h).1.

(** A process whose command line names a command. *)
Lemma main_runs (argv : list string) (h : list event) (c : Command) (fl : Flags) (args : list string) :
  dispatch init_flags argv = Some (c, fl, args) ->
  main cfg rfc3339 argv h =
    let ok := answer _ h connect in
    let h1 := h ++ [Ev connect ok] in
    if (ok : bool) then
      match command_run rfc3339 c fl args h1 with
      | (h2, Ok Returns) =>
          let closed := answer _ h2 ClientClose in
          let h3 := h2 ++ [Ev ClientClose closed] in
          if (closed : bool) then (h3, 0%Z) else (complain [] h3, 1%Z)
      | (h2, Ok (OsExit code)) => (h2, exit_status code)
      | (h2, Err e) => (complain e h2, 1%Z)
      | (h2, Panic) => (h2, 2%Z)
      end
    else (complain ["connect to containerd at " +:+ cf_Address cfg] h1, 1%Z).
Proof.
  intros Hd. unfold main, Execute. rewrite (execute_runs _ _ _ _ _ _ _ _ Hd). cbv zeta.
  unfold PersistentPreRunE, RunE, getClient, go_bind, do_call. cbn [cli_client cli_hist].
  destruct (answer _ h connect) eqn:Hc; [|done]. cbn [cli_client]. unfold on_client. cbn [cli_hist cli_client].
  destruct (command_run rfc3339 c fl args _) as [h2 [[|code]|e|]]; [|done..].
  unfold PersistentPostRunE. cbn [cli_client]. unfold on_client. cbn [cli_hist].
  unfold try_call, go_bind, do_call. by destruct (answer _ h2 ClientClose).
Qed.

(** One that does not. *)
Lemma main_usage (argv : list string) (h : list event) :
  dispatch init_flags argv = None ->
  main cfg rfc3339 argv h = (h, 0%Z) \/ exists e, main cfg rfc3339 argv h = (complain e h, 1%Z).
Proof.
  intros Hd. unfold main, Execute. destruct (execute_usage (PersistentPreRunE cfg) (RunE cfg rfc3339) PersistentPostRunE
    init_flags argv Hd (mkCli h false)) as [-> | [e ->]]; [by left|right]. by exists e.
Qed.

Lemma complain_eq (e : error) (h : list event) : exists a, complain e h = h ++ [Ev (Printf ("Error: " +:+ str_join ": " e)) a].
Proof. unfold complain, printf, ignore_call, go_bind, do_call. by eexists. Qed.

End main.

(** ** Lemmas: what the commands do not do *)

(** Events of the connection itself. *)
Definition opens (e : event) : bool := match e with @Ev _ c _ => match c with ContainerdNew _ _ => true | _ => false end end.
Definition closes (e : event) : bool := match e with @Ev _ c _ => match c with ClientClose => true | _ => false end end.
Definition other (e : event) : Prop := opens e = false /\ closes e = false.

Section quiet.
Context {W : World}.

Lemma exchange_all_other (what : string) (qs : list ContentService.WriteReq) : emits other (NerdctlImage.exchange_all what qs).
Proof. induction qs as [|q qs IH]; cbn [NerdctlImage.exchange_all]; unfold NerdctlImage.exchange; emits; done. Qed.

Lemma pull_blobs_other (registry repo token : string) (i n : nat) (ds : list string) :
  emits other (NerdctlImage.pull_blobs registry repo token i n ds).
Proof.
  revert i. induction ds as [|d ds IH]; intros i; cbn [NerdctlImage.pull_blobs]; [emits|].
  apply emits_bind; [|intros []; apply IH]. unfold NerdctlImage.pull_blob, NerdctlImage.downloadBlob,
    NerdctlImage.httpGetBody, NerdctlImage.httpGet, NerdctlImage.writeContent, NerdctlImage.exchange.
  emits. apply exchange_all_other.
Qed.

Lemma pull_other (ref : string) : emits other (NerdctlImage.Pull ref).
Proof.
  unfold NerdctlImage.Pull, NerdctlImage.pull_rest, NerdctlImage.fetch_manifest, NerdctlImage.fetchAuthToken,
    NerdctlImage.httpGet, ContainerdImage.do_nil. emits; apply pull_blobs_other.
Qed.

Lemma infos_of_other (ids : list string) : emits other (NerdctlContainer.infos_of ids).
Proof.
  induction ids as [|id ids IH]; cbn [NerdctlContainer.infos_of]; unfold NerdctlContainer.info_of; emits; done.
Qed.

Lemma command_other (rfc3339 : Z -> string) (c : Command) (fl : Flags) (args : list string) :
  emits other (command_run rfc3339 c fl args).
Proof.
  destruct c; cbn [command_run].
  - unfold pull_run, arg. emits. apply pull_other.
  - unfold images_run, NerdctlImage.List. emits.
  - unfold rmi_run, arg, NerdctlImage.Remove. emits.
  - unfold run_run, arg, NerdctlContainer.Run, NerdctlContainer.ensure_image, NerdctlContainer.generateID,
      NerdctlContainer.run_fail, NerdctlContainer.run_foreground, NerdctlContainer.run_fail. emits.
  - unfold ps_run, NerdctlContainer.List. emits. apply infos_of_other.
  - unfold exec_run, arg, NerdctlContainer.Exec, NerdctlContainer.randHex, NerdctlContainer.exec_result. emits.
  - unfold logs_run, arg, NerdctlContainer.Logs. emits.
  - unfold stop_run, arg, NerdctlContainer.Stop. emits.
  - unfold rm_run, arg, NerdctlContainer.Remove, NerdctlContainer.force_stop. emits.
Qed.

Lemma no_panic_arg (args : list string) (n : nat) : n < length args -> no_panic (arg args n).
Proof. intros Hn. unfold arg. destruct (lookup_lt_is_Some_2 args n Hn) as [a ->]. apply no_panic_ret. Qed.

End quiet.

(** Arguments that the validator has counted. *)
#[local] Hint Extern 1 (no_panic (arg _ _)) => apply no_panic_arg; lia : no_panic.

Lemma infos_of_no_panic {W : World} (ids : list string) : no_panic (NerdctlContainer.infos_of ids).
Proof. induction ids as [|id ids IH]; cbn [NerdctlContainer.infos_of]; unfold NerdctlContainer.info_of; no_panic; done. Qed.

Lemma accepts_length (c : Command) (args : list string) :
  accepts (Args c) args = true ->
  match c with
  | pullCmd | rmiCmd | logsCmd | stopCmd | rmCmd => length args = 1
  | runCmd => 1 <= length args
  | execCmd => 2 <= length args
  | _ => True
  end.
Proof. destruct c; cbn [Args accepts]; rewrite ?Nat.eqb_eq, ?Nat.leb_le; done. Qed.

Lemma command_no_panic {W : World} (rfc3339 : Z -> string) (c : Command) (fl : Flags) (args : list string) :
  accepts (Args c) args = true -> c <> pullCmd -> no_panic (command_run rfc3339 c fl args).
Proof.
  intros Ha%accepts_length Hc. destruct c; cbn [command_run]; [done|..].
  - unfold images_run, NerdctlImage.List. no_panic.
  - unfold rmi_run, NerdctlImage.Remove. no_panic.
  - unfold run_run, NerdctlContainer.Run, NerdctlContainer.ensure_image, NerdctlContainer.generateID,
      NerdctlContainer.run_fail, NerdctlContainer.run_foreground, NerdctlContainer.run_fail. no_panic.
  - unfold ps_run, NerdctlContainer.List. no_panic. apply infos_of_no_panic.
  - unfold exec_run, NerdctlContainer.Exec, NerdctlContainer.randHex, NerdctlContainer.exec_result. no_panic.
  - unfold logs_run, NerdctlContainer.Logs. no_panic.
  - unfold stop_run, NerdctlContainer.Stop. no_panic.
  - unfold rm_run, NerdctlContainer.Remove, NerdctlContainer.force_stop. no_panic.
Qed.

(** ** Lemmas: exit codes *)

Definition exit_answer (e : event) : list (option Z) :=
  match e with
  | @Ev T c a => match c in Call T return T -> list (option Z) with WaitExit _ => fun st => [st] | _ => fun _ => [] end a
  end.

(** The exits a client has received, an error as [None]. *)
Definition exit_answers (evs : list event) : list (option Z) := flat_map exit_answer evs.

Lemma exit_answers_app (e1 e2 : list event) : exit_answers (e1 ++ e2) = exit_answers e1 ++ exit_answers e2.
Proof. apply flat_map_app. Qed.

Definition received (evs : list event) (code : Z) : Prop :=
  exists st, exit_answers evs = [st] /\ code = default (-1)%Z st.

Section exits.
Context {W : World}.

Lemma run_received (opts : RunOpts) :
  NerdctlContainer.ro_Detach opts = false ->
  wp (NerdctlContainer.Run opts) (fun evs r => exists rr, r = Ok rr /\ (rr_err rr = None -> received evs (rr_code rr))).
Proof.
  intros Hd. unfold NerdctlContainer.Run. cbv zeta. apply wp_bind. eapply wp_mono.
  { apply (emits_wp (fun e => exit_answer e = [])); [|apply NerdctlContainer.ensure_image_wp].
    unfold NerdctlContainer.ensure_image. emits. }
  intros e1 r1 [H1 (_ & _ & er & ->)]. assert (He : exit_answers e1 = []).
  { clear -H1. induction H1 as [|e l He _ IH]; [done|]. unfold exit_answers in *. cbn. by rewrite He, IH. }
  destruct er as [e|]; [apply wp_ret; by eexists|]. unfold NerdctlContainer.generateID, NerdctlContainer.run_foreground,
    NerdctlContainer.run_fail. apply wp_bind, wp_bind, wp_call. intros ns. apply wp_ret.
  repeat (first [apply wp_bind, wp_ignore; intros ? | apply wp_bind, wp_call; intros ?];
          try match goal with |- wp (if negb ?b then _ else _) _ => destruct b; cbn [negb] end;
          try (apply wp_ret; eexists; (split; [done|]); done)).
  rewrite Hd.
  repeat (first [apply wp_bind, wp_call; intros ?];
          try match goal with |- wp (if negb ?b then _ else _) _ => destruct b; cbn [negb] end;
          try (apply wp_ret; eexists; (split; [done|]); done)).
  apply wp_ret. eexists. split; [done|]. intros _. eexists. rewrite exit_answers_app, He. split; reflexivity.
Qed.

Lemma exec_received (id : string) (cmd : list string) (tty : bool) :
  wp (NerdctlContainer.Exec id cmd tty) (fun evs r => exists code err, r = Ok (code, err) /\ (err = None -> received evs code)).
Proof.
  unfold NerdctlContainer.Exec, NerdctlContainer.randHex, NerdctlContainer.exec_result. cbv zeta.
  apply wp_bind, wp_call. intros [|]; cbn [negb]; [|apply wp_ret; by eexists _, _].
  apply wp_bind, wp_call. intros [|]; cbn [negb]; [|apply wp_ret; by eexists _, _].
  apply wp_bind, wp_bind, wp_call. intros b. apply wp_ret.
  apply wp_bind, wp_call. intros [|]; cbn [negb]; [|apply wp_ret; by eexists _, _].
  apply wp_bind, wp_bind, wp_call. intros [|]; cbn [negb]; [|apply wp_ret, wp_bind, wp_ignore; intros a; apply wp_ret; by eexists _, _].
  apply wp_bind, wp_call. intros [code|]; apply wp_ret, wp_bind, wp_ignore; intros a; apply wp_ret; eexists _, _; (split; [done|]); [|done].
  intros _. by exists (Some code).
Qed.

(** The command waits for a container or a process and exits. *)
Definition waits (c : Command) (fl : Flags) : bool :=
  match c with execCmd => true | runCmd => negb (runDetach fl) | _ => false end.

Lemma wp_arg {B : Type} (args : list string) (n : nat) (k : string -> Client B) (Q : list event -> res error B -> Prop) :
  Q [] Panic -> (forall a, wp (k a) Q) -> wp (go_bind (arg args n) k) Q.
Proof. intros Hp Hk. unfold arg. apply wp_bind. destruct (args !! n); [apply wp_ret, Hk|by apply wp_panic]. Qed.

(** Errors and panics are passed on. *)
Lemma wp_then {A B : Type} (m : Client A) (k : A -> Client B) (P : list event -> res error A -> Prop)
    (Q : list event -> res error B -> Prop) :
  wp m P -> (forall evs e, Q evs (Err e)) -> (forall evs, Q evs Panic) ->
  (forall evs a, P evs (Ok a) -> wp (k a) (fun e2 r => Q (evs ++ e2) r)) -> wp (go_bind m k) Q.
Proof. intros Hm He Hp Hk. apply wp_bind. eapply wp_mono; [exact Hm|]. intros evs [a|e|] Ha; auto. Qed.

Lemma emits_any {A : Type} (P : event -> Prop) (m : Client A) : emits P m -> wp m (fun _ _ => True).
Proof. intros Hm. by eapply wp_mono. Qed.

Lemma run_any (opts : RunOpts) : wp (NerdctlContainer.Run opts) (fun _ _ => True).
Proof.
  apply (emits_any other). unfold NerdctlContainer.Run, NerdctlContainer.ensure_image,
    NerdctlContainer.generateID, NerdctlContainer.run_foreground, NerdctlContainer.run_fail. emits.
Qed.

(** How a command ends, with what it has received. *)
Definition ends (waiting : bool) (evs : list event) (r : res error ending) : Prop :=
  match r with
  | Ok Returns => waiting = false
  | Ok (OsExit code) => waiting = true /\ received evs code
  | _ => True
  end.

(** An operation, then something that does not wait. *)
Lemma ends_then {A : Type} (m : Client A) (k : A -> Client ending) :
  emits other m -> (forall a, wp (k a) (fun _ r => r = Ok Returns \/ exists e, r = Err e)) ->
  wp (go_bind m k) (ends false).
Proof.
  intros Hm Hk. eapply wp_then; [by eapply emits_any|done..|]. intros e1 a _. eapply wp_mono; [apply Hk|].
  by intros e2 r [-> | [e ->]].
Qed.

Lemma print_returns (line : string) :
  wp (printf line ;;! go_ret Returns)%go (fun _ r => r = Ok Returns \/ exists e, r = Err e).
Proof. apply wp_bind, wp_ignore. intros ?. apply wp_ret. by left. Qed.

Lemma flush_returns (text : string) :
  wp (try_call [] (Flush text) ;;! go_ret Returns)%go (fun _ r => r = Ok Returns \/ exists e, r = Err e).
Proof. apply wp_bind, wp_try_call; [apply wp_ret; by left|right; by eexists]. Qed.

(** Such a command never returns without an error, and no other one exits. *)
Lemma command_ends (rfc3339 : Z -> string) (c : Command) (fl : Flags) (args : list string) :
  wp (command_run rfc3339 c fl args) (ends (waits c fl)).
Proof.
  destruct c; cbn [command_run waits].
  - apply wp_arg; [done|]. intros a. apply ends_then; [apply pull_other|]. intros []. apply wp_ret. by left.
  - apply ends_then; [unfold NerdctlImage.List; emits|]. intros [|i l]; [apply print_returns|apply flush_returns].
  - apply wp_arg; [done|]. intros a. apply ends_then; [unfold NerdctlImage.Remove; emits|]. intros _. apply print_returns.
  - apply wp_arg; [done|]. intros a. destruct (runDetach fl) eqn:Hd; cbn [negb].
    + eapply wp_then; [apply run_any|done..|]. intros e1 rr _. destruct (rr_err rr); [by apply wp_err|].
      eapply wp_mono; [apply print_returns|]. by intros e2 r [-> | [e ->]].
    + eapply wp_then; [apply run_received; exact Hd|done..|]. intros e1 rr (rr' & [= <-] & Hrr).
      destruct (rr_err rr); [by apply wp_err|]. apply wp_ret. rewrite app_nil_r. cbn. auto.
  - apply ends_then; [unfold NerdctlContainer.List; emits; apply infos_of_other|].
    intros [|i l]; [apply print_returns|apply flush_returns].
  - apply wp_arg; [done|]. intros a. eapply wp_then; [apply exec_received|done..|].
    intros e1 r (code & err & [= ->] & Hc). cbn [fst snd]. destruct err; [by apply wp_err|].
    apply wp_ret. rewrite app_nil_r. cbn. auto.
  - apply wp_arg; [done|]. intros a. apply ends_then; [unfold NerdctlContainer.Logs; emits|]. intros p.
    apply wp_bind, wp_call. intros ok. apply wp_bind, wp_ignore. intros ?.
    destruct ok; [apply wp_ret; by left|apply wp_err; right; by eexists].
  - apply wp_arg; [done|]. intros a. apply ends_then; [unfold NerdctlContainer.Stop; emits|]. intros _. apply print_returns.
  - apply wp_arg; [done|]. intros a.
    apply ends_then; [unfold NerdctlContainer.Remove, NerdctlContainer.force_stop; emits|]. intros _. apply print_returns.
Qed.

End exits.

(** ** Lemmas: counting *)

Definition opened (evs : list event) : nat := length (List.filter opens evs).
Definition closed (evs : list event) : nat := length (List.filter closes evs).

Lemma opened_app (e1 e2 : list event) : opened (e1 ++ e2) = opened e1 + opened e2.
Proof. unfold opened. by rewrite List.filter_app, length_app. Qed.

Lemma closed_app (e1 e2 : list event) : closed (e1 ++ e2) = closed e1 + closed e2.
Proof. unfold closed. by rewrite List.filter_app, length_app. Qed.

Lemma other_counts (evs : list event) : Forall other evs -> opened evs = 0 /\ closed evs = 0.
Proof.
  unfold opened, closed. induction 1 as [|e evs [H1 H2] _ [I1 I2]]; [done|]. cbn. rewrite H1, H2. done.
Qed.

Lemma exit_status_mod (code : Z) : exit_status code = (code mod 256)%Z.
Proof. unfold exit_status. change 255%Z with (Z.ones 8). rewrite Z.land_ones by lia. reflexivity. Qed.

(** What a process does that names a command: its connection, the command, and
    what follows it. *)
Lemma main_events {W : World} `{Cobra} (cfg : Config) (rfc3339 : Z -> string) (argv : list string) (h : list event)
    (c : Command) (fl : Flags) (args : list string) :
  dispatch init_flags argv = Some (c, fl, args) ->
  exists ok evs e st,
    main cfg rfc3339 argv h = (h ++ Ev (ContainerdNew (cf_Address cfg) (cf_Namespace cfg)) ok :: evs ++ e, st) /\
    Forall other evs /\
    match e with
    | [] => st = 2%Z /\ c = pullCmd \/ waits c fl = true /\ exists code, received evs code /\ st = exit_status code
    | [e1] => st = 0%Z /\ waits c fl = false /\ closes e1 = true /\ opens e1 = false \/ st = 1%Z /\ other e1
    | [e1; e2] => st = 1%Z /\ waits c fl = false /\ closes e1 = true /\ opens e1 = false /\ other e2
    | _ => False
    end.
Proof.
  intros Hd. rewrite (main_runs cfg rfc3339 argv h c fl args Hd). cbv zeta.
  set (ok := answer _ h _). exists ok. destruct ok.
  2:{ destruct (complain_eq ["connect to containerd at " +:+ cf_Address cfg]
        (h ++ [Ev (ContainerdNew (cf_Address cfg) (cf_Namespace cfg)) false])) as [a ->].
      exists [], [Ev (Printf ("Error: " +:+ str_join ": " ["connect to containerd at " +:+ cf_Address cfg])) a], 1%Z.
      split; [by rewrite <- (assoc_L (++))|]. split; [done|]. by right. }
  set (h1 := h ++ _).
  assert (Hnp : c = pullCmd \/ (command_run rfc3339 c fl args h1).2 <> Panic).
  { pose proof (command_no_panic rfc3339 c fl args (dispatch_args _ _ _ _ _ Hd)) as Hp.
    destruct c; [by left|right..]; destruct (Hp ltac:(done) h1) as (evs & r & -> & Hr); exact Hr. }
  destruct (emits_wp _ _ _ (command_other rfc3339 c fl args) (command_ends rfc3339 c fl args) h1) as (evs & r & Hr & Ho & He).
  rewrite Hr in Hnp |- *. exists evs. unfold h1. clear Hr. destruct r as [[|code]|er|].
  - cbn in He. set (b := answer _ _ ClientClose). destruct b.
    + exists [Ev ClientClose true], 0%Z. split; [by rewrite <- !(assoc_L (++))|]. split; [done|]. by left.
    + destruct (complain_eq [] (((h ++ [Ev (ContainerdNew (cf_Address cfg) (cf_Namespace cfg)) true]) ++ evs) ++ [Ev ClientClose false])) as [a ->].
      exists [Ev ClientClose false; Ev (Printf ("Error: " +:+ str_join ": " [])) a], 1%Z.
      split; [by rewrite <- !(assoc_L (++))|]. done.
  - exists [], (exit_status code). split; [by rewrite app_nil_r, <- !(assoc_L (++))|]. split; [done|].
    destruct He as [Hw Hc]. right. split; [done|by exists code].
  - destruct (complain_eq er ((h ++ [Ev (ContainerdNew (cf_Address cfg) (cf_Namespace cfg)) true]) ++ evs)) as [a ->].
    exists [Ev (Printf ("Error: " +:+ str_join ": " er)) a], 1%Z.
    split; [by rewrite <- !(assoc_L (++))|]. split; [done|]. by right.
  - exists [], 2%Z. split; [by rewrite app_nil_r, <- !(assoc_L (++))|]. split; [done|]. left. split; [done|].
    by destruct Hnp.
Qed.

(** ** Properties *)

(** C27: the exit status of "run" in the foreground and of "exec".  The process
    ends with 1 for an error, or it has received exactly one exit and ends with
    the lowest byte of its code, -1 for an exit that is an error: the status is
    between 0 and 255, an unknown exit is 255, and a code is reported as
    success exactly when it is a multiple of 256. *)
Theorem cli_exit_status {W : World} `{Cobra} (cfg : Config) (rfc3339 : Z -> string) (argv : list string)
    (h : list event) (c : Command) (fl : Flags) (args : list string) :
  dispatch init_flags argv = Some (c, fl, args) -> waits c fl = true ->
  exists evs st, main cfg rfc3339 argv h = (h ++ evs, st) /\ (0 <= st < 256)%Z /\
    (st = 1%Z \/ exists code, received evs code /\ st = (code mod 256)%Z /\ (st = 0%Z <-> (256 | code)%Z)).
Proof.
  intros Hd Hw. destruct (main_events cfg rfc3339 argv h c fl args Hd) as (ok & evs & e & st & -> & _ & He).
  eexists _, st. split; [done|].
  destruct e as [|e1 [|e2 [|]]]; [|destruct He as [(_ & Hw' & _)|[-> _]]; [congruence|split; [lia|by left]]
    |destruct He as (_ & Hw' & _); congruence|done].
  destruct He as [[_ ->]|(_ & code & (s & Hs & Hc) & ->)]; [done|]. rewrite exit_status_mod.
  split; [apply Z.mod_pos_bound; lia|]. right. exists code. split; [|split; [done|]].
  - exists s. by rewrite app_nil_r.
  - apply Z.mod_divide. lia.
Qed.

(** the connection of a process.  Whatever the command line, the daemon and
    the system do, at most one connection is asked for, and it is closed at most
    once; a status of 0 of a command that does not
    wait for an exit comes with the connection closed, and a foreground "run"
    and an "exec" never close it, since [os.Exit] skips the hook. *)
Theorem cli_connection {W : World} `{Cobra} (cfg : Config) (rfc3339 : Z -> string) (argv : list string) (h : list event) :
  exists evs st, main cfg rfc3339 argv h = (h ++ evs, st) /\
    closed evs <= opened evs <= 1 /\
    forall c fl args, dispatch init_flags argv = Some (c, fl, args) ->
      opened evs = 1 /\ (waits c fl = true -> closed evs = 0) /\ (waits c fl = false -> st = 0%Z -> closed evs = 1).
Proof.
  destruct (dispatch init_flags argv) as [[[c fl] args]|] eqn:Hd.
  2:{ destruct (main_usage cfg rfc3339 argv h Hd) as [-> | [e ->]].
      - exists [], 0%Z. rewrite app_nil_r. split; [done|]. split; [cbn; lia|done].
      - destruct (complain_eq e h) as [a ->]. eexists _, _. split; [done|]. split; [cbn; lia|done]. }
  destruct (main_events cfg rfc3339 argv h c fl args Hd) as (ok & evs & e & st & -> & Ho & He).
  eexists _, st. split; [done|]. change (Ev ?x ?y :: ?l) with ([Ev x y] ++ l). rewrite !opened_app, !closed_app.
  destruct (other_counts evs Ho) as [-> ->]. change (opened [Ev _ ok]) with 1. change (closed [Ev _ ok]) with 0.
  destruct e as [|e1 [|e2 [|]]]; [..|done].
  - split; [cbn; lia|]. intros c' fl' args' [= <- <- <-]. split; [done|]. split; [done|]. intros Hw Hst.
    destruct He as [[? _]|[? _]]; congruence.
  - unfold opened, closed. cbn. destruct He as [(-> & Hw & Hc & Hn)|(-> & Hn & Hc)]; rewrite Hc, Hn; cbn;
      (split; [lia|]); intros c' fl' args' [= <- <- <-]; (split; [done|]); split; congruence.
  - unfold opened, closed. cbn. destruct He as (-> & Hw & Hc & Hn & Hn2 & Hc2). rewrite Hc, Hn, Hn2, Hc2. cbn.
    split; [lia|]. intros c' fl' args' [= <- <- <-]. split; [done|]. split; congruence.
Qed.

(** The operation of a command that reports what it has done. *)
Definition reported {W : World} (c : Command) (fl : Flags) (a : string) : option (Client unit * string) :=
  match c with
  | rmiCmd => Some (NerdctlImage.Remove a, "Deleted: " +:+ a)
  | stopCmd => Some (NerdctlContainer.Stop a (stopTimeout fl), "Stopped: " +:+ a)
  | rmCmd => Some (NerdctlContainer.Remove a (rmForce fl), "Deleted: " +:+ a)
  | _ => None
  end.

(** "rmi", "stop" and "rm" report exactly what they have done.  They take
    one argument; once connected they run the operation on it, and when it
    succeeds they print the line, close the connection and end with 0, or with
    1 when only closing fails; when it fails, they print no such line, and end
    with 1; without a connection they do nothing. *)
Theorem cli_reports {W : World} `{Cobra} (cfg : Config) (rfc3339 : Z -> string) (argv : list string) (h : list event)
    (c : Command) (fl : Flags) (args : list string) (op : string -> Client unit) (line : string -> string) :
  dispatch init_flags argv = Some (c, fl, args) ->
  (forall a, reported c fl a = Some (op a, line a)) ->
  exists a, args = [a] /\
    let connect := ContainerdNew (cf_Address cfg) (cf_Namespace cfg) in
    let ok := answer _ h connect in
    let h1 := h ++ [Ev connect ok] in
    if (ok : bool) then
      match op a h1 with
      | (h2, Ok _) =>
          let h3 := h2 ++ [Ev (Printf (line a)) (answer _ h2 (Printf (line a)))] in
          let closing := answer _ h3 ClientClose in
          let h4 := h3 ++ [Ev ClientClose closing] in
          main cfg rfc3339 argv h = if (closing : bool) then (h4, 0%Z) else (complain [] h4, 1%Z)
      | (h2, Err e) => main cfg rfc3339 argv h = (complain e h2, 1%Z)
      | (_, Panic) => False
      end
    else exists e, main cfg rfc3339 argv h = (complain e h1, 1%Z).
Proof.
  intros Hd Hop. pose proof (accepts_length c args (dispatch_args _ _ _ _ _ Hd)) as Hl.
  assert (Ha : exists a, args = [a]).
  { specialize (Hop ""). destruct c; try done; destruct args as [|a [|]]; try done; by exists a. }
  destruct Ha as [a ->]. exists a. split; [done|]. cbv zeta. rewrite (main_runs cfg rfc3339 argv h c fl [a] Hd). cbv zeta.
  destruct (answer bool h _); [|by eexists]. set (h1 := h ++ _). specialize (Hop a).
  assert (Hrun : command_run rfc3339 c fl [a] h1 = (op a ;;! printf (line a) ;;! go_ret Returns)%go h1).
  { destruct c; try done; injection Hop as <- <-; done. }
  rewrite Hrun. pose proof (command_no_panic rfc3339 c fl [a] (dispatch_args _ _ _ _ _ Hd)) as Hnp.
  assert (Hc : c <> pullCmd) by (by destruct c). destruct (Hnp Hc h1) as (evs & r & Hr & Hp). rewrite Hrun in Hr.
  unfold go_bind in *. destruct (op a h1) as [h2 [[]|e|]]; [|done|injection Hr as _ <-; done].
  unfold printf, ignore_call, go_bind, do_call, go_ret. done.
Qed.

(** ** Witnesses *)

(** A library that takes the first word for the command and passes the rest
    on, for two of the commands. *)
Definition demo_dispatch (fl : Flags) (argv : list string) : option (Command * Flags * list string) :=
  match argv with
  | ["stop"; a] => Some (stopCmd, fl, [a])
  | "exec" :: a :: b :: rest => Some (execCmd, fl, a :: b :: rest)
  | _ => None
  end.

Lemma demo_dispatch_args (fl : Flags) (argv : list string) c fl' args :
  demo_dispatch fl argv = Some (c, fl', args) -> accepts (Args c) args = true.
Proof.
  unfold demo_dispatch. intros H.
  repeat match goal with H : context [match ?x with _ => _ end] |- _ => destruct x; try done end; by simplify_eq.
Qed.

Definition demo_execute (pre : Cmd unit) (run : Command -> Flags -> list string -> Cmd ending) (post : Cmd unit)
    (fl : Flags) (argv : list string) : Cmd ending := fun s =>
  match demo_dispatch fl argv with
  | None => (s, Ok Returns)
  | Some (c, fl', args) =>
      (pre ;;!
       e <-! run c fl' args ;
       match e with Returns => post ;;! go_ret Returns | OsExit code => go_ret (OsExit code) end)%go s
  end.

Lemma demo_execute_runs pre run post fl argv c fl' args :
  demo_dispatch fl argv = Some (c, fl', args) ->
  forall s, demo_execute pre run post fl argv s =
    (pre ;;!
     e <-! run c fl' args ;
     match e with Returns => post ;;! go_ret Returns | OsExit code => go_ret (OsExit code) end)%go s.
Proof. intros Hd s. unfold demo_execute. by rewrite Hd. Qed.

Lemma demo_execute_usage pre run post fl argv :
  demo_dispatch fl argv = None ->
  forall s, demo_execute pre run post fl argv s = (s, Ok Returns) \/ exists e, demo_execute pre run post fl argv s = (s, Err e).
Proof. intros Hd s. left. unfold demo_execute. by rewrite Hd. Qed.

Definition demo_cobra : Cobra := {|
  dispatch := demo_dispatch;
  execute := demo_execute;
  dispatch_args := demo_dispatch_args;
  execute_runs := demo_execute_runs;
  execute_usage := demo_execute_usage
|}.

(** A daemon on which every call succeeds and every process exits with [code]. *)
Definition demo_daemon (code : option Z) : World := {|
  answer := fun T h c =>
    match c in Call T return T with
    | LoadContainer _ => true | GetTask _ => true | TaskExec _ _ _ _ => true | ProcessWait _ _ => true
    | WaitExit _ => code | TaskStatus _ => Some PCreated | ContainerdNew _ _ => true | ClientClose => true
    | c => failing c
    end;
  url_ok := fun _ => true;
  json_manifest := fun _ _ => None;
  json_token := fun _ => ("", false);
  conn_ok := true
|}.

Definition demo_cfg : Config := NerdctlContainer.Default.

(** A process that ends with 256 is reported as a success. *)
Example exec_256 :
  (main (W := demo_daemon (Some 256%Z)) (H := demo_cobra) demo_cfg pretty ["exec"; "c"; "ls"] []).2 = 0%Z.
Proof. vm_compute. reflexivity. Qed.

Lemma cli_exit_status_witness :
  exists evs st, main (W := demo_daemon (Some 258%Z)) (H := demo_cobra) demo_cfg pretty ["exec"; "c"; "ls"] [] = (evs, st) /\
    (0 <= st < 256)%Z.
Proof.
  destruct (cli_exit_status (W := demo_daemon (Some 258%Z)) (H := demo_cobra) demo_cfg pretty ["exec"; "c"; "ls"] []
    execCmd init_flags ["c"; "ls"] eq_refl eq_refl) as (evs & st & Hm & Hst & _).
  exists ([] ++ evs), st. split; [exact Hm|exact Hst].
Defined.

Lemma cli_reports_witness :
  (main (W := demo_daemon None) (H := demo_cobra) demo_cfg pretty ["stop"; "c"] []).2 = 0%Z.
Proof.
  destruct (cli_reports (W := demo_daemon None) (H := demo_cobra) demo_cfg pretty ["stop"; "c"] [] stopCmd init_flags ["c"]
    (fun a => NerdctlContainer.Stop a (10 * 10 ^ 9)) (fun a => "Stopped: " +:+ a) eq_refl (fun a => eq_refl)) as (a & [= <-] & Hm).
  cbv zeta in Hm. cbn in Hm. rewrite Hm. reflexivity.
Defined.
