(* ===== verification/Dockerfile.v ===== *)
(** * The Dockerfile parser: mini-docker/internal/builder/parser/parser.go

    [Parse] reads the lines of a Dockerfile, [parseLine] one instruction and
    [shellSplit] its arguments.  The specification is the printer [render]:
    parsing what it prints gives the instructions back.  The last theorems say
    what the code does with a continued line. *)

From S2P Require Import Prelude.
From S2P Require Import GoStrings.

(** ** The code *)

Definition InstrFROM : string := "FROM".
Definition InstrRUN : string := "RUN".
Definition InstrCOPY : string := "COPY".
Definition InstrCMD : string := "CMD".
Definition InstrENTRYPOINT : string := "ENTRYPOINT".
Definition InstrENV : string := "ENV".
Definition InstrWORKDIR : string := "WORKDIR".
Definition InstrEXPOSE : string := "EXPOSE".
Definition InstrLABEL : string := "LABEL".

Record Instruction : Type := mkInstruction {
  i_Type : string;
  i_Args : list string;
  i_Raw : string;
  i_Line : Z
}.

Inductive ParseErr : Type :=
| ErrRequiresArgs (ty : string)
| ErrUnknownInstruction (ty : string)
| ErrLine (line : Z) (e : ParseErr).

(** [if current.Len() > 0 { args = append(args, current.String()) }]. *)
Definition flush (args : list string) (current : string) : list string :=
  if 0 <? String.length current then args ++ [current] else args.

(** The loop over the runes of the argument. *)
Fixpoint shellSplit_loop (s : list string) (args : list string) (current : string)
    (inSingle inDouble : bool) : list string :=
  match s with
  | [] => flush args current
  | c :: s' =>
      if String.eqb c (str1 ch_squote) && negb inDouble then
        shellSplit_loop s' args current (negb inSingle) inDouble
      else if String.eqb c dq && negb inSingle then
        shellSplit_loop s' args current inSingle (negb inDouble)
      else if String.eqb c " " && negb inSingle && negb inDouble then
        shellSplit_loop s' (flush args current) "" inSingle inDouble
      else shellSplit_loop s' args (current +:+ c) inSingle inDouble
  end.

Definition shellSplit (s : string) : list string := shellSplit_loop (str_runes s) [] "" false false.

Definition one_of (ty : string) (tys : list string) : bool := existsb (String.eqb ty) tys.

Definition parseLine (line : string) : res ParseErr Instruction :=
  let parts := str_splitN 2 ch_space line in
  let ty := to_upper (str_hd parts) in
  let instr args := Ok (mkInstruction ty args line 0) in
  let optional (f : string -> list string) :=
    match parts with _ :: p1 :: _ => instr (f p1) | _ => instr [] end in
  if one_of ty [InstrFROM; InstrRUN; InstrCOPY] then
    match parts with
    | _ :: p1 :: _ => instr (shellSplit p1)
    | _ => Err (ErrRequiresArgs ty)
    end
  else if one_of ty [InstrCMD; InstrENTRYPOINT] then optional shellSplit
  else if one_of ty [InstrENV] then optional shellSplit
  else if one_of ty [InstrWORKDIR] then optional (fun p => [p])
  else if one_of ty [InstrEXPOSE] then optional str_fields
  else if one_of ty [InstrLABEL] then optional (fun p => [p])
  else Err (ErrUnknownInstruction ty).

Definition skipped (line : string) : bool := String.eqb line "" || has_prefix line "#".

(** The inner loop: [rest] is [lines[i+1:]]; the result is the joined line and
    the value of [i] after the loop. *)
Fixpoint continue_line (line : string) (rest : list string) (i : Z) : string * Z :=
  if has_suffix line (str1 ch_backslash) then
    let line := str_take (String.length line - 1) line in
    match rest with
    | [] => (line, (i + 1)%Z)
    | l :: rest' => continue_line (line +:+ " " +:+ trim_space l) rest' (i + 1)%Z
    end
  else (line, i).

Definition set_line (n : Z) (ins : Instruction) : Instruction :=
  mkInstruction (i_Type ins) (i_Args ins) (i_Raw ins) n.

(** One iteration: the line [l] at index [i], followed by [rest]. *)
Definition parse_at (l : string) (rest : list string) (i : Z) : res ParseErr Instruction :=
  let '(line, i') := continue_line (trim_space l) rest i in
  res_bind (res_wrap (ErrLine (i' + 1)) (parseLine line)) (fun ins => Ok (set_line (i' + 1) ins)).

(** [for i, line := range lines]: the inner loop's changes to [i] do not reach
    the next iteration, which starts from the next line whatever was joined. *)
Fixpoint parse_lines (lines : list string) (i : Z) : res ParseErr (list Instruction) :=
  match lines with
  | [] => Ok []
  | l :: rest =>
      if skipped (trim_space l) then parse_lines rest (i + 1)
      else
        res_bind (parse_at l rest i) (fun ins =>
        res_bind (parse_lines rest (i + 1)) (fun instrs => Ok (ins :: instrs)))
  end.

Definition Parse (dockerfile : string) : res ParseErr (list Instruction) :=
  parse_lines (str_split ch_newline dockerfile) 0.

Definition bs : string := str1 ch_backslash.

Example Parse_demo :
  Parse ("# build" +:+ nl +:+ "from alpine:3" +:+ nl +:+ "RUN " +:+ dq +:+ "make all" +:+ dq +:+ " x") =
  Ok [mkInstruction "FROM" ["alpine:3"] "from alpine:3" 2;
      mkInstruction "RUN" ["make all"; "x"] ("RUN " +:+ dq +:+ "make all" +:+ dq +:+ " x") 3].
Proof. reflexivity. Qed.

Example Parse_cont :
  Parse ("RUN apt update " +:+ bs +:+ nl +:+ " && apt install x") =
  Err (ErrLine 2 (ErrUnknownInstruction "&&")).
Proof. reflexivity. Qed.

Example Parse_cont_end :
  Parse ("FROM x" +:+ bs) = Ok [mkInstruction "FROM" ["x"] "FROM x" 2].
Proof. reflexivity. Qed.

(** ** The specification *)

(** The lines [Parse] turns into instructions, each with what follows it and
    its index. *)
Fixpoint statements (lines : list string) (i : Z) : list (string * list string * Z) :=
  match lines with
  | [] => []
  | l :: rest =>
      (if skipped (trim_space l) then [] else [(l, rest, i)]) ++ statements rest (i + 1)
  end.

Definition keywords : list string :=
  [InstrFROM; InstrRUN; InstrCOPY; InstrCMD; InstrENTRYPOINT; InstrENV; InstrWORKDIR;
   InstrEXPOSE; InstrLABEL].

(** A line that says nothing: white space, or white space and a comment. *)
Definition idle (l : string) : Prop :=
  exists w r, l = w +:+ r /\ str_all is_space w = true /\ (r = "" \/ exists t, r = String "#" t).

(** The text of an instruction that begins with [line]: a backslash at the end is
    replaced by a space and the next line without its outer white space, [n] times
    in all; a backslash on the last line is dropped, which counts. *)
Inductive joins : string -> list string -> string -> nat -> Prop :=
| joins_end line rest : has_suffix line bs = false -> joins line rest line 0
| joins_last p : joins (p +:+ bs) [] p 1
| joins_next p l rest line n : joins (p +:+ " " +:+ trim_space l) rest line n -> joins (p +:+ bs) (l :: rest) line (S n).

(** What a text says: its first word in capitals and what follows. *)
Definition args_of (ty p : string) (args : list string) : Prop :=
  (ty ∈ [InstrFROM; InstrRUN; InstrCOPY; InstrCMD; InstrENTRYPOINT; InstrENV] /\ args = shellSplit p) \/
  (ty ∈ [InstrWORKDIR; InstrLABEL] /\ args = [p]) \/
  (ty = InstrEXPOSE /\ args = str_fields p).

Inductive means : string -> string -> list string -> Prop :=
| means_args w p args : str_has ch_space w = false -> args_of (to_upper w) p args -> means (w +:+ " " +:+ p) (to_upper w) args
| means_bare w : str_has ch_space w = false ->
    to_upper w ∈ [InstrCMD; InstrENTRYPOINT; InstrENV; InstrWORKDIR; InstrEXPOSE; InstrLABEL] -> means w (to_upper w) [].

(** What is wrong with a text. *)
Inductive wrong : string -> ParseErr -> Prop :=
| wrong_bare w : str_has ch_space w = false -> to_upper w ∈ [InstrFROM; InstrRUN; InstrCOPY] ->
    wrong w (ErrRequiresArgs (to_upper w))
| wrong_word w r : str_has ch_space w = false -> (r = "" \/ exists p, r = " " +:+ p) -> to_upper w ∉ keywords ->
    wrong (w +:+ r) (ErrUnknownInstruction (to_upper w)).

(** The [k]th line has the text [line], which takes [n] more lines. *)
Definition text_at (lines : list string) (k : nat) (line : string) (n : nat) : Prop :=
  exists l, lines !! k = Some l /\ ~ idle l /\ joins (trim_space l) (drop (S k) lines) line n.

Definition reads (lines : list string) (k : nat) (ins : Instruction) : Prop :=
  exists n, text_at lines k (i_Raw ins) n /\ means (i_Raw ins) (i_Type ins) (i_Args ins) /\
    i_Line ins = (Z.of_nat k + Z.of_nat n + 1)%Z.

(** Printing an instruction with its arguments in double quotes. *)
Definition quote (a : string) : string := dq +:+ a +:+ dq.

Definition render (ins : string * list string) : string :=
  ins.1 +:+ " " +:+ str_join " " (map quote ins.2).

Definition arg_ok (a : string) : bool :=
  negb (String.eqb a "") && negb (str_has ch_dquote a) && negb (str_has ch_newline a).

Definition render_ok (ins : string * list string) : bool :=
  one_of ins.1 [InstrFROM; InstrRUN; InstrCOPY; InstrCMD; InstrENTRYPOINT; InstrENV] &&
  negb (length ins.2 =? 0) && forallb arg_ok ins.2.

(** ** Lemmas: the shell splitter *)

Lemma one_of_spec (ty : string) (tys : list string) : one_of ty tys = true <-> ty ∈ tys.
Proof.
  unfold one_of. rewrite existsb_exists. setoid_rewrite String.eqb_eq. split.
  - intros (x & Hx%list_elem_of_In & ->). done.
  - intros H. exists ty. by split; [apply list_elem_of_In|].
Qed.

(** No rune of a text without a double quote is one. *)
Lemma runes_no_dquote (a : string) : str_has ch_dquote a = false -> Forall (fun c => String.eqb c dq = false) (str_runes a).
Proof.
  unfold str_runes. generalize (String.length a) as n. intros n. revert a. induction n as [|n IH]; intros [|c a] H; try constructor.
  cbn [runes_from]. assert (Hd : forall k, str_has ch_dquote (str_drop k (String c a)) = false).
  { intros k. clear IH. revert H. generalize (String c a) as s. induction k as [|k IHk]; intros [|x s] H; try done.
    cbn in *. apply orb_false_iff in H as [_ H]. by apply IHk. }
  destruct (rune_width (String c a)) as [k|] eqn:Hk; (constructor; [|by apply IH, Hd]); [|done].
  apply rune_width_length in Hk. destruct k as [|k]; [lia|]. cbn [str_has] in H. apply orb_false_iff in H as [H _].
  cbn. unfold dq, str1. cbn. by rewrite H.
Qed.

(** Inside double quotes everything is kept. *)
Lemma shellSplit_quoted (l t args : list string) (cur : string) :
  Forall (fun c => String.eqb c dq = false) l ->
  shellSplit_loop (l ++ dq :: t) args cur false true = shellSplit_loop t args (cur +:+ String.concat "" l) false false.
Proof.
  intros Hl. revert cur. induction Hl as [|c l Hc Hl IH]; intros cur.
  - cbn [app String.concat]. by rewrite str_app_nil_r.
  - cbn [app shellSplit_loop]. rewrite Hc, !andb_false_r. cbn [andb]. rewrite IH, str_app_assoc. f_equal. f_equal.
    destruct l as [|c' l]; [by cbn; rewrite str_app_nil_r|done].
Qed.

Lemma shellSplit_quote (a t : string) (args : list string) :
  str_has ch_dquote a = false ->
  shellSplit_loop (str_runes (quote a +:+ t)) args "" false false = shellSplit_loop (str_runes t) args (str_valid a) false false.
Proof.
  intros H. unfold quote, dq, str1. rewrite !str_app_assoc. cbn [String.append].
  rewrite str_runes_ascii, str_runes_app by done.
  change (shellSplit_loop (str1 ch_dquote :: ?x) args "" false false) with (shellSplit_loop x args "" false true).
  by rewrite shellSplit_quoted by by apply runes_no_dquote.
Qed.

Lemma flush_nonempty (args : list string) (a : string) : a <> "" -> flush args a = args ++ [a].
Proof. by destruct a. Qed.

Lemma arg_ok_spec (a : string) :
  arg_ok a = true <-> a <> "" /\ str_has ch_dquote a = false /\ str_has ch_newline a = false.
Proof.
  unfold arg_ok. rewrite !andb_true_iff, !negb_true_iff, String.eqb_neq. tauto.
Qed.

(** An argument that is not empty stays so. *)
Lemma str_valid_nonempty (a : string) : a <> "" -> str_valid a <> "".
Proof.
  intros Ha. unfold str_valid, str_runes. destruct a as [|c a]; [done|]. cbn [String.length runes_from].
  assert (Hne : forall w l, w <> "" -> String.concat "" (w :: l) <> "") by (intros [|x w] [|y l] Hw; done).
  destruct (rune_width (String c a)) as [k|] eqn:Hk; apply Hne; [|done].
  apply rune_width_length in Hk. by destruct k; [lia|].
Qed.

Lemma shellSplit_join (l args : list string) :
  l <> [] -> forallb arg_ok l = true ->
  shellSplit_loop (str_runes (str_join " " (map quote l))) args "" false false = args ++ map str_valid l.
Proof.
  revert args. induction l as [|a l IH]; intros args Hne Hok; [done|].
  cbn [forallb] in Hok. apply andb_true_iff in Hok as [(Ha%str_valid_nonempty & Hq & _)%arg_ok_spec Hl].
  destruct l as [|b l].
  - cbn [map str_join]. rewrite <- (str_app_nil_r (quote a)), shellSplit_quote by done.
    by apply flush_nonempty.
  - cbn [map]. rewrite str_join_cons by done. rewrite shellSplit_quote by done.
    change (" " +:+ ?x) with (String ch_space x). rewrite str_runes_ascii by done.
    change (shellSplit_loop (str1 ch_space :: ?x) args (str_valid a) false false)
      with (shellSplit_loop x (flush args (str_valid a)) "" false false).
    change (quote b :: map quote l) with (map quote (b :: l)).
    rewrite IH by done. by rewrite flush_nonempty, <- (assoc_L (++)).
Qed.

(** ** Lemmas: lines *)

Lemma has_suffix_app (s t : string) : has_suffix (s +:+ t) t = true.
Proof.
  unfold has_suffix. rewrite str_app_length.
  replace (String.length s + String.length t - String.length t) with (String.length s) by lia.
  rewrite str_drop_app, String.eqb_refl, andb_true_r. apply Nat.leb_le. lia.
Qed.

Lemma has_suffix_last (s : string) (a c : ascii) : has_suffix (s +:+ str1 a) (str1 c) = Ascii.eqb a c.
Proof.
  unfold has_suffix. rewrite str_app_length. cbn [String.length str1].
  replace (String.length s + 1 - 1) with (String.length s) by lia.
  rewrite str_drop_app. replace (1 <=? String.length s + 1) with true
    by (symmetry; apply Nat.leb_le; lia).
  unfold str1. cbn. by destruct (Ascii.eqb a c).
Qed.

Lemma continue_line_id (line : string) (rest : list string) (i : Z) :
  has_suffix line (str1 ch_backslash) = false -> continue_line line rest i = (line, i).
Proof. intros H. destruct rest; cbn [continue_line]; by rewrite H. Qed.

(** A printed line: it starts with a letter and ends with a double quote. *)
Lemma str_join_quote (l : list string) :
  l <> [] -> exists m, str_join " " (map quote l) = m +:+ dq.
Proof.
  induction l as [|a l IH]; intros H; [done|]. destruct l as [|b l].
  - exists (dq +:+ a). unfold quote. cbn [map str_join]. by rewrite str_app_assoc.
  - destruct IH as [m Hm]; [done|]. cbn [map] in *. rewrite str_join_cons, Hm by done.
    exists (quote a +:+ " " +:+ m). by rewrite !str_app_assoc.
Qed.

Lemma str_has_join (c : ascii) (sep : string) (l : list string) :
  str_has c sep = false -> Forall (fun w => str_has c w = false) l -> str_has c (str_join sep l) = false.
Proof.
  intros Hs HF. induction HF as [|w l Hw HF IH]; [done|]. destruct l as [|w' l]; [done|].
  rewrite str_join_cons by done. by rewrite !str_has_app, Hw, Hs, IH.
Qed.

Lemma render_no_newline (ins : string * list string) :
  render_ok ins = true -> str_has ch_newline (render ins) = false.
Proof.
  unfold render_ok, render. destruct ins as [ty args]. cbn [fst snd]. intros H. bool_simp.
  rewrite !str_has_app. apply orb_false_iff. split.
  - match goal with H : one_of _ _ = true |- _ => apply one_of_spec in H end.
    repeat match goal with H : _ ∈ _ :: _ |- _ => apply elem_of_cons in H as [->|H]; [done|] end.
    by apply not_elem_of_nil in H.
  - cbn [str_has]. apply str_has_join; [done|]. apply Forall_map, Forall_forall. intros a Ha.
    match goal with H : forallb _ _ = true |- _ =>
      rewrite forallb_forall in H; apply list_elem_of_In, H, arg_ok_spec in Ha as (_ & _ & Hn) end.
    unfold quote. cbn. by rewrite str_has_app, Hn.
Qed.

(** A line that starts with [ty] and a space and ends with a double quote is
    read as it stands. *)
Lemma render_line (ins : string * list string) (rest : list string) (i : Z) :
  render_ok ins = true ->
  skipped (trim_space (render ins)) = false /\
  parse_at (render ins) rest i = Ok (mkInstruction ins.1 (map str_valid ins.2) (render ins) (i + 1)).
Proof.
  unfold render_ok, parse_at. destruct ins as [ty args]. cbn [fst snd]. intros H. bool_simp.
  assert (Hne : args <> []) by (intros ->; done).
  destruct (str_join_quote args Hne) as [m Hm].
  match goal with H : one_of _ _ = true |- _ => apply one_of_spec in H as Hty end.
  assert (Hshape : exists a t, is_space a = false /\ Ascii.eqb a "#"%char = false /\
    render (ty, args) = String a t +:+ dq).
  { assert (Hw : exists a w, ty = String a w /\ is_space a = false /\ Ascii.eqb a "#"%char = false).
    { repeat match goal with H : ty ∈ _ :: _ |- _ =>
        apply elem_of_cons in H as [->|H];
        [do 2 eexists; split_and!; [reflexivity|reflexivity|reflexivity]|] end.
      by apply not_elem_of_nil in Hty. }
    destruct Hw as (a & w & -> & Ha & Hh). exists a, (w +:+ " " +:+ m). split_and!; [done|done|].
    unfold render. cbn [fst snd]. rewrite Hm. cbn [String.append]. by rewrite !str_app_assoc. }
  destruct Hshape as (a & t & Ha & Hh & Hr).
  assert (Htrim : trim_space (render (ty, args)) = render (ty, args)).
  { rewrite Hr. by apply trim_space_id. }
  rewrite Htrim. split.
  - rewrite Hr. unfold skipped, has_prefix. cbn. by rewrite Hh.
  - rewrite continue_line_id by (rewrite Hr; apply has_suffix_last).
    assert (Hp : parseLine (render (ty, args)) = Ok (mkInstruction ty (map str_valid args) (render (ty, args)) 0)).
    { unfold parseLine, render. cbn [fst snd].
      assert (Hs : shellSplit (str_join " " (map quote args)) = map str_valid args) by by apply shellSplit_join.
      repeat match goal with H : ty ∈ _ :: _ |- _ =>
        apply elem_of_cons in H as [->|H];
        [change (" " +:+ ?x) with (String ch_space x);
         rewrite str_splitN_app by done; cbn -[shellSplit]; by rewrite Hs|] end.
      by apply not_elem_of_nil in Hty. }
    rewrite Hp. reflexivity.
Qed.

Lemma parse_lines_render (l : list (string * list string)) (i : Z) :
  forallb render_ok l = true ->
  parse_lines (map render l) i =
  Ok (imap (fun k ins => mkInstruction ins.1 (map str_valid ins.2) (render ins) (i + Z.of_nat k + 1)) l).
Proof.
  revert i. induction l as [|ins l IH]; intros i H; [done|]. cbn [forallb] in H. bool_simp.
  cbn [map parse_lines]. destruct (render_line ins (map render l) i) as [H1 H2]; [done|].
  rewrite H1, H2. cbn [res_bind]. rewrite IH by done. cbn [res_bind imap]. f_equal. f_equal.
  - f_equal. lia.
  - apply imap_ext. intros k x _. cbn. f_equal. lia.
Qed.

(** *** Continued lines keep their first word *)

Lemma has_suffix_inv (s t : string) : has_suffix s t = true -> exists p, s = p +:+ t.
Proof.
  unfold has_suffix. intros H. bool_simp.
  match goal with H : String.eqb _ _ = true |- _ => apply String.eqb_eq in H as Heq end.
  exists (str_take (String.length s - String.length t) s).
  rewrite <- Heq at 2. by rewrite str_take_drop.
Qed.

Lemma str_last_split (p w t : string) (c : ascii) :
  p +:+ str1 c = w +:+ String ch_space t -> c <> ch_space ->
  exists t', p = w +:+ String ch_space t'.
Proof.
  unfold str1. revert w. induction p as [|a p IH]; intros w H Hc.
  - destruct w as [|b w]; cbn in H; injection H; [done|]. by destruct w.
  - destruct w as [|b w]; cbn in H.
    + injection H as -> _. by exists p.
    + injection H as -> H. destruct (IH w H Hc) as [t' ->]. by exists t'.
Qed.

Lemma continue_line_word (w t : string) (rest : list string) (i : Z) :
  exists t' i', continue_line (w +:+ String ch_space t) rest i = (w +:+ String ch_space t', i').
Proof.
  revert t i. induction rest as [|l rest IH]; intros t i; cbn [continue_line];
    (destruct (has_suffix _ _) eqn:Hs; [|by eauto]);
    apply has_suffix_inv in Hs as [p Hp];
    destruct (str_last_split p w t ch_backslash) as [t' Ht']; [by symmetry|done| |by symmetry|done|];
    rewrite Hp, str_app_length; cbn [str1 String.length]; rewrite Nat.add_sub, str_take_app, Ht'.
  - by eauto.
  - rewrite str_app_assoc. apply IH.
Qed.

(** *** The specification of a line *)

Lemma trim_left_app (f : ascii -> bool) (w r : string) : str_all f w = true -> trim_left f (w +:+ r) = trim_left f r.
Proof. induction w as [|a w IH]; [done|]. cbn. intros [-> H]%andb_true_iff. by apply IH. Qed.

Lemma trim_left_split (f : ascii -> bool) (l : string) :
  exists w, l = w +:+ trim_left f l /\ str_all f w = true /\
    (trim_left f l = "" \/ exists a t, trim_left f l = String a t /\ f a = false).
Proof.
  induction l as [|a l (w & Hl & Hw & Hr)]; [by exists ""; auto|]. cbn [trim_left]. destruct (f a) eqn:Ha.
  - exists (String a w). cbn. rewrite Ha, <- Hl. done.
  - exists "". split_and!; [done|done|right; eauto].
Qed.

Lemma trim_right_head (f : ascii -> bool) (a : ascii) (t : string) :
  f a = false -> exists t', trim_right f (String a t) = String a t'.
Proof. intros Ha. cbn [trim_right]. destruct (trim_right f t); rewrite ?Ha; unfold str1; eauto. Qed.

Lemma skipped_String (a : ascii) (t : string) : skipped (String a t) = Ascii.eqb a "#".
Proof. unfold skipped, has_prefix. cbn. by destruct (Ascii.eqb a "#"%char). Qed.

Lemma trim_space_idle (l : string) : skipped (trim_space l) = true <-> idle l.
Proof.
  unfold trim_space. split.
  - intros Hs. destruct (trim_left_split is_space l) as (w & Hl & Hw & [Hr|(a & t & Hr & Ha)]); rewrite Hr in *.
    { exists w, "". auto. }
    destruct (trim_right_head is_space a t Ha) as [t' Ht]. rewrite Ht, skipped_String in Hs.
    apply Ascii.eqb_eq in Hs as ->. exists w, (String "#" t). eauto.
  - intros (w & r & -> & Hw & Hr). rewrite trim_left_app by done. destruct Hr as [->|[t ->]]; [done|].
    rewrite trim_left_id by done. destruct (trim_right_head is_space "#"%char t eq_refl) as [t' ->]. by rewrite skipped_String.
Qed.

Lemma continue_line_joins (rest : list string) (line : string) (i : Z) :
  exists n, joins line rest (continue_line line rest i).1 n /\ (continue_line line rest i).2 = (i + Z.of_nat n)%Z.
Proof.
  assert (Hs : forall line, has_suffix line bs = true ->
    exists p, line = p +:+ bs /\ str_take (String.length line - 1) line = p).
  { intros s [p ->]%has_suffix_inv. exists p. split; [done|]. rewrite str_app_length. cbn [String.length bs str1].
    by rewrite Nat.add_sub, str_take_app. }
  revert line i. induction rest as [|l rest IH]; intros line i; cbn [continue_line]; fold bs;
    (destruct (has_suffix line bs) eqn:Hb; [|exists 0; split; [by constructor|cbn; lia]]);
    destruct (Hs line Hb) as (p & Hl & ->).
  - exists 1. rewrite Hl. split; [constructor|cbn; lia].
  - destruct (IH (p +:+ " " +:+ trim_space l) (i + 1)%Z) as (n & Hj & Hi). exists (S n). rewrite Hl. split; [by constructor|].
    rewrite Hi. lia.
Qed.

Lemma first_word (line : string) :
  (str_has ch_space line = false /\ str_splitN 2 ch_space line = [line]) \/
  exists w p, line = w +:+ " " +:+ p /\ str_has ch_space w = false /\ str_splitN 2 ch_space line = [w; p].
Proof.
  destruct (str_has ch_space line) eqn:Hs; [right|left; split; [done|by apply str_splitN_notin]].
  destruct (str_index ch_space line) as [i|] eqn:Hi; [|by apply str_index_None in Hi; congruence].
  apply str_index_Some in Hi as (H1 & H2 & _). exists (str_take i line), (str_drop (S i) line).
  split; [exact H1|]. split; [done|]. rewrite H1 at 1. by rewrite (str_splitN_app 0).
Qed.

(** The word [ty] is one of the keywords of a case, or of none. *)
Lemma keyword_cases (ty : string) :
  match one_of ty [InstrFROM; InstrRUN; InstrCOPY], one_of ty [InstrCMD; InstrENTRYPOINT], one_of ty [InstrENV],
    one_of ty [InstrWORKDIR], one_of ty [InstrEXPOSE], one_of ty [InstrLABEL] with
  | false, false, false, false, false, false => ty ∉ keywords
  | _, _, _, _, _, _ => True
  end.
Proof.
  repeat case_match; try done.
  change keywords with ([InstrFROM; InstrRUN; InstrCOPY] ++ [InstrCMD; InstrENTRYPOINT] ++ [InstrENV] ++ [InstrWORKDIR] ++
    [InstrEXPOSE] ++ [InstrLABEL]).
  rewrite !not_elem_of_app. by split_and!; intros ?%one_of_spec; congruence.
Qed.

(** Membership in a list of keywords from membership in a shorter one. *)
Ltac keyword :=
  match goal with H : one_of _ _ = true |- _ =>
    apply one_of_spec in H; rewrite ?elem_of_cons, ?elem_of_nil in *; tauto
  end.

Lemma parseLine_spec (line : string) :
  match parseLine line with
  | Ok ins => means line (i_Type ins) (i_Args ins) /\ i_Raw ins = line
  | Err e => wrong line e
  | Panic => False
  end.
Proof.
  unfold parseLine. destruct (first_word line) as [[Hs ->]|(w & p & -> & Hs & ->)]; cbn [str_hd];
    match goal with |- context [one_of (to_upper ?w) _] =>
      pose proof (keyword_cases (to_upper w)) as Hk; remember (to_upper w) as ty
    end.
  all: repeat match goal with |- context [one_of ?t ?l] => destruct (one_of t l) eqn:?; [clear Hk|] end.
  all: cbn [i_Type i_Args i_Raw].
  1: subst ty; constructor; [done|by apply one_of_spec].
  1-5: split; [subst ty; apply means_bare; [done|keyword]|done].
  1: rewrite <- (str_app_nil_r line); subst ty; constructor; [done|by left|done].
  1-6: split; [subst ty; apply means_args; [done|unfold args_of]|done].
  1-3: left; split; [keyword|done].
  1,3: right; left; split; [keyword|done].
  - right; right; split; [by apply list_elem_of_singleton, one_of_spec|done].
  - subst ty; constructor; [done|by eauto|done].
Qed.

Lemma parse_at_spec (lines : list string) (k : nat) (l : string) :
  lines !! k = Some l -> skipped (trim_space l) = false ->
  match parse_at l (drop (S k) lines) (Z.of_nat k) with
  | Ok ins => reads lines k ins
  | Err e => exists line n e', text_at lines k line n /\ wrong line e' /\ e = ErrLine (Z.of_nat k + Z.of_nat n + 1) e'
  | Panic => False
  end.
Proof.
  intros Hl Hs. assert (Hi : ~ idle l) by (rewrite <- trim_space_idle; congruence). unfold parse_at.
  destruct (continue_line_joins (drop (S k) lines) (trim_space l) (Z.of_nat k)) as (n & Hj & Hn).
  destruct (continue_line _ _ _) as [line i']. cbn [fst snd] in *. subst i'.
  assert (Ht : text_at lines k line n) by by exists l. pose proof (parseLine_spec line) as Hp.
  destruct (parseLine line) as [ins|e|]; cbn in *; [|by eauto 8|done].
  destruct Hp as [Hp Hr]. exists n. cbn. rewrite Hr. split_and!; [done|done|lia].
Qed.

(** The lines from the [k]th on. *)
Lemma parse_lines_spec (lines post : list string) (k0 : nat) :
  post = drop k0 lines ->
  match parse_lines post (Z.of_nat k0) with
  | Ok instrs =>
      exists ks, (forall k, k ∈ ks <-> k0 <= k /\ exists l, lines !! k = Some l /\ ~ idle l) /\
        StronglySorted lt ks /\ Forall2 (reads lines) ks instrs
  | Err e =>
      exists k line n e', text_at lines k line n /\ wrong line e' /\ e = ErrLine (Z.of_nat k + Z.of_nat n + 1) e' /\
        forall j l, k0 <= j < k -> lines !! j = Some l -> idle l \/ exists ins, reads lines j ins
  | Panic => False
  end.
Proof.
  revert k0. induction post as [|l post IH]; intros k0 Hd; cbn [parse_lines].
  { exists []. split_and!; [|constructor|constructor]. intros k. split; [by intros ?%not_elem_of_nil|].
    intros (Hk & l & Hl%lookup_lt_Some & _). assert (length (drop k0 lines) = 0) by by rewrite <- Hd.
    rewrite length_drop in *. lia. }
  assert (Hl : lines !! k0 = Some l) by (rewrite <- (Nat.add_0_r k0), <- lookup_drop, <- Hd; done).
  assert (Hpost : post = drop (S k0) lines) by (rewrite (drop_S _ _ _ Hl) in Hd; by injection Hd).
  specialize (IH (S k0) Hpost). replace (Z.of_nat (S k0)) with (Z.of_nat k0 + 1)%Z in IH by lia.
  destruct (skipped (trim_space l)) eqn:Hs.
  - pose proof (proj1 (trim_space_idle l) Hs) as Hidle. destruct (parse_lines post _) as [instrs|e|]; [| |done].
    + destruct IH as (ks & Hk & HF). exists ks. split; [|done]. intros k. rewrite Hk. split; [intros [? ?]; split; [lia|done]|].
      intros (Hlt & l' & Hl' & Hi). split; [|eauto]. destruct (decide (k = k0)) as [->|]; [|lia]. by simplify_eq.
    + destruct IH as (k & line & n & e' & H1 & H2 & H3 & H4). exists k, line, n, e'. split_and!; try done.
      intros j l' Hj Hl'. destruct (decide (j = k0)) as [->|]; [left; by simplify_eq|]. apply H4; [lia|done].
  - assert (Hi : ~ idle l) by (rewrite <- trim_space_idle; congruence).
    pose proof (parse_at_spec lines k0 l Hl Hs) as Hp. rewrite <- Hpost in Hp.
    destruct (parse_at l post (Z.of_nat k0)) as [ins|e|]; cbn [res_bind]; [| |done].
    2: { destruct Hp as (line & n & e' & H1 & H2 & H3). exists k0, line, n, e'. split_and!; try done. intros j l' Hj. lia. }
    destruct (parse_lines post _) as [instrs|e|]; cbn [res_bind]; [| |done].
    + destruct IH as (ks & Hk & Hsort & HF). exists (k0 :: ks). split_and!; [|constructor; [done|]|by constructor].
      * intros k. rewrite elem_of_cons, Hk. split.
        -- intros [->|[? ?]]; [by eauto|split; [lia|done]].
        -- intros (Hlt & l' & Hl' & Hi'). destruct (decide (k = k0)) as [->|]; [by left|right]. split; [lia|eauto].
      * apply Forall_forall. intros k [? _]%Hk. lia.
    + destruct IH as (k & line & n & e' & H1 & H2 & H3 & H4). exists k, line, n, e'. split_and!; try done.
      intros j l' Hj Hl'. destruct (decide (j = k0)) as [->|]; [right; by eauto|]. apply H4; [lia|done].
Qed.

Lemma parse_lines_statements (lines : list string) (i : Z) (instrs : list Instruction) :
  parse_lines lines i = Ok instrs <->
  Forall2 (fun st ins => parse_at st.1.1 st.1.2 st.2 = Ok ins) (statements lines i) instrs.
Proof.
  revert i instrs. induction lines as [|l rest IH]; intros i instrs; cbn [parse_lines statements].
  - split; [by intros [= <-]|]. by inversion 1.
  - destruct (skipped (trim_space l)); [apply IH|]. cbn [app]. split.
    + destruct (parse_at l rest i) as [ins|e|] eqn:Hp; cbn [res_bind]; [|done..].
      destruct (parse_lines rest (i + 1)) as [ins'|e|] eqn:Hr; cbn [res_bind]; [|done..].
      intros [= <-]. constructor; [done|]. by apply IH.
    + inversion 1 as [|? ins ? ins' Hp Hr]; subst. cbn in Hp. rewrite Hp. cbn [res_bind].
      apply IH in Hr. by rewrite Hr.
Qed.

Lemma statements_app (l1 l2 : list string) (i : Z) :
  exists sts, statements (l1 ++ l2) i = sts ++ statements l2 (i + Z.of_nat (length l1)).
Proof.
  revert i. induction l1 as [|l l1 IH]; intros i; cbn [app statements length].
  - exists []. by rewrite Z.add_0_r.
  - destruct (IH (i + 1)%Z) as [sts ->]. eexists (_ ++ sts). rewrite <- (assoc_L (++)).
    do 3 f_equal. lia.
Qed.

Lemma parseLine_type (line : string) (ins : Instruction) :
  parseLine line = Ok ins -> i_Type ins = to_upper (str_hd (str_splitN 2 ch_space line)) /\ i_Type ins ∈ keywords.
Proof.
  unfold parseLine, one_of. cbv zeta. generalize (to_upper (str_hd (str_splitN 2 ch_space line))) as ty.
  intros ty H.
  assert (Hk : ty ∈ keywords).
  { apply one_of_spec. unfold one_of, keywords. cbn [existsb] in H |- *.
    by repeat (destruct (String.eqb ty _); [done|]; cbn [orb] in H |- * ). }
  split; [|by repeat case_match; simplify_eq/=]. by repeat case_match; simplify_eq/=.
Qed.

Lemma parse_at_type (l : string) (rest : list string) (i : Z) (ins : Instruction) :
  parse_at l rest i = Ok ins ->
  i_Type ins = to_upper (str_hd (str_splitN 2 ch_space (continue_line (trim_space l) rest i).1)) /\
  i_Type ins ∈ keywords.
Proof.
  unfold parse_at. destruct (continue_line (trim_space l) rest i) as [line i']. cbn [fst].
  destruct (parseLine line) as [ins0|e|] eqn:Hp; cbn; intros [= <-].
  by apply parseLine_type in Hp.
Qed.

Lemma parse_lines_no_panic (lines : list string) (i : Z) : parse_lines lines i <> Panic.
Proof.
  assert (Hl : forall line, parseLine line <> Panic) by (intros line; unfold parseLine; by repeat case_match).
  revert i. induction lines as [|l rest IH]; intros i; cbn [parse_lines]; [done|].
  destruct (skipped _); [apply IH|]. unfold parse_at. destruct (continue_line _ _ _) as [line i'].
  specialize (Hl line). specialize (IH (i + 1)%Z).
  destruct (parseLine line); cbn; [|done..]. by destruct (parse_lines rest (i + 1)).
Qed.

(** ** Theorems *)

(** C39: [Parse] makes one instruction of every line that is neither blank nor a
    comment, in order, whatever was continued before it.  The instruction of a
    line is what the line says together with the lines it continues on, its kind
    is the first word in capitals, its arguments are those of its kind, and its
    number is that of the last line it takes.  When [Parse] fails, every line
    before is idle or says something, the error is what is wrong with this line,
    and its number is that of the last line it takes.  [Parse] never panics. *)
Theorem Dockerfile_Parse_spec (d : string) :
  let lines := str_split ch_newline d in
  match Parse d with
  | Ok instrs =>
      exists ks, (forall k, k ∈ ks <-> exists l, lines !! k = Some l /\ ~ idle l) /\ StronglySorted lt ks /\
        Forall2 (reads lines) ks instrs
  | Err e =>
      exists k line n e', text_at lines k line n /\ wrong line e' /\ e = ErrLine (Z.of_nat k + Z.of_nat n + 1) e' /\
        forall j l, j < k -> lines !! j = Some l -> idle l \/ exists ins, reads lines j ins
  | Panic => False
  end.
Proof.
  cbv zeta. unfold Parse. generalize (str_split ch_newline d) as lines. intros lines.
  pose proof (parse_lines_spec lines lines 0 eq_refl) as Hs. change (Z.of_nat 0) with 0%Z in Hs.
  destruct (parse_lines lines 0) as [instrs|e|]; [| |exact Hs].
  - destruct Hs as (ks & Hk & Hsort & HF). exists ks. split; [|done]. intros k. rewrite Hk. split; [tauto|].
    intros H. split; [lia|done].
  - destruct Hs as (k & line & n & e' & H1 & H2 & H3 & H4). exists k, line, n, e'. split_and!; try done. intros j l Hj.
    apply H4. lia.
Qed.

(** C38: parsing undoes printing.  A Dockerfile printed from FROM, RUN, COPY, CMD,
    ENTRYPOINT and ENV instructions with at least one argument, each argument in
    double quotes (non-empty, without double quotes and newlines; spaces, single
    quotes, [#] and backslashes are allowed), parses to these instructions,
    numbered by their lines, with these arguments: byte for byte when they are
    valid UTF-8, as ASCII text is ([str_runes_all_ascii]); a byte that is not
    becomes U+FFFD. *)
Theorem Dockerfile_Parse_render (l : list (string * list string)) :
  forallb render_ok l = true ->
  Parse (str_join nl (map render l)) =
  Ok (imap (fun k ins => mkInstruction ins.1 (map str_valid ins.2) (render ins) (Z.of_nat k + 1)) l).
Proof.
  intros H. unfold Parse. destruct l as [|ins l]; [done|].
  unfold nl. rewrite str_split_join; [by rewrite parse_lines_render|done|].
  apply Forall_map, Forall_forall. intros x Hx. apply render_no_newline.
  rewrite forallb_forall in H. apply H. by apply list_elem_of_In.
Qed.

Lemma Dockerfile_Parse_render_witness :
  forallb render_ok [(InstrFROM, ["alpine:3.19"]); (InstrRUN, ["sh"; "-c"; "echo 'a  b' # \"])] = true /\
  Parse (str_join nl (map render [(InstrFROM, ["alpine:3.19"]); (InstrRUN, ["sh"; "-c"; "echo 'a  b' # \"])])) =
  Ok [mkInstruction InstrFROM ["alpine:3.19"] ("FROM " +:+ quote "alpine:3.19") 1;
      mkInstruction InstrRUN ["sh"; "-c"; "echo 'a  b' # \"]
        ("RUN " +:+ quote "sh" +:+ " " +:+ quote "-c" +:+ " " +:+ quote "echo 'a  b' # \") 2].
Proof.
  split; [vm_compute; reflexivity|].
  refine (eq_trans (Dockerfile_Parse_render _ _) _); vm_compute; reflexivity.
Defined.

(** every line that is not blank or a comment is read as an instruction of
    its own, also a line that continues the one before: when its first word is
    not one of the nine keywords, the Dockerfile is rejected. *)
Theorem every_line_is_an_instruction (d l w t : string) (pre post : list string) :
  str_split ch_newline d = pre ++ l :: post ->
  trim_space l = w +:+ String ch_space t -> str_has ch_space w = false ->
  skipped (trim_space l) = false ->
  to_upper w ∉ keywords ->
  exists e, Parse d = Err e.
Proof.
  intros Hd Hl Hw Hsk Hk. unfold Parse. rewrite Hd.
  destruct (parse_lines _ 0) as [instrs|e|] eqn:Hp; [exfalso|by exists e|by apply parse_lines_no_panic in Hp].
  apply parse_lines_statements in Hp.
  destruct (statements_app pre (l :: post) 0) as [sts Hst].
  rewrite Hst in Hp. cbn [statements] in Hp. rewrite Hsk in Hp. cbn [app] in Hp.
  apply Forall2_app_inv_l in Hp as (ins1 & ins2 & _ & Hp & _).
  inversion Hp as [|? ins ? ? Hat]; subst. apply parse_at_type in Hat as [Ht Hin]. cbn [fst snd] in *.
  rewrite Hl in Ht. destruct (continue_line_word w t post (0 + Z.of_nat (length pre))) as (t' & i' & Hc).
  rewrite Hc in Ht. cbn [fst] in Ht. rewrite str_splitN_app in Ht by done. cbn [str_hd] in Ht. by rewrite Ht in Hin.
Qed.

(** The second line continues the first, as a shell command often is. *)
Lemma every_line_is_an_instruction_witness :
  exists e, Parse ("RUN apt update " +:+ bs +:+ nl +:+ "  && apt install x") = Err e.
Proof.
  refine (every_line_is_an_instruction _ "  && apt install x" "&&" "apt install x" ["RUN apt update " +:+ bs] [] _ _ _ _ _);
    try (vm_compute; reflexivity).
  intros H. apply one_of_spec in H. vm_compute in H. discriminate H.
Defined.

(** A continued line of the same kind runs twice: once joined, once alone. *)
Example continuation_runs_twice :
  Parse ("RUN echo a; " +:+ bs +:+ nl +:+ "RUN echo b") =
  Ok [mkInstruction "RUN" ["echo"; "a;"; "RUN"; "echo"; "b"] "RUN echo a;  RUN echo b" 2;
      mkInstruction "RUN" ["echo"; "b"] "RUN echo b" 2].
Proof. reflexivity. Qed.
