(* ===== verification/Builder.v ===== *)
(** * The Dockerfile builder: mini-docker/internal/builder/builder.go

    [Build] parses a Dockerfile and runs its instructions one after the other:
    FROM pulls an image, RUN runs a shell command in a temporary directory of
    the host, COPY copies from the build context, the others only print.  What
    a command prints itself is left out. *)

From S2P Require Import Prelude.
From S2P Require Import GoStrings.
From S2P Require Import Sha256.
From S2P Require Import FileSystem.
From S2P Require Import ContentStore.
From S2P Require Import RegistryRef.
From S2P Require Import World.
From S2P Require Import DockerRegistry.
From S2P Require Import Dockerfile.
Open Scope go_scope.

Record BuildResult : Type := mkBuildResult {
  br_ImageID : string;
  br_Layers : nat
}.

(** The variables [currentImage] and [layerCount]. *)
Abbreviation BuildVars := (string * nat)%type.

Section builder.
Context {W : World} (buildCtxDir : string).

Definition step_line (ins : Instruction) (total : nat) : string :=
  "Step " +:+ pretty (i_Line ins) +:+ "/" +:+ pretty total +:+ " : " +:+ i_Raw ins.

Definition build_from (v : BuildVars) (ins : Instruction) : Client BuildVars :=
  match i_Args ins with
  | [] => go_panic
  | ref :: _ =>
      printf (" ---> Pulling " +:+ ref) ;;!
      go_wrap (wrapf ("pull " +:+ ref)) (Pull ref) ;;!
      printf (" ---> " +:+ ref) ;;!
      go_ret (ref, S v.2)
  end.

(** The temporary directory is removed on both paths. *)
Definition build_run (v : BuildVars) (ins : Instruction) : Client BuildVars :=
  if String.eqb v.1 "" then go_err ["no base image for RUN"]
  else
    match i_Args ins with
    | [] => go_panic
    | cmdStr :: _ =>
        printf (" ---> Running in " +:+ v.1 +:+ ": " +:+ cmdStr) ;;!
        tmpDir <-! do_call MkdirTemp ;
        ok <-! do_call (RunShell tmpDir cmdStr) ;
        ignore_call (RemoveAll tmpDir) ;;!
        if (ok : bool) then go_ret (v.1, S v.2) else go_err ["RUN " +:+ cmdStr]
    end.

Definition build_copy (v : BuildVars) (ins : Instruction) : Client BuildVars :=
  if String.eqb v.1 "" then go_err ["no base image for COPY"]
  else
    match i_Args ins with
    | src :: dst :: _ =>
        printf (" ---> COPY " +:+ src +:+ " -> " +:+ dst) ;;!
        try_call ["COPY " +:+ src] (RunCp (buildCtxDir +:+ "/" +:+ src) dst)
    | _ => go_ret tt
    end ;;!
    go_ret (v.1, S v.2).

Definition build_step (total : nat) (v : BuildVars) (ins : Instruction) : Client BuildVars :=
  printf (step_line ins total) ;;!
  if String.eqb (i_Type ins) InstrFROM then build_from v ins
  else if String.eqb (i_Type ins) InstrRUN then build_run v ins
  else if String.eqb (i_Type ins) InstrCOPY then build_copy v ins
  else if one_of (i_Type ins) [InstrENV; InstrWORKDIR; InstrCMD; InstrEXPOSE; InstrLABEL] then
    printf (" ---> " +:+ i_Type ins +:+ " (metadata only)") ;;! go_ret v
  else go_ret v.

Fixpoint build_loop (total : nat) (v : BuildVars) (instrs : list Instruction) : Client BuildVars :=
  match instrs with
  | [] => go_ret v
  | ins :: instrs' => v' <-! build_step total v ins ; build_loop total v' instrs'
  end.

Definition Build (dockerfile imageTag : string) : Client BuildResult :=
  match Parse dockerfile with
  | Err _ => go_err ["parse Dockerfile"]
  | Panic => go_panic
  | Ok instrs =>
      v <-! build_loop (length instrs) ("", 0) instrs ;
      go_ret (mkBuildResult (if negb (String.eqb imageTag "") then imageTag else v.1) v.2)
  end.

End builder.

(** ** The specification *)

(** What the build did to the host: shell commands and copies, in order. *)
Definition host_act (e : event) : list (string + string * string) :=
  match e with
  | @Ev _ c _ =>
      match c with RunShell _ cmd => [inl cmd] | RunCp src dst => [inr (src, dst)] | _ => [] end
  end.

Definition host_acts (evs : list event) : list (string + string * string) := flat_map host_act evs.

(** What one instruction asks for: of a RUN instruction, its first word. *)
Definition wanted (dir : string) (ins : Instruction) : list (string + string * string) :=
  if String.eqb (i_Type ins) InstrRUN then match i_Args ins with cmd :: _ => [inl cmd] | [] => [] end
  else if String.eqb (i_Type ins) InstrCOPY then
    match i_Args ins with src :: dst :: _ => [inr (dir +:+ "/" +:+ src, dst)] | _ => [] end
  else [].

(** The temporary directories made, and those removed. *)
Definition temp_made (e : event) : list string :=
  match e with
  | @Ev T c a => match c in Call T return T -> list string with MkdirTemp => fun d => [d] | _ => fun _ => [] end a
  end.
Definition temp_removed (e : event) : list string :=
  match e with @Ev _ c _ => match c with RemoveAll d => [d] | _ => [] end end.

Definition is_type (ty : string) (ins : Instruction) : bool := String.eqb (i_Type ins) ty.

(** The image of the last FROM. *)
Definition last_from (cur : string) (instrs : list Instruction) : string :=
  fold_left (fun cur ins =>
    if is_type InstrFROM ins then match i_Args ins with ref :: _ => ref | [] => cur end else cur) instrs cur.

Definition makes_layer (ins : Instruction) : bool :=
  is_type InstrFROM ins || is_type InstrRUN ins || is_type InstrCOPY ins.

Definition layers (instrs : list Instruction) : nat := length (List.filter makes_layer instrs).

(** ** Lemmas *)

Lemma host_acts_app (e1 e2 : list event) : host_acts (e1 ++ e2) = host_acts e1 ++ host_acts e2.
Proof. apply flat_map_app. Qed.

Definition clean (evs : list event) : Prop := flat_map temp_made evs = flat_map temp_removed evs.

Lemma clean_app (e1 e2 : list event) : clean e1 -> clean e2 -> clean (e1 ++ e2).
Proof. unfold clean. rewrite !flat_map_app. by intros -> ->. Qed.

Lemma remote_acts (evs : list event) : Forall remote evs -> host_acts evs = [] /\ clean evs.
Proof.
  unfold clean, host_acts. induction 1 as [|[T c a] evs Hr _ [IH1 IH2]]; [done|].
  cbn [flat_map]. rewrite IH1, IH2. by destruct c.
Qed.

Section lemmas.
Context {W : World} (dir : string).

(** What one step does: to the host exactly what its instruction asks for when
    it succeeds, a part of it otherwise; temporary directories do not stay. *)
Definition step_post (v : BuildVars) (ins : Instruction) (evs : list event) (r : res error BuildVars) : Prop :=
  clean evs /\
  match r with
  | Ok v' => host_acts evs = wanted dir ins /\ v'.1 = last_from v.1 [ins] /\ v'.2 = v.2 + layers [ins]
  | Err _ => host_acts evs `prefix_of` wanted dir ins
  | Panic => i_Args ins = [] /\ host_acts evs = []
  end.

(** The parts of the specification on one instruction of a known kind. *)
Ltac step_spec Hty :=
  unfold step_post, wanted, last_from, layers, makes_layer, is_type;
  cbn [fold_left List.filter]; rewrite Hty; cbn [String.eqb Ascii.eqb Bool.eqb orb length].

Lemma build_from_wp (v : BuildVars) (ins : Instruction) :
  i_Type ins = InstrFROM -> wp (build_from v ins) (step_post v ins).
Proof.
  intros Hty. unfold build_from. step_spec Hty.
  destruct (i_Args ins) as [|ref args]; [by apply wp_panic|].
  apply wp_bind, wp_ignore. intros a1. apply wp_bind, wp_wrap.
  eapply wp_mono; [apply (emits_wp _ _ _ (Pull_remote ref) (Pull_no_panic ref))|]. intros e1 r1 [Hr Hnp].
  apply remote_acts in Hr as [Hh Hc]. destruct r1 as [[]|e|]; cbn [res_wrap]; [| |done].
  - apply wp_bind, wp_ignore. intros a2. apply wp_ret. split; [by repeat apply clean_app|].
    rewrite !host_acts_app, Hh. by rewrite Nat.add_1_r.
  - split; [by apply clean_app|]. rewrite host_acts_app, Hh. apply prefix_nil.
Qed.

Lemma build_run_wp (v : BuildVars) (ins : Instruction) :
  i_Type ins = InstrRUN -> wp (build_run v ins) (step_post v ins).
Proof.
  intros Hty. unfold build_run. step_spec Hty.
  destruct (String.eqb v.1 ""); [apply wp_err; split; [done|apply prefix_nil]|].
  destruct (i_Args ins) as [|cmd args]; [by apply wp_panic|].
  apply wp_bind, wp_ignore. intros a1. apply wp_bind, wp_call. intros d. apply wp_bind, wp_call. intros ok.
  apply wp_bind, wp_ignore. intros a2. destruct ok; [apply wp_ret|by apply wp_err].
  split; [done|]. by rewrite Nat.add_1_r.
Qed.

Lemma build_copy_wp (v : BuildVars) (ins : Instruction) :
  i_Type ins = InstrCOPY -> wp (build_copy dir v ins) (step_post v ins).
Proof.
  intros Hty. unfold build_copy. step_spec Hty.
  destruct (String.eqb v.1 ""); [apply wp_err; split; [done|apply prefix_nil]|].
  apply wp_bind. destruct (i_Args ins) as [|src [|dst args]].
  - by repeat apply wp_ret; rewrite Nat.add_1_r.
  - by repeat apply wp_ret; rewrite Nat.add_1_r.
  - apply wp_bind, wp_ignore. intros a1. apply wp_try_call; [apply wp_ret|done].
    by rewrite Nat.add_1_r.
Qed.

Lemma build_other_wp (v : BuildVars) (ins : Instruction) (m : Client BuildVars) :
  is_type InstrFROM ins = false -> is_type InstrRUN ins = false -> is_type InstrCOPY ins = false ->
  wp m (fun evs r => r = Ok v /\ host_acts evs = [] /\ clean evs) -> wp m (step_post v ins).
Proof.
  intros H1 H2 H3 H. eapply wp_mono; [exact H|]. intros evs r (-> & Hh & Hc). split; [done|].
  unfold wanted, last_from, layers, makes_layer. cbn [fold_left List.filter]. rewrite H1, H2, H3.
  unfold is_type in H2, H3. by rewrite H2, H3, Nat.add_0_r.
Qed.

Lemma build_step_wp (total : nat) (v : BuildVars) (ins : Instruction) :
  wp (build_step dir total v ins) (step_post v ins).
Proof.
  unfold build_step. apply wp_bind, wp_ignore. intros a0.
  assert (Hsh : forall m, wp m (step_post v ins) ->
    wp m (fun evs r => step_post v ins ([Ev (Printf (step_line ins total)) a0] ++ evs) r)).
  { intros m Hm. eapply wp_mono; [exact Hm|]. intros evs r [Hc H]. split; [by apply clean_app|exact H]. }
  apply Hsh. destruct (String.eqb (i_Type ins) InstrFROM) eqn:E1.
  { apply String.eqb_eq in E1. by apply build_from_wp. }
  destruct (String.eqb (i_Type ins) InstrRUN) eqn:E2.
  { apply String.eqb_eq in E2. by apply build_run_wp. }
  destruct (String.eqb (i_Type ins) InstrCOPY) eqn:E3.
  { apply String.eqb_eq in E3. by apply build_copy_wp. }
  apply build_other_wp; [done..|]. destruct (one_of _ _); [|by apply wp_ret].
  apply wp_bind, wp_ignore. intros a1. by apply wp_ret.
Qed.

Lemma build_loop_wp (total : nat) (v : BuildVars) (instrs : list Instruction) :
  wp (build_loop dir total v instrs) (fun evs r =>
    clean evs /\
    match r with
    | Ok v' => host_acts evs = flat_map (wanted dir) instrs /\ v'.1 = last_from v.1 instrs /\
        v'.2 = v.2 + layers instrs
    | Err _ => host_acts evs `prefix_of` flat_map (wanted dir) instrs
    | Panic => host_acts evs `prefix_of` flat_map (wanted dir) instrs /\ exists ins, ins ∈ instrs /\ i_Args ins = []
    end).
Proof.
  revert v. induction instrs as [|ins instrs IH]; intros v; cbn [build_loop].
  - apply wp_ret. by rewrite Nat.add_0_r.
  - apply wp_bind. eapply wp_mono; [apply build_step_wp|]. intros e1 r1 [Hc1 H1]. destruct r1 as [v'|e|].
    + destruct H1 as (Hh1 & Hv1 & Hv2). eapply wp_mono; [apply IH|]. intros e2 r2 [Hc2 H2].
      split; [by apply clean_app|]. rewrite host_acts_app, Hh1. cbn [flat_map]. destruct r2 as [v2|e|].
      * destruct H2 as (-> & -> & ->). split; [done|]. rewrite Hv1, Hv2. split; [done|].
        unfold layers. cbn [List.filter]. destruct (makes_layer ins); cbn [length]; lia.
      * by apply prefix_app.
      * destruct H2 as (Hp & x & Hx & Ha). split; [by apply prefix_app|]. exists x. split; [by right|done].
    + split; [done|]. cbn [flat_map]. by apply prefix_app_r.
    + split; [done|]. destruct H1 as [Ha Hh]. rewrite Hh. split; [apply prefix_nil|]. exists ins. split; [by left|done].
Qed.

End lemmas.

(** ** Properties *)

(** C40: what a build does, whatever the registry, the daemon, the shell and [cp]
    answer.  Every temporary directory is removed, whatever the outcome.  A
    build that succeeds has run on the host, in order, exactly the first word of
    every RUN and the copy of every COPY with two arguments; its image is the
    tag or else the last FROM's, and its layers are the FROM, RUN and COPY
    instructions.  A build that fails has run a prefix of these actions, and
    one panics only at an instruction without arguments. *)
Theorem Build_spec {W : World} (dir dockerfile tag : string) :
  wp (Build dir dockerfile tag) (fun evs r =>
    flat_map temp_made evs = flat_map temp_removed evs /\
    match r with
    | Ok b =>
        exists instrs, Parse dockerfile = Ok instrs /\
          host_acts evs = flat_map (wanted dir) instrs /\
          br_ImageID b = (if String.eqb tag "" then last_from "" instrs else tag) /\
          br_Layers b = layers instrs
    | Err _ =>
        (exists e, Parse dockerfile = Err e /\ evs = []) \/
        (exists instrs, Parse dockerfile = Ok instrs /\ host_acts evs `prefix_of` flat_map (wanted dir) instrs)
    | Panic =>
        exists instrs ins, Parse dockerfile = Ok instrs /\ ins ∈ instrs /\ i_Args ins = []
    end).
Proof.
  unfold Build. destruct (Parse dockerfile) as [instrs|e|] eqn:Hp.
  - apply wp_bind. eapply wp_mono; [apply build_loop_wp|]. intros evs r [Hc H]. destruct r as [v|e|].
    + destruct H as (Hh & H1 & H2). apply wp_ret. rewrite app_nil_r. split; [exact Hc|].
      exists instrs. cbn. rewrite H1, H2. by destruct (String.eqb tag "").
    + split; [exact Hc|]. right. eauto.
    + destruct H as (_ & ins & Hin & Ha). split; [exact Hc|]. eauto.
  - apply wp_err. split; [done|]. left. eauto.
  - by apply parse_lines_no_panic in Hp.
Qed.

(** [sh -c] gets one word of the command line. *)
Example RUN_loses_arguments :
  host_acts (Build (W := demo_world true) "/ctx" ("FROM demo" +:+ nl +:+ "RUN make all") "" []).1 = [inl "make"].
Proof. vm_compute. reflexivity. Qed.

(** An empty quoted argument. *)
Example FROM_empty_panics :
  (Build (W := demo_world true) "/ctx" ("FROM " +:+ dq +:+ dq) "" []).2 = Panic.
Proof. vm_compute. reflexivity. Qed.

(** Comments shift the numbers of the steps: "Step 3/2". *)
Example step_numbers :
  match Parse ("# a" +:+ nl +:+ "FROM demo" +:+ nl +:+ "CMD x") with
  | Ok instrs => map (fun ins => step_line ins (length instrs)) instrs
  | _ => []
  end = ["Step 2/2 : FROM demo"; "Step 3/2 : CMD x"].
Proof. vm_compute. reflexivity. Qed.
