(* ===== verification/DockerApi.v ===== *)
(** * The Docker REST API: mini-docker/internal/api/server.go

    One function per handler: from the parts of the HTTP request it reads, the
    response.  Handlers never fail; errors are responses. *)

From S2P Require Import Prelude.
From S2P Require Import GoStrings.
From S2P Require Import FileSystem.
From S2P Require Import RegistryRef.
From S2P Require Import World.
From S2P Require Import DockerRegistry.
From S2P Require Import Dockerfile.
From S2P Require Import Builder.
Open Scope go_scope.

(** The values the handlers encode; a nil slice is [JNull]. *)
Inductive Json : Type :=
| JNull
| JStr (s : string)
| JNum (z : Z)
| JArr (l : list Json)
| JObj (fields : list (string * Json)).

Record HttpOut : Type := mkHttpOut {
  o_code : Z;
  o_body : Json
}.

Definition writeJSON (v : Json) : HttpOut := mkHttpOut 200 v.

(** The contexts of the error; the text of a library's error is not modelled. *)
Definition httpError (err : error) (code : Z) : HttpOut :=
  mkHttpOut code (JObj [("error", JStr (str_join ": " err))]).

(** A Go slice that was appended to from nil. *)
Definition jslice (l : list Json) : Json := match l with [] => JNull | _ => JArr l end.

(** The routes of [NewServer]; [http.ServeMux] prefers the longest pattern.  A path
    with an empty, [.] or [..] element (the last may be empty) is not dispatched:
    the multiplexer redirects the client to the clean path. *)
Inductive Route : Type :=
| RListContainers | RCreateContainer | RContainer | RListImages | RPullImage | RBuild | RPing.

Fixpoint clean_elements (l : list string) : bool :=
  match l with
  | [] => true
  | [e] => negb (existsb (String.eqb e) ["."; ".."])
  | e :: l' => negb (existsb (String.eqb e) [""; "."; ".."]) && clean_elements l'
  end.

Definition clean_path (p : string) : bool :=
  match str_split ch_slash p with
  | "" :: l => negb (length l =? 0) && clean_elements l
  | _ => false
  end.

Definition route (p : string) : option Route :=
  if negb (clean_path p) then None
  else if String.eqb p "/v1.24/containers/json" then Some RListContainers
  else if String.eqb p "/v1.24/containers/create" then Some RCreateContainer
  else if has_prefix p "/v1.24/containers/" then Some RContainer
  else if String.eqb p "/v1.24/images/json" then Some RListImages
  else if String.eqb p "/v1.24/images/create" then Some RPullImage
  else if String.eqb p "/v1.24/build" then Some RBuild
  else if String.eqb p "/_ping" then Some RPing
  else None.

Example route_clean :
  route "/v1.24/containers/x/start" = Some RContainer /\ route "/v1.24/containers/" = Some RContainer /\
  route "/v1.24//_ping" = None /\ route "/v1.24/containers/../x" = None /\ route "_ping" = None /\ route "" = None.
Proof. repeat split. Qed.

Section api.
Context {W : World}.

(** [if err := m(); err != nil { httpError(w, wrap(err), code); return }]. *)
Definition or_error {A : Type} (code : Z) (wrap : error -> error) (m : Client A) (k : A -> Client HttpOut) :
    Client HttpOut := fun h =>
  match m h with
  | (h', Ok a) => k a h'
  | (h', Err e) => (h', Ok (httpError (wrap e) code))
  | (h', Panic) => (h', Panic)
  end.

Definition ping : Client HttpOut := go_ret (writeJSON (JObj [("message", JStr "mini-docker is running")])).

Definition listContainers : Client HttpOut :=
  containers <-! do_call Containers ;
  match containers with
  | None => go_ret (httpError [] 500)
  | Some ids =>
      go_ret (writeJSON (jslice (map (fun id => JObj [("Id", JStr id); ("Image", JStr "")]) ids)))
  end.

Definition container_id (pid : Z) : string := "docker-" +:+ pretty pid.

(** [image] and [cmd] are the fields of the decoded body. *)
Definition createContainer (image : string) (cmd : list string) : Client HttpOut :=
  let ref := Docker.normalizeRef image in
  or_error 500 (wrapf "pull") (Pull ref) (fun _ =>
  or_error 500 (wrapf "get image") (try_call [] (GetImage ref)) (fun _ =>
  pid <-! do_call Getpid ;
  let id := container_id pid in
  or_error 500 (fun e => e) (try_call [] (NewContainer id (mkSpec ref (Some cmd) []))) (fun _ =>
  go_ret (writeJSON (JObj [("Id", JStr id)]))))).

Definition start_container (id : string) : Client HttpOut :=
  or_error 500 (fun e => e) (try_call [] (NewTask id)) (fun _ =>
  or_error 500 (fun e => e) (try_call [] (TaskStart id)) (fun _ =>
  go_ret (writeJSON (JObj [("status", JStr "started")])))).

Definition stop_container (id : string) : Client HttpOut :=
  task <-! do_call (GetTask id) ;
  (if (task : bool) then ignore_call (TaskKill id SIGKILL) else go_ret tt) ;;!
  go_ret (writeJSON (JObj [("status", JStr "stopped")])).

Definition handleContainer (path : string) : Client HttpOut :=
  match str_split ch_slash (trim_prefix path "/v1.24/containers/") with
  | id :: action :: _ =>
      or_error 404 (fun e => e) (try_call [] (LoadContainer id)) (fun _ =>
      if String.eqb action "start" then start_container id
      else if String.eqb action "stop" then stop_container id
      else if String.eqb action "json" then go_ret (writeJSON (JObj [("Id", JStr id)]))
      else go_ret (httpError ["unknown action: " +:+ action] 400))
  | _ => go_ret (httpError ["invalid path"] 400)
  end.

Definition listImages : Client HttpOut :=
  imgs <-! do_call (ImageList []) ;
  match imgs with
  | None => go_ret (httpError [] 500)
  | Some l =>
      go_ret (writeJSON (jslice (map (fun img =>
        JObj [("Id", JStr (d_Digest (im_Target img))); ("RepoTags", JArr [JStr (im_Name img)])]) l)))
  end.

Definition pullImage (fromImage : string) : Client HttpOut :=
  if String.eqb fromImage "" then go_ret (httpError ["fromImage required"] 400)
  else
    or_error 500 (fun e => e) (Pull (Docker.normalizeRef fromImage)) (fun _ =>
    go_ret (writeJSON (JObj [("status", JStr "pulled"); ("image", JStr fromImage)]))).

(** [wd] is the working directory, which [NewBuilder] takes as the context. *)
Definition buildImage (wd : string) (is_post : bool) (body tag : string) : Client HttpOut :=
  if negb is_post then go_ret (httpError ["POST required"] 405)
  else
    or_error 500 (fun e => e) (Build wd body tag) (fun result =>
    go_ret (writeJSON (JObj [("imageId", JStr (br_ImageID result)); ("layers", JNum (Z.of_nat (br_Layers result)))]))).

End api.

(** ** Lemmas *)

Section lemmas.
Context {W : World}.

Lemma wp_or_error {A : Type} (code : Z) (wrap : error -> error) (m : Client A) (k : A -> Client HttpOut)
    (Q : list event -> res error HttpOut -> Prop) :
  wp m (fun e1 r =>
    match r with
    | Ok a => wp (k a) (fun e2 r2 => Q (e1 ++ e2) r2)
    | Err e => Q e1 (Ok (httpError (wrap e) code))
    | Panic => Q e1 Panic
    end) ->
  wp (or_error code wrap m k) Q.
Proof.
  intros H h. unfold or_error. destruct (H h) as (e1 & r & -> & Hr).
  destruct r as [a|e|]; [|by eexists e1, _|by eexists e1, _].
  destruct (Hr (h ++ e1)) as (e2 & r2 & -> & HQ). exists (e1 ++ e2), r2. by rewrite (assoc_L (++)).
Qed.

End lemmas.

(** The containers the daemon made, and the attempts. *)
Definition made_container (e : event) : list string :=
  match e with
  | @Ev T c a =>
      match c in Call T return T -> list string with
      | NewContainer id _ => fun ok => if ok then [id] else []
      | _ => fun _ => []
      end a
  end.

Definition made (h : list event) : list string := flat_map made_container h.

(** What the client relies on: the process keeps its number, and the daemon
    refuses a container whose identifier is taken. *)
Record daemon_ok (W : World) (pid : Z) : Prop := {
  dk_pid : forall h, answer Z h Getpid = pid;
  dk_new : forall h id spec, id ∈ made h -> answer bool h (NewContainer id spec) = false
}.

Lemma made_app (h1 h2 : list event) : made (h1 ++ h2) = made h1 ++ made h2.
Proof. apply flat_map_app. Qed.

Lemma createContainer_refused {W : World} (pid : Z) (image : string) (cmd : list string) (h : list event) :
  daemon_ok W pid -> container_id pid ∈ made h ->
  exists h' o, createContainer image cmd h = (h', Ok o) /\ o_code o = 500%Z.
Proof.
  intros [Hpid Hnew] Hin. unfold createContainer, or_error, try_call, go_bind, do_call, go_ret, go_err.
  destruct (Pull _ h) as [h1 r] eqn:Hp.
  destruct (wp_elim _ _ _ _ _ (emits_wp _ _ _ (Pull_remote _) (Pull_no_panic _)) Hp) as (evs & -> & _ & Hnp).
  destruct r as [[]|e|]; cbn; [|by eauto|done].
  destruct (answer bool _ (GetImage _)); cbn; [|by eauto].
  rewrite Hpid, Hnew; cbn; [by eauto|]. rewrite !made_app, !elem_of_app. auto.
Qed.

(** ** Properties *)

(** the API creates one container.  The identifier is made of the server's
    process number, so with a daemon that refuses identifiers that are taken,
    once a create request has succeeded every later one is answered 500,
    whatever its image and its command. *)
Theorem createContainer_once {W : World} (pid : Z) (i1 i2 : string) (c1 c2 : list string)
    (h h1 h2 : list event) (o1 : HttpOut) :
  daemon_ok W pid ->
  createContainer i1 c1 h = (h1, Ok o1) -> o_code o1 = 200%Z -> h1 `prefix_of` h2 ->
  exists h3 o2, createContainer i2 c2 h2 = (h3, Ok o2) /\ o_code o2 = 500%Z.
Proof.
  intros Hok H1 Hc [hs ->]. apply (createContainer_refused pid); [done|].
  rewrite made_app, elem_of_app. left.
  unfold createContainer, or_error, try_call, go_bind, do_call, go_ret, go_err in H1.
  destruct (Pull _ h) as [h' [[]|e|]]; cbn in H1; simplify_eq/=.
  destruct (answer bool h' _); cbn in H1; simplify_eq/=.
  rewrite (dk_pid _ _ Hok) in H1. destruct (answer bool _ (NewContainer _ _)); cbn in H1; simplify_eq/=.
  rewrite made_app, elem_of_app. right. by apply list_elem_of_singleton.
Qed.

(** A daemon that works, and keeps the containers by identifier. *)
Definition demo_daemon : World := {|
  answer := fun T h c =>
    match c in Call T return T with
    | HttpDo r => demo_registry (r_url r)
    | StreamOpen => true
    | StreamSend _ => true
    | GetImage _ => true
    | Getpid => 42%Z
    | NewContainer id _ => negb (bool_decide (id ∈ made h))
    | c => failing c
    end;
  url_ok := fun _ => true;
  json_manifest := fun _ _ => Some demo_manifest;
  json_token := fun _ => ("", false);
  conn_ok := true
|}.

Lemma demo_daemon_ok : daemon_ok demo_daemon 42.
Proof.
  split; [done|]. intros h id spec Hin. cbn. by rewrite bool_decide_eq_true_2.
Qed.

Lemma createContainer_once_witness :
  let first := createContainer (W := demo_daemon) "demo" ["sh"] [] in
  exists h3 o2, createContainer (W := demo_daemon) "demo:latest" ["ls"] first.1 = (h3, Ok o2) /\ o_code o2 = 500%Z.
Proof.
  intros first.
  assert (Hf : exists h1 o1, first = (h1, Ok o1) /\ o_code o1 = 200%Z).
  { assert (Hc : match first.2 with Ok o => o_code o = 200%Z | _ => False end) by by vm_compute.
    destruct first as [h1 [o1|e|]]; cbn in Hc; [|done|done]. by exists h1, o1. }
  destruct Hf as (h1 & o1 & Hf & Hc). rewrite Hf.
  exact (createContainer_once (W := demo_daemon) 42 "demo" "demo:latest" ["sh"] ["ls"] [] h1 h1 o1
    demo_daemon_ok Hf Hc (reflexivity h1)).
Defined.
