(* ===== verification/Dockerd.v ===== *)
(** * The mini-docker daemon: mini-docker/cmd/dockerd/main.go and the server of
    mini-docker/internal/api/server.go

    The handlers of [DockerApi] behind their routes, and the life of the
    process that serves them. *)

From S2P Require Import Prelude.
From S2P Require Import GoStrings.
From S2P Require Import FileSystem.
From S2P Require Import World.
From S2P Require Import DockerRegistry.
From S2P Require Import Dockerfile.
From S2P Require Import Builder.
From S2P Require Import DockerApi.
Open Scope go_scope.

(** ** Requests *)

(** What the handlers read of a request: the path, whether the method is POST,
    the fields of a JSON body, the query's "fromImage" and "t", and the body. *)
Record ApiRequest : Type := mkApiRequest {
  rq_path : string;
  rq_post : bool;
  rq_Image : string;
  rq_Cmd : list string;
  rq_fromImage : string;
  rq_t : string;
  rq_body : string
}.

Section server.
Context {W : World} (wd : string) (unrouted : string -> HttpOut).

(** [s.handler.ServeHTTP]; [unrouted] is what the library's multiplexer answers
    to a path without a handler. *)
Definition ServeHTTP (r : ApiRequest) : Client HttpOut :=
  match route (rq_path r) with
  | None => go_ret (unrouted (rq_path r))
  | Some RPing => ping
  | Some RListContainers => listContainers
  | Some RCreateContainer => createContainer (rq_Image r) (rq_Cmd r)
  | Some RContainer => handleContainer (rq_path r)
  | Some RListImages => listImages
  | Some RPullImage => pullImage (rq_fromImage r)
  | Some RBuild => buildImage wd (rq_post r) (rq_body r) (rq_t r)
  end.

(** ** The process *)

Definition defaultContainerdAddr : string := "/tmp/mini-containerd/containerd.sock".
Definition defaultDockerSocket : string := "/tmp/mini-docker/docker.sock".

(** [socket[:strings.LastIndex(socket, "/")]]: without a slash the index is -1. *)
Definition socket_dir (socket : string) : res error string :=
  match str_last_index ch_slash socket with
  | Some i => str_slice_to i socket
  | None => Panic
  end.

(** Serving, or gone with an exit status. *)
Inductive dockerd : Type :=
| Listening (h : list event)
| Gone (status : Z).

(** [ListenAndServe] up to serving; [listening]: whether the socket can be
    listened on, after it is removed and its directory made, errors ignored. *)
Definition ListenAndServe (socket : string) (listening : bool) : Client unit :=
  _ <-! go_lift (socket_dir socket) ;
  if negb listening then go_err []
  else printf ("mini-docker API listening on " +:+ socket).

(** [os.Exit] skips the deferred close of the client. *)
Definition main (listening : bool) (h : list event) : dockerd :=
  match (_ <-! printf "mini-docker daemon — Phase 3" ;
         try_call [] (ContainerdNew defaultContainerdAddr "default") ;;!
         printf ("Connected to containerd at " +:+ defaultContainerdAddr) ;;!
         ListenAndServe defaultDockerSocket listening) h with
  | (h', Ok _) => Listening h'
  | (_, Err _) => Gone 1
  | (_, Panic) => Gone 2
  end.

(** The life of the process: requests are served, each handler in a goroutine of
    its own whose panic the library keeps from the others; serving fails; a
    signal ends the process at once. *)
Inductive dockerd_step : dockerd -> dockerd -> Prop :=
| ds_request h r : dockerd_step (Listening h) (Listening (ServeHTTP r h).1)
| ds_fails h : dockerd_step (Listening h) (Gone 1)
| ds_signal h : dockerd_step (Listening h) (Gone 0).

End server.

(** ** Lemmas *)

Section lemmas.
Context {W : World}.

(** A handler answers with one of [codes], or panics only when [P]. *)
Definition answers (P : Prop) (codes : list Z) (m : Client HttpOut) : Prop :=
  wp m (fun _ r => match r with Ok o => o_code o ∈ codes | Err _ => False | Panic => P end).

Lemma answers_ret (P : Prop) (codes : list Z) (o : HttpOut) : o_code o ∈ codes -> answers P codes (go_ret o).
Proof. intros Ho. by apply wp_ret. Qed.

Lemma answers_call (P : Prop) (codes : list Z) {T : Type} (c : Call T) (k : T -> Client HttpOut) :
  (forall a, answers P codes (k a)) -> answers P codes (go_bind (do_call c) k).
Proof. intros Hk. apply wp_bind, wp_call. intros a. eapply wp_mono; [apply Hk|]. by intros evs []. Qed.

Lemma answers_then (P : Prop) (codes : list Z) (m : Client unit) (k : Client HttpOut) :
  wp m (fun _ r => r = Ok tt) -> answers P codes k -> answers P codes (go_bind m (fun _ => k)).
Proof.
  intros Hm Hk. apply wp_bind. eapply wp_mono; [exact Hm|]. intros e1 r ->. eapply wp_mono; [exact Hk|]. by intros evs [].
Qed.

Lemma answers_or_error (P : Prop) (codes : list Z) {A : Type} (code : Z) (wrap : error -> error) (m : Client A)
    (k : A -> Client HttpOut) :
  code ∈ codes -> wp m (fun _ r => r = Panic -> P) -> (forall a, answers P codes (k a)) ->
  answers P codes (or_error code wrap m k).
Proof.
  intros Hc Hm Hk. apply wp_or_error. eapply wp_mono; [exact Hm|]. intros e1 [a|e|] Hr; [|done|by apply Hr].
  eapply wp_mono; [apply Hk|]. by intros evs [].
Qed.

Lemma no_panic_panics (P : Prop) {A : Type} (m : Client A) : no_panic m -> wp m (fun _ r => r = Panic -> P).
Proof. intros Hm. eapply wp_mono; [exact Hm|]. by intros evs r Hr ?. Qed.

Lemma handleContainer_answers (p : string) : answers False [200; 400; 404; 500]%Z (handleContainer p).
Proof.
  unfold handleContainer. destruct (str_split _ _) as [|id [|action rest]]; [by apply answers_ret; repeat constructor..|].
  apply answers_or_error; [by repeat constructor|apply no_panic_panics; no_panic|]. intros [].
  destruct (String.eqb action "start").
  { unfold start_container. apply answers_or_error; [by repeat constructor|apply no_panic_panics; no_panic|]. intros [].
    apply answers_or_error; [by repeat constructor|apply no_panic_panics; no_panic|]. intros []. by apply answers_ret; repeat constructor. }
  destruct (String.eqb action "stop").
  { unfold stop_container. apply answers_call. intros task. apply answers_then.
    - destruct task; [by apply wp_ignore|by apply wp_ret].
    - by apply answers_ret; repeat constructor. }
  destruct (String.eqb action "json"); by apply answers_ret; repeat constructor.
Qed.

Lemma createContainer_answers (image : string) (cmd : list string) :
  answers False [200; 500]%Z (createContainer image cmd).
Proof.
  unfold createContainer. cbv zeta. apply answers_or_error; [by repeat constructor|apply no_panic_panics, Pull_no_panic|].
  intros []. apply answers_or_error; [by repeat constructor|apply no_panic_panics; no_panic|]. intros [].
  apply answers_call. intros pid. apply answers_or_error; [by repeat constructor|apply no_panic_panics; no_panic|].
  intros []. by apply answers_ret; repeat constructor.
Qed.

Lemma Build_panics (wd dockerfile tag : string) :
  wp (Build wd dockerfile tag) (fun _ r => r = Panic ->
    exists instrs ins, Parse dockerfile = Ok instrs /\ ins ∈ instrs /\ i_Args ins = []).
Proof.
  unfold Build. destruct (Parse dockerfile) as [instrs|e|] eqn:Hp; [|by apply wp_err|by apply parse_lines_no_panic in Hp].
  apply wp_bind. eapply wp_mono; [apply build_loop_wp|]. intros evs r [_ H]. destruct r as [v|e|]; [by apply wp_ret|done|].
  destruct H as (_ & ins & Hin & Ha). intros _. eauto.
Qed.

End lemmas.

(** ** Properties *)

(** The codes a request can be answered with. *)
Definition allowed (r : ApiRequest) (rt : Route) : list Z :=
  match rt with
  | RPing => [200%Z]
  | RContainer => [200; 400; 404; 500]%Z
  | RPullImage => if String.eqb (rq_fromImage r) "" then [400%Z] else [200; 500]%Z
  | RBuild => if rq_post r then [200; 500]%Z else [405%Z]
  | _ => [200; 500]%Z
  end.

(** C37: the API answers every request.  Whatever the path, the body, the
    registry, the daemon and the machine, a routed request gets a response with
    a code of its route: 405 exactly for a build that is not a POST, 400 for a
    pull without an image, 404 only on the path of a container.  The only panic left is a build of a
    Dockerfile with an instruction without arguments. *)
Theorem api_answers {W : World} (wd : string) (unrouted : string -> HttpOut) (r : ApiRequest) (rt : Route) (h : list event) :
  route (rq_path r) = Some rt ->
  exists evs,
    (exists o, ServeHTTP wd unrouted r h = (h ++ evs, Ok o) /\ o_code o ∈ allowed r rt) \/
    ServeHTTP wd unrouted r h = (h ++ evs, Panic) /\ rt = RBuild /\ rq_post r = true /\
      exists instrs ins, Parse (rq_body r) = Ok instrs /\ ins ∈ instrs /\ i_Args ins = [].
Proof.
  intros Hrt. set (P := rt = RBuild /\ rq_post r = true /\
    exists instrs ins, Parse (rq_body r) = Ok instrs /\ ins ∈ instrs /\ i_Args ins = []).
  assert (Ha : answers P (allowed r rt) (ServeHTTP wd unrouted r)).
  { assert (Hf : forall codes m, answers False codes m -> answers P codes m).
    { intros codes m Hm. eapply wp_mono; [exact Hm|]. by intros evs []. }
    unfold ServeHTTP. rewrite Hrt. destruct rt; cbn [allowed].
    - apply Hf, answers_call. intros [l|]; by apply answers_ret; repeat constructor.
    - apply Hf, createContainer_answers.
    - apply Hf, handleContainer_answers.
    - apply Hf, answers_call. intros [l|]; by apply answers_ret; repeat constructor.
    - apply Hf. unfold pullImage. destruct (String.eqb _ ""); [by apply answers_ret; repeat constructor|].
      apply answers_or_error; [by repeat constructor|apply no_panic_panics, Pull_no_panic|].
      intros []. by apply answers_ret; repeat constructor.
    - unfold buildImage. destruct (rq_post r) eqn:Hp; cbn [negb]; [|by apply answers_ret; repeat constructor].
      apply answers_or_error; [by repeat constructor| |intros b; by apply answers_ret; repeat constructor].
      eapply wp_mono; [apply Build_panics|]. intros evs x Hx He. split; [done|]. split; [done|]. by apply Hx.
    - apply Hf. by apply answers_ret; repeat constructor. }
  destruct (Ha h) as (evs & x & Hx & Hr). exists evs. rewrite Hx. destruct x as [o|e|]; [left; by eauto|done|right; done].
Qed.

Definition demo_build (post : bool) : ApiRequest :=
  mkApiRequest "/v1.24/build" post "" [] "" "" ("FROM " +:+ dq +:+ dq).

Lemma api_answers_witness :
  exists evs o, ServeHTTP (W := demo_daemon) "/ctx" (fun _ => mkHttpOut 404 JNull) (demo_build false) [] = (evs, Ok o) /\
    o_code o = 405%Z.
Proof.
  destruct (api_answers (W := demo_daemon) "/ctx" (fun _ => mkHttpOut 404 JNull) (demo_build false) RBuild [] eq_refl)
    as (evs & [(o & Ho & Hc)|(_ & _ & Hp & _)]); [|discriminate Hp].
  exists ([] ++ evs), o. split; [exact Ho|]. by apply list_elem_of_singleton in Hc.
Defined.

(** The directory of the server's socket. *)
Example docker_socket_dir : socket_dir defaultDockerSocket = Ok "/tmp/mini-docker".
Proof. reflexivity. Qed.
